(* ===== verification/_CoqProject ===== *)
-Q . S2P
Prelude.v
Ord.v
Bytes.v
Text.v
Types.v
Proto.v
Wire.v
WireFrames.v
WirePackets.v
Transport.v
TransportProps.v
TransportTheorems.v
TransportLive.v
ControlTypes.v
Spf.v
Control.v
ControlRoutes.v
ControlInv.v
ControlProps.v
ControlTimers.v
ControlActions.v
ControlSync.v
MeshNet.v
ControlRouting.v
MeshRoutes.v
MeshSync.v
MeshQuiesce.v
Forward.v
ForwardSched.v
ForwardInv.v
ForwardRoute.v
ForwardProps.v
ForwardTheorems.v
MeshForward.v
MeshTraffic.v
MeshDelivery.v
PubSub.v
Protobuf.v
PubSubProps.v
PubSubTheorems.v
SeqStore.v
RuntimeCodec.v
RuntimeCodecProps.v
RuntimeLog.v
Runtime.v
RuntimeProps.v
RuntimeFrame.v
RuntimeTheorems.v
RuntimePersist.v
RuntimeTimers.v
RuntimeDiag.v
RuntimeTables.v
MeshPubSub.v
ErrorText.v
Requests.v
Lab.v
LabProps.v
LabProxy.v
LabProxyProps.v
LabNode.v
LabNodeProps.v
LabMesh.v
LabManage.v
LabManageProps.v
LabStart.v
LabServe.v
LabInterleave.v
Samples.v
TestsWire.v
TestsForward.v
TestsPubSub.v
TestsRuntime.v
WitnessesMesh.v
WitnessesTraffic.v
WitnessesControl.v
WitnessesForward.v
WitnessesPubSub.v
WitnessesRuntime.v
WitnessesTransport.v
WitnessesLab.v
