(* ===== verification/Prelude.v ===== *)
(** * A verification of the lattice-study mesh bus

    ** The program

    A peer-to-peer service bus over a mesh of nodes, written as I/O-free
    state machines ([Component::handle] takes the time and an event and
    returns actions) driven by a thin runtime:

    - [mb-types]: node and link identifiers, monotonic time, [Component];
    - [mb-wire]: link frames, forward packets and multicast payloads as bytes;
    - [mb-control]: the control plane.  Nodes flood link-state advertisements
      (LSAs) carrying their adjacencies and topic subscriptions, repair missed
      ones with digests, expire stale ones, and compute routes by Dijkstra's
      algorithm after a hold time;
    - [mb-forward]: the forwarder.  Packets are routed hop by hop, multicast
      packets split over the next hops; each link has four priority queues,
      served strictly for P0 and by deficit round robin for the others, under
      byte credit and write permission; P0 packets of a failed link wait for
      a new route;
    - [mb-pubsub]: publications with per-topic sequence numbers, sent to the
      discovered subscribers, and deduplicated at the receiver by a 64-bit
      window;
    - [mb-transport]: TCP links between neighbours: a handshake that asserts the
      identity of the peer, frames in both directions, bounded queues;
    - [mb-runtime]: the loop that moves events and actions between the three
      machines, the links, the application and the timers, the encoding of
      control frames, and the store of the LSA sequence number;
    - [mblab], [mblab-node]: a laboratory that runs nodes as processes, joins
      them by proxies that delay and lose frames, and reports their state.

    The control plane hands routes to the forwarder and topic advertisements
    to Pub/Sub; Pub/Sub hands multicasts to the forwarder and its
    subscriptions to the control plane; the forwarder hands payloads for the
    local node back to Pub/Sub.

    ** The files

    - [Prelude], [Ord], [Bytes]: automation, errors, bounded integers, loops
      with fuel; Rust's ordered collections; big-endian byte codecs.
    - [Types]: crates/mb-types.  [Component] is a class whose [handle] returns
      an option; [run] folds it over a timed trace.
    - [Proto]: the messages of proto/control.proto; [Protobuf]: the encoding
      its field numbers and types describe, with its round trip.
    - [Wire] (definitions), [WireFrames], [WirePackets] (theorems):
      crates/mb-wire.
    - [ControlTypes], [Spf], [Control] (definitions), [ControlRoutes],
      [ControlInv], [ControlProps], [ControlTimers],
      [ControlActions], [ControlSync], [ControlRouting]
      (theorems): crates/mb-control.  The record [ControlPlane] has the fields
      of the struct; [cp_handle] is [handle].
    - [Forward] (definitions), [ForwardSched], [ForwardInv], [ForwardRoute],
      [ForwardProps], [ForwardTheorems] (theorems): crates/mb-forward, with
      [Forwarder], [LinkQueues] and [fw_handle].
    - [PubSub] (definitions), [PubSubProps], [PubSubTheorems]
      (theorems): crates/mb-pubsub, with [PubSub] and [ps_handle].
    - [RuntimeCodec] (definitions), [RuntimeCodecProps] (theorems): the frame
      codecs and the discovery of crates/mb-runtime.
    - [Text]: decimal numbers, [trim] and [str::parse] of the standard library.
    - [SeqStore]: the sequence stores of crates/mb-runtime.
    - [RuntimeLog], [Runtime] (definitions), [RuntimeProps], [RuntimeFrame],
      [RuntimeTheorems], [RuntimePersist], [RuntimeTimers], [RuntimeDiag],
      [RuntimeTables] (theorems): the loop of crates/mb-runtime.  The record [Runtime] has the
      variables of [run_runtime_loop]; [process] is the body of its loop, and
      [rt_run] folds it over stimuli.
    - [Transport] (definitions), [TransportProps], [TransportTheorems],
      [TransportLive] (theorems): crates/mb-transport.  [Endpoint] is [Inner]
      with its connections, [Phase] says at which [await] a task is, and
      [ep_step] is what happens between two of them.
    - [ErrorText]: the texts of the errors.
    - [Lab], [LabProxy], [LabNode] (definitions), [LabProps], [LabProxyProps],
      [LabNodeProps], [LabMesh] (theorems): the laboratory, bins/mblab and
      bins/mblab-node.  [collect_state] is the report, [Direction] one
      direction of a link proxy, [snapshot_response] what a node shows.
    - [Requests]: asynchronous handlers over shared state, alone and
      interleaved; [LabManage] (definitions), [LabManageProps], [LabServe],
      [LabInterleave] (theorems): the management of the laboratory in
      bins/mblab, [Lab] and a handler per route of the server ([dispatch]).
    - [LabStart]: the command lines of both binaries, and the start of a node
      up to the state its handlers work on ([node_main]).
    - [MeshRoutes], [MeshNet], [MeshSync],
      [MeshQuiesce], [MeshForward], [MeshTraffic], [MeshDelivery],
      [MeshPubSub]: many nodes together.  [MeshNet] joins control planes by
      links that carry their frames in order ([net_step]); [MeshForward]
      joins control planes and forwarders and follows one packet ([relay]);
      [MeshTraffic] lets any number of packets travel at once, with the queues
      and the flow control of the links ([traffic_step]); [MeshPubSub] puts
      Pub/Sub at both ends.  They compose the handlers as they are and add no
      behaviour of their own.
    - [Samples], [WitnessesControl], [WitnessesForward], [WitnessesPubSub],
      [WitnessesRuntime], [WitnessesTransport], [WitnessesLab],
      [WitnessesMesh], [WitnessesTraffic]:
      a small mesh, and every theorem with hypotheses applied to it.
    - [TestsWire], [TestsForward], [TestsPubSub], [TestsRuntime]: the unit
      tests of the crates as definitions over the model, and their evaluation:
      what the tests of the source expect of the code, the model does.

    ** Conventions

    Operations keep the names of the source; where two crates use one name a
    prefix tells them apart ([cp_], [fw_], [ps_]).  A method that mutates
    [self] returns the new state with its result.  A panic (an index out of
    range, [expect], [unwrap], an underflowing subtraction, a [debug_assert!])
    is [None]; [Result] is [result] with [Ok] and [Err].  Integers are [Z]
    with the source's width made explicit by [wrap], [sat_add], [sat_sub],
    [checked_add] and [checked_sub]; [is_uint w] is the range of an unsigned
    integer.  [usize] has 64 bits.  [BTreeMap] and [BTreeSet] are [gmap] and
    [gset] whose iterators ([btree_iter], [bset_iter]) sort the keys, so that
    the order of actions is that of the source; [Vec] and [VecDeque] are
    lists.  Arrays indexed at run time are lists whose out-of-range access is a
    panic, and the invariants show their length.

    ** Loops and fuel

    [run_loop step n s] runs a loop body at most [n] times.  Each of its uses
    has a theorem that the fuel is never used up: Dijkstra's loop ([spf_fuel],
    bounded by the number of label changes the measure [spf_measure] allows),
    the deficit round robin ([drr_fuel] = 2^70, more than the rounds any deficit
    needs to reach any packet length), the search for a free batch number (one
    more than the number of pending batches), the chunks of a destination
    list (its length), the pending forward actions of an iteration (their
    number and one), the search for connected nodes ([search_fuel], one more
    than the edges) and the frames in a proxy's buffer (its length).  Running out of fuel is [None] like a panic, and the
    safety theorems exclude both.

    ** The theorems

    - Control plane: no panic along any run while the counters last, with an
      invariant on the database and the own LSA ([control_run_safe]); versions
      never go back ([lsdb_monotone]); flooding ([receive_lsa_floods]); expiry
      ([lsa_expiry]); no obligation without a timer ([timers_armed]); a digest
      exchange synchronises two nodes ([anti_entropy_round]); the published
      routes are exactly the shortest paths of the mesh, ties included
      ([routes_are_shortest_paths], [spf_timer_publishes]).
    - Forwarder: no panic and no endless loop, bounded queues
      ([forwarder_run_safe]); sends within credit and permissions
      ([forwarder_flow_control]); every packet accounted for, per destination
      ([forwarder_conserves]); scheduling, placement, routing of unicast and
      multicast, admission and the waiting of P0 packets.
    - Pub/Sub: at-most-once delivery ([pubsub_at_most_once]), delivery from
      publisher to subscriber ([publish_reaches_subscribers]), outcomes,
      contiguous numbers, announcements, the window as a refinement of a set
      ([receive_window_refines]), and safety with the one assumption it needs
      ([pubsub_run_safe], [forged_source_panics_publish]).
    - Codecs: exact round trips and total decoders for frames, packets,
      envelopes and control frames; verbatim relaying of LSAs; discovery.
    - Many nodes: whatever happened before, connected nodes hold the same
      LSAs once no frame is under way, all links are up and no LSA has expired
      ([quiet_network_synced]); in a connected network deliveries in any order
      come to that point after a number of steps bounded by a potential
      ([deliveries_synchronise]); and then packets follow the routes
      of one node after the other along a cheapest path to their destination,
      in at most as many steps as there are nodes ([unicast_crosses_mesh]).
      Unicast and multicast packets sent at once, for up to 256 destinations
      in all, arrive exactly once at each of them, whatever the order of
      arrivals and completed sends ([mesh_delivers]); with Pub/Sub on top, a
      publication reaches exactly its matching subscriptions
      ([publication_crosses_mesh]).  Both start from a mesh at rest, need a TTL
      no smaller than the number of nodes, and are for packets that are not
      conflated: the packets of one
      publication on a conflated topic can replace each other
      ([chunks_conflate]).
      The networks have at most 256 nodes, the neighbours an LSA may list.
    - Runtime: the composition of the three machines never panics, unless a
      message forges the node's own source ([runtime_run_safe],
      [forged_source_panics_publish]); back pressure ([runtime_flow_control]); every
      deadline is in the heap of timers ([runtime_timers_armed]); forwarder
      and Pub/Sub always work with the tables of the control plane, and these
      are those of its database when no computation is pending
      ([runtime_tables_current]); sequence
      numbers are persisted before they are used and survive restarts
      ([own_lsas_persisted], [seq_store_atomic]); diagnostics only observe
      ([diagnostics_transparent]).
    - Transport: in every interleaving of the tasks, what a link reports
      ([link_protocol]), that it is a FIFO channel between two nodes
      ([link_fifo]), its numbers and queues ([links_accounted]), that the
      handshake completes ([handshake_establishes_link]), and how the two
      bounded queues can block each other ([full_queues_deadlock]).
    - Laboratory: what its report says in terms of the snapshots it was given
      ([lab_convergence]), and that a mesh
      which has settled is reported so ([settled_mesh_converges]); its link
      proxies copy frames and lose exactly what the seed and the conditions
      in force say ([proxy_copies_frames]); its requests keep its tables consistent when
      they are served one after the other ([lab_requests_consistent]), and
      well formed in every interleaving ([lab_interleaving_safe]); a node
      it spawns starts as it recorded, if its name is not spelled like a
      flag ([spawned_node_starts]).

    ** Parameters

    [LsaAuth] is the trait of that name (signing of LSAs), with the unsecured
    implementation of the source as an instance.  [Prost] stands for the
    protobuf code that [prost] generates for a message: an encoder and a
    decoder with the round trip as their law.  [Protobuf] has an executable
    instance that satisfies it.  UTF-8 validation is modelled in [Bytes].

    ** Not modelled

    The HTTP servers, their JSON and the static page of the laboratory.
    Sockets, processes, the scheduling of tasks, the clock and the tokio
    channels are the environment: their behaviour is quantified over as the
    arguments of the steps of the runtime ([Stimulus], [accepts]), of the
    endpoint ([EpStep]) and of the link proxy ([DirectionInput]), and as the
    answers to the queries of the laboratory ([Query]).

    Where the environment is given more freedom than the code leaves it, the
    safety theorems cover more than can happen: a link's task may see its
    command channel closed with commands still queued ([hangup]); other
    handlers may run while the laboratory kills a child ([discard_node]).
    Where it is given less: the runtime never waits for room in the channel of
    outcomes ([execute_forward_action]), and a stop of the process keeps all
    completed writes, so that [sync_all] has no effect and a loss of power is
    not covered. *)

From Stdlib Require Import Strings.Byte Eqdep_dec.
From stdpp Require Export base gmap list sorting.
From Stdlib Require Export Lia ZArith.

Open Scope Z_scope.

(** ** Automation *)

Create HintDb mesh.

Declare Scope mesh_scope.
Delimit Scope mesh_scope with mesh.
Open Scope mesh_scope.

(** Destruct every [match] scrutinee of the hypothesis [H], keeping the
    equations. *)
Ltac split_match_in H :=
  repeat match type of H with
         | context [match ?x with _ => _ end] =>
             let E := fresh "E" in destruct x eqn:E; simplify_eq/=
         end.

(** Same for the goal. *)
Ltac split_match :=
  repeat match goal with
         | |- context [match ?x with _ => _ end] =>
             let E := fresh "E" in destruct x eqn:E; simplify_eq/=
         end.

(** Turn boolean comparisons in the context into propositions. *)
Ltac bool_prop :=
  repeat match goal with
         | H : (_ && _)%bool = true |- _ => apply andb_true_iff in H as [? ?]
         | H : (_ || _)%bool = false |- _ => apply orb_false_iff in H as [? ?]
         | H : negb _ = true |- _ => apply negb_true_iff in H
         | H : negb _ = false |- _ => apply negb_false_iff in H
         | H : Z.ltb _ _ = true |- _ => apply Z.ltb_lt in H
         | H : Z.ltb _ _ = false |- _ => apply Z.ltb_ge in H
         | H : Z.leb _ _ = true |- _ => apply Z.leb_le in H
         | H : Z.leb _ _ = false |- _ => apply Z.leb_gt in H
         | H : Z.eqb _ _ = true |- _ => apply Z.eqb_eq in H
         | H : Z.eqb _ _ = false |- _ => apply Z.eqb_neq in H
         | H : bool_decide _ = true |- _ => apply bool_decide_eq_true in H
         | H : bool_decide _ = false |- _ => apply bool_decide_eq_false in H
         end.

(** Linear arithmetic with division and remainder by constants. *)
Ltac dlia := Z.to_euclidean_division_equations; lia.

(** ** Results

    Rust's [Result<A, E>].  Panics are a separate effect: a function of the
    source that can panic (or index out of bounds) returns an [option] of its
    value, [None] being the panic; one that can also fail returns
    [option (result A E)]. *)

Inductive result (A E : Type) : Type :=
| Ok (a : A)
| Err (e : E).
Arguments Ok {A E} a.
Arguments Err {A E} e.

#[global] Instance result_eq_dec `{EqDecision A, EqDecision E} :
  EqDecision (result A E).
Proof. solve_decision. Defined.

(** The [?] operator, for a pure result and for a result computed under the
    panic effect. *)
Notation "x ←? r ; k" :=
  (match r with Ok x => k | Err e => Err e end)
  (at level 20, r at level 100, k at level 200, right associativity) : mesh_scope.
Notation "x ←?! r ; k" :=
  (match r with Ok x => k | Err e => Some (Err e) end)
  (at level 20, r at level 100, k at level 200, right associativity) : mesh_scope.

Definition map_err {A E F} (f : E → F) (r : result A E) : result A F :=
  match r with Ok a => Ok a | Err e => Err (f e) end.

(** [iter.map(f).collect::<Result<Vec<_>, _>>()]: stops at the first error. *)
Fixpoint collect_results {A B E} (f : A → result B E) (l : list A) : result (list B) E :=
  match l with
  | [] => Ok []
  | x :: xs => y ←? f x; ys ←? collect_results f xs; Ok (y :: ys)
  end.

Lemma collect_results_ok {A B E} (f : A → result B E) l l' :
  collect_results f l = Ok l' ↔ Forall2 (λ x y, f x = Ok y) l l'.
Proof.
  revert l'; induction l as [|x l IH]; intros l'; simpl.
  - split; [intros [= <-]; constructor | by inversion 1].
  - split.
    + intros H. split_match_in H. constructor; [done|]. by apply IH.
    + inversion 1 as [|?? ?? Hx Hl]; subst. rewrite Hx.
      apply IH in Hl. by rewrite Hl.
Qed.

(** ** Machine integers

    A [w]-bit unsigned integer is a [Z] in [0, 2^w); the operations below are
    Rust's checked, saturating and wrapping ones, width written out. *)

Definition u_max (w : Z) : Z := 2 ^ w - 1.
Definition is_uint (w z : Z) : Prop := 0 ≤ z < 2 ^ w.
Definition wrap (w z : Z) : Z := z mod 2 ^ w.
Definition sat_add (w a b : Z) : Z := Z.min (a + b) (u_max w).
Definition sat_mul (w a b : Z) : Z := Z.min (a * b) (u_max w).
Definition sat_sub (a b : Z) : Z := Z.max 0 (a - b).
Definition checked_add (w a b : Z) : option Z :=
  if a + b <=? u_max w then Some (a + b) else None.
(** Plain [a - b] on an unsigned type: underflow panics. *)
Definition checked_sub (a b : Z) : option Z :=
  if b <=? a then Some (a - b) else None.

(** [usize] on the 64-bit targets the project builds for. *)
Abbreviation usize_bits := 64 (only parsing).

Lemma is_uint_sat_add w a b : 0 ≤ w → is_uint w a → is_uint w b → is_uint w (sat_add w a b).
Proof. unfold is_uint, sat_add, u_max. pose proof (Z.pow_pos_nonneg 2 w). lia. Qed.

Lemma is_uint_wrap w a : 0 ≤ w → is_uint w (wrap w a).
Proof.
  intros. unfold is_uint, wrap. apply Z.mod_pos_bound.
  pose proof (Z.pow_pos_nonneg 2 w). lia.
Qed.

Lemma is_uint_sat_sub w a b : is_uint w a → 0 ≤ b → is_uint w (sat_sub a b).
Proof. unfold is_uint, sat_sub. lia. Qed.

Lemma checked_add_Some w a b c :
  checked_add w a b = Some c ↔ c = a + b ∧ a + b ≤ u_max w.
Proof. unfold checked_add. destruct (Z.leb_spec (a + b) (u_max w)); naive_solver lia. Qed.

Lemma checked_sub_Some a b c : checked_sub a b = Some c ↔ c = a - b ∧ b ≤ a.
Proof. unfold checked_sub. destruct (Z.leb_spec b a); naive_solver lia. Qed.

#[export] Hint Resolve is_uint_sat_add is_uint_wrap is_uint_sat_sub : mesh.

(** ** Loops

    A [loop] or [while] of the source is a step function that either yields
    the next state or the value the loop ends with.  The number of iterations
    is bounded by a [positive], so that a bound such as [2^70] can be written
    down and the loop still evaluates: the recursion is on the bits of the
    bound and stops at the first [inr]. *)

Section Loop.
Context {S R : Type} (step : S → S + R).

Fixpoint loop_pos (p : positive) (s : S) : S + R :=
  match p with
  | xH => step s
  | xO q => match loop_pos q s with inl s' => loop_pos q s' | inr r => inr r end
  | xI q =>
      match step s with
      | inl s' => match loop_pos q s' with inl s'' => loop_pos q s'' | inr r => inr r end
      | inr r => inr r
      end
  end.

Definition run_loop (fuel : positive) (s : S) : option R :=
  match loop_pos fuel s with inr r => Some r | inl _ => None end.

Fixpoint loop_nat (n : nat) (s : S) : S + R :=
  match n with
  | O => inl s
  | Datatypes.S n => match step s with inl s' => loop_nat n s' | inr r => inr r end
  end.

Lemma loop_nat_add n m s :
  loop_nat (n + m) s = match loop_nat n s with inl s' => loop_nat m s' | inr r => inr r end.
Proof. revert s; induction n as [|n IH]; intros s; simpl; [done|]. by destruct (step s). Qed.

Lemma loop_pos_nat p s : loop_pos p s = loop_nat (Pos.to_nat p) s.
Proof.
  revert s; induction p as [q IH|q IH|]; intros s; cbn [loop_pos].
  - rewrite Pos2Nat.inj_xI. cbn [loop_nat Nat.mul]. destruct (step s) as [s'|]; [|done].
    replace (Pos.to_nat q + (Pos.to_nat q + 0))%nat
      with (Pos.to_nat q + Pos.to_nat q)%nat by lia.
    rewrite loop_nat_add, <-IH. destruct (loop_pos q s'); auto.
  - rewrite Pos2Nat.inj_xO. cbn [Nat.mul].
    replace (Pos.to_nat q + (Pos.to_nat q + 0))%nat
      with (Pos.to_nat q + Pos.to_nat q)%nat by lia.
    rewrite loop_nat_add, <-IH. destruct (loop_pos q s); auto.
  - simpl. by destruct (step s).
Qed.

Context (I : S → Prop) (Q : R → Prop) (μ : S → Z).

Lemma loop_nat_total n s :
  I s →
  (∀ s, I s → 0 ≤ μ s) →
  (∀ s s', I s → step s = inl s' → I s' ∧ μ s' < μ s) →
  (∀ s r, I s → step s = inr r → Q r) →
  μ s < Z.of_nat n →
  ∃ r, loop_nat n s = inr r ∧ Q r.
Proof.
  intros HI Hpos Hstep Hend. revert s HI; induction n as [|n IH]; intros s HI Hμ; simpl.
  - specialize (Hpos s HI). lia.
  - destruct (step s) as [s'|r] eqn:E; [|eauto].
    destruct (Hstep s s' HI E) as [HI' Hlt]. apply IH; [done|lia].
Qed.

(** Total correctness of a bounded loop: an invariant, a non-negative
    measure that every iteration decreases, and enough fuel. *)
Lemma run_loop_total fuel s :
  I s →
  (∀ s, I s → 0 ≤ μ s) →
  (∀ s s', I s → step s = inl s' → I s' ∧ μ s' < μ s) →
  (∀ s r, I s → step s = inr r → Q r) →
  μ s < Z.pos fuel →
  ∃ r, run_loop fuel s = Some r ∧ Q r.
Proof.
  intros HI Hpos Hstep Hend Hμ. unfold run_loop. rewrite loop_pos_nat.
  destruct (loop_nat_total (Pos.to_nat fuel) s) as (r & -> & HQ); eauto.
  by rewrite positive_nat_Z.
Qed.

(** Partial correctness, for the properties that do not need the bound. *)
Lemma run_loop_partial fuel s r :
  I s →
  (∀ s s', I s → step s = inl s' → I s') →
  (∀ s r, I s → step s = inr r → Q r) →
  run_loop fuel s = Some r → Q r.
Proof.
  clear μ. intros HI Hstep Hend. unfold run_loop. rewrite loop_pos_nat.
  generalize (Pos.to_nat fuel) as n; intros n. revert s HI.
  induction n as [|n IH]; intros s HI; simpl; [done|].
  destruct (step s) eqn:E; [|naive_solver]. apply IH; eauto.
Qed.
End Loop.

(** ** Lists *)

(** Lengths are compared with [usize] constants, so they are read in [Z]. *)
Definition zlen {A} (l : list A) : Z := Z.of_nat (length l).

Lemma zlen_nonneg {A} (l : list A) : 0 ≤ zlen l.
Proof. unfold zlen. lia. Qed.
Lemma zlen_app {A} (l k : list A) : zlen (l ++ k) = zlen l + zlen k.
Proof. unfold zlen. rewrite length_app. lia. Qed.
Lemma zlen_cons {A} (x : A) (l : list A) : zlen (x :: l) = 1 + zlen l.
Proof. unfold zlen. simpl. lia. Qed.
Lemma zlen_nil {A} : zlen (@nil A) = 0.
Proof. done. Qed.
Lemma zlen_perm {A} (l k : list A) : l ≡ₚ k → zlen l = zlen k.
Proof. intros H. unfold zlen. by rewrite H. Qed.
#[export] Hint Resolve zlen_nonneg : mesh.

(** [sum] of a list of sizes. *)
Definition zsum (l : list Z) : Z := foldr Z.add 0 l.

Lemma zsum_cons z l : zsum (z :: l) = z + zsum l.
Proof. done. Qed.
Lemma zsum_app l k : zsum (l ++ k) = zsum l + zsum k.
Proof. induction l; simpl; lia. Qed.
Lemma zsum_perm l k : l ≡ₚ k → zsum l = zsum k.
Proof. induction 1; simpl; lia. Qed.
Lemma zsum_nonneg l : Forall (λ z, 0 ≤ z) l → 0 ≤ zsum l.
Proof. induction 1; simpl; lia. Qed.

(** Lowering one term lowers the sum. *)
Lemma zsum_lower {A} (f f' : A → Z) (l : list A) x :
  NoDup l → x ∈ l → f' x < f x → (∀ y, y ≠ x → f' y = f y) →
  zsum (f' <$> l) < zsum (f <$> l).
Proof.
  intros Hnd Hx Hlt Heq. induction Hnd as [|y l Hy Hnd IH]; [by inversion Hx|].
  rewrite !fmap_cons, !zsum_cons. apply elem_of_cons in Hx as [->|Hx].
  - assert (f' <$> l = f <$> l) as ->; [|lia].
    apply list_fmap_ext. intros i z Hz. apply Heq. intros ->.
    apply Hy. by eapply list_elem_of_lookup_2.
  - rewrite Heq by (by intros ->). specialize (IH Hx). lia.
Qed.
Lemma zsum_bound {A} (f : A → Z) (l : list A) b :
  (∀ x, x ∈ l → 0 ≤ f x ≤ b) → 0 ≤ zsum (f <$> l) ≤ zlen l * b.
Proof.
  induction l as [|y l IH]; intros Hb; [done|].
  rewrite fmap_cons, zsum_cons, zlen_cons.
  pose proof (Hb y ltac:(by left)). destruct IH; [intros; apply Hb; by right|]. lia.
Qed.
Lemma zlen_le_zsum {A} (l : list A) (ls : list (list A)) :
  l ∈ ls → zlen l ≤ zsum (zlen <$> ls).
Proof.
  induction ls as [|k ls IH]; [by inversion 1|].
  rewrite fmap_cons, zsum_cons. intros [->|Hl]%elem_of_cons.
  - assert (0 ≤ zsum (zlen <$> ls)); [|lia]. apply zsum_nonneg, Forall_fmap, Forall_true.
    intros. apply zlen_nonneg.
  - specialize (IH Hl). pose proof (zlen_nonneg k). lia.
Qed.
Lemma zlen_mjoin {A} (ls : list (list A)) : zlen (mjoin ls) = zsum (zlen <$> ls).
Proof. induction ls as [|l ls IH]; [done|].
  change (mjoin (l :: ls)) with (l ++ mjoin ls). by rewrite zlen_app, IH.
Qed.

(** [&encoded[from..to]]: panics when the range does not fit. *)
Definition slice {A} (from to : nat) (l : list A) : option (list A) :=
  if (to <=? length l)%nat then Some (take (to - from) (drop from l)) else None.
(** [&encoded[from..]]. *)
Definition slice_from {A} (from : nat) (l : list A) : option (list A) :=
  if (from <=? length l)%nat then Some (drop from l) else None.

Lemma slice_Some {A} from to (l : list A) :
  (to ≤ length l)%nat → slice from to l = Some (take (to - from) (drop from l)).
Proof. intros. unfold slice. destruct (Nat.leb_spec to (length l)); [done|lia]. Qed.
Lemma slice_from_Some {A} from (l : list A) :
  (from ≤ length l)%nat → slice_from from l = Some (drop from l).
Proof. intros. unfold slice_from. destruct (Nat.leb_spec from (length l)); [done|lia]. Qed.

Lemma slice_inv {A} from to (l k : list A) :
  slice from to l = Some k → (to ≤ length l)%nat ∧ k = take (to - from) (drop from l).
Proof. unfold slice. destruct (Nat.leb_spec to (length l)); naive_solver. Qed.
Lemma slice_mid {A} n m (a b c : list A) :
  length a = n → (length a + length b)%nat = m → slice n m (a ++ b ++ c) = Some b.
Proof.
  intros <- <-. rewrite slice_Some by (rewrite !length_app; lia).
  rewrite drop_app_length, Nat.add_sub_swap, Nat.sub_diag by lia. simpl.
  by rewrite take_app_length.
Qed.
Lemma slice_pre {A} m (b c : list A) : length b = m → slice 0 m (b ++ c) = Some b.
Proof. intros. by apply (slice_mid 0 m [] b c). Qed.
Lemma slice_from_app {A} n (a b : list A) : length a = n → slice_from n (a ++ b) = Some b.
Proof. intros <-. rewrite slice_from_Some, drop_app_length by (rewrite length_app; lia). done. Qed.
Lemma slice_length {A} n m (l k : list A) :
  (n ≤ m)%nat → slice n m l = Some k → length k = (m - n)%nat.
Proof.
  intros Hnm [Hm ->]%slice_inv.
  rewrite length_take, length_drop. lia.
Qed.

(** [iter.find(p)] and [iter_mut().find(p)] followed by an assignment. *)
Fixpoint find_first {A} (p : A → bool) (l : list A) : option (nat * A) :=
  match l with
  | [] => None
  | x :: xs => if p x then Some (O, x) else '(i, y) ← find_first p xs; Some (S i, y)
  end.

Lemma find_first_Some {A} (p : A → bool) l i x :
  find_first p l = Some (i, x) →
  l !! i = Some x ∧ p x = true ∧ ∀ j y, (j < i)%nat → l !! j = Some y → p y = false.
Proof.
  revert i; induction l as [|a l IH]; intros i; simpl; [done|].
  destruct (p a) eqn:E.
  - intros [= <- <-]. repeat split; [done|lia].
  - destruct (find_first p l) as [[i' y]|]; simpl; [|done]. intros [= <- <-].
    destruct (IH i' eq_refl) as (? & ? & Hlt). repeat split; [done..|].
    intros [|j] z Hj; simpl; [congruence|]. apply Hlt. lia.
Qed.

Lemma find_first_None {A} (p : A → bool) l :
  find_first p l = None ↔ Forall (λ x, p x = false) l.
Proof.
  induction l as [|a l IH]; simpl; [done|]. rewrite Forall_cons. split.
  - destruct (p a); [done|]. destruct (find_first p l) as [[]|]; naive_solver.
  - intros [-> HF]. by rewrite (proj2 IH HF).
Qed.
