(* ===== verification/Ord.v ===== *)
(** * Ordered keys and collections

    Rust's [Ord] as a class, and what the sources use of it: sorting of
    vectors, [BTreeMap] and [BTreeSet] (a [gmap] or [gset] whose iterators
    yield ascending keys) and the min-heap [BinaryHeap<Reverse<_>>]. *)

From S2P Require Import Prelude.

(** ** The [Ord] trait *)

Class TotalOrd (A : Type) := {
  ocmp : A → A → comparison;
  ocmp_eq x y : ocmp x y = Eq ↔ x = y;
  ocmp_sym x y : ocmp y x = CompOpp (ocmp x y);
  ocmp_trans x y z : ocmp x y = Lt → ocmp y z = Lt → ocmp x z = Lt;
}.
#[global] Hint Mode TotalOrd ! : typeclass_instances.

Definition olt `{TotalOrd A} (x y : A) : Prop := ocmp x y = Lt.
Definition ole `{TotalOrd A} (x y : A) : Prop := ocmp x y ≠ Gt.
Definition oltb `{TotalOrd A} (x y : A) : bool :=
  match ocmp x y with Lt => true | _ => false end.
Definition oeqb `{TotalOrd A} (x y : A) : bool :=
  match ocmp x y with Eq => true | _ => false end.
(** [Ord::min] and [Ord::max] keep the first argument, respectively the
    second, on a tie. *)
Definition omin `{TotalOrd A} (x y : A) : A := if oltb y x then y else x.
Definition omax `{TotalOrd A} (x y : A) : A := if oltb y x then x else y.

Section Ord.
Context `{TotalOrd A}.
Implicit Types x y z : A.

Lemma oltb_lt x y : oltb x y = true ↔ olt x y.
Proof. unfold oltb, olt. by destruct (ocmp x y). Qed.
Lemma oltb_ge x y : oltb x y = false ↔ ole y x.
Proof. unfold oltb, ole. rewrite (ocmp_sym x y). by destruct (ocmp x y). Qed.
Lemma oeqb_eq x y : oeqb x y = true ↔ x = y.
Proof. rewrite <-ocmp_eq. unfold oeqb. by destruct (ocmp x y). Qed.
Lemma oeqb_refl x : oeqb x x = true.
Proof. by apply oeqb_eq. Qed.

Lemma olt_irrefl x : ¬ olt x x.
Proof. unfold olt. by rewrite (proj2 (ocmp_eq x x) eq_refl). Qed.
#[global] Instance olt_trans : Transitive (olt (A:=A)).
Proof. intros x y z. apply ocmp_trans. Qed.
Lemma ole_lt_eq x y : ole x y ↔ olt x y ∨ x = y.
Proof. unfold ole, olt. rewrite <-(ocmp_eq x y). destruct (ocmp x y); naive_solver. Qed.
#[global] Instance ole_refl : Reflexive (ole (A:=A)).
Proof. intros x. apply ole_lt_eq. auto. Qed.
#[global] Instance ole_trans : Transitive (ole (A:=A)).
Proof.
  intros x y z. rewrite !ole_lt_eq. intros [?| ->] [?| ->]; eauto.
  left. by etrans.
Qed.
Lemma ole_not_lt x y : ole x y ↔ ¬ olt y x.
Proof. unfold ole, olt. rewrite (ocmp_sym x y). by destruct (ocmp x y). Qed.
Lemma olt_not_le x y : olt x y ↔ ¬ ole y x.
Proof. rewrite ole_not_lt. unfold olt. destruct (ocmp x y); naive_solver. Qed.
#[global] Instance ole_antisym : AntiSymm (=) (ole (A:=A)).
Proof.
  intros x y. rewrite !ole_lt_eq. intros [?|?] [?|?]; auto.
  by destruct (olt_irrefl x); etrans.
Qed.
#[global] Instance ole_total : Total (ole (A:=A)).
Proof. intros x y. unfold ole. rewrite (ocmp_sym x y). destruct (ocmp x y); simpl; auto. Qed.
#[global] Instance ole_dec : RelDecision (ole (A:=A)).
Proof. intros x y. unfold ole. destruct (ocmp x y); [left|left|right]; naive_solver. Defined.
#[global] Instance olt_dec : RelDecision (olt (A:=A)).
Proof. intros x y. unfold olt. destruct (ocmp x y); [right|left|right]; naive_solver. Defined.
Lemma ole_lt_trans x y z : ole x y → olt y z → olt x z.
Proof. rewrite ole_lt_eq. intros [?| ->]; [|done]. intros. by etrans. Qed.
Lemma olt_le_trans x y z : olt x y → ole y z → olt x z.
Proof. rewrite ole_lt_eq. intros ? [?| ->]; [|done]. by etrans. Qed.
Lemma olt_le x y : olt x y → ole x y.
Proof. rewrite ole_lt_eq. auto. Qed.
Lemma olt_ne x y : olt x y → x ≠ y.
Proof. intros ? ->. by apply (olt_irrefl y). Qed.
Lemma otrichotomy x y : olt x y ∨ x = y ∨ olt y x.
Proof. destruct (total (ole (A:=A)) x y) as [?%ole_lt_eq|?%ole_lt_eq]; naive_solver. Qed.
End Ord.
#[export] Hint Resolve olt_le ole_refl : mesh.

(** *** Instances *)

#[global] Instance Z_ord : TotalOrd Z.
Proof.
  refine {| ocmp := Z.compare |}.
  - intros. apply Z.compare_eq_iff.
  - intros. apply Z.compare_antisym.
  - intros x y z. rewrite !Z.compare_lt_iff. lia.
Defined.

Lemma olt_Z (x y : Z) : olt x y ↔ x < y.
Proof. apply Z.compare_lt_iff. Qed.
Lemma ole_Z (x y : Z) : ole x y ↔ x ≤ y.
Proof. apply Z.compare_le_iff. Qed.

(** Derived [Ord] of a struct: lexicographic on the fields, given here
    through an injection into a type that is already ordered. *)
Definition ord_inj {A B} `{TotalOrd B} (f : A → B) (Hf : ∀ x y, f x = f y → x = y) :
  TotalOrd A.
Proof.
  refine {| ocmp x y := ocmp (f x) (f y) |}.
  - intros. rewrite ocmp_eq. naive_solver.
  - intros. apply ocmp_sym.
  - intros x y z. apply ocmp_trans.
Defined.

Definition lex_cmp (c d : comparison) : comparison := match c with Eq => d | _ => c end.

#[global] Instance prod_ord {A B} `{TotalOrd A, TotalOrd B} : TotalOrd (A * B).
Proof.
  refine {| ocmp p q := lex_cmp (ocmp p.1 q.1) (ocmp p.2 q.2) |}.
  - intros [a b] [c d]; simpl. destruct (ocmp a c) eqn:E; simpl; rewrite ?ocmp_eq.
    + apply ocmp_eq in E as ->. naive_solver.
    + split; [done|]. intros [= -> ->]. by rewrite (proj2 (ocmp_eq c c) eq_refl) in E.
    + split; [done|]. intros [= -> ->]. by rewrite (proj2 (ocmp_eq c c) eq_refl) in E.
  - intros [a b] [c d]; simpl. rewrite (ocmp_sym a c), (ocmp_sym b d). by destruct (ocmp a c).
  - intros [a b] [c d] [e f]; simpl.
    destruct (ocmp a c) eqn:E1; simpl; [apply ocmp_eq in E1 as ->| |done].
    + destruct (ocmp c e) eqn:E2; simpl; [apply ocmp_trans|done|done].
    + destruct (ocmp c e) eqn:E2; simpl; [apply ocmp_eq in E2 as <-| |done].
      * by rewrite E1.
      * by rewrite (ocmp_trans _ _ _ E1 E2).
Defined.

Fixpoint list_cmp `{TotalOrd A} (l k : list A) : comparison :=
  match l, k with
  | [], [] => Eq
  | [], _ :: _ => Lt
  | _ :: _, [] => Gt
  | x :: l, y :: k => lex_cmp (ocmp x y) (list_cmp l k)
  end.

#[global] Instance list_ord `{TotalOrd A} : TotalOrd (list A).
Proof.
  refine {| ocmp := list_cmp |}.
  - intros l; induction l as [|x l IH]; intros [|y k]; simpl; try done.
    destruct (ocmp x y) eqn:E; simpl.
    + apply ocmp_eq in E as ->. rewrite IH. naive_solver.
    + split; [done|]. intros [= -> ->]. by rewrite (proj2 (ocmp_eq y y) eq_refl) in E.
    + split; [done|]. intros [= -> ->]. by rewrite (proj2 (ocmp_eq y y) eq_refl) in E.
  - intros l; induction l as [|x l IH]; intros [|y k]; simpl; try done.
    rewrite (ocmp_sym x y), IH. by destruct (ocmp x y).
  - intros l; induction l as [|x l IH]; intros [|y k] [|z m]; simpl; try done.
    destruct (ocmp x y) eqn:E1; simpl; [apply ocmp_eq in E1 as ->| |done].
    + destruct (ocmp y z) eqn:E2; simpl; [apply IH|done|done].
    + destruct (ocmp y z) eqn:E2; simpl; [apply ocmp_eq in E2 as <-| |done].
      * by rewrite E1.
      * by rewrite (ocmp_trans _ _ _ E1 E2).
Defined.

(** [Option<T>]: [None] is the least element. *)
Definition option_cmp `{TotalOrd A} (x y : option A) : comparison :=
  match x, y with
  | None, None => Eq
  | None, Some _ => Lt
  | Some _, None => Gt
  | Some a, Some b => ocmp a b
  end.

#[global] Instance option_ord `{TotalOrd A} : TotalOrd (option A).
Proof.
  refine {| ocmp := option_cmp |}.
  - intros [x|] [y|]; simpl; rewrite ?ocmp_eq; naive_solver.
  - intros [x|] [y|]; simpl; auto. apply ocmp_sym.
  - intros [x|] [y|] [z|]; simpl; try done. apply ocmp_trans.
Defined.

(** ** Sorting

    [Vec::sort] and [sort_unstable]: the order is antisymmetric, so stability
    cannot be observed and the sorted permutation is unique. *)

Definition osort `{TotalOrd A} (l : list A) : list A := merge_sort ole l.

Section Sort.
Context `{TotalOrd A}.
Implicit Types l k : list A.

Lemma osort_perm l : osort l ≡ₚ l.
Proof. apply merge_sort_Permutation. Qed.
Lemma osort_sorted l : StronglySorted ole (osort l).
Proof. apply (StronglySorted_merge_sort _). Qed.
Lemma osort_unique l k : k ≡ₚ l → StronglySorted ole k → osort l = k.
Proof.
  intros Hp Hs. apply (StronglySorted_unique ole); [apply osort_sorted|done|].
  by rewrite osort_perm.
Qed.
Lemma osort_id l : StronglySorted ole l → osort l = l.
Proof. by apply osort_unique. Qed.
Lemma osort_cong l k : l ≡ₚ k → osort l = osort k.
Proof. intros Hp. apply osort_unique; [by rewrite osort_perm|apply osort_sorted]. Qed.
Lemma elem_of_osort x l : x ∈ osort l ↔ x ∈ l.
Proof. by rewrite osort_perm. Qed.

Lemma ssorted_lt_NoDup l : StronglySorted olt l → NoDup l.
Proof.
  induction 1 as [|x l Hl IH Hx]; constructor; [|done].
  rewrite Forall_forall in Hx. intros Hin. by apply (olt_irrefl x), Hx.
Qed.
Lemma ssorted_le_lt l : StronglySorted ole l → NoDup l → StronglySorted olt l.
Proof.
  induction 1 as [|x l Hl IH Hx]; inversion_clear 1; constructor; [auto|].
  rewrite Forall_forall in Hx |- *. intros y Hy.
  destruct (proj1 (ole_lt_eq _ _) (Hx y Hy)) as [?| ->]; done.
Qed.
Lemma ssorted_lt_le l : StronglySorted olt l → StronglySorted ole l.
Proof.
  induction 1 as [|x l Hl IH Hx]; constructor; [done|].
  eapply Forall_impl; [done|]. intros y. apply olt_le.
Qed.
Lemma ssorted_filter (R : relation A) (P : A → Prop) `{!∀ x, Decision (P x)} l :
  StronglySorted R l → StronglySorted R (filter P l).
Proof.
  induction 1 as [|x l Hl IH Hx]; [constructor|]. rewrite filter_cons.
  case_decide; [|done]. constructor; [done|].
  rewrite Forall_forall in Hx |- *. intros y [_ Hy]%list_elem_of_filter. by apply Hx.
Qed.
End Sort.

(** ** [BTreeMap] and [BTreeSet] *)

Section BTree.
Context `{Countable K, !TotalOrd K} {V : Type}.
Implicit Types m : gmap K V.

Definition key_le (p q : K * V) : Prop := ole p.1 q.1.
#[global] Instance key_le_dec : RelDecision key_le.
Proof. intros p q. unfold key_le. apply _. Defined.
#[global] Instance key_le_total : Total key_le.
Proof. intros p q. unfold key_le. apply total, _. Qed.
#[global] Instance key_le_trans : Transitive key_le.
Proof. intros p q r. unfold key_le. apply transitivity. Qed.

(** [map.iter()], [map.keys()], [map.values()]. *)
Definition btree_iter (m : gmap K V) : list (K * V) := merge_sort key_le (map_to_list m).
Definition btree_keys (m : gmap K V) : list K := (btree_iter m).*1.
Definition btree_values (m : gmap K V) : list V := (btree_iter m).*2.

Lemma btree_iter_perm m : btree_iter m ≡ₚ map_to_list m.
Proof. apply merge_sort_Permutation. Qed.
Lemma elem_of_btree_iter m k v : (k, v) ∈ btree_iter m ↔ m !! k = Some v.
Proof. by rewrite btree_iter_perm, elem_of_map_to_list. Qed.
Lemma elem_of_btree_keys m k : k ∈ btree_keys m ↔ is_Some (m !! k).
Proof.
  unfold btree_keys. rewrite list_elem_of_fmap. split.
  - intros ([k' v] & -> & Hin). apply elem_of_btree_iter in Hin. eauto.
  - intros [v Hv]. exists (k, v). split; [done|]. by apply elem_of_btree_iter.
Qed.
Lemma elem_of_btree_values m v : v ∈ btree_values m ↔ ∃ k, m !! k = Some v.
Proof.
  unfold btree_values. rewrite list_elem_of_fmap. split.
  - intros ([k' v'] & -> & Hin). apply elem_of_btree_iter in Hin. eauto.
  - intros [k Hv]. exists (k, v). split; [done|]. by apply elem_of_btree_iter.
Qed.
Lemma btree_keys_NoDup m : NoDup (btree_keys m).
Proof.
  unfold btree_keys. rewrite (fmap_Permutation fst _ _ (btree_iter_perm m)).
  apply NoDup_fst_map_to_list.
Qed.
Lemma btree_iter_NoDup m : NoDup (btree_iter m).
Proof. eapply NoDup_fmap_1, btree_keys_NoDup. Qed.
Lemma btree_keys_sorted m : StronglySorted olt (btree_keys m).
Proof.
  apply ssorted_le_lt; [|apply btree_keys_NoDup].
  unfold btree_keys, btree_iter.
  apply (StronglySorted_fmap fst key_le ole); [done|].
  apply (StronglySorted_merge_sort _).
Qed.
Lemma length_btree_iter m : length (btree_iter m) = size m.
Proof. by rewrite btree_iter_perm, length_map_to_list. Qed.
Lemma btree_values_insert m k v :
  m !! k = None → btree_values (<[k:=v]> m) ≡ₚ v :: btree_values m.
Proof.
  intros Hk. unfold btree_values.
  rewrite !btree_iter_perm, map_to_list_insert by done. done.
Qed.
Lemma btree_values_delete m k v :
  m !! k = Some v → btree_values m ≡ₚ v :: btree_values (delete k m).
Proof.
  intros Hk. rewrite <-(btree_values_insert (delete k m)) by apply lookup_delete_eq.
  by rewrite insert_delete_id.
Qed.
Lemma btree_iter_empty : btree_iter ∅ = [].
Proof. apply Permutation_nil_r. rewrite btree_iter_perm, map_to_list_empty. done. Qed.
End BTree.

Definition bset_iter `{Countable K, !TotalOrd K} (s : gset K) : list K := osort (elements s).

Lemma size_list_to_set_le `{Countable K} (l : list K) :
  (size (list_to_set l : gset K) ≤ length l)%nat.
Proof.
  induction l as [|x l IH]; [done|]. cbn. rewrite size_union_alt, size_singleton.
  assert (size ((list_to_set l : gset K) ∖ {[x]}) ≤ size (list_to_set l : gset K))%nat;
    [apply subseteq_size; set_solver|lia].
Qed.

Section BSet.
Context `{Countable K, !TotalOrd K}.
Implicit Types s : gset K.

Lemma elem_of_bset_iter s k : k ∈ bset_iter s ↔ k ∈ s.
Proof. unfold bset_iter. by rewrite elem_of_osort, elem_of_elements. Qed.
Lemma bset_iter_sorted s : StronglySorted olt (bset_iter s).
Proof.
  apply ssorted_le_lt; [apply osort_sorted|].
  unfold bset_iter. rewrite osort_perm. apply NoDup_elements.
Qed.
Lemma bset_iter_NoDup s : NoDup (bset_iter s).
Proof. apply ssorted_lt_NoDup, bset_iter_sorted. Qed.
Lemma length_bset_iter s : length (bset_iter s) = size s.
Proof. unfold bset_iter. by rewrite osort_perm. Qed.
Lemma bset_iter_to_set s : list_to_set (bset_iter s) = s.
Proof. apply set_eq. intros k. by rewrite elem_of_list_to_set, elem_of_bset_iter. Qed.
End BSet.

(** ** [BinaryHeap<Reverse<T>>]

    A heap is observed only through [push] and [pop], which removes a least
    element; it is kept as the ascending list of its elements. *)

Section Heap.
Context `{TotalOrd A}.

Fixpoint heap_push (x : A) (h : list A) : list A :=
  match h with
  | [] => [x]
  | y :: h' => if oltb y x then y :: heap_push x h' else x :: y :: h'
  end.
Definition heap_pop (h : list A) : option (A * list A) :=
  match h with [] => None | x :: h' => Some (x, h') end.

Lemma heap_push_perm x h : heap_push x h ≡ₚ x :: h.
Proof.
  induction h as [|y h IH]; simpl; [done|].
  destruct (oltb y x); [|done]. rewrite IH. apply Permutation_swap.
Qed.
Lemma heap_push_sorted x h : StronglySorted ole h → StronglySorted ole (heap_push x h).
Proof.
  induction 1 as [|y h Hh IH Hy]; simpl; [repeat constructor|].
  destruct (oltb y x) eqn:E.
  - constructor; [done|]. rewrite heap_push_perm. constructor; [|done].
    by apply olt_le, oltb_lt.
  - apply oltb_ge in E. constructor; [by constructor|]. constructor; [done|].
    eapply Forall_impl; [done|]. intros z Hz. by etrans.
Qed.
End Heap.

(** [entry(k).and_modify(f).or_insert(v)] and [entry(k).or_default()]. *)
Definition entry_modify `{Countable K} {V} (f : V → V) (v : V) (k : K) (m : gmap K V) :
  gmap K V :=
  match m !! k with Some w => <[k := f w]> m | None => <[k := v]> m end.

Lemma lookup_entry_modify `{Countable K} {V} (f : V → V) v k (m : gmap K V) j :
  entry_modify f v k m !! j =
  if decide (k = j) then Some (match m !! k with Some w => f w | None => v end) else m !! j.
Proof. unfold entry_modify. destruct (m !! k); by rewrite lookup_insert. Qed.

(** [iter.min_by_key(f)]: the first of the elements with the least key. *)
Fixpoint min_by_key `{TotalOrd B} {A} (f : A → B) (l : list A) : option A :=
  match l with
  | [] => None
  | x :: xs =>
      match min_by_key f xs with
      | Some y => Some (if oltb (f y) (f x) then y else x)
      | None => Some x
      end
  end.

Lemma min_by_key_None `{TotalOrd B} {A} (f : A → B) l : min_by_key f l = None ↔ l = [].
Proof. destruct l as [|x l]; simpl; [done|]. by destruct (min_by_key f l). Qed.
Lemma min_by_key_Some `{TotalOrd B} {A} (f : A → B) l x :
  min_by_key f l = Some x → x ∈ l ∧ ∀ y, y ∈ l → ole (f x) (f y).
Proof.
  revert x; induction l as [|a l IH]; intros x; simpl; [done|].
  destruct (min_by_key f l) as [y|] eqn:E.
  - destruct (IH y eq_refl) as [Hy Hmin]. destruct (oltb (f y) (f a)) eqn:Ec; intros [= <-].
    + split; [by right|]. intros z [->|Hz]%elem_of_cons; [by apply olt_le, oltb_lt|auto].
    + apply oltb_ge in Ec. split; [by left|].
      intros z [->|Hz]%elem_of_cons; [done|]. etrans; [done|auto].
  - apply min_by_key_None in E as ->. intros [= <-]. split; [by left|].
    by intros z ->%list_elem_of_singleton.
Qed.

(** *** Grouping

    A loop of [m.entry(key x).and_modify(f with val x).or_insert(val x)], for
    an [f] ([min] or [max]) that selects the better of its arguments. *)
Section GroupBest.
Context `{Countable K} {A V : Type} (key : A → K) (val : A → V) (f : V → V → V).

Definition group_best (l : list A) : gmap K V :=
  foldl (λ m a, entry_modify (λ v, f v (val a)) (val a) (key a) m) ∅ l.

Lemma group_best_None l k : group_best l !! k = None ↔ ∀ a, a ∈ l → key a ≠ k.
Proof.
  induction l as [|x l IH] using rev_ind.
  { unfold group_best. cbn. rewrite lookup_empty. split; [|done].
    by intros _ a ?%not_elem_of_nil. }
  unfold group_best. rewrite foldl_snoc, lookup_entry_modify.
  change (foldl _ ∅ l) with (group_best l). setoid_rewrite elem_of_app.
  setoid_rewrite list_elem_of_singleton. case_decide as Hx.
  - split; [done|]. intros Hall. destruct (Hall x); auto.
  - rewrite IH. naive_solver.
Qed.

Context (R : relation V) `{!Reflexive R, !Transitive R, !AntiSymm (=) R}.
Hypothesis f_sel : ∀ x y, f x y = x ∨ f x y = y.
Hypothesis f_l : ∀ x y, R (f x y) x.
Hypothesis f_r : ∀ x y, R (f x y) y.

Lemma lookup_group_best l k v :
  group_best l !! k = Some v ↔
  (∃ a, a ∈ l ∧ key a = k ∧ val a = v) ∧ ∀ a, a ∈ l → key a = k → R v (val a).
Proof.
  revert v. induction l as [|x l IH] using rev_ind; intros v.
  { unfold group_best. cbn. rewrite lookup_empty. split; [done|].
    intros [(a & Ha & _) _]. by apply not_elem_of_nil in Ha. }
  unfold group_best. rewrite foldl_snoc, lookup_entry_modify.
  change (foldl _ ∅ l) with (group_best l). setoid_rewrite elem_of_app.
  setoid_rewrite list_elem_of_singleton. case_decide as Hx.
  2: { rewrite IH. split; intros [(a & Ha & Hk & Hv) Hall]; (split; [|naive_solver]);
       exists a; naive_solver. }
  subst k. destruct (group_best l !! key x) as [w|] eqn:Ew.
  - destruct (proj1 (IH w) eq_refl) as [(b & Hb & Hbk & Hbv) Hmin].
    assert (Hbest : ∀ a, a ∈ l ∨ a = x → key a = key x → R (f w (val x)) (val a)).
    { intros a [Ha| ->] Hk; [etrans; [apply f_l|auto]|apply f_r]. }
    assert (Hin : ∃ a, (a ∈ l ∨ a = x) ∧ key a = key x ∧ val a = f w (val x)).
    { destruct (f_sel w (val x)) as [-> | ->]; eauto. }
    split; [intros [= <-]; by split|].
    intros [(a & Ha & Hk & <-) Hall]. f_equal. apply (anti_symm R); [by auto|].
    destruct Hin as (c & Hc & Hck & <-). auto.
  - pose proof (proj1 (group_best_None l (key x)) Ew) as Hnone. split.
    + intros [= <-]. split; [by eauto|]. intros a [Ha| ->] Hk; [|done].
      by destruct (Hnone a Ha).
    + intros [(a & [Ha| ->] & Hk & Hv) Hall]; [by destruct (Hnone a Ha)|congruence].
Qed.
End GroupBest.

Section MinMax.
Context `{TotalOrd A}.
Lemma omin_sel (x y : A) : omin x y = x ∨ omin x y = y.
Proof. unfold omin. destruct (oltb y x); auto. Qed.
Lemma omin_l (x y : A) : ole (omin x y) x.
Proof. unfold omin. destruct (oltb y x) eqn:E; [by apply olt_le, oltb_lt|done]. Qed.
Lemma omin_r (x y : A) : ole (omin x y) y.
Proof. unfold omin. destruct (oltb y x) eqn:E; [done|by apply oltb_ge]. Qed.
Lemma omax_sel (x y : A) : omax x y = x ∨ omax x y = y.
Proof. unfold omax. destruct (oltb y x); auto. Qed.
Lemma omax_l (x y : A) : ole x (omax x y).
Proof. unfold omax. destruct (oltb y x) eqn:E; [done|by apply oltb_ge]. Qed.
Lemma omax_r (x y : A) : ole y (omax x y).
Proof. unfold omax. destruct (oltb y x) eqn:E; [by apply olt_le, oltb_lt|done]. Qed.
End MinMax.
