(* ===== verification/Bytes.v ===== *)
(** * Bytes

    [u8] buffers ([Bytes], [BytesMut], [Vec<u8>], and [String], which Rust
    compares and measures byte-wise) as lists of [byte], and the big-endian
    encodings of the [bytes] crate's [put_u16/32/64] and of
    [from_be_bytes]. *)

From Stdlib Require Import Strings.Byte.
From S2P Require Export Prelude Ord.

Abbreviation byte := Init.Byte.byte.
Abbreviation bytes := (list byte).

(** ** One byte *)

Definition Z_of_byte (b : byte) : Z := Z.of_N (Byte.to_N b).
(** [z as u8]. *)
Definition byte_of_Z (z : Z) : byte :=
  default x00 (Byte.of_N (Z.to_N (z mod 256))).

Lemma Z_of_byte_range b : 0 ≤ Z_of_byte b < 256.
Proof.
  unfold Z_of_byte. pose proof (Byte.to_N_bounded b). lia.
Qed.
Lemma Z_of_byte_inj b c : Z_of_byte b = Z_of_byte c → b = c.
Proof.
  unfold Z_of_byte. intros E%N2Z.inj.
  pose proof (Byte.of_to_N b). pose proof (Byte.of_to_N c). congruence.
Qed.
Lemma Z_of_byte_of_Z z : Z_of_byte (byte_of_Z z) = z mod 256.
Proof.
  unfold Z_of_byte, byte_of_Z. pose proof (Z.mod_pos_bound z 256).
  destruct (Byte.of_N (Z.to_N (z mod 256))) as [b|] eqn:E; simpl.
  - apply Byte.to_of_N in E. rewrite E. lia.
  - apply Byte.of_N_None_iff in E. lia.
Qed.
Lemma byte_of_Z_of_byte b : byte_of_Z (Z_of_byte b) = b.
Proof.
  apply Z_of_byte_inj. rewrite Z_of_byte_of_Z. apply Z.mod_small, Z_of_byte_range.
Qed.

#[global] Instance byte_eq_dec : EqDecision byte := Byte.byte_eq_dec.
#[global] Instance byte_countable : Countable byte.
Proof.
  refine (inj_countable Byte.to_N Byte.of_N _). intros b. apply Byte.of_to_N.
Defined.
#[global] Instance byte_ord : TotalOrd byte := ord_inj Z_of_byte Z_of_byte_inj.

(** ** Big-endian integers *)

(** The [n] bytes [put_u<8n>(z)] appends. *)
Fixpoint be_bytes (n : nat) (z : Z) : bytes :=
  match n with
  | O => []
  | S n => byte_of_Z (Z.shiftr z (8 * Z.of_nat n)) :: be_bytes n z
  end.
(** [u<8n>::from_be_bytes]. *)
Fixpoint be_value (l : bytes) : Z :=
  match l with
  | [] => 0
  | b :: l => Z.lor (Z.shiftl (Z_of_byte b) (8 * Z.of_nat (length l))) (be_value l)
  end.

Lemma length_be_bytes n z : length (be_bytes n z) = n.
Proof. induction n; simpl; congruence. Qed.

Lemma be_value_arith b l :
  0 ≤ be_value l < 2 ^ (8 * Z.of_nat (length l)) →
  be_value (b :: l) = Z_of_byte b * 2 ^ (8 * Z.of_nat (length l)) + be_value l.
Proof.
  intros Hl. cbn [be_value]. rewrite Z.shiftl_mul_pow2 by lia.
  rewrite <-Z.lxor_lor, Z.add_nocarry_lxor; [done|..].
  all: apply Z.bits_inj'; intros i Hi; rewrite Z.land_spec, Z.bits_0;
    destruct (decide (i < 8 * Z.of_nat (length l))) as [Hlt|Hge];
    [rewrite Z.mul_pow2_bits_low by done; done|].
  all: rewrite andb_false_iff; right; rewrite <-(Z.mod_small (be_value l) _ Hl);
    apply Z.mod_pow2_bits_high; lia.
Qed.

Lemma be_value_range l : 0 ≤ be_value l < 2 ^ (8 * Z.of_nat (length l)).
Proof.
  induction l as [|b l IH]; [done|].
  rewrite (be_value_arith b l IH). cbn [length]. pose proof (Z_of_byte_range b) as Hb.
  replace (8 * Z.of_nat (S (length l))) with (8 + 8 * Z.of_nat (length l)) by lia.
  rewrite Z.pow_add_r by lia. change (2 ^ 8) with 256. nia.
Qed.

Lemma be_value_cons b l :
  be_value (b :: l) = Z_of_byte b * 2 ^ (8 * Z.of_nat (length l)) + be_value l.
Proof. apply be_value_arith, be_value_range. Qed.

(** Writing then reading a [n]-byte integer. *)
Lemma be_value_be_bytes n z : is_uint (8 * Z.of_nat n) z → be_value (be_bytes n z) = z.
Proof.
  intros Hz. assert (be_value (be_bytes n z) = z mod 2 ^ (8 * Z.of_nat n)) as ->.
  2:{ by apply Z.mod_small. }
  clear Hz. induction n as [|n IH]; [by rewrite Z.mod_1_r|].
  cbn [be_bytes]. rewrite be_value_cons, IH, length_be_bytes, Z_of_byte_of_Z.
  rewrite Z.shiftr_div_pow2 by lia.
  replace (8 * Z.of_nat (S n)) with (8 * Z.of_nat n + 8) by lia.
  rewrite Z.pow_add_r by lia. change (2 ^ 8) with 256.
  rewrite Z.rem_mul_r by lia. lia.
Qed.

(** Reading then writing. *)
Lemma be_bytes_be_value l : be_bytes (length l) (be_value l) = l.
Proof.
  assert (∀ n z k, 0 ≤ k → be_bytes n (k * 2 ^ (8 * Z.of_nat n) + z) = be_bytes n z) as Hhigh.
  { induction n as [|n IH]; intros z k Hk; [done|]. cbn [be_bytes]. f_equal.
    - apply Z_of_byte_inj. rewrite !Z_of_byte_of_Z, !Z.shiftr_div_pow2 by lia.
      replace (8 * Z.of_nat (S n)) with (8 + 8 * Z.of_nat n) by lia.
      rewrite Z.pow_add_r, Z.mul_assoc by lia. change (2 ^ 8) with 256.
      rewrite Z.div_add_l by lia. rewrite (Z.add_comm (k * 256)).
      by rewrite Z.mod_add by lia.
    - replace (k * 2 ^ (8 * Z.of_nat (S n))) with ((k * 256) * 2 ^ (8 * Z.of_nat n));
        [apply IH; lia|].
      replace (8 * Z.of_nat (S n)) with (8 + 8 * Z.of_nat n) by lia.
      rewrite Z.pow_add_r by lia. change (2 ^ 8) with 256. lia. }
  induction l as [|b l IH]; [done|]. cbn [length be_bytes].
  pose proof (be_value_range l). pose proof (Z_of_byte_range b).
  rewrite be_value_cons. f_equal.
  - apply Z_of_byte_inj. rewrite Z_of_byte_of_Z, Z.shiftr_div_pow2 by lia.
    rewrite Z.div_add_l, (Z.div_small (be_value l)) by lia.
    rewrite Z.add_0_r. by apply Z.mod_small.
  - rewrite Hhigh by lia. apply IH.
Qed.

(** A prefix of known length is cut off an append. *)
Lemma take_app_exact {A} n (l k : list A) : length l = n → take n (l ++ k) = l.
Proof. intros <-. apply take_app_length. Qed.
Lemma drop_app_exact {A} n (l k : list A) : length l = n → drop n (l ++ k) = k.
Proof. intros <-. apply drop_app_length. Qed.

(** ** [String]

    The bytes of a [String] are valid UTF-8 (well-formed byte sequences of the
    Unicode standard: no overlong form, no surrogate, at most U+10FFFF). *)

Definition in_range (lo hi : Z) (b : byte) : bool :=
  (lo <=? Z_of_byte b) && (Z_of_byte b <=? hi).
Definition utf8_tail : byte → bool := in_range 0x80 0xBF.
(** The range of the second byte, by the first. *)
Definition utf8_second (a : byte) : byte → bool :=
  let a := Z_of_byte a in
  if a =? 0xE0 then in_range 0xA0 0xBF
  else if a =? 0xED then in_range 0x80 0x9F
  else if a =? 0xF0 then in_range 0x90 0xBF
  else if a =? 0xF4 then in_range 0x80 0x8F
  else utf8_tail.
Fixpoint utf8_valid (l : bytes) : bool :=
  match l with
  | [] => true
  | a :: l1 =>
      if in_range 0 0x7F a then utf8_valid l1
      else match l1 with
      | b :: l2 =>
          if in_range 0xC2 0xDF a then utf8_tail b && utf8_valid l2
          else match l2 with
          | c :: l3 =>
              if in_range 0xE0 0xEF a then utf8_second a b && utf8_tail c && utf8_valid l3
              else match l3 with
              | d :: l4 =>
                  in_range 0xF0 0xF4 a && utf8_second a b && utf8_tail c && utf8_tail d &&
                  utf8_valid l4
              | [] => false
              end
          | [] => false
          end
      | [] => false
      end
  end.
