(* ===== verification/Text.v ===== *)
(** * Text

    What the sources use of Rust's text formatting and parsing: string
    literals, decimal integers ([{}] of an unsigned integer,
    [str::parse::<u64>]) and [str::trim]. *)

From Stdlib Require Import Strings.Byte Strings.String.
From S2P Require Export Prelude Ord Bytes.
Open Scope Z_scope.

(** A literal, as its UTF-8 bytes. *)
Definition str (s : string) : bytes := String.list_byte_of_string s.

(** ** Decimal integers *)

Definition digit_char (d : Z) : byte := byte_of_Z (48 + d).
Fixpoint decimal_digits (fuel : nat) (n : Z) : bytes :=
  match fuel with
  | O => []
  | S fuel => (if n <? 10 then [] else decimal_digits fuel (n / 10)) ++ [digit_char (n mod 10)]
  end.
(** [format!("{n}")] of a [u64] or [usize], which have at most 20 digits. *)
Definition decimal (n : Z) : bytes := decimal_digits 20 n.

(** [std::num::IntErrorKind] for an unsigned type. *)
Inductive ParseIntError := PieEmpty | PieInvalidDigit | PiePosOverflow.
(** [impl Display for ParseIntError] *)
Definition ParseIntError_display (e : ParseIntError) : bytes :=
  match e with
  | PieEmpty => str "cannot parse integer from empty string"
  | PieInvalidDigit => str "invalid digit found in string"
  | PiePosOverflow => str "number too large to fit in target type"
  end.

Definition digit_value (b : byte) : option Z :=
  let v := Z_of_byte b - 48 in
  if (0 <=? v) && (v <=? 9) then Some v else None.
Fixpoint parse_digits (w : Z) (acc : Z) (s : bytes) : result Z ParseIntError :=
  match s with
  | [] => Ok acc
  | b :: s =>
      match digit_value b with
      | None => Err PieInvalidDigit
      | Some v =>
          if u_max w <? acc * 10 then Err PiePosOverflow
          else if u_max w <? acc * 10 + v then Err PiePosOverflow
          else parse_digits w (acc * 10 + v) s
      end
  end.
(** [s.parse()] for the unsigned type of [w] bits: a sign [+] is accepted before
    at least one digit. *)
Definition parse_uint (w : Z) (s : bytes) : result Z ParseIntError :=
  match s with
  | [] => Err PieEmpty
  | [b] => if bool_decide (b = x2b) || bool_decide (b = x2d) then Err PieInvalidDigit
           else parse_digits w 0 s
  | b :: rest => parse_digits w 0 (if bool_decide (b = x2b) then rest else s)
  end.
Definition parse_u64 : bytes → result Z ParseIntError := parse_uint 64.
Definition parse_u16 : bytes → result Z ParseIntError := parse_uint 16.

Lemma digit_value_char d : 0 ≤ d < 10 → digit_value (digit_char d) = Some d.
Proof.
  intros Hd. unfold digit_value, digit_char. rewrite Z_of_byte_of_Z, Z.mod_small by lia.
  replace (48 + d - 48) with d by lia.
  destruct (Z.leb_spec 0 d), (Z.leb_spec d 9); cbn; (done || lia).
Qed.

Lemma parse_digits_app w acc l k :
  parse_digits w acc (l ++ k) = a ←? parse_digits w acc l; parse_digits w a k.
Proof.
  revert acc. induction l as [|b l IH]; intros acc; cbn [app parse_digits]; [done|].
  destruct (digit_value b); [|done]. repeat (case_match; [done|]). apply IH.
Qed.

Lemma parse_decimal_digits w fuel n :
  0 ≤ n < 10 ^ Z.of_nat fuel → n ≤ u_max w → parse_digits w 0 (decimal_digits fuel n) = Ok n.
Proof.
  revert n. induction fuel as [|fuel IH]; intros n Hn Hmax; cbn [decimal_digits].
  { cbn. f_equal. change (10 ^ Z.of_nat 0) with 1 in Hn. lia. }
  assert (Hlast : ∀ a, a = n / 10 → parse_digits w a [digit_char (n mod 10)] = Ok n).
  { intros a ->. cbn [parse_digits]. rewrite digit_value_char by (apply Z.mod_pos_bound; lia).
    pose proof (Z.div_mod n 10 ltac:(lia)). pose proof (Z.mod_pos_bound n 10 ltac:(lia)).
    destruct (Z.ltb_spec (u_max w) (n / 10 * 10)); [lia|].
    destruct (Z.ltb_spec (u_max w) (n / 10 * 10 + n mod 10)); [lia|]. f_equal. lia. }
  rewrite parse_digits_app. destruct (Z.ltb_spec n 10).
  - cbn. apply Hlast. by rewrite Z.div_small by lia.
  - rewrite IH; [exact (Hlast _ eq_refl)|..|dlia].
    replace (Z.of_nat (S fuel)) with (Z.of_nat fuel + 1) in Hn by lia.
    rewrite Z.pow_add_r, Z.pow_1_r in Hn by lia.
    split; [apply Z.div_pos; lia|]. apply Z.div_lt_upper_bound; lia.
Qed.

Definition is_digit (b : byte) : Prop := ∃ d, 0 ≤ d < 10 ∧ b = digit_char d.
Lemma decimal_digits_digits fuel n : Forall is_digit (decimal_digits fuel n).
Proof.
  revert n. induction fuel as [|fuel IH]; intros n; cbn [decimal_digits]; [done|].
  apply Forall_app. split; [by destruct (n <? 10)|]. apply Forall_singleton.
  exists (n mod 10). split; [apply Z.mod_pos_bound; lia|done].
Qed.
Lemma decimal_snoc n : ∃ l b, decimal n = l ++ [b].
Proof. unfold decimal. cbn [decimal_digits]. eauto. Qed.
Lemma is_digit_value b : is_digit b → 48 ≤ Z_of_byte b ≤ 57.
Proof. intros (d & Hd & ->). unfold digit_char. rewrite Z_of_byte_of_Z, Z.mod_small; lia. Qed.

(** An unsigned integer of up to 64 bits is read back from its decimal form. *)
Lemma parse_uint_decimal w n : 0 ≤ n ≤ u_max w → n ≤ u_max 64 → parse_uint w (decimal n) = Ok n.
Proof.
  intros Hn H64. pose proof (decimal_digits_digits 20 n) as Hd. fold (decimal n) in Hd.
  assert (Hp : parse_digits w 0 (decimal n) = Ok n).
  { apply parse_decimal_digits; [|lia]. unfold u_max in H64.
    assert (2 ^ 64 < 10 ^ Z.of_nat 20) by done. lia. }
  destruct (decimal n) as [|b [|c l]] eqn:E; [|cbn [parse_uint]..].
  { destruct (decimal_snoc n) as (l & b & E'). rewrite E in E'. by destruct l. }
  all: inversion Hd as [|?? Hb%is_digit_value _]; subst.
  all: rewrite !bool_decide_eq_false_2; [done|..]; intros ->; by compute in Hb.
Qed.

Lemma parse_u64_decimal n : is_uint 64 n → parse_u64 (decimal n) = Ok n.
Proof. unfold is_uint. intros Hn. apply parse_uint_decimal; unfold u_max; lia. Qed.
Lemma parse_u16_decimal n : is_uint 16 n → parse_u16 (decimal n) = Ok n.
Proof. unfold is_uint. intros Hn. apply parse_uint_decimal; unfold u_max; lia. Qed.

Lemma parse_digits_uint acc s n : is_uint 64 acc → parse_digits 64 acc s = Ok n → is_uint 64 n.
Proof.
  revert acc. induction s as [|b s IH]; intros acc Ha; cbn [parse_digits].
  { by intros [= <-]. }
  destruct (digit_value b) as [v|] eqn:Ev; [|done].
  unfold digit_value in Ev. case_match; simplify_eq. bool_prop.
  repeat case_match; try done. bool_prop. apply IH. unfold is_uint, u_max in *. lia.
Qed.
Lemma parse_u64_uint s n : parse_u64 s = Ok n → is_uint 64 n.
Proof.
  unfold parse_u64, parse_uint. destruct s as [|b [|c l]]; [done|case_match; [done|]|];
    intros Hp; apply parse_digits_uint in Hp; done.
Qed.

(** ** [str::trim] *)

(** The characters with the Unicode property [White_Space], in UTF-8.  In a
    valid string such a sequence of bytes is a character wherever it occurs. *)
Definition WHITE_SPACE : list bytes :=
  [[x09]; [x0a]; [x0b]; [x0c]; [x0d]; [x20]; [xc2; x85]; [xc2; xa0]; [xe1; x9a; x80];
   [xe2; x80; x80]; [xe2; x80; x81]; [xe2; x80; x82]; [xe2; x80; x83]; [xe2; x80; x84];
   [xe2; x80; x85]; [xe2; x80; x86]; [xe2; x80; x87]; [xe2; x80; x88]; [xe2; x80; x89];
   [xe2; x80; x8a]; [xe2; x80; xa8]; [xe2; x80; xa9]; [xe2; x80; xaf]; [xe2; x81; x9f];
   [xe3; x80; x80]].
Fixpoint strip_prefix (w s : bytes) : option bytes :=
  match w, s with
  | [], _ => Some s
  | a :: w, b :: s => if decide (a = b) then strip_prefix w s else None
  | _ :: _, [] => None
  end.
(** Each round removes at least one byte. *)
Fixpoint strip_all (pats : list bytes) (fuel : nat) (s : bytes) : bytes :=
  match fuel with
  | O => s
  | S fuel =>
      match omap (λ w, strip_prefix w s) pats with
      | r :: _ => strip_all pats fuel r
      | [] => s
      end
  end.
Definition trim_start (s : bytes) : bytes := strip_all WHITE_SPACE (length s) s.
Definition trim_end (s : bytes) : bytes :=
  reverse (strip_all (reverse <$> WHITE_SPACE) (length s) (reverse s)).
Definition trim (s : bytes) : bytes := trim_end (trim_start s).

Lemma strip_all_stop pats fuel s :
  omap (λ w, strip_prefix w s) pats = [] → strip_all pats fuel s = s.
Proof. intros E. destruct fuel; cbn [strip_all]; [done|]. by rewrite E. Qed.

Lemma strip_head_digit pats b s :
  Forall (λ w, match w with [] => False | a :: _ => ¬ (48 ≤ Z_of_byte a ≤ 57) end) pats →
  is_digit b → omap (λ w, strip_prefix w (b :: s)) pats = [].
Proof.
  intros Hp Hb%is_digit_value. induction Hp as [|[|a w] pats Ha _ IH]; [done..|].
  cbn. rewrite decide_False; [exact IH|]. intros ->. by apply Ha.
Qed.

Lemma white_space_not_digit :
  Forall (λ w, match w with [] => False | a :: _ => ¬ (48 ≤ Z_of_byte a ≤ 57) end)
    (WHITE_SPACE ++ (reverse <$> WHITE_SPACE)).
Proof.
  apply Forall_forall. intros w Hw. destruct w as [|a w].
  - repeat (apply elem_of_cons in Hw as [?|Hw]; [discriminate|]). by apply elem_of_nil in Hw.
  - repeat (apply elem_of_cons in Hw as [[= -> ->]|Hw]; [vm_compute; by intros []|]).
    by apply elem_of_nil in Hw.
Qed.

(** A line with a number is trimmed to the number. *)
Lemma trim_line n : trim (decimal n ++ [x0a]) = decimal n.
Proof.
  pose proof (decimal_digits_digits 20 n) as Hd. fold (decimal n) in Hd.
  pose proof white_space_not_digit as [Hw Hr]%Forall_app.
  assert (trim_start (decimal n ++ [x0a]) = decimal n ++ [x0a]) as Hs.
  { apply strip_all_stop. destruct (decimal n) as [|c l] eqn:E.
    - destruct (decimal_snoc n) as (l & b & E'). rewrite E in E'. by destruct l.
    - inversion Hd; subst. by apply strip_head_digit. }
  unfold trim. rewrite Hs. unfold trim_end. rewrite reverse_snoc, length_app, Nat.add_comm.
  change (length [x0a] + length (decimal n))%nat with (S (length (decimal n))).
  cbn [strip_all].
  assert (∀ s, omap (λ w, strip_prefix w (x0a :: s)) (reverse <$> WHITE_SPACE) = [s]) as ->
    by reflexivity.
  destruct (decimal_snoc n) as (l & b & E). rewrite E in *.
  rewrite strip_all_stop, reverse_involutive; [done|].
  rewrite reverse_snoc. apply strip_head_digit; [done|].
  apply Forall_app in Hd as [_ Hb]. by inversion Hb.
Qed.
