(* ===== verification/Types.v ===== *)
(** * Shared types (crates/mb-types)

    [NodeId], [LinkId], [MonoTime] and the shape of an I/O-free component. *)

From Stdlib Require Import Strings.Byte Eqdep_dec.
From S2P Require Export Prelude Ord Bytes.

(** ** [NodeId([u8; 32])]

    The array length is part of the type. *)
Record NodeId : Set := mk_node_id {
  as_bytes : bytes;
  as_bytes_len : Nat.eqb (length as_bytes) 32 = true;
}.

Definition node_id_if (l : bytes) (b : bool) :
  Nat.eqb (length l) 32 = b → option NodeId :=
  match b with
  | true => λ H, Some (mk_node_id l H)
  | false => λ _, None
  end.

(** [NodeId::from_bytes] after the [[u8; 32]] conversion of its argument,
    which fails on any other length. *)
Definition from_bytes (l : bytes) : option NodeId := node_id_if l _ eq_refl.

Lemma NodeId_eq n m : as_bytes n = as_bytes m → n = m.
Proof.
  destruct n as [l Hl], m as [k Hk]; simpl. intros ->. f_equal. apply UIP_dec, bool_eq_dec.
Qed.
Lemma length_as_bytes n : length (as_bytes n) = 32%nat.
Proof. apply Nat.eqb_eq, as_bytes_len. Qed.

Lemma node_id_if_Some l b E n : node_id_if l b E = Some n ↔ as_bytes n = l.
Proof.
  destruct b; simpl.
  - split; [by intros [= <-]|]. intros <-. f_equal. by apply NodeId_eq.
  - split; [done|]. intros <-. by rewrite as_bytes_len in E.
Qed.
Lemma from_bytes_Some l n : from_bytes l = Some n ↔ as_bytes n = l.
Proof. apply node_id_if_Some. Qed.
Lemma from_bytes_as_bytes n : from_bytes (as_bytes n) = Some n.
Proof. by apply from_bytes_Some. Qed.
Lemma from_bytes_is_Some l : is_Some (from_bytes l) ↔ length l = 32%nat.
Proof.
  split.
  - intros [n <-%from_bytes_Some]. apply length_as_bytes.
  - intros Hl%Nat.eqb_eq. exists (mk_node_id l Hl). by apply from_bytes_Some.
Qed.

#[global] Instance NodeId_eq_dec : EqDecision NodeId.
Proof.
  intros n m. destruct (decide (as_bytes n = as_bytes m)) as [E|E];
    [left; by apply NodeId_eq|right; congruence].
Defined.
#[global] Instance NodeId_countable : Countable NodeId.
Proof. refine (inj_countable as_bytes from_bytes from_bytes_as_bytes). Defined.
(** Derived [Ord] on the array: lexicographic. *)
#[global] Instance NodeId_ord : TotalOrd NodeId := ord_inj as_bytes NodeId_eq.

(** [NodeId::default()]: all zero. *)
Definition NodeId_default : NodeId := mk_node_id (replicate 32 x00) eq_refl.
#[global] Instance NodeId_inhabited : Inhabited NodeId := populate NodeId_default.

(** [impl Display for NodeId]: two lower-case hexadecimal digits per byte. *)
Definition hex_digit (n : Z) : byte := byte_of_Z (if n <? 10 then 48 + n else 87 + n).
Definition hex_byte (b : byte) : bytes :=
  [hex_digit (Z.shiftr (Z_of_byte b) 4); hex_digit (Z.land (Z_of_byte b) 15)].
Definition NodeId_display (n : NodeId) : bytes := as_bytes n ≫= hex_byte.

(** ** [LinkId(u64)] and [MonoTime(u64)]

    Newtypes of [u64] with derived order: integers of the model. *)
Abbreviation LinkId := Z (only parsing).
Abbreviation MonoTime := Z (only parsing).
(** [String]: compared, measured and hashed as its UTF-8 bytes. *)
Abbreviation rstring := bytes (only parsing).

(** ** [trait Component]

    [fn handle(&mut self, now, event) -> Vec<Action>]: the state is threaded,
    and [None] is a panic of the handler.  A runtime feeds a component a
    sequence of timed events; [run] is the state and the actions after it. *)
Class Component (S Event Action : Type) := {
  handle : S → MonoTime → Event → option (S * list Action);
}.


Section Component.
Context {S Event Action : Type} `{!Component S Event Action}.

Fixpoint run (s : S) (tr : list (MonoTime * Event)) : option (S * list Action) :=
  match tr with
  | [] => Some (s, [])
  | (now, e) :: tr =>
      '(s, a) ← handle s now e;
      '(s, b) ← run s tr;
      Some (s, a ++ b)
  end.

(** A predicate every handled event preserves holds along every run. *)
Lemma run_invariant (I : S → Prop) (ok : MonoTime → Event → Prop) s tr s' acts :
  (∀ s now e s' a, I s → ok now e → handle s now e = Some (s', a) → I s') →
  I s → Forall (λ p, ok p.1 p.2) tr → run s tr = Some (s', acts) → I s'.
Proof.
  intros Hstep. revert s acts.
  induction tr as [|[now e] tr IH]; intros s acts HI Hok Hrun; simpl in *.
  { by simplify_eq. }
  inversion Hok as [|?? Hok1 Hok2]; subst.
  destruct (handle s now e) as [[s1 a]|] eqn:E; simpl in *; [|done].
  destruct (run s1 tr) as [[s2 b]|] eqn:E'; simpl in *; [|done].
  simplify_eq. eauto.
Qed.

(** A reflexive and transitive relation that holds across every handled
    event holds across every run. *)
Lemma run_monotone (R : S → S → Prop) (I : S → Prop) s tr s' acts :
  Reflexive R → Transitive R →
  (∀ s now e s' a, I s → handle s now e = Some (s', a) → I s' ∧ R s s') →
  I s → run s tr = Some (s', acts) → R s s'.
Proof.
  intros Hr Ht Hstep. revert s acts.
  induction tr as [|[now e] tr IH]; intros s acts HI Hrun; simpl in *.
  { by simplify_eq. }
  destruct (handle s now e) as [[s1 a]|] eqn:E; simpl in *; [|done].
  destruct (run s1 tr) as [[s2 b]|] eqn:E'; simpl in *; [|done].
  simplify_eq. destruct (Hstep _ _ _ _ _ HI E) as [HI1 HR1].
  etrans; [exact HR1|]. by eapply IH.
Qed.
End Component.

(** ** Facts about the textual form *)

Lemma hex_digit_inj n m : 0 ≤ n < 16 → 0 ≤ m < 16 → hex_digit n = hex_digit m → n = m.
Proof.
  intros Hn Hm E%(f_equal Z_of_byte). unfold hex_digit in E.
  rewrite !Z_of_byte_of_Z, !Z.mod_small in E by (split_match; bool_prop; lia).
  split_match_in E; bool_prop; lia.
Qed.

Lemma hex_byte_inj b c : hex_byte b = hex_byte c → b = c.
Proof.
  unfold hex_byte. pose proof (Z_of_byte_range b). pose proof (Z_of_byte_range c).
  intros [= E1 E2].
  apply hex_digit_inj in E1; [|rewrite Z.shiftr_div_pow2 by lia; change (2 ^ 4) with 16; dlia..].
  apply hex_digit_inj in E2; [|rewrite (Z.land_ones _ 4) by lia; change (2 ^ 4) with 16; dlia..].
  rewrite !Z.shiftr_div_pow2 in E1 by lia. rewrite !(Z.land_ones _ 4) in E2 by lia.
  apply Z_of_byte_inj. change (2 ^ 4) with 16 in *. dlia.
Qed.

Lemma bind_hex_inj (l k : bytes) : l ≫= hex_byte = k ≫= hex_byte → l = k.
Proof.
  revert k. induction l as [|b l IH]; intros [|c k]; try done. cbn.
  intros [= E1 E2 E3]. f_equal; [|by apply IH].
  apply hex_byte_inj. unfold hex_byte. congruence.
Qed.

Lemma length_bind_hex (l : bytes) : length (l ≫= hex_byte) = (2 * length l)%nat.
Proof. induction l as [|b l IH]; [done|]. cbn. rewrite IH. lia. Qed.

(** The textual form of a node identifier has exactly 64 digits and
    determines the identifier. *)
Theorem NodeId_display_faithful n m :
  length (NodeId_display n) = 64%nat ∧ (NodeId_display n = NodeId_display m → n = m).
Proof.
  split; [by unfold NodeId_display; rewrite length_bind_hex, length_as_bytes|].
  intros E. by apply NodeId_eq, bind_hex_inj.
Qed.
