(* ===== verification/Proto.v ===== *)
(** * Protobuf messages (proto/control.proto and the [prost] codecs)

    The message types are those of the schema.  Their encoders and decoders
    are generated code: a parameter of the development, with the round trip
    [prost] documents. *)

From Stdlib Require Import Strings.Byte.
From S2P Require Export Prelude Ord Bytes Types.

(** A message type of [prost]: the encoder, and the decoder with its error
    rendered as a string. *)
Class Prost (M : Type) := {
  prost_encode : M → bytes;
  prost_decode : bytes → result M rstring;
}.
(** What [prost] documents of a generated codec: decoding restores every
    message whose fields have values of their Rust types. *)
Class ProstLaws (M : Type) `{Prost M} (wf : M → Prop) : Prop := {
  prost_roundtrip m : wf m → prost_decode (prost_encode m) = Ok m;
}.

(** ** Control messages *)

Record PbLinkHello := { pb_node_id : bytes; pb_protocol_version : Z }.
Record PbAdjacency := { pb_peer : bytes; pb_cost : Z }.
Record PbTopicAd := {
  pb_topic : rstring;
  pb_partition : bytes;
  pb_role : Z;
  pb_head_seq : Z;
  pb_tail_seq : Z;
}.
Record PbLsa := {
  pb_origin : bytes;
  pb_seq : Z;
  pb_ttl_sec : Z;
  pb_adjacencies : list PbAdjacency;
  pb_topics : list PbTopicAd;
  pb_epoch : Z;
}.
Record PbSignedLsa := { pb_lsa_bytes : bytes; pb_signature : bytes }.
Record PbDigestEntry := { pde_origin : bytes; pde_epoch : Z; pde_seq : Z }.
Record PbDigest := { pb_entries : list PbDigestEntry }.
Record PbDigestReq := { pb_origins : list bytes }.

(** The Rust types of the fields: [uint32], [uint64] and [string]. *)
Definition PbLinkHello_typed (h : PbLinkHello) : Prop := is_uint 32 (pb_protocol_version h).
Definition PbTopicAd_typed (a : PbTopicAd) : Prop :=
  utf8_valid (pb_topic a) = true ∧ is_uint 32 (pb_role a) ∧ is_uint 64 (pb_head_seq a) ∧
  is_uint 64 (pb_tail_seq a).
Definition PbLsa_typed (l : PbLsa) : Prop :=
  is_uint 64 (pb_seq l) ∧ is_uint 32 (pb_ttl_sec l) ∧ is_uint 32 (pb_epoch l) ∧
  Forall (λ a, is_uint 32 (pb_cost a)) (pb_adjacencies l) ∧ Forall PbTopicAd_typed (pb_topics l).
Definition PbDigest_typed (d : PbDigest) : Prop :=
  Forall (λ e, is_uint 32 (pde_epoch e) ∧ is_uint 64 (pde_seq e)) (pb_entries d).
