(* ===== verification/Wire.v ===== *)
(** * Mesh frame and packet encoding (crates/mb-wire)

    Data types, limits and codecs of the wire crate: [MulticastPayload],
    [ForwardPacket], [WireFrame] and the incremental [FrameDecoder].  Decoders
    index and slice their input; an out-of-range access is a panic ([None]),
    so that their totality is a theorem about the bounds checks. *)

From Stdlib Require Import Strings.Byte.
From S2P Require Export Prelude Ord Bytes Types.

(** ** Constants *)

Definition FRAME_VERSION : Z := 1.
Definition HEADER_LEN : Z := 8.
Definition MAX_PAYLOAD_LEN : Z := 1024 * 1024.
Definition FORWARD_PACKET_VERSION : Z := 1.
Definition FORWARD_HEADER_LEN : Z := 88.
Definition MAX_FORWARD_PAYLOAD_LEN : Z := MAX_PAYLOAD_LEN - FORWARD_HEADER_LEN.
Definition MAX_MULTICAST_DESTINATIONS : Z := 64.
Definition MULTICAST_COUNT_LEN : Z := 2.
Definition NODE_ID_LEN : Z := 32.

(** ** Multicast payloads *)

Record MulticastPayload := {
  destinations : list NodeId;
  body : bytes;
}.

Inductive MulticastPayloadError :=
| McHeaderTooShort (length : Z)
| McEmptyDestinations
| McTooManyDestinations (count : Z)
| McDuplicateDestination (destination : NodeId)
| McDestinationListTruncated (expected actual : Z)
| McPayloadTooLarge (length : Z).

#[global] Instance MulticastPayload_eq_dec : EqDecision MulticastPayload.
Proof. solve_decision. Defined.
#[global] Instance MulticastPayloadError_eq_dec : EqDecision MulticastPayloadError.
Proof. solve_decision. Defined.

Definition multicast_prefix_len (destination_count : Z) : Z :=
  sat_add usize_bits MULTICAST_COUNT_LEN (sat_mul usize_bits destination_count NODE_ID_LEN).

(** [windows(2).find(|pair| pair[0] == pair[1]).map(|pair| pair[0])]. *)
Fixpoint first_repeat (l : list NodeId) : option NodeId :=
  match l with
  | a :: (b :: _) as l' => if decide (a = b) then Some a else first_repeat l'
  | _ => None
  end.

Definition canonicalize_destinations (dests : list NodeId) :
  result (list NodeId) MulticastPayloadError :=
  if bool_decide (dests = []) then Err McEmptyDestinations
  else if MAX_MULTICAST_DESTINATIONS <? zlen dests then
    Err (McTooManyDestinations (zlen dests))
  else
    let dests := osort dests in
    match first_repeat dests with
    | Some duplicate => Err (McDuplicateDestination duplicate)
    | None => Ok dests
    end.

Definition MulticastPayload_encoded_len (p : MulticastPayload) : Z :=
  sat_add usize_bits (multicast_prefix_len (zlen (destinations p))) (zlen (body p)).

Definition MulticastPayload_new (dests : list NodeId) (b : bytes) :
  result MulticastPayload MulticastPayloadError :=
  dests ←? canonicalize_destinations dests;
  let encoded_len := sat_add usize_bits (multicast_prefix_len (zlen dests)) (zlen b) in
  if MAX_FORWARD_PAYLOAD_LEN <? encoded_len then Err (McPayloadTooLarge encoded_len)
  else Ok {| destinations := dests; body := b |}.

(** [MulticastPayloadCodec::encode]. *)
Definition MulticastPayload_encode (p : MulticastPayload) : bytes :=
  be_bytes 2 (wrap 16 (zlen (destinations p)))
    ++ (destinations p ≫= as_bytes) ++ body p.

(** [MulticastPayloadCodec::decode]. *)
Definition MulticastPayload_decode (encoded : bytes) :
  option (result MulticastPayload MulticastPayloadError) :=
  if MAX_FORWARD_PAYLOAD_LEN <? zlen encoded then
    Some (Err (McPayloadTooLarge (zlen encoded)))
  else if zlen encoded <? MULTICAST_COUNT_LEN then
    Some (Err (McHeaderTooShort (zlen encoded)))
  else
    b0 ← encoded !! 0%nat;
    b1 ← encoded !! 1%nat;
    let count := be_value [b0; b1] in
    if count =? 0 then Some (Err McEmptyDestinations)
    else if MAX_MULTICAST_DESTINATIONS <? count then Some (Err (McTooManyDestinations count))
    else
      let prefix_len := multicast_prefix_len count in
      if zlen encoded <? prefix_len then
        Some (Err (McDestinationListTruncated prefix_len (zlen encoded)))
      else
        dests ← mapM (λ index : nat,
                  let start := (2 + index * 32)%nat in
                  raw ← slice start (start + 32) encoded;
                  from_bytes raw)
                (seq 0 (Z.to_nat count));
        dests ←?! canonicalize_destinations dests;
        b ← slice_from (Z.to_nat prefix_len) encoded;
        Some (MulticastPayload_new dests b).

(** ** Forward packets *)

Inductive PacketType := Unicast | Multicast | CircuitData | CircuitControl.
Inductive Priority := P0 | P1 | P2 | P3.

Inductive ForwardPacketError :=
| FpHeaderTooShort (length : Z)
| FpUnsupportedVersion (version : Z)
| FpUnknownPacketType (packet_type : Z)
| FpUnknownPriority (priority : Z)
| FpUnsupportedFlags (flags : Z)
| FpInvalidMulticast (error : MulticastPayloadError)
| FpUnexpectedMulticastDestinations (count : Z)
| FpPayloadTooLarge (length : Z).

#[global] Instance PacketType_eq_dec : EqDecision PacketType.
Proof. solve_decision. Defined.
#[global] Instance Priority_eq_dec : EqDecision Priority.
Proof. solve_decision. Defined.
#[global] Instance ForwardPacketError_eq_dec : EqDecision ForwardPacketError.
Proof. solve_decision. Defined.

Definition PacketType_code (t : PacketType) : Z :=
  match t with Unicast => 1 | Multicast => 2 | CircuitData => 3 | CircuitControl => 4 end.
Definition PacketType_try_from (value : Z) : result PacketType ForwardPacketError :=
  match value with
  | 1 => Ok Unicast
  | 2 => Ok Multicast
  | 3 => Ok CircuitData
  | 4 => Ok CircuitControl
  | other => Err (FpUnknownPacketType other)
  end.

Definition Priority_code (p : Priority) : Z :=
  match p with P0 => 0 | P1 => 1 | P2 => 2 | P3 => 3 end.
Definition Priority_try_from (value : Z) : result Priority ForwardPacketError :=
  match value with
  | 0 => Ok P0
  | 1 => Ok P1
  | 2 => Ok P2
  | 3 => Ok P3
  | other => Err (FpUnknownPriority other)
  end.

(** [ForwardFlags(u32)]. *)
Definition RELIABLE_HINT : Z := Z.shiftl 1 0.
Definition CONFLATABLE : Z := Z.shiftl 1 1.
Definition COMPRESSED : Z := Z.shiftl 1 2.
Definition FLAGS_SUPPORTED : Z := Z.lor (Z.lor RELIABLE_HINT CONFLATABLE) COMPRESSED.
Definition flags_empty : Z := 0.
Definition flags_from_bits (bits : Z) : result Z ForwardPacketError :=
  if Z.land bits (Z.lxor (u_max 32) FLAGS_SUPPORTED) =? 0 then Ok bits
  else Err (FpUnsupportedFlags bits).
Definition flags_contains (flags flag : Z) : bool := Z.land flags flag =? flag.

Record ForwardHeader := {
  packet_type : PacketType;
  priority : Priority;
  ttl : Z;
  flags : Z;
  destination : NodeId;
  source : NodeId;
  flow_id : Z;
  conflate_key : Z;
}.

Record ForwardPacket := {
  header : ForwardHeader;
  multicast_destinations : list NodeId;
  payload : bytes;
}.

#[global] Instance ForwardHeader_eq_dec : EqDecision ForwardHeader.
Proof. solve_decision. Defined.
#[global] Instance ForwardPacket_eq_dec : EqDecision ForwardPacket.
Proof. solve_decision. Defined.

Definition ForwardPacket_encoded_len (p : ForwardPacket) : Z :=
  let multicast_prefix :=
    if decide (packet_type (header p) = Multicast)
    then multicast_prefix_len (zlen (multicast_destinations p)) else 0 in
  sat_add usize_bits (sat_add usize_bits FORWARD_HEADER_LEN multicast_prefix)
    (zlen (payload p)).

(** The payload as it goes on the wire: for multicast, the destination list
    is placed before the body. *)
Definition wire_payload (p : ForwardPacket) : result bytes ForwardPacketError :=
  if decide (packet_type (header p) = Multicast) then
    multicast ←? map_err FpInvalidMulticast
                   (MulticastPayload_new (multicast_destinations p) (payload p));
    Ok (MulticastPayload_encode multicast)
  else if bool_decide (multicast_destinations p = []) then Ok (payload p)
  else Err (FpUnexpectedMulticastDestinations (zlen (multicast_destinations p))).

Definition ForwardHeader_bytes (h : ForwardHeader) : bytes :=
  [byte_of_Z FORWARD_PACKET_VERSION;
   byte_of_Z (PacketType_code (packet_type h));
   byte_of_Z (Priority_code (priority h));
   byte_of_Z (ttl h)]
  ++ be_bytes 4 (flags h)
  ++ as_bytes (destination h)
  ++ as_bytes (source h)
  ++ be_bytes 8 (flow_id h)
  ++ be_bytes 8 (conflate_key h).

(** [ForwardPacketCodec::encode]. *)
Definition ForwardPacket_encode (p : ForwardPacket) : result bytes ForwardPacketError :=
  w ←? wire_payload p;
  if MAX_FORWARD_PAYLOAD_LEN <? zlen w then Err (FpPayloadTooLarge (zlen w))
  else Ok (ForwardHeader_bytes (header p) ++ w).

(** [ForwardPacketCodec::decode]. *)
Definition ForwardPacket_decode (encoded : bytes) :
  option (result ForwardPacket ForwardPacketError) :=
  if zlen encoded <? FORWARD_HEADER_LEN then Some (Err (FpHeaderTooShort (zlen encoded)))
  else
    payload_len ← checked_sub (zlen encoded) FORWARD_HEADER_LEN;
    if MAX_FORWARD_PAYLOAD_LEN <? payload_len then Some (Err (FpPayloadTooLarge payload_len))
    else
      version ← encoded !! 0%nat;
      if negb (Z_of_byte version =? FORWARD_PACKET_VERSION)
      then Some (Err (FpUnsupportedVersion (Z_of_byte version)))
      else
        b1 ← encoded !! 1%nat;
        ptype ←?! PacketType_try_from (Z_of_byte b1);
        b2 ← encoded !! 2%nat;
        prio ←?! Priority_try_from (Z_of_byte b2);
        raw_flags ← slice 4 8 encoded;
        fl ←?! flags_from_bits (be_value raw_flags);
        raw_destination ← slice 8 40 encoded;
        raw_source ← slice 40 72 encoded;
        raw_flow ← slice 72 80 encoded;
        raw_key ← slice 80 88 encoded;
        wire ← slice_from 88 encoded;
        parts ← (if decide (ptype = Multicast) then
                   r ← MulticastPayload_decode wire;
                   Some (m ←? map_err FpInvalidMulticast r;
                         Ok (destinations m, body m))
                 else Some (Ok ([], wire)));
        parts ←?! parts;
        let '(dests, b) := parts in
        b3 ← encoded !! 3%nat;
        dst ← from_bytes raw_destination;
        src ← from_bytes raw_source;
        Some (Ok {| header := {| packet_type := ptype; priority := prio;
                                 ttl := Z_of_byte b3; flags := fl;
                                 destination := dst; source := src;
                                 flow_id := be_value raw_flow;
                                 conflate_key := be_value raw_key |};
                    multicast_destinations := dests;
                    payload := b |}).

(** ** Link frames *)

Inductive FrameType :=
| LinkHello | FtLsa | FtDigest | FtDigestReq | FtForward | FtCircuit | FtCredit | FtPing.
Inductive Channel := ChControl | ChRpc | PubSubP0 | PubSubP1 | PubSubP2 | PubSubP3 | ChTunnel.

Inductive FrameError :=
| FeUnsupportedVersion (version : Z)
| FeUnknownFrameType (frame_type : Z)
| FeUnknownChannel (channel : Z)
| FeUnsupportedFlags (flags : Z)
| FeNonZeroReserved (reserved : Z)
| FePayloadTooLarge (length : Z).

#[global] Instance FrameType_eq_dec : EqDecision FrameType.
Proof. solve_decision. Defined.
#[global] Instance Channel_eq_dec : EqDecision Channel.
Proof. solve_decision. Defined.
#[global] Instance FrameError_eq_dec : EqDecision FrameError.
Proof. solve_decision. Defined.

Definition FrameType_code (t : FrameType) : Z :=
  match t with
  | LinkHello => 1 | FtLsa => 2 | FtDigest => 3 | FtDigestReq => 4
  | FtForward => 5 | FtCircuit => 6 | FtCredit => 7 | FtPing => 8
  end.
Definition FrameType_try_from (value : Z) : result FrameType FrameError :=
  match value with
  | 1 => Ok LinkHello | 2 => Ok FtLsa | 3 => Ok FtDigest | 4 => Ok FtDigestReq
  | 5 => Ok FtForward | 6 => Ok FtCircuit | 7 => Ok FtCredit | 8 => Ok FtPing
  | other => Err (FeUnknownFrameType other)
  end.

Definition Channel_code (c : Channel) : Z :=
  match c with
  | ChControl => 0 | ChRpc => 1 | PubSubP0 => 2 | PubSubP1 => 3
  | PubSubP2 => 4 | PubSubP3 => 5 | ChTunnel => 6
  end.
Definition Channel_try_from (value : Z) : result Channel FrameError :=
  match value with
  | 0 => Ok ChControl | 1 => Ok ChRpc | 2 => Ok PubSubP0 | 3 => Ok PubSubP1
  | 4 => Ok PubSubP2 | 5 => Ok PubSubP3 | 6 => Ok ChTunnel
  | other => Err (FeUnknownChannel other)
  end.

Record WireFrame := {
  frame_type : FrameType;
  channel : Channel;
  frame_payload : bytes;
}.
#[global] Instance WireFrame_eq_dec : EqDecision WireFrame.
Proof. solve_decision. Defined.

Definition WireFrame_control (t : FrameType) (p : bytes) : WireFrame :=
  {| frame_type := t; channel := ChControl; frame_payload := p |}.

(** [FrameEncoder::encode]. *)
Definition frame_encode (f : WireFrame) : result bytes FrameError :=
  let payload_len := zlen (frame_payload f) in
  if MAX_PAYLOAD_LEN <? payload_len then Err (FePayloadTooLarge payload_len)
  else Ok ([byte_of_Z (Z.lor (Z.shiftl FRAME_VERSION 4) (FrameType_code (frame_type f)));
            byte_of_Z (Channel_code (channel f));
            byte_of_Z 0; byte_of_Z 0]
           ++ be_bytes 4 (wrap 32 payload_len)
           ++ frame_payload f).

(** [FrameDecoder::decode(&mut self, source: &mut BytesMut)]: the result and
    the buffer it leaves behind. *)
Definition frame_decode (source : bytes) :
  option (result (option WireFrame) FrameError * bytes) :=
  if zlen source <? HEADER_LEN then Some (Ok None, source)
  else
    b0 ← source !! 0%nat;
    let version := Z.shiftr (Z_of_byte b0) 4 in
    if negb (version =? FRAME_VERSION) then Some (Err (FeUnsupportedVersion version), source)
    else
      match FrameType_try_from (Z.land (Z_of_byte b0) 15) with
      | Err e => Some (Err e, source)
      | Ok ftype =>
          b1 ← source !! 1%nat;
          match Channel_try_from (Z_of_byte b1) with
          | Err e => Some (Err e, source)
          | Ok chan =>
              b2 ← source !! 2%nat;
              if negb (Z_of_byte b2 =? 0)
              then Some (Err (FeUnsupportedFlags (Z_of_byte b2)), source)
              else
                b3 ← source !! 3%nat;
                if negb (Z_of_byte b3 =? 0)
                then Some (Err (FeNonZeroReserved (Z_of_byte b3)), source)
                else
                  raw_len ← slice 4 8 source;
                  let payload_len := be_value raw_len in
                  if MAX_PAYLOAD_LEN <? payload_len
                  then Some (Err (FePayloadTooLarge payload_len), source)
                  else
                    let frame_len := HEADER_LEN + payload_len in
                    if zlen source <? frame_len then Some (Ok None, source)
                    else
                      (* [split_to(frame_len)], then [split_off(HEADER_LEN)] *)
                      encoded ← slice 0 (Z.to_nat frame_len) source;
                      rest ← slice_from (Z.to_nat frame_len) source;
                      p ← slice_from 8 encoded;
                      Some (Ok (Some {| frame_type := ftype; channel := chan;
                                        frame_payload := p |}), rest)
          end
      end.

(** ** Well-formed packets

    What Rust's types say of a packet's integers: [ttl: u8], [flags] built by
    [from_bits], [flow_id] and [conflate_key] of [u64]. *)
Definition wf_header (h : ForwardHeader) : Prop :=
  is_uint 8 (ttl h) ∧ is_uint 32 (flags h) ∧ flags_from_bits (flags h) = Ok (flags h) ∧
  is_uint 64 (flow_id h) ∧ is_uint 64 (conflate_key h).

(** The canonical form [encode] puts a packet in: destinations ascending. *)
Definition canonical_packet (p : ForwardPacket) : ForwardPacket :=
  {| header := header p;
     multicast_destinations := osort (multicast_destinations p);
     payload := payload p |}.
