(* ===== verification/WireFrames.v ===== *)
(** * Properties of link frames (crates/mb-wire, [FrameEncoder]/[FrameDecoder])

    The decoder is total, incremental and the exact inverse of the encoder. *)

From Stdlib Require Import Strings.Byte.
From S2P Require Export Prelude Ord Bytes Types Wire.

(** ** Enumerations and their wire codes *)

Lemma FrameType_try_from_code t : FrameType_try_from (FrameType_code t) = Ok t.
Proof. by destruct t. Qed.
Lemma Channel_try_from_code c : Channel_try_from (Channel_code c) = Ok c.
Proof. by destruct c. Qed.
Lemma FrameType_code_range t : 0 < FrameType_code t < 16.
Proof. destruct t; simpl; lia. Qed.
Lemma Channel_code_range c : 0 ≤ Channel_code c < 16.
Proof. destruct c; simpl; lia. Qed.

Lemma FrameType_code_try_from z t : FrameType_try_from z = Ok t → FrameType_code t = z.
Proof. unfold FrameType_try_from. intros H. split_match_in H; done. Qed.
Lemma Channel_code_try_from z c : Channel_try_from z = Ok c → Channel_code c = z.
Proof. unfold Channel_try_from. intros H. split_match_in H; done. Qed.

(** The version nibble and the type nibble of the first byte. *)
Definition frame_byte0 (t : FrameType) : byte :=
  byte_of_Z (Z.lor (Z.shiftl FRAME_VERSION 4) (FrameType_code t)).

Lemma frame_byte0_version t : Z.shiftr (Z_of_byte (frame_byte0 t)) 4 = FRAME_VERSION.
Proof. by destruct t. Qed.
Lemma frame_byte0_type t : Z.land (Z_of_byte (frame_byte0 t)) 15 = FrameType_code t.
Proof. by destruct t. Qed.
Lemma frame_byte0_inv b t :
  Z.shiftr (Z_of_byte b) 4 = FRAME_VERSION →
  FrameType_try_from (Z.land (Z_of_byte b) 15) = Ok t → b = frame_byte0 t.
Proof.
  intros Hv Ht%FrameType_code_try_from. pose proof (Z_of_byte_range b).
  rewrite Z.shiftr_div_pow2 in Hv by lia. rewrite (Z.land_ones _ 4) in Ht by lia.
  apply Z_of_byte_inj. transitivity (16 + FrameType_code t); [|by destruct t].
  change (2 ^ 4) with 16 in *. unfold FRAME_VERSION in *. dlia.
Qed.

(** ** The encoder *)

Definition frame_header (f : WireFrame) : bytes :=
  [frame_byte0 (frame_type f); byte_of_Z (Channel_code (channel f)); byte_of_Z 0; byte_of_Z 0]
  ++ be_bytes 4 (zlen (frame_payload f)).

Lemma frame_encode_Ok f bs :
  frame_encode f = Ok bs ↔
  bs = frame_header f ++ frame_payload f ∧ zlen (frame_payload f) ≤ MAX_PAYLOAD_LEN.
Proof.
  unfold frame_encode, frame_header. destruct (Z.ltb_spec MAX_PAYLOAD_LEN (zlen (frame_payload f))).
  - split; [done|]. intros [_ ?]. lia.
  - unfold wrap. rewrite Z.mod_small.
    + rewrite <-app_assoc. naive_solver.
    + pose proof (zlen_nonneg (frame_payload f)). unfold MAX_PAYLOAD_LEN in *. lia.
Qed.

Lemma length_frame_header f : length (frame_header f) = 8%nat.
Proof. done. Qed.

(** ** The decoder on an encoded frame *)

Lemma frame_decode_app f rest :
  zlen (frame_payload f) ≤ MAX_PAYLOAD_LEN →
  frame_decode (frame_header f ++ frame_payload f ++ rest) = Some (Ok (Some f), rest).
Proof.
  intros Hlen. set (src := _ ++ _).
  assert (zlen src = 8 + zlen (frame_payload f) + zlen rest) as Hsrc.
  { unfold src. rewrite !zlen_app. unfold zlen at 1. rewrite length_frame_header. lia. }
  pose proof (zlen_nonneg (frame_payload f)). pose proof (zlen_nonneg rest).
  unfold frame_decode. destruct (Z.ltb_spec (zlen src) HEADER_LEN); [unfold HEADER_LEN in *; lia|].
  change (src !! 0%nat) with (Some (frame_byte0 (frame_type f))).
  change (src !! 1%nat) with (Some (byte_of_Z (Channel_code (channel f)))).
  change (src !! 2%nat) with (Some (byte_of_Z 0)).
  change (src !! 3%nat) with (Some (byte_of_Z 0)).
  cbn [mbind option_bind]. rewrite frame_byte0_version, frame_byte0_type, FrameType_try_from_code.
  rewrite Z.eqb_refl. cbn [negb]. rewrite Z_of_byte_of_Z, Z.mod_small
    by (pose proof (Channel_code_range (channel f)); lia).
  rewrite Channel_try_from_code. cbn [negb].
  change (Z_of_byte (byte_of_Z 0) =? 0) with true. cbn [negb].
  assert (slice 4 8 src = Some (be_bytes 4 (zlen (frame_payload f)))) as ->.
  { by apply (slice_mid 4 8 (take 4 (frame_header f)) _ (frame_payload f ++ rest)). }
  cbn [mbind option_bind]. rewrite be_value_be_bytes
    by (unfold is_uint, MAX_PAYLOAD_LEN in *; lia).
  destruct (Z.ltb_spec MAX_PAYLOAD_LEN (zlen (frame_payload f))); [lia|].
  destruct (Z.ltb_spec (zlen src) (HEADER_LEN + zlen (frame_payload f)));
    [unfold HEADER_LEN in *; lia|].
  assert (length (frame_header f ++ frame_payload f)
          = Z.to_nat (HEADER_LEN + zlen (frame_payload f))) as Hl.
  { rewrite length_app, length_frame_header. unfold HEADER_LEN, zlen. lia. }
  unfold src. rewrite app_assoc.
  rewrite slice_pre, slice_from_app by done. cbn [mbind option_bind].
  rewrite slice_from_app by done. by destruct f.
Qed.

(** A buffer that starts with a valid header. *)
Lemma frame_decode_Some src f rest :
  frame_decode src = Some (Ok (Some f), rest) →
  src = frame_header f ++ frame_payload f ++ rest ∧ zlen (frame_payload f) ≤ MAX_PAYLOAD_LEN.
Proof.
  unfold frame_decode. intros H.
  destruct src as [|b0 [|b1 [|b2 [|b3 [|l0 [|l1 [|l2 [|l3 tl]]]]]]]]; try done.
  destruct (Z.ltb_spec (zlen (b0 :: b1 :: b2 :: b3 :: l0 :: l1 :: l2 :: l3 :: tl)) HEADER_LEN)
    as [|Hge]; [done|].
  cbn [lookup list_lookup mbind option_bind] in H.
  destruct (Z.eqb_spec (Z.shiftr (Z_of_byte b0) 4) FRAME_VERSION) as [Hv|]; [|done].
  destruct (FrameType_try_from (Z.land (Z_of_byte b0) 15)) as [t|] eqn:Ht; [|done].
  destruct (Channel_try_from (Z_of_byte b1)) as [c|] eqn:Hc; [|done].
  destruct (Z.eqb_spec (Z_of_byte b2) 0) as [Hb2|]; [|done].
  destruct (Z.eqb_spec (Z_of_byte b3) 0) as [Hb3|]; [|done]. cbn [negb] in H.
  change (slice 4 8 _) with (Some [l0; l1; l2; l3]) in H. cbn [mbind option_bind] in H.
  remember (be_value [l0; l1; l2; l3]) as n eqn:En.
  assert (0 ≤ n < 2 ^ 32) as Hn by (rewrite En; apply (be_value_range [l0; l1; l2; l3])).
  destruct (Z.ltb_spec MAX_PAYLOAD_LEN n) as [|Hmax]; [done|].
  match type of H with context [if ?x <? ?y then _ else _] =>
    destruct (Z.ltb_spec x y) as [|Hlen]; [done|] end.
  unfold HEADER_LEN, zlen in Hlen. cbn [length] in Hlen.
  replace (Z.to_nat (HEADER_LEN + n)) with (8 + Z.to_nat n)%nat in H
    by (unfold HEADER_LEN; lia).
  rewrite slice_Some, slice_from_Some in H by (cbn [length]; lia).
  cbn [mbind option_bind Nat.sub drop take Nat.add] in H.
  rewrite slice_from_Some in H by (cbn [length]; lia). cbn [drop mbind option_bind] in H.
  injection H as <- <-.
  unfold frame_header; cbn [frame_type channel frame_payload].
  assert (length (take (Z.to_nat n) tl) = Z.to_nat n) as Hl by (rewrite length_take; lia).
  rewrite drop_0. split; [|unfold zlen; lia].
  rewrite (take_drop (Z.to_nat n) tl). rewrite <-(frame_byte0_inv b0 t Hv Ht).
  apply Channel_code_try_from in Hc. rewrite Hc, byte_of_Z_of_byte.
  apply (f_equal byte_of_Z) in Hb2, Hb3. rewrite byte_of_Z_of_byte in Hb2, Hb3. subst b2 b3.
  unfold zlen. rewrite Hl, Z2Nat.id by lia.
  change 4%nat with (length [l0; l1; l2; l3]). rewrite En, be_bytes_be_value. done.
Qed.

(** The decoder never indexes out of range, and only a decoded frame
    consumes input. *)
Lemma frame_decode_is_Some src :
  ∃ r rest, frame_decode src = Some (r, rest) ∧ ((∀ f, r ≠ Ok (Some f)) → rest = src).
Proof.
  unfold frame_decode.
  destruct (Z.ltb_spec (zlen src) HEADER_LEN) as [|Hge]; [eauto|].
  destruct src as [|b0 [|b1 [|b2 [|b3 [|l0 [|l1 [|l2 [|l3 tl]]]]]]]]; try done.
  cbn [lookup list_lookup mbind option_bind].
  destruct (negb (_ =? FRAME_VERSION)); [eauto|].
  destruct (FrameType_try_from _) as [t|]; [|eauto].
  destruct (Channel_try_from _) as [c|]; [|eauto].
  destruct (negb (Z_of_byte b2 =? 0)); [eauto|].
  destruct (negb (Z_of_byte b3 =? 0)); [eauto|].
  change (slice 4 8 _) with (Some [l0; l1; l2; l3]). cbn [mbind option_bind].
  pose proof (be_value_range [l0; l1; l2; l3]) as Hn.
  destruct (Z.ltb_spec MAX_PAYLOAD_LEN (be_value [l0; l1; l2; l3])); [eauto|].
  match goal with |- context [if ?x <? ?y then _ else _] =>
    destruct (Z.ltb_spec x y) as [|Hlen]; [eauto|] end.
  unfold zlen, HEADER_LEN in Hlen.
  rewrite slice_Some, slice_from_Some by (unfold HEADER_LEN; lia).
  cbn [mbind option_bind]. rewrite slice_from_Some.
  - cbn [mbind option_bind]. do 2 eexists. split; [done|]. intros Hf. by destruct (Hf _ eq_refl).
  - rewrite length_take, length_drop. unfold HEADER_LEN. lia.
Qed.

(** Errors found in the first eight bytes do not depend on what follows. *)
Lemma frame_decode_Err_app src e more :
  frame_decode src = Some (Err e, src) →
  frame_decode (src ++ more) = Some (Err e, src ++ more).
Proof.
  unfold frame_decode.
  destruct (Z.ltb_spec (zlen src) HEADER_LEN) as [|Hge]; [done|].
  destruct (Z.ltb_spec (zlen (src ++ more)) HEADER_LEN) as [Hlt|].
  { rewrite zlen_app in Hlt. pose proof (zlen_nonneg more). lia. }
  destruct src as [|b0 [|b1 [|b2 [|b3 [|l0 [|l1 [|l2 [|l3 tl]]]]]]]]; try done.
  cbn [app lookup list_lookup mbind option_bind].
  change (slice 4 8 (_ :: _)) with (Some [l0; l1; l2; l3]).
  change (slice 4 8 (_ :: _)) with (Some [l0; l1; l2; l3]).
  cbn [mbind option_bind]. intros Hd. split_match_in Hd; try done.
  all: unfold slice, slice_from in Hd; split_match_in Hd; done.
Qed.

(** ** Claims *)

(** C38: The frame decoder inverts the encoder exactly: it takes a frame off a
    buffer and leaves a remainder if and only if the buffer is the encoding of
    that frame followed by that remainder. *)
Theorem frame_decode_exact src f rest :
  frame_decode src = Some (Ok (Some f), rest) ↔
  ∃ bs, frame_encode f = Ok bs ∧ src = bs ++ rest.
Proof.
  split.
  - intros [-> Hlen]%frame_decode_Some. eexists. rewrite frame_encode_Ok, <-app_assoc. eauto.
  - intros (bs & [-> Hlen]%frame_encode_Ok & ->). rewrite <-app_assoc. by apply frame_decode_app.
Qed.

(** Decoding is incremental: a proper prefix of an encoded frame yields
    neither a frame nor an error, and stays in the buffer as it is. *)
Theorem frame_decode_incremental f bs pre suf :
  frame_encode f = Ok bs → bs = pre ++ suf → suf ≠ [] →
  frame_decode pre = Some (Ok None, pre).
Proof.
  intros Hf -> Hsuf. destruct (frame_decode_is_Some pre) as ([[g|]|e] & rest & Hd & Hrest).
  - apply frame_decode_Some in Hd as [-> Hlen].
    pose proof (frame_decode_app g (rest ++ suf) Hlen) as H1.
    apply frame_encode_Ok in Hf as [Hbs Hf].
    pose proof (frame_decode_app f [] Hf) as H2. rewrite app_nil_r, <-Hbs in H2.
    rewrite <-!app_assoc in H2. rewrite H2 in H1. simplify_eq. by destruct rest.
  - rewrite Hd. by rewrite Hrest.
  - rewrite Hrest in Hd by done.
    pose proof (frame_decode_Err_app _ _ suf Hd) as H1.
    apply frame_encode_Ok in Hf as [Hbs Hf].
    pose proof (frame_decode_app f [] Hf) as H2. rewrite app_nil_r, <-Hbs in H2. congruence.
Qed.
