(* ===== verification/WirePackets.v ===== *)
(** * Properties of multicast payloads and forward packets (crates/mb-wire) *)

From Stdlib Require Import Strings.Byte.
From S2P Require Export Prelude Ord Bytes Types Wire.

(** ** Destination lists *)

Lemma first_repeat_NoDup l : NoDup l → first_repeat l = None.
Proof.
  induction l as [|a [|b l] IH]; [done..|]. intros [Ha Hl]%NoDup_cons.
  cbn. case_decide; [subst; set_solver|]. by apply IH.
Qed.
Lemma first_repeat_sorted l :
  StronglySorted ole l → first_repeat l = None → StronglySorted olt l.
Proof.
  induction 1 as [|a l Hl IH Ha]; [constructor|]. destruct l as [|b l].
  { intros _. by repeat constructor. }
  cbn. case_decide as Hab; [done|]. intros Hn. specialize (IH Hn).
  constructor; [done|]. inversion Ha as [|?? Hb Hbl]; subst.
  assert (olt a b) as Hlt by (by apply ole_lt_eq in Hb as [|]).
  constructor; [done|]. inversion IH as [|?? _ HF]; subst.
  eapply Forall_impl; [exact HF|]. intros c. apply transitivity, Hlt.
Qed.

Lemma canonicalize_Ok ds ds' :
  canonicalize_destinations ds = Ok ds' ↔
  ds ≠ [] ∧ zlen ds ≤ MAX_MULTICAST_DESTINATIONS ∧ NoDup ds ∧ ds' = osort ds.
Proof.
  unfold canonicalize_destinations. case_bool_decide as Hnil; [naive_solver|].
  destruct (Z.ltb_spec MAX_MULTICAST_DESTINATIONS (zlen ds)) as [|Hlen].
  { split; [done|]. intros (_ & ? & _). lia. }
  destruct (first_repeat (osort ds)) as [d|] eqn:E.
  - split; [done|]. intros (_ & _ & Hnd & _).
    rewrite <-(osort_perm ds) in Hnd. by rewrite first_repeat_NoDup in E.
  - assert (NoDup ds) as Hnd.
    { rewrite <-(osort_perm ds). eapply ssorted_lt_NoDup, first_repeat_sorted, E.
      apply osort_sorted. }
    naive_solver.
Qed.

(** Canonical lists are fixed points. *)
Lemma canonicalize_osort ds ds' :
  canonicalize_destinations ds = Ok ds' → canonicalize_destinations ds' = Ok ds'.
Proof.
  rewrite !canonicalize_Ok. intros (Hn & Hl & Hnd & ->). repeat split.
  - intros E. apply Hn. apply Permutation_nil_r. by rewrite <-E, osort_perm.
  - by rewrite (zlen_perm _ _ (osort_perm ds)).
  - by rewrite osort_perm.
  - symmetry. apply osort_id, osort_sorted.
Qed.

Lemma multicast_prefix_len_small n :
  0 ≤ n ≤ MAX_MULTICAST_DESTINATIONS → multicast_prefix_len n = 2 + 32 * n.
Proof.
  unfold multicast_prefix_len, sat_add, sat_mul, u_max, MULTICAST_COUNT_LEN, NODE_ID_LEN,
    MAX_MULTICAST_DESTINATIONS. lia.
Qed.

(** What [MulticastPayload::new] accepts, and what it builds. *)
Definition multicast_ok (ds : list NodeId) (b : bytes) : Prop :=
  ds ≠ [] ∧ zlen ds ≤ MAX_MULTICAST_DESTINATIONS ∧ NoDup ds ∧
  2 + 32 * zlen ds + zlen b ≤ MAX_FORWARD_PAYLOAD_LEN.

Lemma multicast_new_Ok ds b p :
  MulticastPayload_new ds b = Ok p ↔
  multicast_ok ds b ∧ p = {| destinations := osort ds; body := b |}.
Proof.
  unfold MulticastPayload_new, multicast_ok.
  destruct (canonicalize_destinations ds) as [ds'|e] eqn:E.
  - apply canonicalize_Ok in E as (Hn & Hl & Hnd & ->).
    rewrite (zlen_perm _ _ (osort_perm ds)), multicast_prefix_len_small
      by (split; [apply zlen_nonneg|done]).
    match goal with |- context [if ?x <? ?y then _ else _] =>
      destruct (Z.ltb_spec x y) as [Hlt|Hge] end;
    unfold sat_add, u_max, MAX_FORWARD_PAYLOAD_LEN, MAX_PAYLOAD_LEN, FORWARD_HEADER_LEN in *.
    + split; [done|]. intros [(_ & _ & _ & ?) _]. lia.
    + split; [intros [= <-]; repeat split; try done; lia|]. intros [_ ->]. done.
  - split; [done|]. intros [(Hn & Hl & Hnd & _) _].
    assert (canonicalize_destinations ds = Ok (osort ds)) as E' by by apply canonicalize_Ok.
    congruence.
Qed.

Lemma osort_nonempty (ds : list NodeId) : ds ≠ [] → osort ds ≠ [].
Proof. intros Hn E. apply Hn, Permutation_nil_r. by rewrite <-E, osort_perm. Qed.
Lemma zlen_osort (ds : list NodeId) : zlen (osort ds) = zlen ds.
Proof. apply zlen_perm, osort_perm. Qed.
Lemma multicast_ok_osort ds b : multicast_ok ds b → multicast_ok (osort ds) b.
Proof.
  intros (Hn & Hl & Hnd & Hlen). unfold multicast_ok. rewrite zlen_osort.
  split; [by apply osort_nonempty|]. by rewrite osort_perm.
Qed.

(** ** The multicast codec *)

Lemma length_bind_as_bytes (ds : list NodeId) :
  length (ds ≫= as_bytes) = (32 * length ds)%nat.
Proof.
  induction ds as [|d ds IH]; [done|]. cbn. rewrite length_app, length_as_bytes, IH. lia.
Qed.

Definition multicast_wire (ds : list NodeId) (b : bytes) : bytes :=
  be_bytes 2 (zlen ds) ++ (ds ≫= as_bytes) ++ b.

Lemma zlen_multicast_wire ds b : zlen (multicast_wire ds b) = 2 + 32 * zlen ds + zlen b.
Proof.
  unfold multicast_wire, zlen. rewrite !length_app, length_be_bytes, length_bind_as_bytes. lia.
Qed.

Abbreviation read_node l :=
  (λ index : nat, raw ← slice (2 + index * 32) (2 + index * 32 + 32) l; from_bytes raw).

Lemma read_nodes_app ds : ∀ k pre post,
  length pre = (2 + k * 32)%nat →
  mapM (read_node (pre ++ (ds ≫= as_bytes) ++ post)) (seq k (length ds)) = Some ds.
Proof.
  induction ds as [|d ds IH]; intros k pre post Hpre; [done|]. cbn.
  rewrite <-app_assoc.
  rewrite (slice_mid _ _ pre (as_bytes d)) by (rewrite ?length_as_bytes; lia).
  cbn. rewrite from_bytes_as_bytes. cbn.
  specialize (IH (S k) (pre ++ as_bytes d) post).
  rewrite <-!app_assoc in IH. cbn in IH. rewrite IH; [done|].
  rewrite length_app, length_as_bytes. lia.
Qed.

Lemma read_nodes_inv l ds n : ∀ k,
  mapM (read_node l) (seq k n) = Some ds →
  length ds = n ∧ (ds ≫= as_bytes) = take (32 * n) (drop (2 + k * 32) l).
Proof.
  revert ds. induction n as [|n IH]; intros ds k H; cbn [seq mapM mbind option_bind] in H.
  { injection H as <-. by rewrite Nat.mul_0_r, take_0. }
  destruct (slice _ _ l) as [raw|] eqn:Hs; cbn [mbind option_bind] in H; [|done].
  destruct (from_bytes raw) as [d|] eqn:Hd; cbn [mbind option_bind] in H; [|done].
  destruct (mapM _ (seq (S k) n)) as [ds'|] eqn:Hm; cbn [mbind option_bind] in H; [|done].
  injection H as <-. destruct (IH _ _ Hm) as [<- Hds]. split; [done|].
  cbn [mbind list_bind]. apply from_bytes_Some in Hd. rewrite Hds, Hd.
  apply slice_inv in Hs as [Hlen ->].
  replace (2 + k * 32 + 32 - (2 + k * 32))%nat with 32%nat by lia.
  replace (2 + S k * 32)%nat with ((2 + k * 32) + 32)%nat by lia.
  rewrite <-(drop_drop l 32 (2 + k * 32)), take_take_drop. f_equal. lia.
Qed.

Lemma read_nodes_total l k n :
  (2 + (k + n) * 32 ≤ length l)%nat → is_Some (mapM (read_node l) (seq k n)).
Proof.
  revert k. induction n as [|n IH]; intros k Hl; [eauto|].
  cbn [seq mapM mbind option_bind]. rewrite slice_Some by lia. cbn [mbind option_bind].
  destruct (proj2 (from_bytes_is_Some (take (2 + k * 32 + 32 - (2 + k * 32))
                                         (drop (2 + k * 32) l)))) as [d Hd].
  { rewrite length_take, length_drop. lia. }
  rewrite Hd. cbn [mbind option_bind]. destruct (IH (S k)) as [ds Hds]; [lia|].
  rewrite Hds. cbn [mbind option_bind]. eauto.
Qed.

Lemma be_value_2_range b0 b1 : 0 ≤ be_value [b0; b1] < 65536.
Proof. apply (be_value_range [b0; b1]). Qed.

(** Decoding a list of destinations followed by a body. *)
Lemma multicast_decode_wire ds b :
  ds ≠ [] → zlen ds ≤ MAX_MULTICAST_DESTINATIONS →
  2 + 32 * zlen ds + zlen b ≤ MAX_FORWARD_PAYLOAD_LEN →
  MulticastPayload_decode (multicast_wire ds b) = Some (MulticastPayload_new ds b).
Proof.
  intros Hn Hl Hmax. unfold MulticastPayload_decode. rewrite zlen_multicast_wire.
  pose proof (zlen_nonneg b).
  assert (0 < zlen ds) by (destruct ds; [done|]; rewrite zlen_cons; pose proof (zlen_nonneg ds); lia).
  destruct (Z.ltb_spec MAX_FORWARD_PAYLOAD_LEN (2 + 32 * zlen ds + zlen b)); [lia|].
  destruct (Z.ltb_spec (2 + 32 * zlen ds + zlen b) MULTICAST_COUNT_LEN);
    [unfold MULTICAST_COUNT_LEN in *; lia|].
  set (l := multicast_wire ds b).
  change (l !! 0%nat) with (Some (byte_of_Z (Z.shiftr (zlen ds) (8 * Z.of_nat 1)))).
  change (l !! 1%nat) with (Some (byte_of_Z (Z.shiftr (zlen ds) (8 * Z.of_nat 0)))).
  cbn [mbind option_bind].
  change (be_value [_; _]) with (be_value (be_bytes 2 (zlen ds))).
  rewrite be_value_be_bytes by (unfold is_uint, MAX_MULTICAST_DESTINATIONS in *; lia).
  destruct (Z.eqb_spec (zlen ds) 0); [lia|].
  destruct (Z.ltb_spec MAX_MULTICAST_DESTINATIONS (zlen ds)); [lia|].
  rewrite multicast_prefix_len_small by lia.
  destruct (Z.ltb_spec (2 + 32 * zlen ds + zlen b) (2 + 32 * zlen ds)); [lia|].
  replace (Z.to_nat (zlen ds)) with (length ds) by (unfold zlen; lia).
  unfold l, multicast_wire. rewrite read_nodes_app by done. cbn [mbind option_bind].
  rewrite app_assoc, slice_from_app
    by (rewrite length_app, length_bind_as_bytes; unfold zlen; simpl; lia).
  unfold MulticastPayload_new. destruct (canonicalize_destinations ds) as [ds'|] eqn:E; [|done].
  cbn [mbind option_bind]. by rewrite (canonicalize_osort _ _ E).
Qed.

Lemma multicast_decode_shape l :
  (∃ e, MulticastPayload_decode l = Some (Err e)) ∨
  (∃ ds b, l = multicast_wire ds b ∧ ds ≠ [] ∧ zlen ds ≤ MAX_MULTICAST_DESTINATIONS ∧
     2 + 32 * zlen ds + zlen b ≤ MAX_FORWARD_PAYLOAD_LEN).
Proof.
  destruct (Z.ltb_spec MAX_FORWARD_PAYLOAD_LEN (zlen l)) as [Hlt|Hmax].
  { left. unfold MulticastPayload_decode. apply Z.ltb_lt in Hlt. rewrite Hlt. eauto. }
  unfold MulticastPayload_decode. rewrite (proj2 (Z.ltb_ge _ _) Hmax).
  destruct (Z.ltb_spec (zlen l) MULTICAST_COUNT_LEN) as [|H2]; [eauto|].
  destruct l as [|b0 [|b1 tl]]; try done. cbn [lookup list_lookup mbind option_bind].
  pose proof (be_value_2_range b0 b1) as Hr.
  remember (be_value [b0; b1]) as n eqn:En.
  destruct (Z.eqb_spec n 0); [eauto|].
  destruct (Z.ltb_spec MAX_MULTICAST_DESTINATIONS n) as [|Hn]; [eauto|].
  rewrite multicast_prefix_len_small by lia.
  destruct (Z.ltb_spec (zlen (b0 :: b1 :: tl)) (2 + 32 * n)) as [|Hlen]; [eauto|].
  right. unfold zlen in Hlen. cbn [length] in Hlen.
  destruct (read_nodes_total (b0 :: b1 :: tl) 0 (Z.to_nat n)) as [ds Hds]; [cbn [length]; lia|].
  destruct (read_nodes_inv _ _ _ _ Hds) as [Hlds Hbs].
  assert (zlen ds = n) as Hz by (unfold zlen; lia).
  assert (b0 :: b1 :: tl = multicast_wire ds (drop (32 * Z.to_nat n) tl)) as Hl.
  { unfold multicast_wire. rewrite Hz, Hbs, En.
    change 2%nat with (length [b0; b1]). rewrite be_bytes_be_value.
    cbn [Nat.mul Nat.add app drop]. rewrite <-En. by rewrite take_drop. }
  exists ds, (drop (32 * Z.to_nat n) tl). split; [done|]. split; [by intros ->|].
  split; [lia|]. rewrite <-zlen_multicast_wire, <-Hl. done.
Qed.

(** ** Forward packet headers *)

Lemma PacketType_try_from_code t : PacketType_try_from (PacketType_code t) = Ok t.
Proof. by destruct t. Qed.
Lemma PacketType_code_try_from z t : PacketType_try_from z = Ok t → PacketType_code t = z.
Proof. unfold PacketType_try_from. intros H. split_match_in H; done. Qed.
Lemma Priority_try_from_code p : Priority_try_from (Priority_code p) = Ok p.
Proof. by destruct p. Qed.
Lemma Priority_code_try_from z p : Priority_try_from z = Ok p → Priority_code p = z.
Proof. unfold Priority_try_from. intros H. split_match_in H; done. Qed.
Lemma flags_from_bits_Ok z f : flags_from_bits z = Ok f → f = z.
Proof. unfold flags_from_bits. destruct (_ =? 0); naive_solver. Qed.

Lemma length_ForwardHeader_bytes h : length (ForwardHeader_bytes h) = 88%nat.
Proof.
  unfold ForwardHeader_bytes. rewrite !length_app, !length_as_bytes, !length_be_bytes. done.
Qed.

Lemma zlen_ForwardHeader_bytes h : zlen (ForwardHeader_bytes h) = 88.
Proof. unfold zlen. by rewrite length_ForwardHeader_bytes. Qed.

(** The header fields, read back from a header. *)
Lemma ForwardHeader_bytes_slices h w :
  let l := ForwardHeader_bytes h ++ w in
  take 4 l = [byte_of_Z 1; byte_of_Z (PacketType_code (packet_type h));
              byte_of_Z (Priority_code (priority h)); byte_of_Z (ttl h)] ∧
  slice 4 8 l = Some (be_bytes 4 (flags h)) ∧
  slice 8 40 l = Some (as_bytes (destination h)) ∧
  slice 40 72 l = Some (as_bytes (source h)) ∧
  slice 72 80 l = Some (be_bytes 8 (flow_id h)) ∧
  slice 80 88 l = Some (be_bytes 8 (conflate_key h)) ∧
  slice_from 88 l = Some w.
Proof.
  unfold ForwardHeader_bytes.
  set (a := [_; _; _; _]). set (b := be_bytes 4 _). set (c := as_bytes (destination h)).
  set (d := as_bytes (source h)). set (e := be_bytes 8 (flow_id h)). set (f := be_bytes 8 _).
  assert (length b = 4%nat ∧ length c = 32%nat ∧ length d = 32%nat ∧ length e = 8%nat ∧
          length f = 8%nat) as (Hb & Hc & Hd & He & Hf)
    by (unfold b, c, d, e, f; by rewrite !length_as_bytes, !length_be_bytes).
  clearbody b c d e f. rewrite <-!app_assoc. cbn zeta.
  split; [done|]. split; [apply slice_mid; unfold a; simpl; lia|].
  rewrite (app_assoc a b). split; [apply slice_mid; rewrite ?length_app; unfold a; simpl; lia|].
  rewrite (app_assoc _ c). split; [apply slice_mid; rewrite ?length_app; unfold a; simpl; lia|].
  rewrite (app_assoc _ d). split; [apply slice_mid; rewrite ?length_app; unfold a; simpl; lia|].
  rewrite (app_assoc _ e). split; [apply slice_mid; rewrite ?length_app; unfold a; simpl; lia|].
  rewrite (app_assoc _ f). apply slice_from_app. rewrite !length_app. unfold a. simpl. lia.
Qed.

(** The part of [decode] after the header. *)
Definition packet_of_wire (h : ForwardHeader) (w : bytes) :
  option (result ForwardPacket ForwardPacketError) :=
  if decide (packet_type h = Multicast) then
    r ← MulticastPayload_decode w;
    Some (m ←? map_err FpInvalidMulticast r;
          Ok {| header := h; multicast_destinations := destinations m; payload := body m |})
  else Some (Ok {| header := h; multicast_destinations := []; payload := w |}).

Lemma lookup_take_4 {A} (l : list A) a b c d :
  take 4 l = [a; b; c; d] →
  l !! 0%nat = Some a ∧ l !! 1%nat = Some b ∧ l !! 2%nat = Some c ∧ l !! 3%nat = Some d.
Proof. destruct l as [|? [|? [|? [|? ?]]]]; intros [=]; simplify_eq; done. Qed.

Lemma packet_decode_header h w :
  wf_header h → zlen w ≤ MAX_FORWARD_PAYLOAD_LEN →
  ForwardPacket_decode (ForwardHeader_bytes h ++ w) = packet_of_wire h w.
Proof.
  intros (Httl & Hfl & Hflags & Hflow & Hkey) Hw.
  destruct (ForwardHeader_bytes_slices h w) as (H4 & Hs1 & Hs2 & Hs3 & Hs4 & Hs5 & Hs6).
  set (l := ForwardHeader_bytes h ++ w) in *.
  assert (zlen l = 88 + zlen w) as Hlen.
  { unfold l. by rewrite zlen_app, zlen_ForwardHeader_bytes. }
  pose proof (zlen_nonneg w).
  apply lookup_take_4 in H4 as (L0 & L1 & L2 & L3).
  unfold ForwardPacket_decode. rewrite Hlen, L0, L1, L2, L3, Hs1, Hs2, Hs3, Hs4, Hs5, Hs6.
  destruct (Z.ltb_spec (88 + zlen w) FORWARD_HEADER_LEN); [unfold FORWARD_HEADER_LEN in *; lia|].
  rewrite (proj2 (checked_sub_Some (88 + zlen w) FORWARD_HEADER_LEN (zlen w)))
    by (unfold FORWARD_HEADER_LEN; lia).
  cbn [mbind option_bind]. rewrite (proj2 (Z.ltb_ge _ _) Hw).
  rewrite (Z_of_byte_of_Z 1). change (1 mod 256 =? FORWARD_PACKET_VERSION) with true. cbn [negb].
  assert (∀ t, Z_of_byte (byte_of_Z (PacketType_code t)) = PacketType_code t) as -> by by intros [].
  rewrite PacketType_try_from_code.
  assert (∀ t, Z_of_byte (byte_of_Z (Priority_code t)) = Priority_code t) as -> by by intros [].
  rewrite Priority_try_from_code, be_value_be_bytes, Hflags by done.
  rewrite !from_bytes_as_bytes, !be_value_be_bytes, Z_of_byte_of_Z by done.
  rewrite (Z.mod_small (ttl h)) by done.
  unfold packet_of_wire. case_decide.
  - destruct (MulticastPayload_decode w) as [[m|e]|]; cbn; [by destruct h|done..].
  - cbn. by destruct h.
Qed.

(** Any 88 bytes or more are four leading bytes and the fixed fields. *)
Lemma header_split (l : bytes) :
  l = take 4 l ++ take 4 (drop 4 l) ++ take 32 (drop 8 l) ++ take 32 (drop 40 l)
        ++ take 8 (drop 72 l) ++ take 8 (drop 80 l) ++ drop 88 l.
Proof.
  assert (∀ n m, drop n l = take m (drop n l) ++ drop (n + m) l) as Hs.
  { intros n m. rewrite <-drop_drop. symmetry. apply take_drop. }
  transitivity (take 4 l ++ drop 4 l); [by rewrite take_drop|]. f_equal.
  etransitivity; [apply (Hs 4 4)%nat|]. f_equal.
  etransitivity; [apply (Hs 8 32)%nat|]. f_equal.
  etransitivity; [apply (Hs 40 32)%nat|]. f_equal.
  etransitivity; [apply (Hs 72 8)%nat|]. f_equal. apply (Hs 80 8)%nat.
Qed.

(** Decoding any input: an error, or a well-formed header whose bytes the
    input starts with. *)
Lemma packet_decode_shape l :
  (∃ e, ForwardPacket_decode l = Some (Err e)) ∨
  (∃ h w, l = ForwardHeader_bytes h ++ w ∧ wf_header h ∧ zlen w ≤ MAX_FORWARD_PAYLOAD_LEN).
Proof.
  unfold ForwardPacket_decode.
  destruct (Z.ltb_spec (zlen l) FORWARD_HEADER_LEN) as [|Hge]; [left; by eexists|].
  assert (88 ≤ length l)%nat as H88 by (unfold zlen, FORWARD_HEADER_LEN in *; lia).
  rewrite (proj2 (checked_sub_Some _ _ (zlen l - FORWARD_HEADER_LEN))) by lia.
  cbn [mbind option_bind].
  destruct (Z.ltb_spec MAX_FORWARD_PAYLOAD_LEN (zlen l - FORWARD_HEADER_LEN)) as [|Hmax]; [left; by eexists|].
  assert (∃ b0 b1 b2 b3, take 4 l = [b0; b1; b2; b3]) as (b0 & b1 & b2 & b3 & H4).
  { destruct l as [|? [|? [|? [|? ?]]]]; simpl in H88; try lia. cbn. eauto. }
  destruct (lookup_take_4 _ _ _ _ _ H4) as (-> & -> & -> & ->). cbn [mbind option_bind].
  destruct (Z.eqb_spec (Z_of_byte b0) FORWARD_PACKET_VERSION) as [Hv|]; cbn [negb]; [|left; by eexists].
  destruct (PacketType_try_from (Z_of_byte b1)) as [t|e] eqn:Ht; [|left; by eexists].
  destruct (Priority_try_from (Z_of_byte b2)) as [p|e] eqn:Hp; [|left; by eexists].
  rewrite (slice_Some 4 8) by lia. cbn [mbind option_bind Nat.sub].
  destruct (flags_from_bits (be_value (take 4 (drop 4 l)))) as [fl|e] eqn:Hfl; [|left; by eexists].
  assert (∀ n m, (m ≤ length l - n)%nat → length (take m (drop n l)) = m) as Htl.
  { intros n m Hm. rewrite length_take, length_drop. lia. }
  destruct (proj2 (from_bytes_is_Some (take 32 (drop 8 l)))) as [dst Hdst]; [apply Htl; lia|].
  destruct (proj2 (from_bytes_is_Some (take 32 (drop 40 l)))) as [src Hsrc]; [apply Htl; lia|].
  right. exists {| packet_type := t; priority := p; ttl := Z_of_byte b3; flags := fl;
            destination := dst; source := src; flow_id := be_value (take 8 (drop 72 l));
            conflate_key := be_value (take 8 (drop 80 l)) |}, (drop 88 l).
  pose proof (flags_from_bits_Ok _ _ Hfl) as ->.
  apply from_bytes_Some in Hdst, Hsrc. apply PacketType_code_try_from in Ht.
  apply Priority_code_try_from in Hp. split; [|split].
  - rewrite (header_split l) at 1. rewrite H4. unfold ForwardHeader_bytes. cbn [packet_type
      priority ttl flags destination source flow_id conflate_key].
    rewrite Ht, Hp, <-Hv, !byte_of_Z_of_byte, Hdst, Hsrc, <-!app_assoc.
    pose proof (be_bytes_be_value (take 4 (drop 4 l))) as E1. rewrite Htl in E1 by lia.
    pose proof (be_bytes_be_value (take 8 (drop 72 l))) as E2. rewrite Htl in E2 by lia.
    pose proof (be_bytes_be_value (take 8 (drop 80 l))) as E3. rewrite Htl in E3 by lia.
    by rewrite E1, E2, E3.
  - pose proof (Z_of_byte_range b3).
    pose proof (be_value_range (take 4 (drop 4 l))) as R1. rewrite Htl in R1 by lia.
    pose proof (be_value_range (take 8 (drop 72 l))) as R2. rewrite Htl in R2 by lia.
    pose proof (be_value_range (take 8 (drop 80 l))) as R3. rewrite Htl in R3 by lia.
    unfold wf_header, is_uint. cbn [flags ttl flow_id conflate_key].
    repeat split; try done; lia.
  - unfold zlen, FORWARD_HEADER_LEN in *. rewrite length_drop. lia.
Qed.

(** ** The encoder *)

Lemma wire_payload_Ok p w :
  wire_payload p = Ok w ↔
  (packet_type (header p) = Multicast ∧
   multicast_ok (multicast_destinations p) (payload p) ∧
   w = multicast_wire (osort (multicast_destinations p)) (payload p)) ∨
  (packet_type (header p) ≠ Multicast ∧ multicast_destinations p = [] ∧ w = payload p).
Proof.
  unfold wire_payload. case_decide as Ht.
  - destruct (MulticastPayload_new _ _) as [m|e] eqn:E; cbn.
    + apply multicast_new_Ok in E as [Hok ->]. unfold MulticastPayload_encode, multicast_wire. cbn.
      unfold wrap. rewrite Z.mod_small; [naive_solver|].
      destruct Hok as (_ & Hl & _). rewrite (zlen_perm _ _ (osort_perm _)).
      pose proof (zlen_nonneg (multicast_destinations p)).
      unfold MAX_MULTICAST_DESTINATIONS in *. lia.
    + split; [done|]. intros [(_ & Hok & _)|?]; [|naive_solver].
      by rewrite (proj2 (multicast_new_Ok _ _ _) (conj Hok eq_refl)) in E.
  - case_bool_decide; naive_solver.
Qed.

Lemma packet_encode_Ok p bs :
  ForwardPacket_encode p = Ok bs ↔
  ∃ w, wire_payload p = Ok w ∧ zlen w ≤ MAX_FORWARD_PAYLOAD_LEN ∧
       bs = ForwardHeader_bytes (header p) ++ w.
Proof.
  unfold ForwardPacket_encode. destruct (wire_payload p) as [w|]; [|naive_solver].
  destruct (Z.ltb_spec MAX_FORWARD_PAYLOAD_LEN (zlen w)); [|naive_solver].
  split; [done|]. intros (? & [= <-] & ? & _). lia.
Qed.

(** The size the queues account for is the size on the wire. *)
Lemma packet_encoded_len_exact p bs :
  ForwardPacket_encode p = Ok bs →
  ForwardPacket_encoded_len p = zlen bs ∧ zlen bs ≤ MAX_PAYLOAD_LEN.
Proof.
  intros (w & Hw & Hmax & ->)%packet_encode_Ok.
  rewrite zlen_app, zlen_ForwardHeader_bytes.
  unfold ForwardPacket_encoded_len. pose proof (zlen_nonneg (payload p)).
  pose proof (zlen_nonneg (multicast_destinations p)).
  apply wire_payload_Ok in Hw as [(Ht & Hok & ->)|(Ht & Hd & ->)];
    case_decide; try done; unfold MAX_FORWARD_PAYLOAD_LEN in Hmax.
  - rewrite zlen_multicast_wire, zlen_osort in *.
    destruct Hok as (_ & Hl & _ & _). rewrite multicast_prefix_len_small by lia.
    unfold sat_add, u_max, FORWARD_HEADER_LEN, MAX_PAYLOAD_LEN in *. lia.
  - unfold sat_add, u_max, FORWARD_HEADER_LEN, MAX_PAYLOAD_LEN in *. lia.
Qed.

(** Decoding what was encoded, and re-encoding what was decoded. *)
Lemma packet_decode_encode p bs :
  wf_header (header p) → ForwardPacket_encode p = Ok bs →
  ForwardPacket_decode bs = Some (Ok (canonical_packet p)).
Proof.
  intros Hwf (w & Hw & Hmax & ->)%packet_encode_Ok.
  rewrite packet_decode_header by done. unfold packet_of_wire, canonical_packet.
  apply wire_payload_Ok in Hw as [(Ht & Hok%multicast_ok_osort & ->)|(Ht & Hd & ->)];
    case_decide; try done; [|by rewrite Hd].
  rewrite multicast_decode_wire by apply Hok.
  rewrite (proj2 (multicast_new_Ok _ _ _) (conj Hok eq_refl)). cbn.
  by rewrite (osort_id (osort _)) by apply osort_sorted.
Qed.

Lemma packet_decode_inv l :
  ∃ r, ForwardPacket_decode l = Some r ∧
    ∀ p, r = Ok p →
      wf_header (header p) ∧
      ∃ bs, ForwardPacket_encode p = Ok bs ∧ zlen bs = zlen l ∧
        (packet_type (header p) ≠ Multicast → bs = l) ∧
        (packet_type (header p) = Multicast →
         ∃ ds, ds ≡ₚ multicast_destinations p ∧
           l = ForwardHeader_bytes (header p) ++ multicast_wire ds (payload p)).
Proof.
  destruct (packet_decode_shape l) as [(e & He)|(h & w & -> & Hwf & Hw)]; [naive_solver|].
  rewrite packet_decode_header by done. unfold packet_of_wire. case_decide as Ht.
  - destruct (multicast_decode_shape w) as [(e & ->)|(ds & b & -> & Hn & Hl & Hlen)];
      [naive_solver|].
    rewrite multicast_decode_wire by done.
    destruct (MulticastPayload_new ds b) as [m|e] eqn:E; [|naive_solver].
    apply multicast_new_Ok in E as [Hok ->]. eexists. split; [done|].
    intros p [= <-]. cbn [header multicast_destinations payload]. split; [done|].
    exists (ForwardHeader_bytes h ++ multicast_wire (osort (osort ds)) b).
    split; [|split; [|split; [done|]]].
    + apply packet_encode_Ok. exists (multicast_wire (osort (osort ds)) b).
      split; [apply wire_payload_Ok; left|split; [|reflexivity]].
      * split; [done|]. split; [by apply multicast_ok_osort|reflexivity].
      * by rewrite zlen_multicast_wire, !zlen_osort.
    + by rewrite !zlen_app, !zlen_multicast_wire, !zlen_osort.
    + intros _. exists ds. by rewrite osort_perm.
  - eexists. split; [done|]. intros p [= <-]. cbn. split; [done|].
    exists (ForwardHeader_bytes h ++ w). repeat split; try done.
    apply packet_encode_Ok. exists w. repeat split; try done.
    apply wire_payload_Ok. right. done.
Qed.

(** ** Claims *)

(** C36: Forward packets round trip: a packet that encodes decodes to itself with
    its multicast destinations in ascending order, and the length the queues
    account for is exactly the length on the wire, at most 1 MiB. *)
Theorem forward_packet_roundtrip p bs :
  wf_header (header p) → ForwardPacket_encode p = Ok bs →
  ForwardPacket_decode bs = Some (Ok (canonical_packet p)) ∧
  ForwardPacket_encoded_len p = zlen bs ∧ zlen bs ≤ MAX_PAYLOAD_LEN.
Proof.
  intros Hwf He. split; [by apply packet_decode_encode|by apply packet_encoded_len_exact].
Qed.

(** C37: Decoding arbitrary bytes as a packet never panics.  A packet that is
    accepted has a well-typed header and re-encodes to the same number of
    bytes: to the same bytes, except that multicast destinations may be
    reordered. *)
Theorem forward_packet_decode_sound l :
  ∃ r, ForwardPacket_decode l = Some r ∧
    ∀ p, r = Ok p →
      wf_header (header p) ∧
      ∃ bs, ForwardPacket_encode p = Ok bs ∧ zlen bs = zlen l ∧
        (packet_type (header p) ≠ Multicast → bs = l) ∧
        (packet_type (header p) = Multicast →
         ∃ ds, ds ≡ₚ multicast_destinations p ∧
           l = ForwardHeader_bytes (header p) ++ multicast_wire ds (payload p)).
Proof. apply packet_decode_inv. Qed.
