(* ===== verification/Transport.v ===== *)
(** * The TCP transport (crates/mb-transport)

    [TcpEndpoint]: its listener, its connections and the links they become.

    The tasks of the endpoint run concurrently and meet in the shared [Inner].
    Here every task is a phase of a connection, the code between two [await]s
    is one step, and a step that would still have to wait is not enabled; an
    execution is any sequence of steps.  The sockets are the environment:
    what [read_buf] yields, whether [write_all] succeeds and how much it wrote
    before it failed are arguments of the steps.  The generated codec of
    [LinkHello] is a parameter. *)

From Stdlib Require Import Strings.Byte.
From S2P Require Export Prelude Ord Bytes Types Proto Wire WireFrames.
Open Scope Z_scope.

(** ** Data *)

Definition LINK_QUEUE_CAPACITY : Z := 8.
Definition EVENT_QUEUE_CAPACITY : Z := 256.

Inductive LinkEvent :=
| LeUp (link : LinkId) (peer : NodeId)
| LeDown (link : LinkId)
| LeFrame (link : LinkId) (frame : WireFrame)
| LeSent (link : LinkId) (t : FrameType) (c : Channel) (payload_bytes : Z).
#[global] Instance LinkEvent_eq_dec : EqDecision LinkEvent.
Proof. solve_decision. Defined.

(** Errors of the sockets and of [prost] by their texts. *)
Inductive TransportError :=
| TeIo (error : rstring)
| TeWire (error : FrameError)
| TeProtobuf (error : rstring)
| UnexpectedEndOfStream
| ExpectedLinkHello
| UnsupportedProtocolVersion (version : Z)
| TeInvalidNodeIdLength (length : Z)
| PeerMismatch (expected actual : NodeId)
| PeerNotAllowed (peer : NodeId)
| LinkIdExhausted
| UnknownLink (link : LinkId)
| LinkClosed (link : LinkId).
#[global] Instance TransportError_eq_dec : EqDecision TransportError.
Proof. solve_decision. Defined.

Inductive LinkCommand := LcSend (frame : WireFrame) | LcClose.

(** Where a connection is: in [exchange_hello], in the rest of
    [attach_stream], in [run_link], or over. *)
Inductive Phase :=
| PhHello
| PhGreeting (buffered : bytes)
| PhIdentified (peer : NodeId) (buffered : bytes)
| PhNumbered (link : LinkId) (peer : NodeId) (buffered : bytes)
| PhRegistered (link : LinkId) (peer : NodeId) (buffered : bytes)
| PhWithdrawing (link : LinkId)
| PhSpawned (link : LinkId) (buffered : bytes)
| PhReading (link : LinkId) (buffered : bytes)
| PhWaiting (link : LinkId) (buffered : bytes)
| PhReporting (link : LinkId) (buffered : bytes) (frame : WireFrame)
| PhClosing (link : LinkId)
| PhLeaving (link : LinkId)
| PhEnded.

(** A connection: the peer it was opened for, its phase, what
    [attach_stream] returned, whether [run_link] subscribed to the shutdown
    signal after it was given; and its history: the link and the peer it
    got, the bytes read and written, the frames written. *)
Record Conn := {
  k_expected : option NodeId;
  k_phase : Phase;
  k_attached : option (result LinkId TransportError);
  k_late : bool;
  k_link : option LinkId;
  k_incoming : bytes;
  k_outgoing : bytes;
  k_written : list WireFrame;
}.
Definition Conn_new (expected : option NodeId) : Conn :=
  {| k_expected := expected; k_phase := PhHello; k_attached := None; k_late := false;
     k_link := None; k_incoming := []; k_outgoing := []; k_written := [] |}.

Inductive Task := TkAccept | TkAttach (c : nat) | TkWorker (c : nat).
#[global] Instance Task_eq_dec : EqDecision Task.
Proof. solve_decision. Defined.
#[global] Instance Task_countable : Countable Task.
Proof.
  refine (inj_countable
    (λ t, match t with TkAccept => inl () | TkAttach c => inr (inl c) | TkWorker c => inr (inr c) end)
    (λ x, Some match x with inl _ => TkAccept | inr (inl c) => TkAttach c | inr (inr c) => TkWorker c end) _).
  by intros [].
Defined.

(** [Inner], the connections, and the receiver of the events.  A link's
    sender is in [links] as long as the link is listed; its channel lives as
    long as the receiver in the task.  [ep_delivered] and [ep_enqueued] are
    the history of what was received and enqueued. *)
Record Endpoint := {
  ep_local : NodeId;
  ep_allowed : gset NodeId;
  ep_next_link : Z;
  ep_links : gset LinkId;
  ep_link_count : Z;
  ep_channels : gmap LinkId (list LinkCommand);
  ep_enqueued : gmap LinkId (list LinkCommand);
  ep_queue : list LinkEvent;
  ep_delivered : list LinkEvent;
  ep_receiving : bool;
  ep_shutdown : bool;
  ep_accepting : bool;
  ep_tasks : gset Task;
  ep_aborting : gset Task;
  ep_conns : list Conn;
}.

(** [TcpEndpoint::bind], once the listener is bound. *)
Definition bind (local : NodeId) (allowed : list NodeId) : Endpoint :=
  {| ep_local := local; ep_allowed := list_to_set allowed; ep_next_link := 1; ep_links := ∅;
     ep_link_count := 0; ep_channels := ∅; ep_enqueued := ∅; ep_queue := []; ep_delivered := [];
     ep_receiving := true; ep_shutdown := false; ep_accepting := true; ep_tasks := {[TkAccept]};
     ep_aborting := ∅; ep_conns := [] |}.

(** Everything ever reported. *)
Definition events (e : Endpoint) : list LinkEvent := ep_delivered e ++ ep_queue e.

(** ** Updates *)

Definition set_conns (e : Endpoint) (l : list Conn) : Endpoint :=
  {| ep_local := ep_local e; ep_allowed := ep_allowed e; ep_next_link := ep_next_link e;
     ep_links := ep_links e; ep_link_count := ep_link_count e; ep_channels := ep_channels e;
     ep_enqueued := ep_enqueued e; ep_queue := ep_queue e; ep_delivered := ep_delivered e;
     ep_receiving := ep_receiving e; ep_shutdown := ep_shutdown e; ep_accepting := ep_accepting e;
     ep_tasks := ep_tasks e; ep_aborting := ep_aborting e; ep_conns := l |}.
Definition set_allowed (e : Endpoint) (a : gset NodeId) : Endpoint :=
  {| ep_local := ep_local e; ep_allowed := a; ep_next_link := ep_next_link e;
     ep_links := ep_links e; ep_link_count := ep_link_count e; ep_channels := ep_channels e;
     ep_enqueued := ep_enqueued e; ep_queue := ep_queue e; ep_delivered := ep_delivered e;
     ep_receiving := ep_receiving e; ep_shutdown := ep_shutdown e; ep_accepting := ep_accepting e;
     ep_tasks := ep_tasks e; ep_aborting := ep_aborting e; ep_conns := ep_conns e |}.
Definition set_next_link (e : Endpoint) (n : Z) : Endpoint :=
  {| ep_local := ep_local e; ep_allowed := ep_allowed e; ep_next_link := n;
     ep_links := ep_links e; ep_link_count := ep_link_count e; ep_channels := ep_channels e;
     ep_enqueued := ep_enqueued e; ep_queue := ep_queue e; ep_delivered := ep_delivered e;
     ep_receiving := ep_receiving e; ep_shutdown := ep_shutdown e; ep_accepting := ep_accepting e;
     ep_tasks := ep_tasks e; ep_aborting := ep_aborting e; ep_conns := ep_conns e |}.
(** [links] changes together with the watched [link_count]. *)
Definition set_links (e : Endpoint) (s : gset LinkId) : Endpoint :=
  {| ep_local := ep_local e; ep_allowed := ep_allowed e; ep_next_link := ep_next_link e;
     ep_links := s; ep_link_count := Z.of_nat (size s); ep_channels := ep_channels e;
     ep_enqueued := ep_enqueued e; ep_queue := ep_queue e; ep_delivered := ep_delivered e;
     ep_receiving := ep_receiving e; ep_shutdown := ep_shutdown e; ep_accepting := ep_accepting e;
     ep_tasks := ep_tasks e; ep_aborting := ep_aborting e; ep_conns := ep_conns e |}.
Definition set_channels (e : Endpoint) (m h : gmap LinkId (list LinkCommand)) : Endpoint :=
  {| ep_local := ep_local e; ep_allowed := ep_allowed e; ep_next_link := ep_next_link e;
     ep_links := ep_links e; ep_link_count := ep_link_count e; ep_channels := m;
     ep_enqueued := h; ep_queue := ep_queue e; ep_delivered := ep_delivered e;
     ep_receiving := ep_receiving e; ep_shutdown := ep_shutdown e; ep_accepting := ep_accepting e;
     ep_tasks := ep_tasks e; ep_aborting := ep_aborting e; ep_conns := ep_conns e |}.
Definition set_events (e : Endpoint) (q d : list LinkEvent) (on : bool) : Endpoint :=
  {| ep_local := ep_local e; ep_allowed := ep_allowed e; ep_next_link := ep_next_link e;
     ep_links := ep_links e; ep_link_count := ep_link_count e; ep_channels := ep_channels e;
     ep_enqueued := ep_enqueued e; ep_queue := q; ep_delivered := d;
     ep_receiving := on; ep_shutdown := ep_shutdown e; ep_accepting := ep_accepting e;
     ep_tasks := ep_tasks e; ep_aborting := ep_aborting e; ep_conns := ep_conns e |}.
Definition set_tasks (e : Endpoint) (down acc : bool) (t a : gset Task) : Endpoint :=
  {| ep_local := ep_local e; ep_allowed := ep_allowed e; ep_next_link := ep_next_link e;
     ep_links := ep_links e; ep_link_count := ep_link_count e; ep_channels := ep_channels e;
     ep_enqueued := ep_enqueued e; ep_queue := ep_queue e; ep_delivered := ep_delivered e;
     ep_receiving := ep_receiving e; ep_shutdown := down; ep_accepting := acc;
     ep_tasks := t; ep_aborting := a; ep_conns := ep_conns e |}.

Definition goto (k : Conn) (p : Phase) : Conn :=
  {| k_expected := k_expected k; k_phase := p; k_attached := k_attached k; k_late := k_late k;
     k_link := k_link k; k_incoming := k_incoming k; k_outgoing := k_outgoing k;
     k_written := k_written k |}.
Definition fail (k : Conn) (e : TransportError) : Conn :=
  {| k_expected := k_expected k; k_phase := PhEnded; k_attached := Some (Err e); k_late := k_late k;
     k_link := k_link k; k_incoming := k_incoming k; k_outgoing := k_outgoing k;
     k_written := k_written k |}.
Definition with_link (k : Conn) (l : LinkId) : Conn :=
  {| k_expected := k_expected k; k_phase := k_phase k; k_attached := k_attached k;
     k_late := k_late k; k_link := Some l; k_incoming := k_incoming k;
     k_outgoing := k_outgoing k; k_written := k_written k |}.
Definition attached (k : Conn) (l : LinkId) : Conn :=
  {| k_expected := k_expected k; k_phase := k_phase k; k_attached := Some (Ok l);
     k_late := k_late k; k_link := k_link k; k_incoming := k_incoming k;
     k_outgoing := k_outgoing k; k_written := k_written k |}.
Definition subscribed (k : Conn) (late : bool) : Conn :=
  {| k_expected := k_expected k; k_phase := k_phase k; k_attached := k_attached k;
     k_late := late; k_link := k_link k; k_incoming := k_incoming k;
     k_outgoing := k_outgoing k; k_written := k_written k |}.
Definition did_read (k : Conn) (b : bytes) : Conn :=
  {| k_expected := k_expected k; k_phase := k_phase k; k_attached := k_attached k;
     k_late := k_late k; k_link := k_link k; k_incoming := k_incoming k ++ b;
     k_outgoing := k_outgoing k; k_written := k_written k |}.
Definition did_write (k : Conn) (b : bytes) (fs : list WireFrame) : Conn :=
  {| k_expected := k_expected k; k_phase := k_phase k; k_attached := k_attached k;
     k_late := k_late k; k_link := k_link k; k_incoming := k_incoming k;
     k_outgoing := k_outgoing k ++ b; k_written := k_written k ++ fs |}.

Section Transport.
Context `{!Prost PbLinkHello}.

(** ** The handshake *)

Definition node_id_from_bytes (b : bytes) : result NodeId TransportError :=
  match from_bytes b with Some n => Ok n | None => Err (TeInvalidNodeIdLength (zlen b)) end.

Definition hello_frame (local : NodeId) : WireFrame :=
  WireFrame_control LinkHello
    (prost_encode {| pb_node_id := as_bytes local; pb_protocol_version := FRAME_VERSION |}).

(** What [exchange_hello] requires of the first frame. *)
Definition check_hello (f : WireFrame) : result NodeId TransportError :=
  if negb (bool_decide (frame_type f = LinkHello) && bool_decide (channel f = ChControl))
  then Err ExpectedLinkHello
  else
    hello ←? map_err TeProtobuf (prost_decode (frame_payload f));
    if negb (pb_protocol_version hello =? FRAME_VERSION)
    then Err (UnsupportedProtocolVersion (pb_protocol_version hello))
    else node_id_from_bytes (pb_node_id hello).

(** [if let Some(expected) = expected_peer { .. }] *)
Definition check_expected (expected : option NodeId) (peer : NodeId) : result unit TransportError :=
  match expected with
  | Some x => if decide (peer = x) then Ok tt else Err (PeerMismatch x peer)
  | None => Ok tt
  end.

(** The loop of [exchange_hello] once [chunk] was appended to the buffer, up
    to the next [await]; the outer [None] is a panic of the decoder. *)
Definition greet (k : Conn) (buffered : bytes) : option Conn :=
  '(r, rest) ← frame_decode buffered;
  Some match r with
       | Err e => fail k (TeWire e)
       | Ok None => goto k (PhGreeting rest)
       | Ok (Some f) =>
           match check_hello f with
           | Err e => fail k e
           | Ok peer =>
               match check_expected (k_expected k) peer with
               | Err e => fail k e
               | Ok _ => goto k (PhIdentified peer rest)
               end
           end
       end.

(** ** Steps *)

Definition put (e : Endpoint) (c : nat) (k : Conn) : Endpoint := set_conns e (<[c := k]> (ep_conns e)).

(** [events.send(..).await]: waits while the channel is full; [false] when
    the receiver is gone. *)
Definition send_event (e : Endpoint) (ev : LinkEvent) : option (Endpoint * bool) :=
  if ep_receiving e then
    if zlen (ep_queue e) <? EVENT_QUEUE_CAPACITY
    then Some (set_events e (ep_queue e ++ [ev]) (ep_delivered e) true, true)
    else None
  else Some (e, false).

(** [remove_link] *)
Definition remove_link (e : Endpoint) (l : LinkId) : Endpoint := set_links e (ep_links e ∖ {[l]}).
(** The receiver of a link's commands is dropped. *)
Definition drop_channel (e : Endpoint) (l : LinkId) : Endpoint :=
  set_channels e (delete l (ep_channels e)) (ep_enqueued e).

(** The rest of [attach_stream], from [allowed_peers.read()] to the next
    [await]: the allowlist and the number of the link. *)
Definition enroll (e : Endpoint) (c : nat) (k : Conn) (peer : NodeId) (buffered : bytes) : Endpoint :=
  if decide (peer ∈ ep_allowed e) then
    match checked_add 64 (ep_next_link e) 1 with
    | None => put e c (fail k LinkIdExhausted)
    | Some next =>
        let l := ep_next_link e in
        put (set_next_link e next) c (goto (with_link k l) (PhNumbered l peer buffered))
    end
  else put e c (fail k (PeerNotAllowed peer)).
Definition register (e : Endpoint) (c : nat) (k : Conn) (l : LinkId) (peer : NodeId)
    (buffered : bytes) : Endpoint :=
  let e := set_channels e (<[l := []]> (ep_channels e)) (<[l := []]> (ep_enqueued e)) in
  put (set_links e (ep_links e ∪ {[l]})) c (goto k (PhRegistered l peer buffered)).
Definition announce (e : Endpoint) (c : nat) (k : Conn) (l : LinkId) (peer : NodeId)
    (buffered : bytes) : option Endpoint :=
  '(e, ok) ← send_event e (LeUp l peer);
  Some (if (ok : bool) then put e c (goto (attached k l) (PhSpawned l buffered))
        else put e c (goto k (PhWithdrawing l))).

(** [run_link]: one frame of the buffer. *)
Definition read_frame (e : Endpoint) (c : nat) (k : Conn) (l : LinkId) (buffered : bytes) :
  option Endpoint :=
  '(r, rest) ← frame_decode buffered;
  match r with
  | Ok (Some f) =>
      '(e, ok) ← send_event e (LeFrame l f);
      Some (put e c (goto k (if (ok : bool) then PhReading l rest else PhClosing l)))
  | Ok None => Some (put e c (goto k (PhWaiting l rest)))
  | Err _ => Some (put e c (goto k (PhClosing l)))
  end.
(** [commands.recv()] and what follows it up to the report; the write
    succeeds, or fails after [n] bytes. *)
Definition take_command (e : Endpoint) (c : nat) (k : Conn) (l : LinkId) (buffered : bytes)
    (failed : option nat) : option Endpoint :=
  q ← ep_channels e !! l;
  match q with
  | [] => None
  | cmd :: q =>
      let e := set_channels e (<[l := q]> (ep_channels e)) (ep_enqueued e) in
      match cmd with
      | LcClose => Some (put e c (goto k (PhClosing l)))
      | LcSend f =>
          match frame_encode f with
          | Err _ => Some (put e c (goto k (PhClosing l)))
          | Ok encoded =>
              match failed with
              | None => Some (put e c (goto (did_write k encoded [f]) (PhReporting l buffered f)))
              | Some n =>
                  if decide (n < length encoded)%nat
                  then Some (put e c (goto (did_write k (take n encoded) []) (PhClosing l)))
                  else None
              end
          end
      end
  end.
Definition sent_event (l : LinkId) (f : WireFrame) : LinkEvent :=
  LeSent l (frame_type f) (channel f) (zlen (frame_payload f)).
Definition report (e : Endpoint) (c : nat) (k : Conn) (l : LinkId) (buffered : bytes)
    (f : WireFrame) : option Endpoint :=
  '(e, ok) ← send_event e (sent_event l f);
  Some (put e c (goto k (if (ok : bool) then PhReading l buffered else PhClosing l))).
(** [let _ = inner.events.send(LinkEvent::Down { link }).await], and the end
    of the task. *)
Definition leave (e : Endpoint) (c : nat) (k : Conn) (l : LinkId) : option Endpoint :=
  '(e, _) ← send_event e (LeDown l);
  Some (put (drop_channel e l) c (goto k PhEnded)).

(** The steps of one connection; what the socket does is their argument. *)
Inductive ConnStep :=
| CsHello (io : option (rstring * nat))
| CsRead (r : result bytes rstring)
| CsProceed
| CsCommand (failed : option nat)
| CsHangup.

(** Data from the socket. *)
Definition read_step (e : Endpoint) (c : nat) (k : Conn) (r : result bytes rstring) :
  option Endpoint :=
  match k_phase k with
  | PhGreeting b =>
      match r with
      | Err x => Some (put e c (fail k (TeIo x)))
      | Ok [] => Some (put e c (fail k UnexpectedEndOfStream))
      | Ok chunk => k ← greet (did_read k chunk) (b ++ chunk); Some (put e c k)
      end
  | PhWaiting l b =>
      match r with
      | Err _ | Ok [] => Some (put e c (goto k (PhClosing l)))
      | Ok chunk => Some (put e c (goto (did_read k chunk) (PhReading l (b ++ chunk))))
      end
  | _ => None
  end.
(** The write of the hello: [set_nodelay] or [write_all] may fail, after [n]
    bytes. *)
Definition hello_step (e : Endpoint) (c : nat) (k : Conn) (io : option (rstring * nat)) :
  option Endpoint :=
  match frame_encode (hello_frame (ep_local e)), io with
  | Err x, None => Some (put e c (fail k (TeWire x)))
  | Err _, Some (x, _) => Some (put e c (fail k (TeIo x)))
  | Ok encoded, None => Some (put e c (goto (did_write k encoded []) (PhGreeting [])))
  | Ok encoded, Some (x, n) =>
      if decide (n < length encoded)%nat
      then Some (put e c (fail (did_write k (take n encoded) []) (TeIo x))) else None
  end.
Definition proceed (e : Endpoint) (c : nat) (k : Conn) : option Endpoint :=
  match k_phase k with
  | PhIdentified peer b => Some (enroll e c k peer b)
  | PhNumbered l peer b => Some (register e c k l peer b)
  | PhRegistered l peer b => announce e c k l peer b
  | PhWithdrawing l => Some (put (drop_channel (remove_link e l) l) c (fail k (LinkClosed l)))
  | PhSpawned l b => Some (put e c (goto (subscribed k (ep_shutdown e)) (PhReading l b)))
  | PhReading l b => read_frame e c k l b
  | PhReporting l b f => report e c k l b f
  | PhClosing l => Some (put (remove_link e l) c (goto k (PhLeaving l)))
  | PhLeaving l => leave e c k l
  | _ => None
  end.
(** [shutdown.changed()] fires once, for a signal given after [subscribe];
    [commands.recv()] yields [None] when every sender is gone. *)
Definition hangup (e : Endpoint) (c : nat) (k : Conn) : option Endpoint :=
  match k_phase k with
  | PhWaiting l _ =>
      if (ep_shutdown e && negb (k_late k)) || bool_decide (l ∉ ep_links e)
      then Some (put e c (goto k (PhClosing l))) else None
  | _ => None
  end.
Definition conn_step (e : Endpoint) (c : nat) (s : ConnStep) : option Endpoint :=
  k ← ep_conns e !! c;
  match s with
  | CsHello io => match k_phase k with PhHello => hello_step e c k io | _ => None end
  | CsRead r => read_step e c k r
  | CsProceed => proceed e c k
  | CsCommand failed =>
      match k_phase k with PhWaiting l b => take_command e c k l b failed | _ => None end
  | CsHangup => hangup e c k
  end.

(** ** The endpoint's interface *)

(** [links.lock().await.get(&link).cloned().ok_or(..)] *)
Definition sender_of (e : Endpoint) (l : LinkId) : result unit TransportError :=
  if decide (l ∈ ep_links e) then Ok tt else Err (UnknownLink l).
(** [sender.send(command).await]; [None]: the channel is full. *)
Definition enqueue_command (e : Endpoint) (l : LinkId) (cmd : LinkCommand) :
  option (Endpoint * result unit TransportError) :=
  match ep_channels e !! l with
  | None => Some (e, Err (LinkClosed l))
  | Some q =>
      if zlen q <? LINK_QUEUE_CAPACITY then
        Some (set_channels e (<[l := q ++ [cmd]]> (ep_channels e))
                (<[l := default [] (ep_enqueued e !! l) ++ [cmd]]> (ep_enqueued e)), Ok tt)
      else None
  end.
(** [TcpEndpoint::send] and [TcpEndpoint::close] without interference. *)
Definition ep_send (e : Endpoint) (l : LinkId) (f : WireFrame) :
  option (Endpoint * result unit TransportError) :=
  match sender_of e l with Err x => Some (e, Err x) | Ok _ => enqueue_command e l (LcSend f) end.
Definition ep_close (e : Endpoint) (l : LinkId) : option (Endpoint * result unit TransportError) :=
  match sender_of e l with Err x => Some (e, Err x) | Ok _ => enqueue_command e l LcClose end.

Definition connect_check (e : Endpoint) (peer : NodeId) : result unit TransportError :=
  if decide (peer ∈ ep_allowed e) then Ok tt else Err (PeerNotAllowed peer).

(** The task of [t] ends at an [await]. *)
Definition in_attach (p : Phase) : bool :=
  match p with
  | PhHello | PhGreeting _ | PhIdentified _ _ | PhNumbered _ _ _ | PhRegistered _ _ _
  | PhWithdrawing _ => true
  | _ => false
  end.
Definition end_conn (e : Endpoint) (c : nat) (attach : bool) : Endpoint :=
  match ep_conns e !! c with
  | None => e
  | Some k =>
      if bool_decide (in_attach (k_phase k) = attach) then
        put (match k_link k with Some l => drop_channel e l | None => e end) c (goto k PhEnded)
      else e
  end.
Definition kill (e : Endpoint) (t : Task) : Endpoint :=
  let e := set_tasks e (ep_shutdown e) (ep_accepting e) (ep_tasks e) (ep_aborting e ∖ {[t]}) in
  match t with
  | TkAccept => set_tasks e (ep_shutdown e) false (ep_tasks e) (ep_aborting e)
  | TkAttach c => end_conn e c true
  | TkWorker c => end_conn e c false
  end.

(** What can happen to an endpoint: a step of a connection, an iteration or
    the end of the accept loop, a call of the interface, a step of
    [shutdown], or the other end of the event channel. *)
Inductive EpStep :=
| EsConn (c : nat) (s : ConnStep)
| EsAccept
| EsAcceptEnd
| EsTrack (t : Task)
| EsAllowPeer (peer : NodeId)
| EsConnect (peer : NodeId)
| EsEnqueue (l : LinkId) (cmd : LinkCommand)
| EsReceive
| EsReceiverGone
| EsShutdown
| EsAbort
| EsKill (t : Task)
| EsClear.

Definition ep_step (e : Endpoint) (s : EpStep) : option Endpoint :=
  match s with
  | EsConn c s => conn_step e c s
  | EsAccept => if ep_accepting e then Some (set_conns e (ep_conns e ++ [Conn_new None])) else None
  | EsAcceptEnd => Some (set_tasks e (ep_shutdown e) false (ep_tasks e) (ep_aborting e))
  | EsTrack t =>
      Some (set_tasks e (ep_shutdown e) (ep_accepting e) (ep_tasks e ∪ {[t]}) (ep_aborting e))
  | EsAllowPeer p => Some (set_allowed e (ep_allowed e ∪ {[p]}))
  | EsConnect p =>
      match connect_check e p with
      | Ok _ => Some (set_conns e (ep_conns e ++ [Conn_new (Some p)]))
      | Err _ => None
      end
  | EsEnqueue l cmd => '(e, _) ← enqueue_command e l cmd; Some e
  | EsReceive =>
      match ep_queue e with
      | [] => None
      | ev :: q =>
          if ep_receiving e then Some (set_events e q (ep_delivered e ++ [ev]) true) else None
      end
  | EsReceiverGone => Some (set_events e (ep_queue e) (ep_delivered e) false)
  | EsShutdown => Some (set_tasks e true (ep_accepting e) (ep_tasks e) (ep_aborting e))
  | EsAbort =>
      if ep_shutdown e then Some (set_tasks e true (ep_accepting e) ∅ (ep_aborting e ∪ ep_tasks e))
      else None
  | EsKill t => if decide (t ∈ ep_aborting e) then Some (kill e t) else None
  | EsClear =>
      if ep_shutdown e && bool_decide (ep_aborting e = ∅) then Some (set_links e ∅) else None
  end.
Fixpoint ep_run (e : Endpoint) (l : list EpStep) : option Endpoint :=
  match l with
  | [] => Some e
  | s :: l => e ← ep_step e s; ep_run e l
  end.
Definition ep_reachable (e : Endpoint) : Prop :=
  ∃ local allowed l, ep_run (bind local allowed) l = Some e.
End Transport.
