(* ===== verification/TransportProps.v ===== *)
(** * Invariants of the TCP transport (crates/mb-transport) *)

From Stdlib Require Import Strings.Byte.
From S2P Require Export Prelude Ord Bytes Types Proto Wire WireFrames Transport.
Open Scope Z_scope.

(** ** Byte streams *)

Definition fits (f : WireFrame) : Prop := zlen (frame_payload f) ≤ MAX_PAYLOAD_LEN.
Definition enc (f : WireFrame) : bytes := frame_header f ++ frame_payload f.
Definition stream (fs : list WireFrame) : bytes := fs ≫= enc.
(** The beginning of a frame that is not complete. *)
Definition partial (b : bytes) : Prop := ∃ f suf, fits f ∧ suf ≠ [] ∧ enc f = b ++ suf.

Lemma frame_encode_enc f b : frame_encode f = Ok b ↔ b = enc f ∧ fits f.
Proof. apply frame_encode_Ok. Qed.
Lemma stream_app fs gs : stream (fs ++ gs) = stream fs ++ stream gs.
Proof. apply bind_app. Qed.
Lemma stream_cons f fs : stream (f :: fs) = enc f ++ stream fs.
Proof. done. Qed.
Lemma decode_enc f rest : fits f → frame_decode (enc f ++ rest) = Some (Ok (Some f), rest).
Proof. intros Hf. unfold enc. rewrite <-app_assoc. by apply frame_decode_app. Qed.
Lemma decode_frame b f rest : frame_decode b = Some (Ok (Some f), rest) → b = enc f ++ rest ∧ fits f.
Proof. intros [-> Hf]%frame_decode_Some. unfold enc. by rewrite <-app_assoc. Qed.
Lemma decode_rest b r rest :
  frame_decode b = Some (r, rest) → (∀ f, r ≠ Ok (Some f)) → rest = b.
Proof. intros E Hr. destruct (frame_decode_is_Some b) as (r' & rest' & E' & H). rewrite E in E'. simplify_eq. auto. Qed.
Lemma decode_partial b : partial b → frame_decode b = Some (Ok None, b).
Proof.
  intros (f & suf & Hf & Hs & E). eapply frame_decode_incremental; [by apply frame_encode_enc|done|done].
Qed.
Lemma partial_nil f : fits f → partial [].
Proof. intros Hf. exists f, (enc f). split_and!; done. Qed.
Lemma partial_take f n : fits f → (n < length (enc f))%nat → partial (take n (enc f)).
Proof.
  intros Hf Hn. exists f, (drop n (enc f)). rewrite take_drop. split_and!; [done| |done].
  intros E%(f_equal length). rewrite length_drop in E. cbn [length] in E. lia.
Qed.

(** What was read is a prefix of what was written: then so are the frames. *)
Lemma stream_prefix fs : ∀ gs tail part,
  Forall fits fs → Forall fits gs → partial part →
  (stream fs ++ tail) `prefix_of` (stream gs ++ part) → fs `prefix_of` gs.
Proof.
  induction fs as [|f fs IH]; intros gs tail part Hfs Hgs Hp [more E]; [apply prefix_nil|].
  apply Forall_cons in Hfs as [Hf Hfs]. rewrite stream_cons, <-!app_assoc in E.
  destruct gs as [|g gs].
  - change (stream [] ++ part) with part in E. apply decode_partial in Hp. rewrite E, decode_enc in Hp by done. done.
  - apply Forall_cons in Hgs as [Hg Hgs]. rewrite stream_cons, <-app_assoc in E.
    pose proof (decode_enc g (stream gs ++ part) Hg) as Hd. rewrite E, decode_enc in Hd by done.
    injection Hd as <- E2. apply prefix_cons. eapply (IH gs tail part); try done.
    exists more. by rewrite <-app_assoc.
Qed.

(** ** Events of a link *)

Definition link_of (ev : LinkEvent) : LinkId :=
  match ev with LeUp l _ | LeDown l | LeFrame l _ | LeSent l _ _ _ => l end.
Definition events_at (e : Endpoint) (l : LinkId) : list LinkEvent :=
  filter (λ ev, link_of ev = l) (events e).
Definition frames_in (evs : list LinkEvent) : list WireFrame :=
  omap (λ ev, match ev with LeFrame _ f => Some f | _ => None end) evs.
Definition sents_in (evs : list LinkEvent) : list LinkEvent :=
  omap (λ ev, match ev with LeSent _ _ _ _ => Some ev | _ => None end) evs.
Definition data_event (ev : LinkEvent) : Prop :=
  match ev with LeFrame _ _ | LeSent _ _ _ _ => True | _ => False end.

Section Transport.
Context `{!Prost PbLinkHello}.
Implicit Types (e : Endpoint) (k : Conn).

(** ** The invariant of a connection *)

(** The peer's hello and the frames [fs] were read, and then [tail]. *)
Definition identified k (p : NodeId) (fs : list WireFrame) (tail : bytes) : Prop :=
  ∃ hf, fits hf ∧ Forall fits fs ∧ check_hello hf = Ok p ∧ check_expected (k_expected k) p = Ok tt ∧
    k_incoming k = stream (hf :: fs) ++ tail.
(** The own hello and the frames of [k_written] were written, and then
    [part]. *)
Definition sent_out e k (part : bytes) : Prop :=
  Forall fits (hello_frame (ep_local e) :: k_written k) ∧
  k_outgoing k = stream (hello_frame (ep_local e) :: k_written k) ++ part.

(** A link in [run_link]: [un] is written but not yet reported. *)
Record live e k (l : LinkId) (tail : bytes) (un : list WireFrame) (p : NodeId)
    (body : list LinkEvent) (q : list LinkCommand) : Prop := {
  lv_in : identified k p (frames_in body) tail;
  lv_out : sent_out e k [];
  lv_allowed : p ∈ ep_allowed e;
  lv_events : events_at e l = LeUp l p :: body;
  lv_data : Forall data_event body;
  lv_sent : sents_in body ++ (sent_event l <$> un) = sent_event l <$> k_written k;
  lv_chan : ep_channels e !! l = Some q;
  lv_enq : ep_enqueued e !! l = Some ((LcSend <$> k_written k) ++ q);
}.
(** A link whose task is at its end or gone, its events but for [Down]. *)
Record over e k (l : LinkId) (p : NodeId) (body : list LinkEvent) : Prop := {
  ov_in : ∃ tail, identified k p (frames_in body) tail;
  ov_out : ∃ part, sent_out e k part ∧ partial part;
  ov_allowed : p ∈ ep_allowed e;
  ov_data : Forall data_event body;
  ov_sent : sents_in body `prefix_of` (sent_event l <$> k_written k);
  ov_enq : (LcSend <$> k_written k) `prefix_of` default [] (ep_enqueued e !! l);
}.

(** What was written before the session, which may have failed. *)
Definition early_out e k : Prop :=
  k_written k = [] ∧ ∃ part, partial part ∧ (k_outgoing k = part ∨ sent_out e k part).

Definition conn_ok e k : Prop :=
  match k_phase k with
  | PhHello => k_link k = None ∧ k_incoming k = [] ∧ k_outgoing k = [] ∧ k_written k = []
  | PhGreeting b => k_link k = None ∧ k_incoming k = b ∧ k_written k = [] ∧ sent_out e k []
  | PhIdentified p b =>
      k_link k = None ∧ k_written k = [] ∧ sent_out e k [] ∧ identified k p [] b
  | PhNumbered l p b =>
      k_link k = Some l ∧ k_written k = [] ∧ sent_out e k [] ∧ identified k p [] b ∧
      p ∈ ep_allowed e ∧ events_at e l = []
  | PhRegistered l p b =>
      k_link k = Some l ∧ k_written k = [] ∧ sent_out e k [] ∧ identified k p [] b ∧
      p ∈ ep_allowed e ∧ events_at e l = [] ∧
      ∃ q, ep_channels e !! l = Some q ∧ ep_enqueued e !! l = Some q
  | PhWithdrawing l => k_link k = Some l ∧ k_written k = [] ∧ sent_out e k [] ∧ events_at e l = []
  | PhSpawned l b | PhReading l b | PhWaiting l b =>
      k_link k = Some l ∧ ∃ p body q, live e k l b [] p body q
  | PhReporting l b f => k_link k = Some l ∧ ∃ p body q, live e k l b [f] p body q
  | PhClosing l | PhLeaving l =>
      k_link k = Some l ∧ ∃ p body, events_at e l = LeUp l p :: body ∧ over e k l p body
  | PhEnded =>
      match k_link k with
      | None => early_out e k
      | Some l =>
          early_out e k ∧ events_at e l = [] ∨
          ∃ p body down, events_at e l = LeUp l p :: body ++ down ∧
            (down = [] ∨ down = [LeDown l]) ∧ over e k l p body
      end
  end.

(** What a step of another connection leaves alone. *)
Record same_view e e' (l : LinkId) : Prop := {
  sv_local : ep_local e' = ep_local e;
  sv_allowed : ep_allowed e ⊆ ep_allowed e';
  sv_events : events_at e' l = events_at e l;
  sv_chan : ep_channels e' !! l = ep_channels e !! l;
  sv_enq : ep_enqueued e' !! l = ep_enqueued e !! l;
}.
Lemma conn_ok_view e e' k :
  ep_local e' = ep_local e → ep_allowed e ⊆ ep_allowed e' →
  (∀ l, k_link k = Some l → same_view e e' l) → conn_ok e k → conn_ok e' k.
Proof.
  intros Hl Ha Hv.
  assert (Hso : ∀ part, sent_out e k part → sent_out e' k part) by (intros part; unfold sent_out; by rewrite Hl).
  assert (Hea : early_out e k → early_out e' k).
  { intros (Hw & part & Hp & [Ho|Ho]); split; eauto 6. }
  assert (Hlv : ∀ l t un p body q, k_link k = Some l → live e k l t un p body q → live e' k l t un p body q).
  { intros l t un p body q Hk [? ? ? He ? ? Hc Hq]. destruct (Hv l Hk) as [_ _ Ev Ec Eq].
    constructor; rewrite ?Ev, ?Ec, ?Eq; auto. }
  assert (Hov : ∀ l p body, k_link k = Some l → over e k l p body → over e' k l p body).
  { intros l p body Hk [? (part & Ho & Hp) ? ? ? Hq]. destruct (Hv l Hk) as [_ _ Ev Ec Eq].
    constructor; rewrite ?Eq; eauto. }
  unfold conn_ok. destruct (k_phase k) as [|b|p b|l p b|l p b|l|l b|l b|l b|l b f|l|l|].
  - done.
  - intros (? & ? & ? & ?). split_and!; auto.
  - intros (? & ? & ? & ?). split_and!; auto.
  - intros (Hk & ? & ? & ? & ? & He). destruct (Hv l Hk) as [_ _ Ev _ _]. rewrite Ev. split_and!; auto.
  - intros (Hk & ? & ? & ? & ? & He & q & Hq). destruct (Hv l Hk) as [_ _ Ev Ec Eq].
    rewrite Ev, Ec, Eq. split_and!; eauto.
  - intros (Hk & ? & ? & He). destruct (Hv l Hk) as [_ _ Ev _ _]. rewrite Ev. split_and!; auto.
  - intros (Hk & p & body & q & H). split; [done|]. exists p, body, q. auto.
  - intros (Hk & p & body & q & H). split; [done|]. exists p, body, q. auto.
  - intros (Hk & p & body & q & H). split; [done|]. exists p, body, q. auto.
  - intros (Hk & p & body & q & H). split; [done|]. exists p, body, q. auto.
  - intros (Hk & p & body & He & H). destruct (Hv l Hk) as [_ _ Ev _ _]. rewrite Ev. split; [done|]. eauto.
  - intros (Hk & p & body & He & H). destruct (Hv l Hk) as [_ _ Ev _ _]. rewrite Ev. split; [done|]. eauto.
  - destruct (k_link k) as [l|] eqn:Hk; [|done]. destruct (Hv l eq_refl) as [_ _ Ev _ _]. rewrite Ev.
    intros [[? ?]|(p & body & down & ? & ? & ?)]; [left; auto|]. right. exists p, body, down. auto.
Qed.

(** ** The invariant of an endpoint *)

Record ep_ok e : Prop := {
  eo_conns c k : ep_conns e !! c = Some k → conn_ok e k;
  eo_range c k l : ep_conns e !! c = Some k → k_link k = Some l → 1 ≤ l < ep_next_link e;
  eo_distinct c c' k k' l : ep_conns e !! c = Some k → ep_conns e !! c' = Some k' →
    k_link k = Some l → k_link k' = Some l → c = c';
  eo_owner ev : ev ∈ events e → ∃ c k, ep_conns e !! c = Some k ∧ k_link k = Some (link_of ev);
  eo_next : 1 ≤ ep_next_link e ≤ u_max 64;
}.

Lemma events_at_nil e l : (∀ ev, ev ∈ events e → link_of ev ≠ l) → events_at e l = [].
Proof.
  intros H. unfold events_at. induction (events e) as [|ev evs IH]; [done|].
  rewrite filter_cons_False; [|apply H; by left]. apply IH. intros; apply H. by right.
Qed.

(** Other connections, after a step of connection [c]. *)
Lemma lookup_put e c k i k' :
  ep_conns (put e c k) !! i = Some k' →
  (i = c ∧ k' = k ∧ (c < length (ep_conns e))%nat) ∨ (i ≠ c ∧ ep_conns e !! i = Some k').
Proof.
  cbn. destruct (decide (i = c)) as [->|Hne].
  - intros E. pose proof (lookup_lt_Some _ _ _ E) as Hlt. rewrite length_insert in Hlt.
    rewrite list_lookup_insert_eq in E by done. left. by injection E as <-.
  - rewrite list_lookup_insert_ne by done. auto.
Qed.

(** A step of a connection that keeps its link number. *)
Lemma step_ok e e1 c k k' :
  ep_ok e → ep_conns e !! c = Some k → ep_conns e1 = ep_conns e →
  ep_next_link e1 = ep_next_link e → ep_local e1 = ep_local e → ep_allowed e1 = ep_allowed e →
  k_link k' = k_link k → (∀ l, k_link k ≠ Some l → same_view e e1 l) →
  (∀ ev, ev ∈ events e1 → ev ∈ events e ∨ k_link k = Some (link_of ev)) →
  conn_ok e1 k' → ep_ok (put e1 c k').
Proof.
  intros [Hc Hr Hd Ho Hn] Hk Ec En El Ea Hl Hv Hev Hok.
  assert (Hpre : ∀ i x, ep_conns (put e1 c k') !! i = Some x →
    ∃ x', ep_conns e !! i = Some x' ∧ k_link x = k_link x').
  { intros i x [(-> & -> & _)|[_ E]]%lookup_put; [by exists k|]. rewrite Ec in E. eauto. }
  assert (Hpost : ∀ i x, ep_conns e !! i = Some x →
    ∃ x', ep_conns (put e1 c k') !! i = Some x' ∧ k_link x' = k_link x).
  { intros i x E. cbn. rewrite Ec. destruct (decide (i = c)) as [->|Hne].
    - rewrite list_lookup_insert_eq by (by eapply lookup_lt_Some). exists k'. split; [done|]. rewrite Hl. congruence.
    - rewrite list_lookup_insert_ne by done. eauto. }
  constructor.
  - intros i x [(-> & -> & _)|[Hne E]]%lookup_put; [by apply (conn_ok_view e1)|]. rewrite Ec in E.
    apply (conn_ok_view e); [done|cbn; by rewrite Ea| |by eapply Hc].
    intros l Hx. destruct (Hv l) as []; [|by constructor]. intros Hkl. apply Hne. by eapply Hd.
  - intros i x l (x' & E & Hx)%Hpre Hl'. rewrite Hx in Hl'.
    change (ep_next_link _) with (ep_next_link e1). rewrite En. by eapply Hr.
  - intros i j x y l (x' & Ex & Hx)%Hpre (y' & Ey & Hy)%Hpre. rewrite Hx, Hy. by eapply Hd.
  - intros ev [Hin|Hown]%Hev.
    + destruct (Ho ev Hin) as (i & x & E & Hx). apply Hpost in E as (x' & E & Hx').
      exists i, x'. by rewrite Hx'.
    + apply Hpost in Hk as (x' & E & Hx'). exists c, x'. by rewrite Hx'.
  - change (ep_next_link _) with (ep_next_link e1). by rewrite En.
Qed.
(** The common case: only the connection itself changes. *)
Lemma put_ok e c k k' :
  ep_ok e → ep_conns e !! c = Some k → k_link k' = k_link k → conn_ok e k' → ep_ok (put e c k').
Proof. intros Hok Hk Hl Hc. apply (step_ok e e c k); try done. by left. Qed.

Lemma send_event_Some e ev e' ok :
  send_event e ev = Some (e', ok) →
  ep_local e' = ep_local e ∧ ep_allowed e' = ep_allowed e ∧ ep_next_link e' = ep_next_link e ∧
  ep_conns e' = ep_conns e ∧ ep_channels e' = ep_channels e ∧ ep_enqueued e' = ep_enqueued e ∧
  events e' = events e ++ (if ok then [ev] else []).
Proof.
  unfold send_event. destruct (ep_receiving e).
  - destruct (zlen (ep_queue e) <? _); [|done]. intros [= <- <-].
    split_and!; try done. unfold events. cbn. by rewrite app_assoc.
  - intros [= <- <-]. split_and!; try done. by rewrite app_nil_r.
Qed.
Lemma events_at_snoc e e' ev (ok : bool) :
  events e' = events e ++ (if ok then [ev] else []) →
  ∀ l, events_at e' l = events_at e l ++ (if ok && bool_decide (link_of ev = l) then [ev] else []).
Proof.
  intros E l. unfold events_at. rewrite E, filter_app. f_equal. destruct ok; [|done].
  cbn [andb]. case_bool_decide; [by rewrite filter_cons_True|by rewrite filter_cons_False].
Qed.

(** A step that reports [ev] for its own link. *)
Lemma event_step_ok e ev e1 ok c k k' :
  ep_ok e → ep_conns e !! c = Some k → send_event e ev = Some (e1, ok) →
  k_link k = Some (link_of ev) → k_link k' = k_link k → conn_ok e1 k' → ep_ok (put e1 c k').
Proof.
  intros Hok Hk (El & Ea & En & Ec & Ech & Eq & Ev)%send_event_Some Hl Hl' Hc.
  apply (step_ok e e1 c k); try done.
  - intros l Hne. constructor; rewrite ?El, ?Ea, ?Ech, ?Eq; try done.
    rewrite (events_at_snoc e e1 ev ok Ev), bool_decide_false, andb_false_r by congruence.
    by rewrite app_nil_r.
  - intros ev'. rewrite Ev, elem_of_app. intros [?|Hin]; [by left|]. right. destruct ok; [|by apply elem_of_nil in Hin].
    apply list_elem_of_singleton in Hin as ->. done.
Qed.

(** ** The handshake *)

Lemma over_early e k l :
  k_link k = Some l → early_out e k → events_at e l = [] → conn_ok e (goto k PhEnded).
Proof. intros Hl He Hev. unfold conn_ok. cbn. rewrite Hl. left. by split. Qed.
Lemma fail_ok e k x :
  (∀ l, k_link k = Some l → events_at e l = []) → early_out e k → conn_ok e (fail k x).
Proof. intros Hev He. unfold conn_ok. cbn. destruct (k_link k) as [l|]; [left; auto|done]. Qed.
Lemma early_of_sent e k : k_written k = [] → sent_out e k [] → early_out e k.
Proof.
  intros Hw Hs. split; [done|]. exists []. destruct Hs as [HF Ho].
  split; [|right; by split]. apply Forall_cons in HF as [Hf _]. by eapply partial_nil.
Qed.

Lemma hello_step_ok e c k io e' :
  ep_ok e → ep_conns e !! c = Some k → k_phase k = PhHello → hello_step e c k io = Some e' → ep_ok e'.
Proof.
  intros Hok Hk Hp. pose proof (eo_conns _ Hok _ _ Hk) as Hc. unfold conn_ok in Hc. rewrite Hp in Hc.
  destruct Hc as (Hl & Hi & Ho & Hw).
  assert (Hfail : ∀ x b, partial b → ep_ok (put e c (fail (did_write k b []) x))).
  { intros x b Hb. apply (put_ok e c k); [done..|]. apply fail_ok; cbn; [by rewrite Hl|].
    split; [cbn; by rewrite Hw|]. exists b. split; [done|left]. cbn. by rewrite Ho. }
  assert (Hempty : ∀ x, ep_ok (put e c (fail k x))).
  { intros x. apply (put_ok e c k); [done..|]. apply fail_ok; [by rewrite Hl|]. split; [done|].
    exists []. split; [|by left]. by apply (partial_nil (WireFrame_control LinkHello [])). }
  unfold hello_step. destruct (frame_encode _) as [b|x] eqn:E.
  - apply frame_encode_enc in E as [-> Hf]. destruct io as [[x n]|].
    + case_decide as Hn; [|done]. intros [= <-]. by apply Hfail, partial_take.
    + intros [= <-]. apply (put_ok e c k); [done..|]. unfold conn_ok. cbn. split_and!; try done.
      * by rewrite Hw.
      * split; cbn; rewrite Hw; [by constructor|]. rewrite Ho. cbn. by rewrite !app_nil_r.
  - destruct io as [[y n]|]; intros [= <-]; apply Hempty.
Qed.

Lemma greet_ok e k b k' :
  k_link k = None → k_written k = [] → sent_out e k [] → k_incoming k = b →
  greet k b = Some k' → k_link k' = None ∧ conn_ok e k'.
Proof.
  intros Hl Hw Hs Hi. unfold greet.
  destruct (frame_decode b) as [[r rest]|] eqn:E; cbn [mbind option_bind]; [|done]. intros [= <-].
  assert (Hf : ∀ x, k_link (fail k x) = None ∧ conn_ok e (fail k x)).
  { intros x. split; [done|]. apply fail_ok; [by rewrite Hl|by apply early_of_sent]. }
  destruct r as [[f|]|x]; [|split; [done|]|apply Hf].
  - apply decode_frame in E as [-> Hfit]. destruct (check_hello f) as [p|x] eqn:Ec; [|apply Hf].
    destruct (check_expected _ p) as [[]|x] eqn:Ee; [|apply Hf]. split; [done|].
    unfold conn_ok. cbn. split_and!; [done..|]. exists f. split_and!; try done. cbn.
    by rewrite Hi, app_nil_r.
  - apply decode_rest in E; [|done]. subst. done.
Qed.

Lemma conn_ok_phase e k : conn_ok e k → conn_ok e (goto k (k_phase k)).
Proof. by destruct k. Qed.
Lemma greeting_read_ok e c k b r e' :
  ep_ok e → ep_conns e !! c = Some k → k_phase k = PhGreeting b → read_step e c k r = Some e' → ep_ok e'.
Proof.
  intros Hok Hk Hp. pose proof (eo_conns _ Hok _ _ Hk) as Hc. unfold conn_ok in Hc. rewrite Hp in Hc.
  destruct Hc as (Hl & Hi & Hw & Hs). unfold read_step. rewrite Hp.
  assert (Hf : ∀ x, ep_ok (put e c (fail k x))).
  { intros x. apply (put_ok e c k); [done..|]. apply fail_ok; [by rewrite Hl|by apply early_of_sent]. }
  destruct r as [[|x chunk]|x]; [intros [= <-]; apply Hf| |intros [= <-]; apply Hf].
  destruct (greet _ _) as [k'|] eqn:E; cbn [mbind option_bind]; [|done]. intros [= <-].
  apply (greet_ok e) in E as [Hl' Hc']; [|done|done|done|cbn; by rewrite Hi].
  apply (put_ok e c k); [done|done|congruence|done].
Qed.

(** ** From the handshake to the link *)

Lemma enroll_ok e c k p b :
  ep_ok e → ep_conns e !! c = Some k → k_phase k = PhIdentified p b → ep_ok (enroll e c k p b).
Proof.
  intros Hok Hk Hp. pose proof (eo_conns _ Hok _ _ Hk) as Hc. unfold conn_ok in Hc. rewrite Hp in Hc.
  destruct Hc as (Hl & Hw & Hs & Hid). unfold enroll.
  assert (Hf : ∀ x, ep_ok (put e c (fail k x))).
  { intros x. apply (put_ok e c k); [done..|]. apply fail_ok; [by rewrite Hl|by apply early_of_sent]. }
  case_decide as Ha; [|apply Hf].
  destruct (checked_add 64 (ep_next_link e) 1) as [n|] eqn:En; [|apply Hf].
  apply checked_add_Some in En as [-> Hmax]. destruct Hok as [Hc Hr Hd Ho Hn].
  set (l := ep_next_link e). set (k' := goto _ _).
  assert (Hev : events_at e l = []).
  { apply events_at_nil. intros ev (i & x & Hx & Hxl)%Ho. pose proof (Hr _ _ _ Hx Hxl). unfold l. lia. }
  constructor.
  - intros i x [(-> & -> & _)|[Hne E]]%lookup_put.
    + unfold conn_ok. cbn. by split_and!.
    + by apply (conn_ok_view e); [..|by eapply Hc].
  - intros i x l' [(-> & -> & _)|[Hne E]]%lookup_put Hx; cbn in *.
    + injection Hx as <-. unfold l. lia.
    + pose proof (Hr _ _ _ E Hx). unfold l. lia.
  - intros i j x y l' [(-> & -> & _)|[Hi Ex]]%lookup_put [(-> & -> & _)|[Hj Ey]]%lookup_put Hx Hy;
      cbn in *; [done| | |by eapply Hd].
    + injection Hx as <-. pose proof (Hr _ _ _ Ey Hy). unfold l in *. lia.
    + injection Hy as <-. pose proof (Hr _ _ _ Ex Hx). unfold l in *. lia.
  - intros ev (i & x & E & Hx)%Ho. exists i, x. split; [|done]. cbn.
    rewrite list_lookup_insert_ne; [done|]. intros <-. cbn in E. congruence.
  - cbn. unfold l. lia.
Qed.

Lemma register_ok e c k l p b :
  ep_ok e → ep_conns e !! c = Some k → k_phase k = PhNumbered l p b → ep_ok (register e c k l p b).
Proof.
  intros Hok Hk Hp. pose proof (eo_conns _ Hok _ _ Hk) as Hc. unfold conn_ok in Hc. rewrite Hp in Hc.
  destruct Hc as (Hl & Hw & Hs & Hid & Ha & Hev). unfold register.
  apply (step_ok e _ c k); try done.
  - intros l' Hne. constructor; try done; cbn; rewrite lookup_insert_ne by congruence; done.
  - by left.
  - unfold conn_ok. cbn. split_and!; try done. exists []. by rewrite !lookup_insert_eq.
Qed.

Lemma announce_ok e c k l p b e' :
  ep_ok e → ep_conns e !! c = Some k → k_phase k = PhRegistered l p b →
  announce e c k l p b = Some e' → ep_ok e'.
Proof.
  intros Hok Hk Hp. pose proof (eo_conns _ Hok _ _ Hk) as Hc. unfold conn_ok in Hc. rewrite Hp in Hc.
  destruct Hc as (Hl & Hw & Hs & Hid & Ha & Hev & q & Hq & Hq'). unfold announce.
  destruct (send_event e _) as [[e1 ok]|] eqn:Es; cbn [mbind option_bind]; [|done]. intros [= <-].
  pose proof (send_event_Some _ _ _ _ Es) as (El & Ea & _ & _ & Ech & Eq & Ev).
  pose proof (events_at_snoc e e1 (LeUp l p) ok Ev l) as Evl. cbn in Evl.
  rewrite bool_decide_true, andb_true_r, Hev in Evl by done.
  assert (Hs1 : sent_out e1 k []) by (unfold sent_out; by rewrite El).
  destruct ok; (eapply event_step_ok; [done..| | |]); [by rewrite Hl|done| |by rewrite Hl|done|].
  - unfold conn_ok. cbn. split; [done|]. exists p, [], q. constructor; try done; rewrite ?Ea, ?Ech, ?Eq; try done.
    + cbn. by rewrite Hw.
    + cbn. by rewrite Hw.
  - unfold conn_ok. cbn. by split_and!.
Qed.

(** ** [run_link] *)

Lemma live_over e k l tail un p body q : live e k l tail un p body q → over e k l p body.
Proof.
  intros [Hi Ho Ha He Hd Hs Hc Hq]. constructor; try done.
  - by exists tail.
  - exists []. split; [done|]. destruct Ho as [[Hf _]%Forall_cons _]. by eapply partial_nil.
  - rewrite <-Hs. by apply prefix_app_r.
  - rewrite Hq. by apply prefix_app_r.
Qed.
(** The histories of two connections that differ in nothing else. *)
Lemma live_same e k k' l tail un p body q :
  k_expected k' = k_expected k → k_incoming k' = k_incoming k → k_outgoing k' = k_outgoing k →
  k_written k' = k_written k → live e k l tail un p body q → live e k' l tail un p body q.
Proof.
  intros Hx Hi Ho Hw [(hf & ? & ? & ? & ? & ?) [? ?] ? ? ? ? ? ?].
  constructor; rewrite ?Hw; try done.
  - exists hf. rewrite Hx, Hi. by split_and!.
  - split; [by rewrite Hw|by rewrite Ho, Hw].
Qed.
Lemma over_same e k k' l p body :
  k_expected k' = k_expected k → k_incoming k' = k_incoming k → k_outgoing k' = k_outgoing k →
  k_written k' = k_written k → over e k l p body → over e k' l p body.
Proof.
  intros Hx Hi Ho Hw [(tail & hf & ? & ? & ? & ? & ?) (part & [? ?] & ?) ? ? ? ?].
  constructor; rewrite ?Hw; try done.
  - exists tail, hf. rewrite Hx, Hi. by split_and!.
  - exists part. split; [|done]. split; [by rewrite Hw|by rewrite Ho, Hw].
Qed.
Lemma closing_ok e k l tail un p body q :
  k_link k = Some l → live e k l tail un p body q → conn_ok e (goto k (PhClosing l)).
Proof.
  intros Hl Hlv. unfold conn_ok. cbn. split; [done|]. exists p, body. split; [by apply (lv_events _ _ _ _ _ _ _ _ Hlv)|].
  apply (over_same e k); try done. by eapply live_over.
Qed.

(** The view of a link after a report of its own. *)
Lemma live_event e e1 ev (ok : bool) k l tail un p body q :
  send_event e ev = Some (e1, ok) → link_of ev = l → live e k l tail un p body q →
  ep_local e1 = ep_local e ∧ ep_allowed e1 = ep_allowed e ∧ ep_channels e1 = ep_channels e ∧
  ep_enqueued e1 = ep_enqueued e ∧ events_at e1 l = LeUp l p :: body ++ (if ok then [ev] else []).
Proof.
  intros (El & Ea & _ & _ & Ech & Eq & Ev)%send_event_Some Hev Hlv. split_and!; try done.
  rewrite (events_at_snoc e e1 ev ok Ev l), (lv_events _ _ _ _ _ _ _ _ Hlv), bool_decide_true, andb_true_r by done.
  done.
Qed.
Lemma omap_snoc {A B} (f : A → option B) l x :
  omap f (l ++ [x]) = omap f l ++ match f x with Some y => [y] | None => [] end.
Proof. induction l as [|a l IH]; cbn; [by destruct (f x)|]. destruct (f a); cbn; by rewrite IH. Qed.

Lemma read_frame_ok e c k l b e' :
  ep_ok e → ep_conns e !! c = Some k → k_phase k = PhReading l b → read_frame e c k l b = Some e' → ep_ok e'.
Proof.
  intros Hok Hk Hp. pose proof (eo_conns _ Hok _ _ Hk) as Hc. unfold conn_ok in Hc. rewrite Hp in Hc.
  destruct Hc as (Hl & p & body & q & Hlv). unfold read_frame.
  destruct (frame_decode b) as [[r rest]|] eqn:Ed; cbn [mbind option_bind]; [|done].
  destruct r as [[f|]|x].
  - apply decode_frame in Ed as [-> Hf].
    destruct (send_event e _) as [[e1 ok]|] eqn:Es; cbn [mbind option_bind]; [|done]. intros [= <-].
    destruct (live_event _ _ _ _ _ _ _ _ _ _ _ Es eq_refl Hlv) as (El & Ea & Ech & Eq & Ev).
    apply (event_step_ok e (LeFrame l f) e1 ok c k); try done.
    destruct Hlv as [(hf & ? & ? & ? & ? & Hin) [HF Ho] ? He ? Hs ? ?]. destruct ok.
    + unfold conn_ok. cbn. split; [done|]. exists p, (body ++ [LeFrame l f]), q.
      constructor; cbn; rewrite ?Ea, ?Ech, ?Eq; try done.
      * exists hf. unfold frames_in. rewrite omap_snoc. split_and!; try done; [apply Forall_app; split; [done|by constructor]|].
        cbn [k_incoming goto]. rewrite Hin, !stream_cons, stream_app, <-!app_assoc. cbn.
        by rewrite app_nil_r.
      * by split; cbn; rewrite El.
      * apply Forall_app. split; [done|by constructor].
      * unfold sents_in. rewrite omap_snoc. cbn. by rewrite app_nil_r.
    + apply (closing_ok e1 k l (enc f ++ rest) [] p body q); [done|].
      constructor; rewrite ?Ea, ?Ech, ?Eq; try done.
      * exists hf. by split_and!.
      * split; [by rewrite El|by rewrite El].
      * by rewrite app_nil_r in Ev.
  - apply decode_rest in Ed; [|done]. subst rest. intros [= <-]. apply (put_ok e c k); try done.
    unfold conn_ok. cbn. split; [done|]. exists p, body, q. by apply (live_same e k).
  - intros [= <-]. apply (put_ok e c k); try done. by eapply closing_ok.
Qed.

Lemma waiting_read_ok e c k l b r e' :
  ep_ok e → ep_conns e !! c = Some k → k_phase k = PhWaiting l b → read_step e c k r = Some e' → ep_ok e'.
Proof.
  intros Hok Hk Hp. pose proof (eo_conns _ Hok _ _ Hk) as Hc. unfold conn_ok in Hc. rewrite Hp in Hc.
  destruct Hc as (Hl & p & body & q & Hlv). unfold read_step. rewrite Hp.
  assert (ep_ok (put e c (goto k (PhClosing l)))) as Hclose.
  { apply (put_ok e c k); try done. by eapply closing_ok. }
  destruct r as [[|x chunk]|x]; intros [= <-]; try done.
  apply (put_ok e c k); try done. unfold conn_ok. cbn. split; [done|]. exists p, body, q.
  destruct Hlv as [(hf & ? & ? & ? & ? & Hin) [HF Ho] ? He ? Hs ? ?]. constructor; try done.
  exists hf. split_and!; try done. cbn [k_incoming goto did_read]. by rewrite Hin, <-app_assoc.
Qed.

Lemma take_command_ok e c k l b failed e' :
  ep_ok e → ep_conns e !! c = Some k → k_phase k = PhWaiting l b →
  take_command e c k l b failed = Some e' → ep_ok e'.
Proof.
  intros Hok Hk Hp. pose proof (eo_conns _ Hok _ _ Hk) as Hc. unfold conn_ok in Hc. rewrite Hp in Hc.
  destruct Hc as (Hl & p & body & q0 & Hlv). unfold take_command.
  pose proof (lv_chan _ _ _ _ _ _ _ _ Hlv) as Hch. rewrite Hch. cbn [mbind option_bind].
  destruct q0 as [|cmd q]; [done|]. set (e1 := set_channels _ _ _).
  assert (Hput : ∀ k', k_link k' = k_link k → conn_ok e1 k' → ep_ok (put e1 c k')).
  { intros k' Hl' Hc'. apply (step_ok e e1 c k); try done; [|by left].
    intros l' Hne. constructor; try done. cbn. rewrite lookup_insert_ne; [done|congruence]. }
  assert (Hover : ∀ k' part, k_expected k' = k_expected k → k_link k' = k_link k →
    k_incoming k' = k_incoming k → k_outgoing k' = k_outgoing k ++ part → k_written k' = k_written k →
    partial part → conn_ok e1 (goto k' (PhClosing l))).
  { intros k' part Hx Hl' Hi Ho' Hw Hpart. unfold conn_ok. cbn. split; [congruence|]. exists p, body.
    split; [apply (lv_events _ _ _ _ _ _ _ _ Hlv)|].
    destruct (live_over _ _ _ _ _ _ _ _ Hlv) as [(tail & hf & ? & ? & ? & ? & Hin) _ ? ? ? Henq].
    constructor; cbn; rewrite ?Hw; try done.
    - exists tail, hf. cbn. rewrite Hx, Hi. by split_and!.
    - exists part. split; [|done]. destruct (lv_out _ _ _ _ _ _ _ _ Hlv) as [HF Ho].
      split; cbn; rewrite Hw; [done|]. by rewrite Ho', Ho, app_nil_r. }
  assert (Hclose : ep_ok (put e1 c (goto k (PhClosing l)))).
  { apply Hput; [done|]. apply (Hover k []); try done; [by rewrite app_nil_r|].
    by apply (partial_nil (WireFrame_control LinkHello [])). }
  destruct cmd as [f|]; [|by intros [= <-]].
  destruct (frame_encode f) as [bs|x] eqn:Ef; [|by intros [= <-]].
  apply frame_encode_enc in Ef as [-> Hf]. destruct failed as [n|].
  { case_decide as Hn; [|done]. intros [= <-]. apply Hput; [done|].
    apply (Hover _ (take n (enc f))); try done; [|by apply partial_take].
    cbn. by rewrite app_nil_r. }
  intros [= <-]. apply Hput; [done|]. unfold conn_ok. cbn. split; [done|]. exists p, body, q.
  destruct Hlv as [(hf & ? & ? & ? & ? & Hin) [HF Ho] ? He ? Hs ? Hq].
  constructor; cbn; try done.
  - exists hf. by split_and!.
  - split; cbn.
    + apply Forall_cons in HF as [? ?]. constructor; [done|]. apply Forall_app. split; [done|by constructor].
    + rewrite Ho, !app_nil_r, !stream_cons, stream_app, <-app_assoc. cbn. by rewrite app_nil_r.
  - cbn in Hs. rewrite app_nil_r in Hs. by rewrite Hs, fmap_app.
  - by rewrite lookup_insert_eq.
  - rewrite Hq, fmap_app, <-app_assoc. done.
Qed.

Lemma report_ok e c k l b f e' :
  ep_ok e → ep_conns e !! c = Some k → k_phase k = PhReporting l b f → report e c k l b f = Some e' → ep_ok e'.
Proof.
  intros Hok Hk Hp. pose proof (eo_conns _ Hok _ _ Hk) as Hc. unfold conn_ok in Hc. rewrite Hp in Hc.
  destruct Hc as (Hl & p & body & q & Hlv). unfold report.
  destruct (send_event e _) as [[e1 ok]|] eqn:Es; cbn [mbind option_bind]; [|done]. intros [= <-].
  destruct (live_event _ _ _ _ _ _ _ _ _ _ _ Es eq_refl Hlv) as (El & Ea & Ech & Eq & Ev).
  apply (event_step_ok e (sent_event l f) e1 ok c k); try done.
  destruct Hlv as [(hf & ? & ? & ? & ? & Hin) [HF Ho] ? He ? Hs ? ?]. destruct ok.
  - unfold conn_ok. cbn. split; [done|]. exists p, (body ++ [sent_event l f]), q.
    constructor; cbn; rewrite ?Ea, ?Ech, ?Eq; try done.
    + exists hf. unfold frames_in. rewrite omap_snoc. cbn. rewrite app_nil_r. by split_and!.
    + by split; cbn; rewrite El.
    + apply Forall_app. split; [done|by constructor].
    + unfold sents_in. rewrite omap_snoc, app_nil_r. exact Hs.
  - apply (closing_ok e1 k l b [f] p body q); [done|].
    constructor; rewrite ?Ea, ?Ech, ?Eq; try done.
    + exists hf. by split_and!.
    + by split; rewrite El.
    + by rewrite app_nil_r in Ev.
Qed.

(** Steps that change the list of links only, or also drop the channel of
    the link. *)
Lemma drop_step_ok e e1 c k l k' :
  ep_ok e → ep_conns e !! c = Some k → k_link k = Some l → k_link k' = Some l →
  ep_conns e1 = ep_conns e → ep_next_link e1 = ep_next_link e → ep_local e1 = ep_local e →
  ep_allowed e1 = ep_allowed e → events e1 = events e → ep_enqueued e1 = ep_enqueued e →
  (∀ l', l' ≠ l → ep_channels e1 !! l' = ep_channels e !! l') → conn_ok e1 k' → ep_ok (put e1 c k').
Proof.
  intros Hok Hk Hl Hl' Ec En El Ea Ev Eq Ech Hc. apply (step_ok e e1 c k); try done.
  - congruence.
  - intros l' Hne. constructor; rewrite ?El, ?Ea, ?Eq; try done; [by unfold events_at; rewrite Ev|].
    apply Ech. congruence.
  - rewrite Ev. by left.
Qed.

Lemma withdraw_ok e c k l x :
  ep_ok e → ep_conns e !! c = Some k → k_phase k = PhWithdrawing l →
  ep_ok (put (drop_channel (remove_link e l) l) c (fail k x)).
Proof.
  intros Hok Hk Hp. pose proof (eo_conns _ Hok _ _ Hk) as Hc. unfold conn_ok in Hc. rewrite Hp in Hc.
  destruct Hc as (Hl & Hw & Hs & Hev). eapply (drop_step_ok e _ c k l); try done.
  - intros l' Hne. cbn. by rewrite lookup_delete_ne.
  - apply fail_ok; [|by apply early_of_sent]. intros l' Hl'. rewrite Hl in Hl'. by injection Hl' as <-.
Qed.
Lemma closing_step_ok e c k l :
  ep_ok e → ep_conns e !! c = Some k → k_phase k = PhClosing l →
  ep_ok (put (remove_link e l) c (goto k (PhLeaving l))).
Proof.
  intros Hok Hk Hp. pose proof (eo_conns _ Hok _ _ Hk) as Hc. unfold conn_ok in Hc. rewrite Hp in Hc.
  destruct Hc as (Hl & p & body & Hev & Hov). eapply (drop_step_ok e _ c k l); try done.
  unfold conn_ok. cbn. split; [done|]. exists p, body. split; [exact Hev|].
  apply (over_same _ k); try done. by destruct Hov.
Qed.
Lemma leave_ok e c k l e' :
  ep_ok e → ep_conns e !! c = Some k → k_phase k = PhLeaving l → leave e c k l = Some e' → ep_ok e'.
Proof.
  intros Hok Hk Hp. pose proof (eo_conns _ Hok _ _ Hk) as Hc. unfold conn_ok in Hc. rewrite Hp in Hc.
  destruct Hc as (Hl & p & body & Hev & Hov). unfold leave.
  destruct (send_event e _) as [[e1 ok]|] eqn:Es; cbn [mbind option_bind]; [|done]. intros [= <-].
  pose proof (send_event_Some _ _ _ _ Es) as (El & Ea & En & Ec & Ech & Eq & Ev).
  pose proof (events_at_snoc e e1 (LeDown l) ok Ev l) as Evl. cbn in Evl.
  rewrite bool_decide_true, andb_true_r, Hev in Evl by done.
  apply (step_ok e _ c k); try done.
  - intros l' Hne. constructor; [exact El|cbn; by rewrite Ea| | |cbn; by rewrite Eq].
    + change (events_at (drop_channel e1 l) l') with (events_at e1 l').
      rewrite (events_at_snoc e e1 (LeDown l) ok Ev), bool_decide_false, andb_false_r by (cbn; congruence).
      by rewrite app_nil_r.
    + cbn. rewrite lookup_delete_ne by congruence. by rewrite Ech.
  - intros ev. change (events (drop_channel e1 l)) with (events e1). rewrite Ev, elem_of_app.
    intros [?|Hin]; [by left|]. right. destruct ok; [|by apply elem_of_nil in Hin].
    by apply list_elem_of_singleton in Hin as ->.
  - unfold conn_ok. cbn. rewrite Hl. right. exists p, body, (if ok then [LeDown l] else []).
    split; [exact Evl|]. split; [destruct ok; auto|].
    destruct Hov as [(tail & hf & ? & ? & ? & ? & ?) (part & [? ?] & ?) ? ? ? ?].
    constructor; cbn; rewrite ?Ea, ?Eq; try done.
    + exists tail, hf. by split_and!.
    + exists part. split; [|done]. by split; cbn; rewrite El.
Qed.

Lemma hangup_ok e c k e' :
  ep_ok e → ep_conns e !! c = Some k → hangup e c k = Some e' → ep_ok e'.
Proof.
  intros Hok Hk. unfold hangup. pose proof (eo_conns _ Hok _ _ Hk) as Hc. unfold conn_ok in Hc.
  destruct (k_phase k) as [|b|p b|l p b|l p b|l|l b|l b|l b|l b f|l|l|]; try done.
  destruct Hc as (Hl & p & body & q & Hlv). destruct (_ || _); [|done]. intros [= <-].
  apply (put_ok e c k); try done. by eapply closing_ok.
Qed.
Lemma proceed_ok e c k e' :
  ep_ok e → ep_conns e !! c = Some k → proceed e c k = Some e' → ep_ok e'.
Proof.
  intros Hok Hk. unfold proceed.
  destruct (k_phase k) as [|b|p b|l p b|l p b|l|l b|l b|l b|l b f|l|l|] eqn:Hp; try done.
  - intros [= <-]. by apply enroll_ok.
  - intros [= <-]. by apply register_ok.
  - by apply announce_ok.
  - intros [= <-]. by apply withdraw_ok.
  - intros [= <-]. pose proof (eo_conns _ Hok _ _ Hk) as Hc. unfold conn_ok in Hc. rewrite Hp in Hc.
    destruct Hc as (Hl & p & body & q & Hlv). apply (put_ok e c k); try done. unfold conn_ok. cbn.
    split; [done|]. exists p, body, q. by apply (live_same e k).
  - by apply read_frame_ok.
  - by apply report_ok.
  - intros [= <-]. by apply closing_step_ok.
  - by apply leave_ok.
Qed.
Lemma conn_step_ok e c s e' : ep_ok e → conn_step e c s = Some e' → ep_ok e'.
Proof.
  intros Hok. unfold conn_step. destruct (ep_conns e !! c) as [k|] eqn:Hk; cbn [mbind option_bind]; [|done].
  destruct s as [io|r| |failed|].
  - destruct (k_phase k) eqn:Hp; try done. by apply hello_step_ok.
  - destruct (k_phase k) eqn:Hp; try (unfold read_step; by rewrite Hp);
      [by eapply greeting_read_ok|by eapply waiting_read_ok].
  - by apply proceed_ok.
  - destruct (k_phase k) eqn:Hp; try done. by apply take_command_ok.
  - by apply hangup_ok.
Qed.

(** ** The other steps *)

(** A step that no connection observes. *)
Lemma quiet_step_ok e e' :
  ep_ok e → ep_conns e' = ep_conns e → ep_next_link e' = ep_next_link e → ep_local e' = ep_local e →
  ep_allowed e ⊆ ep_allowed e' → events e' = events e → ep_channels e' = ep_channels e →
  ep_enqueued e' = ep_enqueued e → ep_ok e'.
Proof.
  intros [Hc Hr Hd Ho Hn] Ec En El Ea Ev Ech Eq. constructor; rewrite ?Ec, ?En, ?Ev; try done.
  intros c k Hk. apply (conn_ok_view e); try done; [|by eapply Hc].
  intros l _. constructor; rewrite ?Ech, ?Eq; try done. unfold events_at. by rewrite Ev.
Qed.
Lemma open_conn_ok e x : ep_ok e → ep_ok (set_conns e (ep_conns e ++ [Conn_new x])).
Proof.
  intros [Hc Hr Hd Ho Hn].
  assert (Hcase : ∀ i k, (ep_conns e ++ [Conn_new x]) !! i = Some k →
    ep_conns e !! i = Some k ∨ k = Conn_new x).
  { intros i k [?|[_ H]]%lookup_app_Some; [by left|]. right.
    by apply list_lookup_singleton_Some in H as [_ <-]. }
  constructor; cbn; try done.
  - intros i k [Hk| ->]%Hcase; [by apply (conn_ok_view e); [..|by eapply Hc]|done].
  - intros i k l [Hk| ->]%Hcase; [by eapply Hr|done].
  - intros i j k k' l [Hk| ->]%Hcase [Hk'| ->]%Hcase; try done. by eapply Hd.
  - intros ev (i & k & Hk & Hl)%Ho. exists i, k. split; [|done]. by apply lookup_app_l_Some.
Qed.
Lemma enqueue_ok e l cmd e' r : ep_ok e → enqueue_command e l cmd = Some (e', r) → ep_ok e'.
Proof.
  intros Hok. unfold enqueue_command. destruct (ep_channels e !! l) as [q|] eqn:Hq; [|by intros [= <- _]].
  destruct (zlen q <? _); [|done]. intros [= <- _]. destruct Hok as [Hc Hr Hd Ho Hn].
  set (e1 := set_channels _ _ _).
  constructor; try done. intros c k Hk. specialize (Hc c k Hk).
  destruct (decide (k_link k = Some l)) as [Hl|Hne].
  2: { apply (conn_ok_view e); try done. intros l' Hl'. constructor; try done; cbn;
         rewrite lookup_insert_ne; (done || congruence). }
  assert (Hov : ∀ p body, over e k l p body → over e1 k l p body).
  { intros p body [? ? ? ? ? He]. constructor; try done. cbn. rewrite lookup_insert_eq. cbn.
    by apply prefix_app_r. }
  assert (Hlv : ∀ t un p body q, live e k l t un p body q → ∃ q, live e1 k l t un p body q).
  { intros t un p body q' [? ? ? ? ? ? Hch Heq]. exists (q ++ [cmd]). rewrite Hq in Hch. injection Hch as <-.
    constructor; try done; cbn; rewrite lookup_insert_eq; [done|]. by rewrite Heq, app_assoc. }
  assert (Hfin : ∀ q1 : list LinkCommand, ep_channels e !! l = Some q1 → ep_enqueued e !! l = Some q1 →
    ∃ q2, ep_channels e1 !! l = Some q2 ∧ ep_enqueued e1 !! l = Some q2).
  { intros q1 H1 H2. exists (q ++ [cmd]). cbn. rewrite !lookup_insert_eq, H2. rewrite Hq in H1.
    by injection H1 as <-. }
  unfold conn_ok in *. destruct (k_phase k) as [|b|p b|l' p b|l' p b|l'|l' b|l' b|l' b|l' b f|l'|l'|]; try done.
  - destruct Hc as (Hl' & ? & ? & ? & ? & ? & q1 & ? & ?). assert (l' = l) as -> by congruence.
    split_and!; eauto.
  - destruct Hc as (Hl' & p & body & q1 & H). assert (l' = l) as -> by congruence.
    apply Hlv in H as [q2 H]. split; [done|]. by exists p, body, q2.
  - destruct Hc as (Hl' & p & body & q1 & H). assert (l' = l) as -> by congruence.
    apply Hlv in H as [q2 H]. split; [done|]. by exists p, body, q2.
  - destruct Hc as (Hl' & p & body & q1 & H). assert (l' = l) as -> by congruence.
    apply Hlv in H as [q2 H]. split; [done|]. by exists p, body, q2.
  - destruct Hc as (Hl' & p & body & q1 & H). assert (l' = l) as -> by congruence.
    apply Hlv in H as [q2 H]. split; [done|]. by exists p, body, q2.
  - destruct Hc as (Hl' & p & body & ? & H). assert (l' = l) as -> by congruence.
    split; [done|]. exists p, body. auto.
  - destruct Hc as (Hl' & p & body & ? & H). assert (l' = l) as -> by congruence.
    split; [done|]. exists p, body. auto.
  - rewrite Hl in *. destruct Hc as [?|(p & body & down & ? & ? & ?)]; [by left|]. right.
    exists p, body, down. auto.
Qed.

(** A task that ends where it is. *)
Lemma ended_ok e k : conn_ok e k → conn_ok e (goto k PhEnded).
Proof.
  intros Hc. unfold conn_ok in Hc |- *. cbn [k_phase goto k_link].
  assert (Hov : ∀ l, (∃ p body, events_at e l = LeUp l p :: body ∧ over e k l p body) →
    ∃ p body down, events_at e l = LeUp l p :: body ++ down ∧ (down = [] ∨ down = [LeDown l]) ∧
      over e (goto k PhEnded) l p body).
  { intros l (p & body & He & Hov). exists p, body, []. rewrite app_nil_r. split_and!; [done|by left|].
    by apply (over_same e k). }
  assert (Hlv : ∀ l, (∃ b un p body q, live e k l b un p body q) →
    ∃ p body down, events_at e l = LeUp l p :: body ++ down ∧ (down = [] ∨ down = [LeDown l]) ∧
      over e (goto k PhEnded) l p body).
  { intros l (b & un & p & body & q & Hl). apply Hov. exists p, body.
    split; [apply (lv_events _ _ _ _ _ _ _ _ Hl)|by eapply live_over]. }
  destruct (k_phase k) as [|b|p b|l p b|l p b|l|l b|l b|l b|l b f|l|l|].
  - destruct Hc as (-> & _ & Ho & Hw). split; [done|]. exists []. split; [|by left].
    by apply (partial_nil (WireFrame_control LinkHello [])).
  - destruct Hc as (-> & _ & Hw & Hs). by apply early_of_sent.
  - destruct Hc as (-> & Hw & Hs & _). by apply early_of_sent.
  - destruct Hc as (-> & Hw & Hs & _ & _ & He). left. split; [by apply early_of_sent|done].
  - destruct Hc as (-> & Hw & Hs & _ & _ & He & _). left. split; [by apply early_of_sent|done].
  - destruct Hc as (-> & Hw & Hs & He). left. split; [by apply early_of_sent|done].
  - destruct Hc as (-> & p & body & q & H). right. apply Hlv. eauto 7.
  - destruct Hc as (-> & p & body & q & H). right. apply Hlv. eauto 7.
  - destruct Hc as (-> & p & body & q & H). right. apply Hlv. eauto 7.
  - destruct Hc as (-> & p & body & q & H). right. apply Hlv. eauto 7.
  - destruct Hc as (-> & H). right. by apply Hov.
  - destruct Hc as (-> & H). right. by apply Hov.
  - destruct (k_link k) as [l|]; [|done]. destruct Hc as [?|(p & body & down & ? & ? & ?)]; [by left|].
    right. exists p, body, down. split_and!; try done. by apply (over_same e k).
Qed.
Lemma ended_drop e k l : conn_ok e (goto k PhEnded) → conn_ok (drop_channel e l) (goto k PhEnded).
Proof.
  unfold conn_ok. cbn. destruct (k_link k) as [l'|]; [|done].
  intros [?|(p & body & down & ? & ? & [])]; [by left|]. right. exists p, body, down. by split_and!.
Qed.
Lemma end_conn_ok e c attach : ep_ok e → ep_ok (end_conn e c attach).
Proof.
  intros Hok. unfold end_conn. destruct (ep_conns e !! c) as [k|] eqn:Hk; [|done].
  case_bool_decide; [|done]. pose proof (ended_ok _ _ (eo_conns _ Hok _ _ Hk)) as Hend.
  destruct (k_link k) as [l|] eqn:Hl; [|by apply (put_ok e c k)].
  apply (drop_step_ok e _ c k l); try done; [|by apply ended_drop].
  intros l' Hne. cbn. by rewrite lookup_delete_ne.
Qed.
Lemma kill_ok e t : ep_ok e → ep_ok (kill e t).
Proof.
  intros Hok. assert (ep_ok (set_tasks e (ep_shutdown e) (ep_accepting e) (ep_tasks e) (ep_aborting e ∖ {[t]})))
    as Hok1 by (by apply (quiet_step_ok e)).
  destruct t as [|c|c]; cbn; [by apply (quiet_step_ok e)|by apply end_conn_ok..].
Qed.

Lemma ep_step_ok e s e' : ep_ok e → ep_step e s = Some e' → ep_ok e'.
Proof.
  intros Hok. destruct s as [c s| | |t|p|p|l cmd| | | | |t|]; cbn [ep_step].
  - by apply conn_step_ok.
  - destruct (ep_accepting e); [|done]. intros [= <-]. by apply open_conn_ok.
  - intros [= <-]. by apply (quiet_step_ok e).
  - intros [= <-]. by apply (quiet_step_ok e).
  - intros [= <-]. apply (quiet_step_ok e); try done. cbn. set_solver.
  - destruct (connect_check e p); [|done]. intros [= <-]. by apply open_conn_ok.
  - destruct (enqueue_command e l cmd) as [[e1 r]|] eqn:E; cbn [mbind option_bind]; [|done].
    intros [= <-]. by eapply enqueue_ok.
  - destruct (ep_queue e) as [|ev q] eqn:Eq; [done|]. destruct (ep_receiving e); [|done]. intros [= <-].
    apply (quiet_step_ok e); try done. unfold events. cbn. by rewrite Eq, <-app_assoc.
  - intros [= <-]. by apply (quiet_step_ok e).
  - intros [= <-]. by apply (quiet_step_ok e).
  - destruct (ep_shutdown e); [|done]. intros [= <-]. by apply (quiet_step_ok e).
  - case_decide; [|done]. intros [= <-]. by apply kill_ok.
  - destruct (_ && _); [|done]. intros [= <-]. by apply (quiet_step_ok e).
Qed.
Lemma bind_ok local allowed : ep_ok (bind local allowed).
Proof. constructor; cbn; try done. by intros ev ?%elem_of_nil. Qed.
(** Rule induction over executions. *)
Lemma ep_run_ind (P : Endpoint → Prop) e l e' :
  (∀ e s e', P e → ep_step e s = Some e' → P e') → P e → ep_run e l = Some e' → P e'.
Proof.
  intros Hstep. revert e. induction l as [|s l IH]; intros e He; cbn [ep_run]; [by intros [= <-]|].
  destruct (ep_step e s) as [e1|] eqn:E; cbn [mbind option_bind]; [|done]. eauto.
Qed.
Lemma ep_reachable_ok e : ep_reachable e → ep_ok e.
Proof.
  intros (local & allowed & l & E). eapply ep_run_ind; [by intros; eapply ep_step_ok|apply bind_ok|exact E].
Qed.
End Transport.
