(* ===== verification/TransportTheorems.v ===== *)
(** * Theorems about the TCP transport (crates/mb-transport) *)

From Stdlib Require Import Strings.Byte.
From S2P Require Export Prelude Ord Bytes Types Proto Wire WireFrames Transport TransportProps.
Open Scope Z_scope.

Section Transport.
Context `{!Prost PbLinkHello}.
Implicit Types (e : Endpoint) (k : Conn).

(** ** Sessions *)

(** What a connection with a link number has reported. *)
Lemma session_of e c k l :
  ep_ok e → ep_conns e !! c = Some k → k_link k = Some l →
  events_at e l = [] ∨
  ∃ p body down, events_at e l = LeUp l p :: body ++ down ∧ (down = [] ∨ down = [LeDown l]) ∧
    over e k l p body.
Proof.
  intros Hok Hk Hl. pose proof (ended_ok _ _ (eo_conns _ Hok _ _ Hk)) as Hc. unfold conn_ok in Hc.
  cbn in Hc. rewrite Hl in Hc. destruct Hc as [[_ ?]|(p & body & down & ? & ? & ?)]; [by left|].
  right. exists p, body, down. split_and!; try done. by apply (over_same e (goto k PhEnded)).
Qed.
(** What it has written. *)
Lemma outgoing_of e c k :
  ep_ok e → ep_conns e !! c = Some k →
  ∃ part, partial part ∧ (k_written k = [] ∧ k_outgoing k = part ∨ sent_out e k part).
Proof.
  intros Hok Hk. pose proof (ended_ok _ _ (eo_conns _ Hok _ _ Hk)) as Hc. unfold conn_ok in Hc.
  cbn in Hc.
  assert (Hearly : early_out e (goto k PhEnded) →
    ∃ part, partial part ∧ (k_written k = [] ∧ k_outgoing k = part ∨ sent_out e k part)).
  { intros (Hw & part & Hp & [Ho|Ho]); exists part; auto. }
  destruct (k_link k) as [l|]; [|by apply Hearly].
  destruct Hc as [[He _]|(p & body & down & _ & _ & Hov)]; [by apply Hearly|].
  destruct (ov_out _ _ _ _ _ Hov) as (part & Hs & Hp). exists part. auto.
Qed.
Lemma check_hello_own `{!ProstLaws PbLinkHello PbLinkHello_typed} n :
  check_hello (hello_frame n) = Ok n.
Proof.
  unfold check_hello, hello_frame. cbn. rewrite prost_roundtrip by done. cbn.
  unfold node_id_from_bytes. by rewrite from_bytes_as_bytes.
Qed.
Lemma frames_in_session l p body down :
  down = [] ∨ down = [LeDown l] → frames_in (LeUp l p :: body ++ down) = frames_in body.
Proof. intros [->| ->]; [by rewrite app_nil_r|]. cbn. unfold frames_in. rewrite omap_snoc. apply app_nil_r. Qed.

(** ** Bookkeeping *)

(** The phases in which a link is listed. *)
Definition listed (p : Phase) : bool :=
  match p with
  | PhRegistered _ _ _ | PhWithdrawing _ | PhSpawned _ _ | PhReading _ _ | PhWaiting _ _
  | PhReporting _ _ _ | PhClosing _ => true
  | _ => false
  end.
Definition holds_link e (l : LinkId) : Prop :=
  ∃ c k, ep_conns e !! c = Some k ∧ k_link k = Some l ∧ listed (k_phase k) = true.

Record books e : Prop := {
  bk_count : ep_link_count e = Z.of_nat (size (ep_links e));
  bk_queue : zlen (ep_queue e) ≤ EVENT_QUEUE_CAPACITY;
  bk_chan l q : ep_channels e !! l = Some q → zlen q ≤ LINK_QUEUE_CAPACITY;
  bk_tasks : ep_shutdown e = false → ep_aborting e = ∅;
  bk_links : ep_shutdown e = false → ∀ l, l ∈ ep_links e ↔ holds_link e l;
}.

(** The link of a connection is listed by its own phase. *)
Lemma own_listed e c k l :
  ep_ok e → books e → ep_shutdown e = false → ep_conns e !! c = Some k → k_link k = Some l →
  l ∈ ep_links e ↔ listed (k_phase k) = true.
Proof.
  intros Hok Hb Hs Hk Hl. rewrite (bk_links _ Hb Hs l). split; [|intros; by exists c, k].
  intros (i & x & Hx & Hxl & Hlist). assert (i = c) as -> by (by eapply eo_distinct). congruence.
Qed.

(** A step of one connection that keeps its number. *)
Lemma books_put e e1 c k k' :
  ep_ok e → books e → ep_conns e !! c = Some k → ep_conns e1 = ep_conns e →
  ep_shutdown e1 = ep_shutdown e → ep_aborting e1 = ep_aborting e →
  ep_link_count e1 = Z.of_nat (size (ep_links e1)) → zlen (ep_queue e1) ≤ EVENT_QUEUE_CAPACITY →
  (∀ l q, ep_channels e1 !! l = Some q → zlen q ≤ LINK_QUEUE_CAPACITY) → k_link k' = k_link k →
  (∀ l, k_link k ≠ Some l → l ∈ ep_links e1 ↔ l ∈ ep_links e) →
  (∀ l, k_link k = Some l → (l ∈ ep_links e ↔ listed (k_phase k) = true) →
     (l ∈ ep_links e1 ↔ listed (k_phase k') = true)) →
  books (put e1 c k').
Proof.
  intros Hok Hb Hk Ec Es Eab Hcnt Hq Hch Hlk Hother Hown.
  constructor; cbn; rewrite ?Es, ?Eab; try done; [apply (bk_tasks _ Hb)|]. intros Hsd l.
  assert (Hlt : (c < length (ep_conns e1))%nat) by (rewrite Ec; by eapply lookup_lt_Some).
  destruct (decide (k_link k = Some l)) as [Hl|Hne].
  - rewrite (Hown l Hl) by by apply (own_listed e c k l). split.
    + intros Hlist. exists c, k'. rewrite Hlk. split_and!; try done. cbn. by apply list_lookup_insert_eq.
    + intros (i & x & [(-> & -> & _)|[Hi Hx]]%lookup_put & Hxl & Hlist); [done|]. rewrite Ec in Hx.
      by destruct (Hi (eo_distinct _ Hok _ _ _ _ _ Hx Hk Hxl Hl)).
  - rewrite (Hother l Hne), (bk_links _ Hb Hsd l). split.
    + intros (i & x & Hx & Hxl & Hlist). exists i, x. split_and!; try done. cbn. rewrite Ec.
      rewrite list_lookup_insert_ne; [done|]. congruence.
    + intros (i & x & [(-> & -> & _)|[Hi Hx]]%lookup_put & Hxl & Hlist); [congruence|].
      rewrite Ec in Hx. by exists i, x.
Qed.
Lemma books_same e c k k' :
  ep_ok e → books e → ep_conns e !! c = Some k → k_link k' = k_link k →
  listed (k_phase k') = listed (k_phase k) → books (put e c k').
Proof.
  intros Hok Hb Hk Hl Hp. pose proof Hb as [? ? ? _ _].
  apply (books_put e e c k); try done. intros l _. by rewrite Hp.
Qed.
(** A step that reports an event. *)
Lemma books_event e ev e1 ok c k k' :
  ep_ok e → books e → ep_conns e !! c = Some k → send_event e ev = Some (e1, ok) →
  k_link k' = k_link k → listed (k_phase k') = listed (k_phase k) → books (put e1 c k').
Proof.
  intros Hok Hb Hk Es Hl Hp. pose proof Hb as [? ? ? _ _]. unfold send_event in Es.
  destruct (ep_receiving e); [|injection Es as <- <-; by apply (books_same e c k)].
  destruct (Z.ltb_spec (zlen (ep_queue e)) EVENT_QUEUE_CAPACITY); [|done]. injection Es as <- <-.
  apply (books_put e _ c k); try done; cbn.
  - rewrite zlen_app. change (zlen [ev]) with 1. lia.
  - intros l _. by rewrite Hp.
Qed.
Lemma books_enroll e c k p b :
  ep_ok e → books e → ep_conns e !! c = Some k → k_phase k = PhIdentified p b → books (enroll e c k p b).
Proof.
  intros Hok Hb Hk Hp. pose proof (eo_conns _ Hok _ _ Hk) as Hc. unfold conn_ok in Hc. rewrite Hp in Hc.
  destruct Hc as (Hl & _). unfold enroll.
  assert (Hf : ∀ x, books (put e c (fail k x))) by (intros x; apply (books_same e c k); try done; by rewrite Hp).
  case_decide; [|apply Hf]. destruct (checked_add _ _ _); [|apply Hf].
  destruct Hb as [? ? ? Ht Hls]. constructor; try done. intros Hsd l. change (l ∈ ep_links e ↔ holds_link (put (set_next_link e z) c (goto (with_link k (ep_next_link e)) (PhNumbered (ep_next_link e) p b))) l).
  rewrite (Hls Hsd l). split.
  - intros (i & x & Hx & Hxl & Hlist). exists i, x. split_and!; try done. cbn.
    rewrite list_lookup_insert_ne; [done|]. congruence.
  - intros (i & x & [(-> & -> & _)|[Hi Hx]]%lookup_put & Hxl & Hlist); [done|]. by exists i, x.
Qed.
Lemma books_register e c k l p b :
  ep_ok e → books e → ep_conns e !! c = Some k → k_phase k = PhNumbered l p b → books (register e c k l p b).
Proof.
  intros Hok Hb Hk Hp. pose proof (eo_conns _ Hok _ _ Hk) as Hc. unfold conn_ok in Hc. rewrite Hp in Hc.
  destruct Hc as (Hl & _). pose proof Hb as [? ? Hch _ _]. apply (books_put e _ c k); try done; cbn.
  - intros l' q. destruct (decide (l' = l)) as [->|Hne].
    + rewrite lookup_insert_eq. by intros [= <-].
    + rewrite lookup_insert_ne by done. apply Hch.
  - intros l' Hne. assert (l' ≠ l) by congruence. set_solver.
  - intros l' Hl' _. assert (l' = l) as -> by congruence. set_solver.
Qed.
(** A link leaves the list. *)
Lemma books_remove e e1 c k l k' :
  ep_ok e → books e → ep_conns e !! c = Some k → k_link k = Some l → k_link k' = Some l →
  listed (k_phase k') = false → e1 = remove_link e l ∨ e1 = drop_channel (remove_link e l) l →
  books (put e1 c k').
Proof.
  intros Hok Hb Hk Hl Hl' Hp He. pose proof Hb as [Hct Hq Hch _ _].
  assert (Hls : ep_links e1 = ep_links e ∖ {[l]}) by (by destruct He as [->| ->]).
  apply (books_put e e1 c k); try (destruct He as [->| ->]; done); rewrite ?Hls.
  - intros l' q. destruct He as [->| ->]; [apply Hch|]. cbn. intros [_ ?]%lookup_delete_Some. by eapply Hch.
  - congruence.
  - intros l' Hne. assert (l' ≠ l) by congruence. set_solver.
  - intros l' Hkl _. assert (l' = l) as -> by congruence. rewrite Hp. set_solver.
Qed.
Lemma books_take_command e c k l b failed e' :
  ep_ok e → books e → ep_conns e !! c = Some k → k_phase k = PhWaiting l b →
  take_command e c k l b failed = Some e' → books e'.
Proof.
  intros Hok Hb Hk Hp. pose proof Hb as [Hct Hq Hch _ _]. unfold take_command.
  destruct (ep_channels e !! l) as [[|cmd q]|] eqn:Ec; cbn [mbind option_bind]; try done.
  set (e1 := set_channels _ _ _).
  assert (Hput : ∀ k', k_link k' = k_link k → listed (k_phase k') = true → books (put e1 c k')).
  { intros k' Hl Hlist. apply (books_put e e1 c k); try done; cbn.
    - intros l' q'. destruct (decide (l' = l)) as [->|Hne].
      + rewrite lookup_insert_eq. intros [= <-]. specialize (Hch _ _ Ec). rewrite zlen_cons in Hch. lia.
      + rewrite lookup_insert_ne by done. apply Hch.
    - intros l' _. by rewrite Hlist, Hp. }
  destruct cmd as [f|]; [|intros [= <-]; by apply Hput].
  destruct (frame_encode f) as [bs|x]; [|intros [= <-]; by apply Hput].
  destruct failed as [n|]; [case_decide; [|done]|]; intros [= <-]; by apply Hput.
Qed.
Lemma books_leave e c k l e' :
  ep_ok e → books e → ep_conns e !! c = Some k → k_phase k = PhLeaving l → leave e c k l = Some e' → books e'.
Proof.
  intros Hok Hb Hk Hp. unfold leave.
  destruct (send_event e _) as [[e1 ok]|] eqn:Es; cbn [mbind option_bind]; [|done]. intros [= <-].
  destruct (books_event e _ e1 ok c k (goto k PhEnded) Hok Hb Hk Es) as [Hct Hq Hch Ht Hls];
    [done|by rewrite Hp|].
  constructor; try done. cbn. intros l' q [_ ?]%lookup_delete_Some. by eapply Hch.
Qed.
Lemma books_proceed e c k e' :
  ep_ok e → books e → ep_conns e !! c = Some k → proceed e c k = Some e' → books e'.
Proof.
  intros Hok Hb Hk. unfold proceed. pose proof (eo_conns _ Hok _ _ Hk) as Hc. unfold conn_ok in Hc.
  destruct (k_phase k) as [|b|p b|l p b|l p b|l|l b|l b|l b|l b f|l|l|] eqn:Hp; try done.
  - intros [= <-]. by apply books_enroll.
  - intros [= <-]. by apply books_register.
  - unfold announce. destruct (send_event e _) as [[e1 ok]|] eqn:Es; cbn [mbind option_bind]; [|done].
    intros [= <-]. destruct ok; (eapply (books_event e _ _ _ c k); [done..|by rewrite Hp]).
  - intros [= <-]. destruct Hc as (Hl & _). eapply (books_remove e _ c k l); try done. by right.
  - intros [= <-]. apply (books_same e c k); try done. by rewrite Hp.
  - unfold read_frame. destruct (frame_decode b) as [[[[f|]|x] rest]|]; cbn [mbind option_bind]; [| | |done].
    + destruct (send_event e _) as [[e1 ok]|] eqn:Es; cbn [mbind option_bind]; [|done]. intros [= <-].
      eapply (books_event e _ _ _ c k); [done..|]. rewrite Hp. by destruct ok.
    + intros [= <-]. apply (books_same e c k); try done. by rewrite Hp.
    + intros [= <-]. apply (books_same e c k); try done. by rewrite Hp.
  - unfold report. destruct (send_event e _) as [[e1 ok]|] eqn:Es; cbn [mbind option_bind]; [|done].
    intros [= <-]. eapply (books_event e _ _ _ c k); [done..|]. rewrite Hp. by destruct ok.
  - intros [= <-]. destruct Hc as (Hl & _). eapply (books_remove e _ c k l); try done. by left.
  - by apply books_leave.
Qed.
Lemma greet_unlisted k b k' :
  greet k b = Some k' → k_link k' = k_link k ∧ listed (k_phase k') = false.
Proof.
  unfold greet. destruct (frame_decode b) as [[[[f|]|x] rest]|]; cbn [mbind option_bind]; [| | |done];
    intros [= <-]; [|done..].
  destruct (check_hello f) as [p|]; [|done]. by destruct (check_expected _ p).
Qed.
Lemma books_conn_step e c s e' : ep_ok e → books e → conn_step e c s = Some e' → books e'.
Proof.
  intros Hok Hb. unfold conn_step. destruct (ep_conns e !! c) as [k|] eqn:Hk; cbn [mbind option_bind]; [|done].
  destruct s as [io|r| |failed|].
  - destruct (k_phase k) eqn:Hp; try done. unfold hello_step.
    destruct (frame_encode _) as [bs|x], io as [[y n]|]; [case_decide; [|done]| | |]; intros [= <-];
      (apply (books_same e c k); try done; by rewrite Hp).
  - unfold read_step. destruct (k_phase k) eqn:Hp; try done.
    + destruct r as [[|x chunk]|x].
      * intros [= <-]. apply (books_same e c k); try done. by rewrite Hp.
      * destruct (greet _ _) as [k'|] eqn:E; cbn [mbind option_bind]; [|done]. intros [= <-].
        apply greet_unlisted in E as [? ?]. apply (books_same e c k); try done. by rewrite Hp.
      * intros [= <-]. apply (books_same e c k); try done. by rewrite Hp.
    + destruct r as [[|x chunk]|x]; intros [= <-]; (apply (books_same e c k); try done; by rewrite Hp).
  - by apply books_proceed.
  - destruct (k_phase k) eqn:Hp; try done. by apply books_take_command.
  - unfold hangup. destruct (k_phase k) eqn:Hp; try done. destruct (_ || _); [|done]. intros [= <-].
    apply (books_same e c k); try done. by rewrite Hp.
Qed.

(** A step outside the connections. *)
Lemma books_open e x : books e → books (set_conns e (ep_conns e ++ [Conn_new x])).
Proof.
  intros [? ? ? ? Hls]. constructor; try done. intros Hsd l. cbn. rewrite (Hls Hsd l).
  split; intros (i & k & Hk & Hl & Hlist).
  - exists i, k. split_and!; try done. by apply lookup_app_l_Some.
  - apply lookup_app_Some in Hk as [Hk|[_ Hk]]; [by exists i, k|].
    by apply list_lookup_singleton_Some in Hk as [_ <-].
Qed.
Lemma books_kill e t : books e → ep_shutdown e = true → books (kill e t).
Proof.
  intros [Hct Hq Hch Ht Hls] Hsd.
  assert (Hend : ∀ e1 c a, books e1 → ep_shutdown e1 = true → books (end_conn e1 c a)).
  { intros e1 c a [? ? Hch1 ? ?] Hs. unfold end_conn. destruct (ep_conns e1 !! c) as [k|]; [|done].
    case_bool_decide; [|done]. destruct (k_link k) as [l|]; constructor; try done; cbn; try congruence.
    intros l' q [_ ?]%lookup_delete_Some. by eapply Hch1. }
  assert (Hb : ∀ acc, books (set_tasks e (ep_shutdown e) acc (ep_tasks e) (ep_aborting e ∖ {[t]}))).
  { intros acc. constructor; try done; cbn; congruence. }
  destruct t as [|c|c]; cbn; [exact (Hb false)|by apply Hend..].
Qed.
Lemma books_step e s e' : ep_ok e → books e → ep_step e s = Some e' → books e'.
Proof.
  intros Hok Hb. destruct s as [c s| | |t|p|p|l cmd| | | | |t|]; cbn [ep_step].
  - by apply books_conn_step.
  - destruct (ep_accepting e); [|done]. intros [= <-]. by apply books_open.
  - intros [= <-]. by destruct Hb.
  - intros [= <-]. by destruct Hb.
  - intros [= <-]. by destruct Hb.
  - destruct (connect_check e p); [|done]. intros [= <-]. by apply books_open.
  - unfold enqueue_command. destruct (ep_channels e !! l) as [q|] eqn:Eq; cbn [mbind option_bind]; [|by intros [= <-]].
    destruct (Z.ltb_spec (zlen q) LINK_QUEUE_CAPACITY); cbn [mbind option_bind]; [|done]. intros [= <-].
    destruct Hb as [? ? Hch ? ?]. constructor; try done. cbn. intros l' q'.
    destruct (decide (l' = l)) as [->|Hne]; [|rewrite lookup_insert_ne by done; apply Hch].
    rewrite lookup_insert_eq. intros [= <-]. rewrite zlen_app. change (zlen [cmd]) with 1. lia.
  - destruct (ep_queue e) as [|ev q] eqn:Eq; [done|]. destruct (ep_receiving e); [|done]. intros [= <-].
    destruct Hb as [? Hq ? ? ?]. constructor; try done. cbn. rewrite Eq, zlen_cons in Hq. lia.
  - intros [= <-]. by destruct Hb.
  - intros [= <-]. destruct Hb. by constructor.
  - destruct (ep_shutdown e) eqn:Hs; [|done]. intros [= <-]. destruct Hb. by constructor.
  - case_decide as Ht; [|done]. intros [= <-]. apply books_kill; [done|].
    destruct (ep_shutdown e) eqn:Hs; [done|]. rewrite (bk_tasks _ Hb Hs) in Ht. set_solver.
  - destruct (ep_shutdown e) eqn:Hs; [|done]. cbn [andb]. case_bool_decide; [|done]. intros [= <-].
    destruct Hb. constructor; try done; cbn; congruence.
Qed.
Lemma reachable_books e : ep_reachable e → ep_ok e ∧ books e.
Proof.
  intros (local & allowed & l & E). eapply (ep_run_ind (λ e, ep_ok e ∧ books e)); [| |exact E].
  - intros e0 s e1 [Hok Hb] Es. split; [by eapply ep_step_ok|by eapply books_step].
  - split; [apply bind_ok|]. constructor; try done. intros _ l'. cbn. split; [set_solver|].
    by intros (i & k & Hk & _).
Qed.
End Transport.

(** ** What a link reports *)

(** C17: Every link of an endpoint keeps the protocol the runtime relies on, in
    every interleaving of its tasks: it reports nothing, or first [Up] with
    the peer, once, then only frames and completed sends, and then possibly
    one [Down] and nothing more.  The link belongs to one connection, the
    peer is on the allowlist and, for an outgoing connection, the one asked
    for; and the completed sends are reported for the frames written, in
    their order. *)
Theorem link_protocol `{!Prost PbLinkHello} e l :
  ep_reachable e →
  events_at e l = [] ∨
  ∃ c k p body down,
    ep_conns e !! c = Some k ∧ k_link k = Some l ∧
    (∀ c' k', ep_conns e !! c' = Some k' → k_link k' = Some l → c' = c) ∧
    events_at e l = LeUp l p :: body ++ down ∧ Forall data_event body ∧
    (down = [] ∨ down = [LeDown l]) ∧
    p ∈ ep_allowed e ∧ (∀ x, k_expected k = Some x → p = x) ∧
    sents_in body `prefix_of` (sent_event l <$> k_written k).
Proof.
  intros [Hok _]%reachable_books. destruct (events_at e l) as [|ev evs] eqn:E; [by left|right].
  assert (ev ∈ events_at e l) as Hin by (rewrite E; by left).
  unfold events_at in Hin. apply list_elem_of_filter in Hin as [<- Hin].
  destruct (eo_owner _ Hok ev Hin) as (c & k & Hk & Hl).
  destruct (session_of e c k _ Hok Hk Hl) as [Hnil|(p & body & down & He & Hd & Hov)]; [congruence|].
  exists c, k, p, body, down. destruct Hov as [(tail & hf & _ & _ & _ & Hx & _) _ Ha Hdata Hs _].
  split_and!; try done.
  - intros c' k' Hk' Hl'. by eapply eo_distinct.
  - by rewrite <-E.
  - intros x Ex. rewrite Ex in Hx. cbn in Hx. by case_decide.
Qed.

(** C16: A link is a reliable FIFO channel of frames between two nodes.  Let
    the bytes that connection [b] of one endpoint has read be a prefix of
    those that connection [a] of another has written, as TCP guarantees,
    however they are cut into reads.  If [b] became a link, then its peer is
    the node of [a]'s endpoint, the frames it has reported are a prefix of
    the frames [a] has written, none lost, repeated, altered or reordered,
    and these are a prefix of the frames enqueued on [a]'s link. *)
Theorem link_fifo `{!Prost PbLinkHello, !ProstLaws PbLinkHello PbLinkHello_typed}
    eA eB a b ka kb l p :
  ep_reachable eA → ep_reachable eB →
  ep_conns eA !! a = Some ka → ep_conns eB !! b = Some kb →
  k_incoming kb `prefix_of` k_outgoing ka →
  k_link kb = Some l → LeUp l p ∈ events eB →
  p = ep_local eA ∧ frames_in (events_at eB l) `prefix_of` k_written ka ∧
  (∀ la, k_link ka = Some la → (LcSend <$> k_written ka) `prefix_of` default [] (ep_enqueued eA !! la)).
Proof.
  intros [HA _]%reachable_books [HB _]%reachable_books Ha Hb Hpre Hl Hup.
  assert (Hin : LeUp l p ∈ events_at eB l) by (apply list_elem_of_filter; by split).
  destruct (session_of eB b kb l HB Hb Hl) as [Hnil|(q & body & down & He & Hd & Hov)].
  { rewrite Hnil in Hin. by apply elem_of_nil in Hin. }
  destruct Hov as [(tail & hf & Hfit & Hfs & Hhello & _ & Hi) _ _ Hdata _ _].
  assert (q = p) as ->.
  { rewrite He in Hin. apply elem_of_cons in Hin as [[= ->]|[Hin|Hin]%elem_of_app]; [done| |].
    - rewrite Forall_forall in Hdata. by apply Hdata in Hin.
    - destruct Hd as [->| ->]; [by apply elem_of_nil in Hin|]. by apply list_elem_of_singleton in Hin. }
  rewrite He, frames_in_session by done. rewrite Hi in Hpre.
  assert (Forall fits (hf :: frames_in body)) as Hall by by constructor.
  destruct (outgoing_of eA a ka HA Ha) as (part & Hp & [[Hw Ho]|[HF Ho]]).
  { exfalso. rewrite Ho in Hpre. apply (stream_prefix _ [] tail part Hall) in Hpre; [|constructor|done].
    by apply prefix_nil_inv in Hpre. }
  rewrite Ho in Hpre. apply (stream_prefix _ _ tail part Hall) in Hpre; [|done..].
  pose proof (prefix_cons_inv_1 _ _ _ _ Hpre) as ->. apply prefix_cons_inv_2 in Hpre.
  rewrite check_hello_own in Hhello. injection Hhello as <-. split_and!; [done..|].
  intros la Hla. pose proof (session_of eA a ka la HA Ha Hla) as [Hnil|(r & bd & dn & _ & _ & Hov)];
    [|apply (ov_enq _ _ _ _ _ Hov)].
  pose proof (ended_ok _ _ (eo_conns _ HA _ _ Ha)) as Hc. unfold conn_ok in Hc. cbn in Hc.
  rewrite Hla in Hc. destruct Hc as [[[Hw _] _]|(r & bd & dn & Hev & _)]; [|congruence].
  cbn in Hw. rewrite Hw. apply prefix_nil.
Qed.

(** The bookkeeping of an endpoint, in every interleaving: link numbers are
    those of [u64], never reused; the published link count is the number of
    listed links; until shutdown the listed links are exactly those of the
    connections between their registration and the end of their task; and
    neither the event queue nor a link's command queue exceeds its capacity. *)
Theorem links_accounted `{!Prost PbLinkHello} e :
  ep_reachable e →
  1 ≤ ep_next_link e ≤ u_max 64 ∧
  (∀ c k l, ep_conns e !! c = Some k → k_link k = Some l → 1 ≤ l < ep_next_link e) ∧
  (∀ c c' k k' l, ep_conns e !! c = Some k → ep_conns e !! c' = Some k' →
     k_link k = Some l → k_link k' = Some l → c = c') ∧
  ep_link_count e = Z.of_nat (size (ep_links e)) ∧
  (ep_shutdown e = false → ∀ l, l ∈ ep_links e ↔ holds_link e l) ∧
  zlen (ep_queue e) ≤ EVENT_QUEUE_CAPACITY ∧
  (∀ l q, ep_channels e !! l = Some q → zlen q ≤ LINK_QUEUE_CAPACITY).
Proof. intros [[_ ? ? _ ?] [? ? ? _ ?]]%reachable_books. split_and!; first [lia|assumption]. Qed.
