(* ===== verification/TransportLive.v ===== *)
(** * Progress of the TCP transport (crates/mb-transport)

    The handshake completes for every way the peer's hello is cut into reads;
    and the two bounded queues can wait for each other. *)

From Stdlib Require Import Strings.Byte.
From S2P Require Export Prelude Ord Bytes Types Proto Wire WireFrames Transport TransportProps TransportTheorems.
Open Scope Z_scope.

Section Transport.
Context `{!Prost PbLinkHello}.
Implicit Types (e : Endpoint) (k : Conn).

(** ** The handshake *)

Lemma ep_run_app e l1 l2 : ep_run e (l1 ++ l2) = (e1 ← ep_run e l1; ep_run e1 l2).
Proof.
  revert e. induction l1 as [|s l1 IH]; intros e; cbn [ep_run app mbind option_bind]; [done|].
  destruct (ep_step e s); cbn [mbind option_bind]; [apply IH|done].
Qed.
Lemma put_put e c k k' : put (put e c k) c k' = put e c k'.
Proof. unfold put, set_conns. cbn. by rewrite list_insert_insert_eq. Qed.
Lemma lookup_put_eq e c k : (c < length (ep_conns e))%nat → ep_conns (put e c k) !! c = Some k.
Proof. intros. cbn. by apply list_lookup_insert_eq. Qed.

Lemma partial_app_l a b : partial (a ++ b) → partial a.
Proof.
  intros (f & suf & Hf & Hs & E). exists f, (b ++ suf). rewrite E, <-app_assoc.
  split_and!; try done. by intros [_ ?]%app_eq_nil.
Qed.
(** Reads that do not complete the frame. *)
Lemma greeting_reads c init : ∀ e k b,
  ep_conns e !! c = Some k → k_phase k = PhGreeting b → Forall (λ x, x ≠ []) init →
  partial (b ++ concat init) →
  ep_run e ((λ x, EsConn c (CsRead (Ok x))) <$> init) =
    Some (match init with
          | [] => e
          | _ => put e c (goto (did_read k (concat init)) (PhGreeting (b ++ concat init)))
          end).
Proof.
  induction init as [|x init IH]; intros e k b Hk Hp HF Hpart; [done|].
  apply Forall_cons in HF as [Hx HF]. cbn [fmap list_fmap ep_run ep_step].
  unfold conn_step. rewrite Hk. cbn [mbind option_bind]. unfold read_step. rewrite Hp.
  destruct x as [|x0 x]; [done|]. cbn [concat] in *. rewrite app_assoc in Hpart. unfold greet.
  pose proof (decode_partial _ (partial_app_l _ _ Hpart)) as ->. cbn [mbind option_bind].
  assert (Hlt : (c < length (ep_conns e))%nat) by (by eapply lookup_lt_Some).
  set (k1 := goto _ _). rewrite (IH (put e c k1) k1 (b ++ x0 :: x)); [|by apply lookup_put_eq|done..].
  destruct init as [|y init]; cbn [concat].
  - by rewrite app_nil_r.
  - rewrite put_put. f_equal. f_equal. unfold k1, goto, did_read. cbn. by rewrite <-!app_assoc.
Qed.

(** The steps of the endpoint that open a link: the hello, the reads, the
    admission, the registration, the announcement and the start of
    [run_link]. *)
Definition handshake (c : nat) (reads : list bytes) : list EpStep :=
  EsConn c <$> CsHello None :: ((λ x, CsRead (Ok x)) <$> reads) ++ replicate 4 CsProceed.

Lemma last_read e c k b x p rest :
  ep_conns e !! c = Some k → k_phase k = PhGreeting b → x ≠ [] →
  b ++ x = enc (hello_frame p) ++ rest → fits (hello_frame p) →
  check_hello (hello_frame p) = Ok p → check_expected (k_expected k) p = Ok tt →
  ep_step e (EsConn c (CsRead (Ok x))) = Some (put e c (goto (did_read k x) (PhIdentified p rest))).
Proof.
  intros Hk Hp Hx Hb Hf Hh He. cbn [ep_step]. unfold conn_step. rewrite Hk. cbn [mbind option_bind].
  unfold read_step. rewrite Hp. destruct x as [|x0 x]; [done|]. unfold greet.
  rewrite Hb, decode_enc by done. cbn [mbind option_bind]. rewrite Hh. cbn [k_expected did_read].
  by rewrite He.
Qed.
Lemma proceed_run e c k e1 l :
  ep_conns e !! c = Some k → proceed e c k = Some e1 →
  ep_run e (EsConn c CsProceed :: l) = ep_run e1 l.
Proof. intros Hk E. cbn [ep_run ep_step]. unfold conn_step. rewrite Hk. cbn [mbind option_bind]. by rewrite E. Qed.
Lemma admission e c k p rest :
  ep_conns e !! c = Some k → k_phase k = PhIdentified p rest → p ∈ ep_allowed e →
  ep_next_link e < u_max 64 → ep_receiving e = true → zlen (ep_queue e) < EVENT_QUEUE_CAPACITY →
  ∃ e' k', ep_run e (EsConn c <$> replicate 4 CsProceed) = Some e' ∧
    ep_conns e' !! c = Some k' ∧ k_phase k' = PhReading (ep_next_link e) rest ∧
    k_attached k' = Some (Ok (ep_next_link e)) ∧
    events e' = events e ++ [LeUp (ep_next_link e) p] ∧
    ep_links e' = ep_links e ∪ {[ep_next_link e]}.
Proof.
  intros Hk Hp Ha Hn Hr Hq. assert (Hlt : (c < length (ep_conns e))%nat) by (by eapply lookup_lt_Some).
  set (l := ep_next_link e). cbn [replicate fmap list_fmap].
  erewrite proceed_run; [|exact Hk|].
  2: { unfold proceed. rewrite Hp. unfold enroll. rewrite decide_True by done. unfold checked_add.
       rewrite (proj2 (Z.leb_le _ _)) by lia. reflexivity. }
  erewrite proceed_run; [|by apply lookup_put_eq|unfold proceed; reflexivity].
  erewrite proceed_run; [|apply lookup_put_eq; cbn; by rewrite length_insert|].
  2: { unfold proceed. cbn [k_phase goto]. unfold announce, send_event.
       change (ep_receiving _) with (ep_receiving e). change (ep_queue _) with (ep_queue e).
       rewrite Hr, (proj2 (Z.ltb_lt _ _)) by done. reflexivity. }
  erewrite proceed_run; [|apply lookup_put_eq; cbn; by rewrite !length_insert|unfold proceed; reflexivity].
  do 2 eexists. split; [reflexivity|].
  split; [apply lookup_put_eq; cbn; by rewrite !length_insert|].
  split_and!; try done. unfold events. cbn. by rewrite app_assoc.
Qed.
End Transport.

(** C21: The handshake completes.  Whatever the sizes of the reads the hello of
    node [p] arrives in, and with whatever bytes behind it in the last read,
    a connection that is open for [p], or for any peer, becomes a link: [p]
    being on the allowlist and a link number and room for the event left,
    the endpoint reports [Up] with the identity [p], lists the new link,
    hands its number to the caller, and goes on to read frames exactly after
    the hello. *)
Theorem handshake_establishes_link `{!Prost PbLinkHello, !ProstLaws PbLinkHello PbLinkHello_typed}
    e c k p init last suf rest :
  ep_conns e !! c = Some k → k_phase k = PhHello →
  fits (hello_frame (ep_local e)) → fits (hello_frame p) →
  enc (hello_frame p) = concat init ++ suf → suf ≠ [] → last = suf ++ rest →
  Forall (λ x, x ≠ []) init →
  p ∈ ep_allowed e → check_expected (k_expected k) p = Ok tt →
  ep_next_link e < u_max 64 → ep_receiving e = true → zlen (ep_queue e) < EVENT_QUEUE_CAPACITY →
  ∃ e' k', ep_run e (handshake c (init ++ [last])) = Some e' ∧
    ep_conns e' !! c = Some k' ∧ k_phase k' = PhReading (ep_next_link e) rest ∧
    k_attached k' = Some (Ok (ep_next_link e)) ∧
    events e' = events e ++ [LeUp (ep_next_link e) p] ∧
    ep_links e' = ep_links e ∪ {[ep_next_link e]}.
Proof.
  intros Hk Hp Hf Hfp Henc Hsuf -> HF Ha Hx Hn Hr Hq.
  assert (Hlt : (c < length (ep_conns e))%nat) by (by eapply lookup_lt_Some).
  unfold handshake. rewrite fmap_cons, fmap_app. cbn [ep_run ep_step]. unfold conn_step. rewrite Hk.
  cbn [mbind option_bind]. rewrite Hp. unfold hello_step.
  rewrite (proj2 (frame_encode_enc _ _)) by (by split). cbn [mbind option_bind].
  set (k1 := goto _ _). set (e1 := put e c k1).
  assert (Hk1 : ep_conns e1 !! c = Some k1) by (by apply lookup_put_eq).
  rewrite <-list_fmap_compose, fmap_app, <-app_assoc, ep_run_app. unfold compose.
  rewrite (greeting_reads c init e1 k1 []); [|done..|exists (hello_frame p), suf; by split_and!].
  cbn [mbind option_bind]. set (e2 := match init with [] => _ | _ => _ end).
  assert (∃ k2, e2 = put e c k2 ∧ k_phase k2 = PhGreeting (concat init) ∧ k_expected k2 = k_expected k)
    as (k2 & He2 & Hp2 & Hx2).
  { unfold e2. destruct init as [|x init]; [by exists k1|]. unfold e1. rewrite put_put. by eexists. }
  rewrite He2. cbn [fmap list_fmap app ep_run].
  rewrite (last_read _ c k2 (concat init) (suf ++ rest) p rest); try done.
  - cbn [mbind option_bind]. rewrite put_put.
    apply (admission (put e c (goto (did_read k2 (suf ++ rest)) (PhIdentified p rest))) c
             (goto (did_read k2 (suf ++ rest)) (PhIdentified p rest)) p rest); try done.
    by apply lookup_put_eq.
  - by apply lookup_put_eq.
  - by intros [? _]%app_eq_nil.
  - by rewrite app_assoc, <-Henc.
  - apply check_hello_own.
  - by rewrite Hx2.
Qed.

(** ** Waiting for each other *)

Section Deadlock.
Context `{!Prost PbLinkHello}.
Implicit Types (e : Endpoint) (k : Conn).

(** A link whose task holds a frame for the full event queue, while its own
    command queue is full. *)
Record stuck e (c : nat) (l : LinkId) : Prop := {
  st_reading : ∃ k b f rest, ep_conns e !! c = Some k ∧ k_link k = Some l ∧
    k_phase k = PhReading l b ∧ frame_decode b = Some (Ok (Some f), rest);
  st_receiving : ep_receiving e = true;
  st_events : zlen (ep_queue e) = EVENT_QUEUE_CAPACITY;
  st_commands : ∃ q, ep_channels e !! l = Some q ∧ zlen q = LINK_QUEUE_CAPACITY;
}.

Lemma stuck_event e c l ev : stuck e c l → send_event e ev = None.
Proof. intros [_ Hr Hq _]. unfold send_event. by rewrite Hr, Hq. Qed.
Lemma stuck_blocks e c l :
  stuck e c l → (∀ s, conn_step e c s = None) ∧ (∀ cmd, enqueue_command e l cmd = None).
Proof.
  intros Hst. pose proof Hst as [(k & b & f & rest & Hk & Hl & Hp & Hd) _ _ (q & Hq & Hlen)]. split.
  - intros s. unfold conn_step. rewrite Hk. cbn [mbind option_bind].
    destruct s as [io|r| |failed|]; unfold read_step, proceed, hangup; rewrite Hp; try done.
    unfold read_frame. rewrite Hd. cbn [mbind option_bind]. by rewrite (stuck_event _ _ _ _ Hst).
  - intros cmd. unfold enqueue_command. rewrite Hq, Hlen. done.
Qed.

(** The steps that could help: the receiver takes an event or is dropped, or
    the task is aborted. *)
Definition helps (s : EpStep) : bool :=
  match s with EsReceive | EsReceiverGone | EsKill _ => true | _ => false end.

(** Another connection leaves it as it is. *)
Lemma stuck_put e e1 c l i k :
  stuck e c l → i ≠ c → ep_conns e1 = ep_conns e → ep_receiving e1 = ep_receiving e →
  ep_queue e1 = ep_queue e → ep_channels e1 !! l = ep_channels e !! l → stuck (put e1 i k) c l.
Proof.
  intros [(kc & b & f & rest & Hk & Hl & Hp & Hd) Hr Hq Hc] Hne Ec Er Eq Ech.
  constructor; cbn; rewrite ?Er, ?Eq, ?Ech; try done. exists kc, b, f, rest. split_and!; try done.
  rewrite list_lookup_insert_ne by done. by rewrite Ec.
Qed.
Lemma stuck_proceed e c l i k e' :
  ep_ok e → stuck e c l → i ≠ c → ep_conns e !! i = Some k → proceed e i k = Some e' → stuck e' c l.
Proof.
  intros Hok Hst Hne Hi. pose proof (eo_conns _ Hok _ _ Hi) as Hc. unfold conn_ok in Hc.
  assert (Hother : ∀ l', k_link k = Some l' → l' ≠ l).
  { intros l' Hl' ->. destruct (st_reading _ _ _ Hst) as (kc & _ & _ & _ & Hkc & Hlc & _).
    apply Hne. by eapply eo_distinct. }
  unfold proceed. destruct (k_phase k) as [|b|p b|l' p b|l' p b|l'|l' b|l' b|l' b|l' b f|l'|l'|]; try done.
  - intros [= <-]. unfold enroll. case_decide; [destruct (checked_add _ _ _)|]; by apply (stuck_put e).
  - intros [= <-]. destruct Hc as (Hl' & _). apply (stuck_put e); try done. cbn.
    rewrite lookup_insert_ne; [done|by apply Hother].
  - unfold announce. by rewrite (stuck_event _ _ _ _ Hst).
  - intros [= <-]. destruct Hc as (Hl' & _). apply (stuck_put e); try done. cbn.
    rewrite lookup_delete_ne; [done|by apply Hother].
  - intros [= <-]. by apply (stuck_put e).
  - unfold read_frame. destruct (frame_decode b) as [[[[f|]|x] rest]|]; cbn [mbind option_bind];
      [by rewrite (stuck_event _ _ _ _ Hst)| | |done]; intros [= <-]; by apply (stuck_put e).
  - unfold report. by rewrite (stuck_event _ _ _ _ Hst).
  - intros [= <-]. by apply (stuck_put e).
  - unfold leave. by rewrite (stuck_event _ _ _ _ Hst).
Qed.
Lemma stuck_conn_step e c l i s e' :
  ep_ok e → stuck e c l → conn_step e i s = Some e' → stuck e' c l.
Proof.
  intros Hok Hst E. destruct (decide (i = c)) as [->|Hne].
  { rewrite (proj1 (stuck_blocks _ _ _ Hst)) in E. done. }
  unfold conn_step in E. destruct (ep_conns e !! i) as [k|] eqn:Hk; cbn [mbind option_bind] in E; [|done].
  assert (Hput : ∀ k', stuck (put e i k') c l) by (intros k'; by apply (stuck_put e)).
  destruct s as [io|r| |failed|].
  - destruct (k_phase k); try done. unfold hello_step in E. revert E.
    destruct (frame_encode _), io as [[y n]|]; [case_decide; [|done]| | |]; intros [= <-]; apply Hput.
  - unfold read_step in E. destruct (k_phase k); try done; destruct r as [[|x chunk]|x]; try (injection E as <-; apply Hput).
    destruct (greet _ _); cbn [mbind option_bind] in E; [|done]. injection E as <-. apply Hput.
  - by eapply stuck_proceed.
  - pose proof (eo_conns _ Hok _ _ Hk) as Hc. unfold conn_ok in Hc.
    destruct (k_phase k) as [|b|p b|l' p b|l' p b|l'|l' b|l' b|l' b|l' b f|l'|l'|]; try done.
    destruct Hc as (Hl' & _). assert (l' ≠ l) as Hll.
    { intros ->. destruct (st_reading _ _ _ Hst) as (kc & _ & _ & _ & Hkc & Hlc & _).
      apply Hne. by eapply eo_distinct. }
    unfold take_command in E. destruct (ep_channels e !! l') as [[|cmd q]|]; cbn [mbind option_bind] in E; try done.
    assert (Hput' : ∀ k', stuck (put (set_channels e (<[l' := q]> (ep_channels e)) (ep_enqueued e)) i k') c l).
    { intros k'. apply (stuck_put e); try done. cbn. by rewrite lookup_insert_ne. }
    revert E. destruct cmd as [f|]; [|intros [= <-]; apply Hput'].
    destruct (frame_encode f); [|intros [= <-]; apply Hput'].
    destruct failed; [case_decide; [|done]|]; intros [= <-]; apply Hput'.
  - unfold hangup in E. destruct (k_phase k); try done. destruct (_ || _); [|done]. injection E as <-. apply Hput.
Qed.
Lemma stuck_step e c l s e' :
  ep_ok e → stuck e c l → helps s = false → ep_step e s = Some e' → stuck e' c l.
Proof.
  intros Hok Hst Hh E. pose proof Hst as [(k & b & f & rest & Hk & Hl & Hp & Hd) Hr Hq (q & Hc & Hlen)].
  assert (Hopen : ∀ x, stuck (set_conns e (ep_conns e ++ [x])) c l).
  { intros x. constructor; try done; [|by exists q]. exists k, b, f, rest. split_and!; try done.
    by apply lookup_app_l_Some. }
  assert (Hother : ∀ e1, ep_conns e1 = ep_conns e → ep_receiving e1 = ep_receiving e →
    ep_queue e1 = ep_queue e → ep_channels e1 !! l = ep_channels e !! l → stuck e1 c l).
  { intros e1 E1 E2 E3 E4. constructor; rewrite ?E1, ?E2, ?E3, ?E4; eauto 8. }
  destruct s as [i s| | |t|p|p|l' cmd| | | | |t|]; try done; cbn [ep_step] in E.
  - by eapply stuck_conn_step.
  - destruct (ep_accepting e); [|done]. injection E as <-. apply Hopen.
  - injection E as <-. by apply Hother.
  - injection E as <-. by apply Hother.
  - injection E as <-. by apply Hother.
  - destruct (connect_check e p); [|done]. injection E as <-. apply Hopen.
  - destruct (decide (l' = l)) as [->|Hne].
    { by rewrite (proj2 (stuck_blocks _ _ _ Hst)) in E. }
    unfold enqueue_command in E. destruct (ep_channels e !! l') as [q'|]; cbn [mbind option_bind] in E.
    + destruct (zlen q' <? _); cbn [mbind option_bind] in E; [|done]. injection E as <-.
      apply Hother; try done. cbn. by rewrite lookup_insert_ne.
    + by injection E as <-.
  - injection E as <-. by apply Hother.
  - destruct (ep_shutdown e); [|done]. injection E as <-. by apply Hother.
  - destruct (_ && _); [|done]. injection E as <-. by apply Hother.
Qed.
End Deadlock.

(** C24: The event queue and a link's command queue can wait for each other.
    Once the event queue is full, a link's task holds a decoded frame for it,
    and that link's command queue is full, then neither the task nor a call
    of [send] or [close] on the link can go on, whatever the other tasks do
    and even after [shutdown] has given its signal, until an event is
    received, the receiver is dropped or the task is killed.  The loop of the
    runtime, which is the receiver, awaits [send] inside an iteration. *)
Theorem full_queues_deadlock `{!Prost PbLinkHello} e c l steps e' :
  ep_reachable e → stuck e c l → Forall (λ s, helps s = false) steps → ep_run e steps = Some e' →
  (∀ s, conn_step e' c s = None) ∧ (∀ cmd, enqueue_command e' l cmd = None).
Proof.
  intros [Hok _]%reachable_books Hst HF E. apply stuck_blocks.
  revert e Hok Hst E. induction HF as [|s steps Hs HF IH]; intros e Hok Hst E; cbn [ep_run] in E.
  { by injection E as <-. }
  destruct (ep_step e s) as [e1|] eqn:Es; cbn [mbind option_bind] in E; [|done].
  eapply IH; [by eapply ep_step_ok|by eapply stuck_step|exact E].
Qed.
