(* ===== verification/ControlTypes.v ===== *)
(** * Control-plane data (crates/mb-control, data types)

    Link costs, advertisements, LSAs, digests, frames, timers, events, actions
    and route tables. *)

From Stdlib Require Import Strings.Byte.
From S2P Require Export Prelude Ord Bytes Types.

(** ** Constants *)

Definition DIGEST_INTERVAL_MS : Z := 10000.
Definition SPF_INITIAL_HOLD_MS : Z := 100.
Definition SPF_MAX_HOLD_MS : Z := 5000.
Definition SPF_QUIET_RESET_MS : Z := 10000.
Definition DEFAULT_LSA_TTL_SEC : Z := 300.
Definition MAX_LSA_TTL_SEC : Z := 3600.
Definition MAX_LSDB_ENTRIES : Z := 1000.
Definition MAX_LSA_ADJACENCIES : Z := 256.
Definition MAX_LSA_TOPIC_ADS : Z := 256.
Definition MAX_TOPIC_NAME_LEN : Z := 1024.
Definition MAX_TOPIC_PARTITION_LEN : Z := 64 * 1024.
Definition MAX_DIGEST_ENTRIES : Z := MAX_LSDB_ENTRIES.
Definition MAX_DIGEST_REQ_ORIGINS : Z := MAX_LSDB_ENTRIES.

(** ** [LinkCost(u16)]: never zero *)

Record LinkCost := mk_link_cost {
  cost_get : Z;
  cost_valid : (0 <? cost_get) && (cost_get <? 65536) = true;
}.

Definition link_cost_if (v : Z) (b : bool) :
  (0 <? v) && (v <? 65536) = b → result LinkCost unit :=
  match b with true => λ H, Ok (mk_link_cost v H) | false => λ _, Err tt end.
(** [LinkCost::new(value: u16)]; the error carries no data. *)
Definition LinkCost_new (value : Z) : result LinkCost unit := link_cost_if value _ eq_refl.

Lemma LinkCost_eq c d : cost_get c = cost_get d → c = d.
Proof.
  destruct c as [c Hc], d as [d Hd]; simpl. intros ->. f_equal. apply Eqdep_dec.UIP_dec, bool_eq_dec.
Qed.
Lemma link_cost_if_Ok v b E c : link_cost_if v b E = Ok c ↔ cost_get c = v.
Proof.
  destruct b; cbn.
  - split; [by intros [= <-]|]. intros Hc. f_equal. by apply LinkCost_eq.
  - split; [done|]. intros <-. pose proof (cost_valid c). congruence.
Qed.
Lemma LinkCost_new_Ok v c : LinkCost_new v = Ok c ↔ cost_get c = v.
Proof. apply link_cost_if_Ok. Qed.
Lemma cost_range c : 0 < cost_get c < 65536.
Proof. pose proof (cost_valid c). bool_prop. lia. Qed.
#[global] Instance LinkCost_eq_dec : EqDecision LinkCost.
Proof.
  intros c d. destruct (decide (cost_get c = cost_get d)) as [E|E];
    [left; by apply LinkCost_eq|right; congruence].
Defined.
#[global] Instance LinkCost_ord : TotalOrd LinkCost := ord_inj cost_get LinkCost_eq.

Record Adjacency := { adj_peer : NodeId; adj_cost : LinkCost }.
#[global] Instance Adjacency_eq_dec : EqDecision Adjacency.
Proof. solve_decision. Defined.

(** ** [TopicRoles(u8)] and topic advertisements *)

Definition ROLE_PUBLISH : Z := 1.
Definition ROLE_SUBSCRIBE : Z := Z.shiftl 1 1.
Definition ROLE_STORE : Z := Z.shiftl 1 2.
Definition ROLE_ALL : Z := Z.lor (Z.lor ROLE_PUBLISH ROLE_SUBSCRIBE) ROLE_STORE.
Definition TopicRoles_from_bits (bits : Z) : option Z :=
  if negb (bits =? 0) && (Z.land bits (Z.lxor (u_max 8) ROLE_ALL) =? 0)
  then Some bits else None.
Definition TopicRoles_contains (roles role : Z) : bool := Z.land roles role =? role.

Record TopicAd := {
  topic : rstring;
  partition : bytes;
  roles : Z;
  head_seq : Z;
  tail_seq : Z;
}.
#[global] Instance TopicAd_eq_dec : EqDecision TopicAd.
Proof. solve_decision. Defined.
(** Derived [Ord]: lexicographic in field order. *)
Definition TopicAd_tuple (a : TopicAd) :=
  (topic a, (partition a, (roles a, (head_seq a, tail_seq a)))).
Lemma TopicAd_tuple_inj a b : TopicAd_tuple a = TopicAd_tuple b → a = b.
Proof. destruct a, b. by intros [= -> -> -> -> ->]. Qed.
#[global] Instance TopicAd_ord : TotalOrd TopicAd := ord_inj TopicAd_tuple TopicAd_tuple_inj.

Record DiscoveredTopicAd := { disc_node : NodeId; disc_ad : TopicAd }.
#[global] Instance DiscoveredTopicAd_eq_dec : EqDecision DiscoveredTopicAd.
Proof. solve_decision. Defined.
Lemma DiscoveredTopicAd_inj a b :
  (disc_node a, disc_ad a) = (disc_node b, disc_ad b) → a = b.
Proof. destruct a, b. by intros [= -> ->]. Qed.
#[global] Instance DiscoveredTopicAd_ord : TotalOrd DiscoveredTopicAd :=
  ord_inj (λ d, (disc_node d, disc_ad d)) DiscoveredTopicAd_inj.

(** ** LSAs *)

Record Lsa := {
  origin : NodeId;
  epoch : Z;
  seq_no : Z;
  ttl_sec : Z;
  adjacencies : list Adjacency;
  topics : list TopicAd;
}.
Record LsaMessage := {
  lsa : Lsa;
  canonical_bytes : bytes;
  signature : bytes;
}.
#[global] Instance Lsa_eq_dec : EqDecision Lsa.
Proof. solve_decision. Defined.
#[global] Instance LsaMessage_eq_dec : EqDecision LsaMessage.
Proof. solve_decision. Defined.

(** [(epoch, seq)], compared lexicographically. *)
Abbreviation version := (Z * Z)%type (only parsing).

Record DigestEntry := { de_origin : NodeId; de_epoch : Z; de_seq : Z }.
Definition de_version (e : DigestEntry) : version := (de_epoch e, de_seq e).
#[global] Instance DigestEntry_eq_dec : EqDecision DigestEntry.
Proof. solve_decision. Defined.

Inductive EntryRelation := RemoteOnly | RemoteNewer | SameVersion | LocalNewer | LocalOnly.

Definition compare_versions (local remote : option version) : option EntryRelation :=
  match local, remote with
  | None, Some _ => Some RemoteOnly
  | Some _, None => Some LocalOnly
  | Some local, Some remote =>
      if oltb local remote then Some RemoteNewer
      else if oltb remote local then Some LocalNewer
      else Some SameVersion
  | None, None => None (* unreachable! *)
  end.

(** ** Signing

    [LsaSigner] and [LsaVerifier] are trait objects of the plane; the only
    implementation in the repository is [UnsecuredLsaAuth]. *)
Class LsaAuth := {
  sign : Lsa → LsaMessage;
  verify : LsaMessage → bool;
}.
(** A signer wraps the LSA it is given. *)
Class LsaAuthLaws (A : LsaAuth) : Prop := {
  sign_lsa l : lsa (sign l) = l;
}.

Definition UnsecuredLsaAuth : LsaAuth := {|
  sign l := {| lsa := l; canonical_bytes := []; signature := [] |};
  verify _ := true;
|}.
#[global] Instance UnsecuredLsaAuth_laws : LsaAuthLaws UnsecuredLsaAuth.
Proof. by constructor. Qed.

(** ** Frames, timers, events and actions *)

Inductive ControlFrame :=
| CfLsa (message : LsaMessage)
| CfDigest (entries : list DigestEntry)
| CfDigestReq (origins : list NodeId).

Inductive ControlTimer :=
| CtDigest (link : LinkId)
| CtSpfHold (generation : Z)
| CtLsaRefresh (epoch seq : Z)
| CtLsaExpire (origin : NodeId) (epoch seq : Z).

Inductive ControlEvent :=
| CeLinkUp (link : LinkId) (peer : NodeId) (cost : LinkCost)
| CeLinkDown (link : LinkId)
| CeLocalTopicAdsChanged (ads : list TopicAd)
| CeFrame (link : LinkId) (frame : ControlFrame)
| CeTimer (timer : ControlTimer).

Record Route := { next_hop : LinkId; route_cost : Z; hops : Z }.
Record RouteTable := { table_version : Z; table_routes : gmap NodeId Route }.
Definition RouteTable_default : RouteTable := {| table_version := 0; table_routes := ∅ |}.
Definition RouteTable_get (t : RouteTable) (d : NodeId) : option Route := table_routes t !! d.
Definition RouteTable_iter (t : RouteTable) : list (NodeId * Route) := btree_iter (table_routes t).

Inductive ControlAction :=
| CaSend (link : LinkId) (frame : ControlFrame)
| CaSetTimer (timer : ControlTimer) (at_ : MonoTime)
| CaPublishRoutes (table : RouteTable)
| CaPublishTopicAds (ads : list DiscoveredTopicAd)
| CaPersistSeq (seq : Z).

#[global] Instance ControlFrame_eq_dec : EqDecision ControlFrame.
Proof. solve_decision. Defined.
#[global] Instance ControlTimer_eq_dec : EqDecision ControlTimer.
Proof. solve_decision. Defined.
#[global] Instance Route_eq_dec : EqDecision Route.
Proof. solve_decision. Defined.
#[global] Instance RouteTable_eq_dec : EqDecision RouteTable.
Proof. solve_decision. Defined.
#[global] Instance ControlAction_eq_dec : EqDecision ControlAction.
Proof. solve_decision. Defined.
