(* ===== verification/Spf.v ===== *)
(** * Shortest paths (crates/mb-control, [ControlPlane::shortest_paths])

    The label-correcting Dijkstra of the control plane over a directed graph
    of adjacencies, its totality and its correctness. *)

From S2P Require Export Prelude Ord Bytes Types ControlTypes.

Abbreviation Graph := (gmap NodeId (list Adjacency)).

(** The four collections of the search. *)
Record SpfState := {
  distance : gmap NodeId Z;
  path_hops : gmap NodeId Z;
  first_peer : gmap NodeId NodeId;
  pending : list (Z * NodeId);
}.

Definition set_pending (st : SpfState) (h : list (Z * NodeId)) : SpfState :=
  {| distance := distance st; path_hops := path_hops st;
     first_peer := first_peer st; pending := h |}.

Definition spf_init (me : NodeId) : SpfState :=
  {| distance := {[ me := 0 ]}; path_hops := {[ me := 0 ]};
     first_peer := ∅; pending := heap_push (0, me) [] |}.

(** The body of [for edge in edges]; [path_hops[&node]] and
    [first_peer[&node]] panic on a missing key. *)
Definition relax (me : NodeId) (known_cost : Z) (node : NodeId)
    (st : SpfState) (edge : Adjacency) : option SpfState :=
  let candidate_cost := sat_add 32 known_cost (cost_get (adj_cost edge)) in
  node_hops ← path_hops st !! node;
  let candidate_hops := sat_add 8 node_hops 1 in
  candidate_first ← (if decide (node = me) then Some (adj_peer edge)
                     else first_peer st !! node);
  let should_replace :=
    match distance st !! adj_peer edge with
    | None => true
    | Some current_cost =>
        if candidate_cost <? current_cost then true
        else if candidate_cost =? current_cost then
          match first_peer st !! adj_peer edge with
          | Some current_first => oltb candidate_first current_first
          | None => false
          end
        else false
    end in
  Some (if should_replace then
          {| distance := <[adj_peer edge := candidate_cost]> (distance st);
             path_hops := <[adj_peer edge := candidate_hops]> (path_hops st);
             first_peer := <[adj_peer edge := candidate_first]> (first_peer st);
             pending := heap_push (candidate_cost, adj_peer edge) (pending st) |}
        else st).

Fixpoint relax_all (me : NodeId) (known_cost : Z) (node : NodeId)
    (st : SpfState) (edges : list Adjacency) : option SpfState :=
  match edges with
  | [] => Some st
  | e :: es => st ← relax me known_cost node st e; relax_all me known_cost node st es
  end.

(** One iteration of [while let Some(..) = pending.pop()]; the loop ends with
    the final state, or with [None] when the body panics. *)
Definition spf_step (g : Graph) (me : NodeId) (st : SpfState) : SpfState + option SpfState :=
  match heap_pop (pending st) with
  | None => inr (Some st)
  | Some ((known_cost, node), rest) =>
      let st := set_pending st rest in
      if decide (distance st !! node = Some known_cost) then
        match g !! node with
        | None => inl st
        | Some edges =>
            match relax_all me known_cost node st edges with
            | Some st => inl st
            | None => inr None
            end
        end
      else inl st
  end.

(** Number of edges of the graph, and the bound on the iterations derived
    from it (see [spf_total]). *)
Definition edge_count (g : Graph) : Z := zsum (zlen <$> btree_values g).
Definition spf_fuel (g : Graph) : positive :=
  Z.to_pos (2 * (edge_count g + 1) * (2 ^ 32 * (edge_count g + 1)) + 2).

Definition spf_run (g : Graph) (me : NodeId) : option SpfState :=
  mjoin (run_loop (spf_step g me) (spf_fuel g) (spf_init me)).

(** ** Walks

    What the routes are compared with: the walks from [me] in the graph, with
    their first hop, exact cost and number of edges. *)

Definition edges (g : Graph) (u : NodeId) : list Adjacency := default [] (g !! u).

Inductive walk (g : Graph) (me : NodeId) : NodeId → NodeId → Z → Z → Prop :=
| walk_one e : e ∈ edges g me → walk g me (adj_peer e) (adj_peer e) (cost_get (adj_cost e)) 1
| walk_snoc u p c n e :
    walk g me u p c n → e ∈ edges g u →
    walk g me (adj_peer e) p (c + cost_get (adj_cost e)) (n + 1).

Section Search.
Context (g : Graph) (me : NodeId).
Implicit Types (st : SpfState) (u v p : NodeId) (e : Adjacency).

Definition cand st u e : option NodeId :=
  if decide (u = me) then Some (adj_peer e) else first_peer st !! u.
Definition ccost (c : Z) e : Z := sat_add 32 c (cost_get (adj_cost e)).

(** Every label comes from a walk. *)
Record spf_inv st : Prop := {
  inv_d_me : distance st !! me = Some 0;
  inv_h_me : path_hops st !! me = Some 0;
  inv_f_me : first_peer st !! me = None;
  inv_walk v c : v ≠ me → distance st !! v = Some c →
    ∃ p C N, first_peer st !! v = Some p ∧ walk g me v p C N ∧
      c = Z.min C (u_max 32) ∧ path_hops st !! v = Some (Z.min N 255);
}.

(** Labels only improve: lower cost, or the same cost and a smaller first
    hop. *)
Definition improves st st' : Prop :=
  ∀ v c, distance st !! v = Some c →
    ∃ c', distance st' !! v = Some c' ∧ c' ≤ c ∧
      (c' = c → ∀ p', first_peer st' !! v = Some p' →
                ∃ p, first_peer st !! v = Some p ∧ ole p' p).

(** The label of the head of [e] is at least as good as what [e] offers. *)
Definition relaxed st u c e : Prop :=
  ∃ c', distance st !! adj_peer e = Some c' ∧ c' ≤ ccost c e ∧
    (c' = ccost c e → ∀ p q, first_peer st !! adj_peer e = Some p →
                             cand st u e = Some q → ole p q).

(** [u] waits in the heap with its current label, or its edges [es] are
    relaxed. *)
Definition settled st u (es : list Adjacency) : Prop :=
  ∀ c, distance st !! u = Some c → (c, u) ∈ pending st ∨ ∀ e, e ∈ es → relaxed st u c e.

Lemma walk_pos v p c n : walk g me v p c n → 0 < c ∧ 0 < n.
Proof. induction 1 as [e|? ? ? ? e]; pose proof (cost_range (adj_cost e)); lia. Qed.
Lemma walk_first v p c n : walk g me v p c n → p ∈ adj_peer <$> edges g me.
Proof. induction 1; [|done]. apply list_elem_of_fmap. eauto. Qed.

Lemma ccost_pos c e : 0 ≤ c → 0 < ccost c e ≤ u_max 32.
Proof. pose proof (cost_range (adj_cost e)). unfold ccost, sat_add, u_max. lia. Qed.
Lemma ccost_ge c e : 0 ≤ c ≤ u_max 32 → c ≤ ccost c e.
Proof. pose proof (cost_range (adj_cost e)). unfold ccost, sat_add. lia. Qed.

Lemma inv_range st v c : spf_inv st → distance st !! v = Some c → 0 ≤ c ≤ u_max 32.
Proof.
  intros Hinv Hv. destruct (decide (v = me)) as [->|Hne].
  - rewrite (inv_d_me _ Hinv) in Hv. simplify_eq. by unfold u_max.
  - destruct (inv_walk _ Hinv _ _ Hne Hv) as (p & C & N & _ & Hw & -> & _).
    apply walk_pos in Hw. unfold u_max. lia.
Qed.

Lemma improves_refl st : improves st st.
Proof. intros v c Hv. exists c. repeat split; [done|lia|]. intros _ p Hp. by exists p. Qed.
Lemma improves_trans st1 st2 st3 : improves st1 st2 → improves st2 st3 → improves st1 st3.
Proof.
  intros H12 H23 v c Hv. destruct (H12 v c Hv) as (c2 & Hv2 & Hle2 & Hp2).
  destruct (H23 v c2 Hv2) as (c3 & Hv3 & Hle3 & Hp3). exists c3.
  split; [done|]. split; [lia|]. intros -> p' Hp'.
  destruct (Hp3 ltac:(lia) p' Hp') as (p & Hp & ?).
  destruct (Hp2 ltac:(lia) p Hp) as (q & ? & ?). exists q. split; [done|]. by etrans.
Qed.

(** What one call of [relax] does on the node just popped. *)
Record relax_spec u c e st st' : Prop := {
  rs_inv : spf_inv st';
  rs_improves : improves st st';
  rs_u : distance st' !! u = Some c;
  rs_cand e' : cand st' u e' = cand st u e';
  rs_hops : path_hops st' !! u = path_hops st !! u;
  rs_relaxed : relaxed st' u c e;
  rs_settled v es : settled st v es → settled st' v es;
}.

Lemma relaxed_improves st st' u c e :
  improves st st' → cand st' u e = cand st u e → relaxed st u c e → relaxed st' u c e.
Proof.
  intros Himp Hc (c1 & Hc1 & Hle & Hp).
  destruct (Himp _ _ Hc1) as (c2 & Hc2 & Hle2 & Hp2). exists c2.
  split; [done|]. split; [lia|]. intros -> p q Hpp Hq. rewrite Hc in Hq.
  assert (c1 = ccost c e) as -> by lia.
  destruct (Hp2 eq_refl p Hpp) as (p1 & Hp1 & ?). etrans; [done|]. by eapply Hp.
Qed.

(** The popped node has a label, and each of its edges offers a walk. *)
Lemma candidate_walk st u c e :
  spf_inv st → distance st !! u = Some c → e ∈ edges g u →
  ∃ n q C N, path_hops st !! u = Some n ∧ cand st u e = Some q ∧
    walk g me (adj_peer e) q C N ∧ ccost c e = Z.min C (u_max 32) ∧
    sat_add 8 n 1 = Z.min N 255.
Proof.
  intros Hinv Hu He. unfold cand. case_decide as Hme.
  - subst u. rewrite (inv_d_me _ Hinv) in Hu. simplify_eq.
    exists 0, (adj_peer e), (cost_get (adj_cost e)), 1. split; [by apply inv_h_me|].
    split; [done|]. split; [by constructor|]. done.
  - destruct (inv_walk _ Hinv _ _ Hme Hu) as (p & C & N & Hp & Hw & -> & Hn).
    exists (Z.min N 255), p, (C + cost_get (adj_cost e)), (N + 1). repeat split; try done.
    + by econstructor.
    + unfold ccost, sat_add, u_max. pose proof (cost_range (adj_cost e)). lia.
    + unfold sat_add, u_max. lia.
Qed.

(** [should_replace], as a function of the two labels. *)
Definition better st e (c : Z) (q : NodeId) : bool :=
  match distance st !! adj_peer e with
  | None => true
  | Some c' =>
      if c <? c' then true
      else if c =? c' then
        match first_peer st !! adj_peer e with Some p => oltb q p | None => false end
      else false
  end.
Definition relabel st e (c n : Z) (q : NodeId) : SpfState :=
  {| distance := <[adj_peer e := c]> (distance st);
     path_hops := <[adj_peer e := n]> (path_hops st);
     first_peer := <[adj_peer e := q]> (first_peer st);
     pending := heap_push (c, adj_peer e) (pending st) |}.

Lemma relax_unfold st u c e n q :
  path_hops st !! u = Some n → cand st u e = Some q →
  relax me c u st e =
  Some (if better st e (ccost c e) q then relabel st e (ccost c e) (sat_add 8 n 1) q else st).
Proof. intros Hn Hq. unfold relax. rewrite Hn. cbn. unfold cand in Hq. by rewrite Hq. Qed.

(** A label is replaced only off the source and off the popped node. *)
Lemma better_ne st u c e q :
  spf_inv st → distance st !! u = Some c → cand st u e = Some q →
  better st e (ccost c e) q = true → adj_peer e ≠ me ∧ adj_peer e ≠ u.
Proof.
  intros Hinv Hu Hq Hb. pose proof (inv_range _ _ _ Hinv Hu).
  pose proof (ccost_pos c e ltac:(lia)). pose proof (ccost_ge c e ltac:(lia)).
  assert (adj_peer e ≠ me) as Hne.
  { intros E. unfold better in Hb. rewrite E, (inv_d_me _ Hinv) in Hb.
    split_match_in Hb; bool_prop; lia. }
  split; [done|]. intros E. unfold better in Hb. rewrite E, Hu in Hb.
  unfold cand in Hq. rewrite <-E in Hq. rewrite decide_False in Hq by done.
  rewrite <-E, Hq in Hb. destruct (Z.ltb_spec (ccost c e) c); [lia|].
  destruct (Z.eqb_spec (ccost c e) c); [|done]. by apply oltb_lt, olt_irrefl in Hb.
Qed.

Lemma relabel_inv st e c n q C N :
  spf_inv st → adj_peer e ≠ me → walk g me (adj_peer e) q C N →
  c = Z.min C (u_max 32) → n = Z.min N 255 → spf_inv (relabel st e c n q).
Proof.
  intros Hinv Hne Hw Hc Hn. constructor; cbn.
  1-3: rewrite lookup_insert_ne by done; by apply Hinv.
  intros v c' Hv Hd. destruct (decide (adj_peer e = v)) as [<-|Hev].
  - rewrite lookup_insert_eq in Hd. rewrite !lookup_insert_eq. simplify_eq. eauto 8.
  - rewrite lookup_insert_ne in Hd by done. rewrite !lookup_insert_ne by done.
    by apply inv_walk.
Qed.

Lemma relabel_improves st e c n q :
  better st e c q = true → improves st (relabel st e c n q).
Proof.
  intros Hb v c0 Hv. cbn. destruct (decide (adj_peer e = v)) as [<-|Hev].
  - rewrite !lookup_insert_eq. unfold better in Hb. rewrite Hv in Hb. exists c.
    split; [done|]. destruct (Z.ltb_spec c c0); [split; [lia|lia]|].
    destruct (Z.eqb_spec c c0); [|done]. split; [lia|].
    destruct (first_peer st !! adj_peer e) as [p|]; [|done].
    intros _ p' [= <-]. exists p. split; [done|]. by apply olt_le, oltb_lt.
  - rewrite !lookup_insert_ne by done. apply improves_refl. done.
Qed.

Lemma relabel_settled st e c n q v es :
  better st e c q = true → settled st v es → settled (relabel st e c n q) v es.
Proof.
  intros Hb Hs c0 Hv. cbn in *. destruct (decide (adj_peer e = v)) as [<-|Hev].
  - rewrite lookup_insert_eq in Hv. simplify_eq. left. rewrite heap_push_perm. by left.
  - rewrite lookup_insert_ne in Hv by done. destruct (Hs c0 Hv) as [Hp|Hr].
    + left. rewrite heap_push_perm. by right.
    + right. intros e' He'. apply (relaxed_improves st); [by apply relabel_improves| |auto].
      unfold cand. case_decide; [done|]. cbn. by rewrite lookup_insert_ne.
Qed.

Lemma not_better_relaxed st u c e q :
  cand st u e = Some q → better st e (ccost c e) q = false → relaxed st u c e.
Proof.
  intros Hq Hb. unfold better in Hb.
  destruct (distance st !! adj_peer e) as [c'|] eqn:Hd; [|done]. exists c'.
  destruct (Z.ltb_spec (ccost c e) c'); [done|]. split; [done|]. split; [lia|].
  intros -> p q' Hp Hq'. simplify_eq. rewrite Z.eqb_refl, Hp in Hb. by apply oltb_ge.
Qed.

Lemma relax_correct st u c e :
  spf_inv st → distance st !! u = Some c → e ∈ edges g u →
  ∃ st', relax me c u st e = Some st' ∧ relax_spec u c e st st'.
Proof.
  intros Hinv Hu He.
  destruct (candidate_walk _ _ _ _ Hinv Hu He) as (n & q & C & N & Hn & Hq & Hw & HC & HN).
  rewrite (relax_unfold _ _ _ _ _ _ Hn Hq).
  destruct (better st e (ccost c e) q) eqn:Hb; eexists; (split; [done|]).
  - destruct (better_ne _ _ _ _ _ Hinv Hu Hq Hb) as [Hme Hneu]. constructor.
    + by eapply relabel_inv.
    + by apply relabel_improves.
    + cbn. by rewrite lookup_insert_ne.
    + intros e'. unfold cand. case_decide; [done|]. cbn. by rewrite lookup_insert_ne.
    + cbn. by rewrite lookup_insert_ne.
    + exists (ccost c e). cbn. rewrite !lookup_insert_eq. split; [done|]. split; [lia|].
      intros _ p q' [= <-]. unfold cand in *. case_decide; [intros; simplify_eq; reflexivity|].
      cbn. rewrite lookup_insert_ne by done. intros. simplify_eq. reflexivity.
    + intros. by apply relabel_settled.
  - constructor; try done; [apply improves_refl|]. by eapply not_better_relaxed.
Qed.

(** All the edges of the popped node. *)
Lemma relax_all_correct u c es : ∀ st done,
  spf_inv st → distance st !! u = Some c → es ⊆ edges g u →
  (∀ e, e ∈ done → relaxed st u c e) →
  ∃ st', relax_all me c u st es = Some st' ∧ spf_inv st' ∧ distance st' !! u = Some c ∧
    (∀ e, e ∈ done ++ es → relaxed st' u c e) ∧
    (∀ v es', settled st v es' → settled st' v es').
Proof.
  induction es as [|e es IH]; intros st dn Hinv Hu Hes Hdn; cbn.
  { exists st. rewrite app_nil_r. done. }
  destruct (relax_correct st u c e Hinv Hu) as (st1 & -> & [H1 H2 H3 H4 H5 H6 H7]); [set_solver|].
  cbn. destruct (IH st1 (dn ++ [e]) H1 H3) as (st' & -> & Hi & Hu' & Hr & Hs); [set_solver| |].
  { intros e' [He'|He']%elem_of_app.
    - eapply relaxed_improves; [exact H2|apply H4|auto].
    - apply list_elem_of_singleton in He' as ->. done. }
  exists st'. rewrite <-app_assoc in Hr. repeat split; try done; [apply Hi..|]. auto.
Qed.

(** *** Termination

    Labels are pairs of a cost and a first hop; a replaced label is
    lexicographically smaller, so the sum of the ranks of the labels, twice,
    plus the size of the heap decreases with every iteration. *)

Definition vertices : list NodeId :=
  elements ({[me]} ∪ list_to_set (adj_peer <$> mjoin (btree_values g)) : gset NodeId).
Definition first_rank p : Z :=
  zlen (filter (λ x, olt x p) (adj_peer <$> edges g me)).
Definition label_rank st v : Z :=
  match distance st !! v with
  | None => 2 ^ 32 * (edge_count g + 1)
  | Some c => c * (edge_count g + 1)
              + match first_peer st !! v with Some p => first_rank p | None => 0 end
  end.
Definition spf_measure st : Z :=
  2 * zsum (label_rank st <$> vertices) + zlen (pending st).

Lemma edges_value u : edges g u = [] ∨ edges g u ∈ btree_values g.
Proof.
  unfold edges. destruct (g !! u) as [es|] eqn:E; [|by left]. right. cbn.
  apply elem_of_btree_values. eauto.
Qed.
Lemma edge_count_nonneg : 0 ≤ edge_count g.
Proof. apply zsum_nonneg, Forall_fmap, Forall_true. intros. apply zlen_nonneg. Qed.
Lemma peer_vertex u e : e ∈ edges g u → adj_peer e ∈ vertices.
Proof.
  intros He. apply elem_of_elements, elem_of_union_r, elem_of_list_to_set, list_elem_of_fmap.
  exists e. split; [done|]. apply list_elem_of_join. exists (edges g u). split; [done|].
  destruct (edges_value u) as [E|]; [|done]. rewrite E in He. by apply elem_of_nil in He.
Qed.
Lemma length_vertices : zlen vertices ≤ edge_count g + 1.
Proof.
  unfold vertices, zlen. set (X := list_to_set _ : gset NodeId).
  change (length (elements ({[me]} ∪ X))) with (size ({[me]} ∪ X)).
  assert (size ({[me]} ∪ X) ≤ 1 + size X)%nat as H1.
  { rewrite size_union_alt, size_singleton.
    assert (size (X ∖ {[me]}) ≤ size X)%nat; [apply subseteq_size; set_solver|lia]. }
  assert (size X ≤ length (adj_peer <$> mjoin (btree_values g)))%nat as H2
    by apply size_list_to_set_le.
  rewrite length_fmap in H2. pose proof (zlen_mjoin (btree_values g)) as H3.
  unfold edge_count. rewrite <-H3. unfold zlen. lia.
Qed.
Lemma first_rank_range p : 0 ≤ first_rank p ≤ edge_count g.
Proof.
  unfold first_rank. split; [apply zlen_nonneg|].
  transitivity (zlen (edges g me)).
  - unfold zlen. pose proof (length_filter (λ x, olt x p) (adj_peer <$> edges g me)) as Hl.
    rewrite length_fmap in Hl. lia.
  - destruct (edges_value me) as [->|Hv]; [apply edge_count_nonneg|].
    by apply zlen_le_zsum.
Qed.
Lemma first_rank_lt p q :
  q ∈ adj_peer <$> edges g me → olt q p → first_rank q < first_rank p.
Proof.
  intros Hq Hlt. unfold first_rank, zlen. apply inj_lt.
  induction (adj_peer <$> edges g me) as [|x l IH]; [by apply elem_of_nil in Hq|].
  assert (length (filter (λ y, olt y q) l) ≤ length (filter (λ y, olt y p) l))%nat as Hle.
  { clear -Hlt. induction l as [|y l IH]; [done|]. rewrite !filter_cons.
    case_decide as H1; case_decide as H2; cbn; try lia.
    destruct H2. by etrans. }
  rewrite !filter_cons. destruct (decide (x = q)) as [->|Hne].
  - rewrite decide_False by apply olt_irrefl. rewrite decide_True by done. cbn. lia.
  - assert (length (filter (λ y, olt y q) l) < length (filter (λ y, olt y p) l))%nat as Hl
      by (apply IH; set_solver).
    case_decide as H1; case_decide as H2; cbn; try lia. destruct H2. by etrans.
Qed.

Lemma label_rank_bound st v : spf_inv st → 0 ≤ label_rank st v ≤ 2 ^ 32 * (edge_count g + 1).
Proof.
  intros Hinv. pose proof edge_count_nonneg. unfold label_rank.
  destruct (distance st !! v) as [c|] eqn:Hd; [|lia].
  pose proof (inv_range _ _ _ Hinv Hd) as Hc. unfold u_max in Hc.
  destruct (first_peer st !! v) as [p|]; [pose proof (first_rank_range p)|]; nia.
Qed.

Lemma relabel_rank st e c n q C N :
  spf_inv st → walk g me (adj_peer e) q C N → c = Z.min C (u_max 32) →
  better st e c q = true →
  label_rank (relabel st e c n q) (adj_peer e) < label_rank st (adj_peer e).
Proof.
  intros Hinv Hw Hc Hb. pose proof (walk_first _ _ _ _ Hw) as Hq.
  pose proof (first_rank_range q) as Hr. pose proof edge_count_nonneg.
  assert (0 ≤ c ≤ u_max 32) by (apply walk_pos in Hw; unfold u_max in *; lia).
  unfold label_rank, better in *. cbn. rewrite !lookup_insert_eq.
  destruct (distance st !! adj_peer e) as [c0|] eqn:Hd.
  2:{ pose proof (Z.mul_le_mono_nonneg_r c (u_max 32) (edge_count g + 1)).
      unfold u_max in *. lia. }
  destruct (Z.ltb_spec c c0).
  - pose proof (Z.mul_le_mono_nonneg_r (c + 1) c0 (edge_count g + 1)).
    destruct (first_peer st !! adj_peer e) as [p|]; [pose proof (first_rank_range p)|]; lia.
  - destruct (Z.eqb_spec c c0) as [->|]; [|done].
    destruct (first_peer st !! adj_peer e) as [p|]; [|done].
    apply oltb_lt in Hb. pose proof (first_rank_lt p q Hq Hb). lia.
Qed.

Lemma relax_measure st u c e st' :
  spf_inv st → distance st !! u = Some c → e ∈ edges g u →
  relax me c u st e = Some st' → spf_measure st' ≤ spf_measure st.
Proof.
  intros Hinv Hu He Hr.
  destruct (candidate_walk _ _ _ _ Hinv Hu He) as (n & q & C & N & Hn & Hq & Hw & HC & _).
  rewrite (relax_unfold _ _ _ _ _ _ Hn Hq) in Hr. injection Hr as <-.
  destruct (better st e (ccost c e) q) eqn:Hb; [|lia].
  unfold spf_measure. cbn [relabel pending].
  rewrite (zlen_perm _ _ (heap_push_perm _ _)), zlen_cons.
  assert (zsum (label_rank (relabel st e (ccost c e) (sat_add 8 n 1) q) <$> vertices)
          < zsum (label_rank st <$> vertices)); [|unfold relabel in *; lia].
  apply (zsum_lower _ _ _ (adj_peer e)).
  - apply NoDup_elements.
  - by eapply peer_vertex.
  - by eapply relabel_rank.
  - intros v Hv. unfold label_rank. cbn. by rewrite !lookup_insert_ne.
Qed.

Lemma relax_all_measure u c es : ∀ st st',
  spf_inv st → distance st !! u = Some c → es ⊆ edges g u →
  relax_all me c u st es = Some st' → spf_measure st' ≤ spf_measure st.
Proof.
  induction es as [|e es IH]; intros st st' Hinv Hu Hes Hr; cbn in Hr; [by simplify_eq|].
  destruct (relax_correct st u c e Hinv Hu) as (st1 & Hr1 & Hspec); [set_solver|].
  rewrite Hr1 in Hr. cbn in Hr. transitivity (spf_measure st1).
  - apply (IH st1 st'); [apply Hspec|apply Hspec|set_solver|done].
  - eapply relax_measure; [done|done| |done]. set_solver.
Qed.

Definition spf_loop_inv st : Prop := spf_inv st ∧ ∀ v, settled st v (edges g v).
(** What holds when the heap is empty. *)
Definition spf_done st : Prop :=
  spf_inv st ∧ ∀ u c e, distance st !! u = Some c → e ∈ edges g u → relaxed st u c e.

Lemma spf_init_inv : spf_loop_inv (spf_init me).
Proof.
  split.
  - constructor; cbn; [by rewrite lookup_singleton_eq..|done|].
    intros v c Hne Hv. by rewrite lookup_singleton_ne in Hv.
  - intros v c Hv. cbn in *. destruct (decide (v = me)) as [->|Hne].
    + rewrite lookup_singleton_eq in Hv. simplify_eq. left. by left.
    + by rewrite lookup_singleton_ne in Hv.
Qed.

Lemma spf_inv_set_pending st h : spf_inv st → spf_inv (set_pending st h).
Proof. intros [H1 H2 H3 H4]. by constructor. Qed.

Lemma settled_pop st u c rest v :
  pending st = (c, u) :: rest → settled st v (edges g v) →
  (v ≠ u ∨ distance st !! u ≠ Some c) → settled (set_pending st rest) v (edges g v).
Proof.
  intros Hp Hs Hne c' Hv. cbn in *. destruct (Hs c' Hv) as [Hin|]; [|by right].
  rewrite Hp in Hin. apply elem_of_cons in Hin as [[= -> ->]|]; [naive_solver|by left].
Qed.

Lemma spf_step_ok st st' :
  spf_loop_inv st → spf_step g me st = inl st' →
  spf_loop_inv st' ∧ spf_measure st' < spf_measure st.
Proof.
  intros [Hinv Hs] Hstep. unfold spf_step in Hstep.
  destruct (pending st) as [|[c u] rest] eqn:Hp; cbn in Hstep; [done|].
  assert (spf_measure (set_pending st rest) < spf_measure st) as Hm.
  { unfold spf_measure. cbn. rewrite Hp, zlen_cons.
    change (label_rank (set_pending st rest)) with (label_rank st). lia. }
  pose proof (spf_inv_set_pending _ rest Hinv) as Hinv1.
  case_decide as Hu; [|simplify_eq; split; [split; [done|]|done]].
  2:{ intros v. eapply settled_pop; eauto. }
  assert (∀ v, v ≠ u → settled (set_pending st rest) v (edges g v)) as Hother.
  { intros v Hne. eapply settled_pop; eauto. }
  destruct (g !! u) as [es|] eqn:Hg.
  - assert (edges g u = es) as Hes by (unfold edges; by rewrite Hg).
    destruct (relax_all_correct u c es (set_pending st rest) [] Hinv1 Hu)
      as (st2 & Hr & Hinv2 & Hu2 & Hrel & Hset); [set_solver|set_solver|].
    pose proof (relax_all_measure u c es _ st2 Hinv1 Hu ltac:(set_solver) Hr).
    rewrite Hr in Hstep. simplify_eq. split; [split; [done|]|lia].
    intros v. destruct (decide (v = u)) as [->|Hne]; [|auto].
    intros c' Hc'. rewrite Hu2 in Hc'. simplify_eq. right. intros e He. apply Hrel. done.
  - simplify_eq. split; [split; [done|]|done]. intros v.
    destruct (decide (v = u)) as [->|Hne]; [|auto].
    intros c' Hc'. right. intros e He. unfold edges in He. rewrite Hg in He.
    by apply elem_of_nil in He.
Qed.

Lemma spf_step_end st r :
  spf_loop_inv st → spf_step g me st = inr r → ∃ st', r = Some st' ∧ spf_done st'.
Proof.
  intros [Hinv Hs] Hstep. unfold spf_step in Hstep.
  destruct (pending st) as [|[c u] rest] eqn:Hp; cbn in Hstep.
  - simplify_eq. exists st. split; [done|]. split; [done|]. intros u c e Hu He.
    destruct (Hs u c Hu) as [Hin|Hr]; [|auto]. rewrite Hp in Hin. by apply elem_of_nil in Hin.
  - case_decide as Hu; [|done]. destruct (g !! u) as [es|] eqn:Hg; [|done].
    assert (edges g u = es) as Hes by (unfold edges; by rewrite Hg).
    destruct (relax_all_correct u c es (set_pending st rest) []
                (spf_inv_set_pending _ rest Hinv) Hu) as (st2 & Hr & _); [set_solver..|].
    by rewrite Hr in Hstep.
Qed.

(** The search always ends, never panics, and ends with every edge
    relaxed. *)
Lemma spf_total : ∃ st, spf_run g me = Some st ∧ spf_done st.
Proof.
  destruct (run_loop_total (spf_step g me) spf_loop_inv
              (λ r, ∃ st', r = Some st' ∧ spf_done st') spf_measure (spf_fuel g) (spf_init me))
    as (r & Hr & st & -> & Hd).
  - apply spf_init_inv.
  - intros st [Hinv _]. unfold spf_measure. pose proof (zlen_nonneg (pending st)).
    destruct (zsum_bound (label_rank st) vertices _ (λ v _, label_rank_bound st v Hinv)). lia.
  - apply spf_step_ok.
  - apply spf_step_end.
  - unfold spf_measure, spf_fuel. pose proof edge_count_nonneg. pose proof length_vertices.
    destruct (zsum_bound (label_rank (spf_init me)) vertices _
                (λ v _, label_rank_bound _ v (proj1 spf_init_inv))) as [_ Hub].
    rewrite Z2Pos.id by nia. cbn [spf_init pending heap_push]. change (zlen [_]) with 1. nia.
  - exists st. unfold spf_run. by rewrite Hr.
Qed.

(** Labels of a finished search against every walk. *)
Lemma spf_optimal st v p C N :
  spf_done st → walk g me v p C N →
  ∃ c, distance st !! v = Some c ∧ c ≤ C ∧
    (c = C → C < u_max 32 → ∀ f, first_peer st !! v = Some f → ole f p).
Proof.
  intros [Hinv Hdone]. induction 1 as [e He|u p C N e Hw IH He].
  - destruct (Hdone me 0 e (inv_d_me _ Hinv) He) as (c & Hc & Hle & Hp). exists c.
    assert (ccost 0 e = cost_get (adj_cost e)) as Hcc.
    { pose proof (cost_range (adj_cost e)). unfold ccost, sat_add, u_max. lia. }
    rewrite Hcc in *. split; [done|]. split; [done|]. intros -> _ f Hf.
    apply (Hp eq_refl _ _ Hf). unfold cand. by rewrite decide_True.
  - destruct IH as (cu & Hu & Hle & Hp). destruct (Hdone u cu e Hu He) as (c & Hc & Hlec & Hpc).
    pose proof (inv_range _ _ _ Hinv Hu). pose proof (cost_range (adj_cost e)).
    pose proof (walk_pos _ _ _ _ Hw).
    exists c. split; [done|]. split; [unfold ccost, sat_add in Hlec; lia|].
    intros -> Hmax f Hf.
    assert (cu = C) as -> by (unfold ccost, sat_add in Hlec; lia).
    assert (u ≠ me) as Hne.
    { intros ->. rewrite (inv_d_me _ Hinv) in Hu. simplify_eq. lia. }
    destruct (inv_walk _ Hinv _ _ Hne Hu) as (fu & _ & _ & Hfu & _).
    transitivity fu; [|apply (Hp eq_refl); [lia|done]].
    apply (Hpc ltac:(unfold ccost, sat_add in *; lia) _ _ Hf). unfold cand.
    by rewrite decide_False.
Qed.
End Search.

(** ** Simple walks

    Cutting cycles out: with [n] vertices and 16-bit edge costs the shortest
    walks cost less than [n * 65536], so that the 32-bit distance of a mesh
    within the limits of the database never saturates. *)

Section Simple.
Context (g : Graph) (me : NodeId).

(** The visited vertices, last one first. *)
Inductive trail : list NodeId → Z → Prop :=
| trail_start : trail [me] 0
| trail_step u l c e :
    trail (u :: l) c → e ∈ edges g u →
    trail (adj_peer e :: u :: l) (c + cost_get (adj_cost e)).

Lemma trail_walk v l c :
  trail (v :: l) c → l ≠ [] → ∃ p, walk g me v p c (zlen l).
Proof.
  intros Ht. remember (v :: l) as k eqn:Ek. revert v l Ek.
  induction Ht as [|u l c e Ht IH He]; intros v k Ek Hne; simplify_eq/=.
  rewrite zlen_cons. destruct l as [|w l].
  - inversion Ht; subst. exists (adj_peer e). apply (walk_one g _ e He).
  - destruct (IH u (w :: l) eq_refl ltac:(done)) as [p Hp]. exists p.
    rewrite (Z.add_comm 1). by apply walk_snoc with u.
Qed.
Lemma walk_trail v p c n : walk g me v p c n → ∃ l, trail (v :: l) c.
Proof.
  induction 1 as [e He|u p c n e Hw [l IH] He].
  - exists [me]. apply (trail_step me [] 0 e); [constructor|done].
  - exists (u :: l). by constructor.
Qed.
Lemma trail_suffix l1 v l c : trail (l1 ++ v :: l) c → ∃ c', trail (v :: l) c' ∧ c' ≤ c.
Proof.
  revert c; induction l1 as [|w l1 IH]; intros c Ht; [by exists c|].
  cbn in Ht. inversion Ht as [Hnil|u k c0 e Ht' He Hk]; [by destruct l1|].
  match goal with H : _ :: _ = l1 ++ _ |- _ => rewrite H in Ht' end.
  destruct (IH _ Ht') as (c' & ? & ?). exists c'. split; [done|].
  pose proof (cost_range (adj_cost e)). lia.
Qed.

(** Every walk has a simple one of at most its cost. *)
Lemma trail_simple v l c :
  trail (v :: l) c → ∃ l' c', trail (v :: l') c' ∧ NoDup (v :: l') ∧ c' ≤ c.
Proof.
  intros Ht. remember (v :: l) as k eqn:Ek. revert v l Ek.
  induction Ht as [|u l c e Ht IH He]; intros v k Ek; simplify_eq/=.
  - exists [], 0. split; [constructor|]. split; [apply NoDup_singleton|done].
  - destruct (IH u l eq_refl) as (l' & c' & Ht' & Hnd & Hle).
    pose proof (cost_range (adj_cost e)).
    destruct (decide (adj_peer e ∈ u :: l')) as [Hin|Hin].
    + apply list_elem_of_split in Hin as (l1 & l2 & Eq). rewrite Eq in Ht', Hnd.
      destruct (trail_suffix _ _ _ _ Ht') as (c2 & Ht2 & Hle2).
      exists l2, c2. split; [done|]. split; [|lia].
      by apply NoDup_app in Hnd as (_ & _ & Hnd).
    + exists (u :: l'), (c' + cost_get (adj_cost e)). split; [by constructor|].
      split; [by constructor|lia].
Qed.

(** All ends of edges are vertices of the graph. *)
Context (Hclosed : ∀ u e, e ∈ edges g u → is_Some (g !! adj_peer e)).

Lemma trail_vertices l c : trail l c → l ≠ [me] → ∀ v, v ∈ l → is_Some (g !! v).
Proof.
  induction 1 as [|u l c e Ht IH He]; intros Hne v Hin; [done|].
  apply elem_of_cons in Hin as [->|Hin]; [by eapply Hclosed|].
  destruct (decide (u :: l = [me])) as [E|E].
  - rewrite E in Hin. apply list_elem_of_singleton in Hin as ->. injection E as -> ->.
    unfold edges in He. destruct (g !! me); [by eexists|]. by apply not_elem_of_nil in He.
  - by apply IH.
Qed.
Lemma trail_cost l c : trail l c → c ≤ (zlen l - 1) * 65535.
Proof.
  induction 1 as [|u l c e Ht IH He]; [done|]. rewrite zlen_cons.
  pose proof (cost_range (adj_cost e)). lia.
Qed.

Lemma walk_short v p c n :
  walk g me v p c n → v ≠ me →
  ∃ p' c' n', walk g me v p' c' n' ∧ c' ≤ c ∧ c' ≤ (Z.of_nat (size g) - 1) * 65535.
Proof.
  intros Hw Hne. destruct (walk_trail _ _ _ _ Hw) as [l Hl].
  destruct (trail_simple _ _ _ Hl) as (l' & c' & Ht & Hnd & Hle).
  destruct (trail_walk v l' c' Ht) as [p' Hp']; [by intros ->; inversion Ht|].
  exists p', c', (zlen l'). split; [done|]. split; [done|].
  assert (Hlen : zlen (v :: l') ≤ Z.of_nat (size g)).
  { rewrite <-size_dom. unfold zlen. apply inj_le.
    rewrite <-(size_list_to_set (C:=gset NodeId) (v :: l') Hnd). apply subseteq_size.
    intros x Hx%elem_of_list_to_set. apply elem_of_dom.
    eapply trail_vertices; [done| |done]. congruence. }
  pose proof (trail_cost _ _ Ht). nia.
Qed.
End Simple.
