(* ===== verification/Control.v ===== *)
(** * The control plane (crates/mb-control, [ControlPlane])

    The state machine itself: the link-state database, origination and
    flooding of LSAs, digests, expiry, the SPF hold timer and the published
    route table and topic advertisements. *)

From S2P Require Export Prelude Ord Bytes Types ControlTypes Spf.

(** ** State *)

Record ActiveLsa := {
  message : LsaMessage;
  received_at : MonoTime;
  expires_at : MonoTime;
}.
Inductive LsdbEntryState := Active (a : ActiveLsa) | Tombstone.
Record LsdbEntry := { entry_version : version; entry_state : LsdbEntryState }.

Definition active (e : LsdbEntry) : option ActiveLsa :=
  match entry_state e with Active a => Some a | Tombstone => None end.

Record LocalAdjacency := { la_peer : NodeId; la_cost : LinkCost }.
Record PendingSpf := { ps_generation : Z; ps_at : MonoTime }.

Record ControlPlane := {
  me : NodeId;
  my_epoch : Z;
  my_seq : Z;
  local_adjacencies : gmap LinkId LocalAdjacency;
  local_topic_ads : list TopicAd;
  lsdb : gmap NodeId LsdbEntry;
  cp_routes : RouteTable;
  published_topic_ads : list DiscoveredTopicAd;
  pending_spf : option PendingSpf;
  spf_generation : Z;
  spf_hold_ms : Z;
  last_lsdb_change_at : option MonoTime;
}.

(** One setter per assigned field. *)
Definition set_my_seq (cp : ControlPlane) (n : Z) : ControlPlane :=
  {| me := me cp; my_epoch := my_epoch cp; my_seq := n;
     local_adjacencies := local_adjacencies cp; local_topic_ads := local_topic_ads cp;
     lsdb := lsdb cp; cp_routes := cp_routes cp;
     published_topic_ads := published_topic_ads cp; pending_spf := pending_spf cp;
     spf_generation := spf_generation cp; spf_hold_ms := spf_hold_ms cp;
     last_lsdb_change_at := last_lsdb_change_at cp |}.
Definition set_adjacencies (cp : ControlPlane) (m : gmap LinkId LocalAdjacency) : ControlPlane :=
  {| me := me cp; my_epoch := my_epoch cp; my_seq := my_seq cp;
     local_adjacencies := m; local_topic_ads := local_topic_ads cp;
     lsdb := lsdb cp; cp_routes := cp_routes cp;
     published_topic_ads := published_topic_ads cp; pending_spf := pending_spf cp;
     spf_generation := spf_generation cp; spf_hold_ms := spf_hold_ms cp;
     last_lsdb_change_at := last_lsdb_change_at cp |}.
Definition set_local_topic_ads (cp : ControlPlane) (ads : list TopicAd) : ControlPlane :=
  {| me := me cp; my_epoch := my_epoch cp; my_seq := my_seq cp;
     local_adjacencies := local_adjacencies cp; local_topic_ads := ads;
     lsdb := lsdb cp; cp_routes := cp_routes cp;
     published_topic_ads := published_topic_ads cp; pending_spf := pending_spf cp;
     spf_generation := spf_generation cp; spf_hold_ms := spf_hold_ms cp;
     last_lsdb_change_at := last_lsdb_change_at cp |}.
Definition set_lsdb (cp : ControlPlane) (m : gmap NodeId LsdbEntry) : ControlPlane :=
  {| me := me cp; my_epoch := my_epoch cp; my_seq := my_seq cp;
     local_adjacencies := local_adjacencies cp; local_topic_ads := local_topic_ads cp;
     lsdb := m; cp_routes := cp_routes cp;
     published_topic_ads := published_topic_ads cp; pending_spf := pending_spf cp;
     spf_generation := spf_generation cp; spf_hold_ms := spf_hold_ms cp;
     last_lsdb_change_at := last_lsdb_change_at cp |}.
Definition set_routes (cp : ControlPlane) (t : RouteTable) : ControlPlane :=
  {| me := me cp; my_epoch := my_epoch cp; my_seq := my_seq cp;
     local_adjacencies := local_adjacencies cp; local_topic_ads := local_topic_ads cp;
     lsdb := lsdb cp; cp_routes := t;
     published_topic_ads := published_topic_ads cp; pending_spf := pending_spf cp;
     spf_generation := spf_generation cp; spf_hold_ms := spf_hold_ms cp;
     last_lsdb_change_at := last_lsdb_change_at cp |}.
Definition set_published_topic_ads (cp : ControlPlane) (l : list DiscoveredTopicAd) :
  ControlPlane :=
  {| me := me cp; my_epoch := my_epoch cp; my_seq := my_seq cp;
     local_adjacencies := local_adjacencies cp; local_topic_ads := local_topic_ads cp;
     lsdb := lsdb cp; cp_routes := cp_routes cp;
     published_topic_ads := l; pending_spf := pending_spf cp;
     spf_generation := spf_generation cp; spf_hold_ms := spf_hold_ms cp;
     last_lsdb_change_at := last_lsdb_change_at cp |}.
(** The SPF scheduling fields: pending run, generation, hold time and time of
    the last change of the database. *)
Definition set_spf (cp : ControlPlane) (p : option PendingSpf) (gen hold : Z)
    (last : option MonoTime) : ControlPlane :=
  {| me := me cp; my_epoch := my_epoch cp; my_seq := my_seq cp;
     local_adjacencies := local_adjacencies cp; local_topic_ads := local_topic_ads cp;
     lsdb := lsdb cp; cp_routes := cp_routes cp;
     published_topic_ads := published_topic_ads cp; pending_spf := p;
     spf_generation := gen; spf_hold_ms := hold; last_lsdb_change_at := last |}.

(** ** Constructors and accessors *)

Definition with_auth_and_seq (me : NodeId) (epoch last_seq : Z) : ControlPlane :=
  {| me := me; my_epoch := epoch; my_seq := last_seq; local_adjacencies := ∅;
     local_topic_ads := []; lsdb := ∅; cp_routes := RouteTable_default;
     published_topic_ads := []; pending_spf := None; spf_generation := 0;
     spf_hold_ms := SPF_INITIAL_HOLD_MS; last_lsdb_change_at := None |}.
Definition with_auth (me : NodeId) (epoch : Z) : ControlPlane := with_auth_and_seq me epoch 0.
(** The authentication of these two is [UnsecuredLsaAuth]. *)
Definition new_unsecured_with_seq (me : NodeId) (epoch last_seq : Z) : ControlPlane :=
  with_auth_and_seq me epoch last_seq.
Definition new_unsecured (me : NodeId) (epoch : Z) : ControlPlane :=
  new_unsecured_with_seq me epoch 0.

Definition lsdb_len (cp : ControlPlane) : Z := Z.of_nat (size (lsdb cp)).
Definition lsas (cp : ControlPlane) : list Lsa :=
  (λ a, lsa (message a)) <$> omap active (btree_values (lsdb cp)).
Definition get_active (cp : ControlPlane) (o : NodeId) : option ActiveLsa :=
  lsdb cp !! o ≫= active.
Definition cp_lsa (cp : ControlPlane) (o : NodeId) : option Lsa :=
  (λ a, lsa (message a)) <$> get_active cp o.
Definition lsa_received_at (cp : ControlPlane) (o : NodeId) : option MonoTime :=
  received_at <$> get_active cp o.
Definition lsa_is_expired (cp : ControlPlane) (o : NodeId) : option bool :=
  (λ e, match entry_state e with Tombstone => true | Active _ => false end) <$> lsdb cp !! o.

(** ** Validation and versions *)

Definition valid_topic_ad (ad : TopicAd) : bool :=
  negb (zlen (topic ad) =? 0) && (zlen (topic ad) <=? MAX_TOPIC_NAME_LEN) &&
  (zlen (partition ad) <=? MAX_TOPIC_PARTITION_LEN) &&
  match TopicRoles_from_bits (roles ad) with Some _ => true | None => false end.
Definition valid_topic_ads (ads : list TopicAd) : bool :=
  (zlen ads <=? MAX_LSA_TOPIC_ADS) && forallb valid_topic_ad ads &&
  (Z.of_nat (size (list_to_set ((λ ad, (topic ad, partition ad)) <$> ads)
                     : gset (rstring * bytes))) =? zlen ads).
Definition valid_lsa (l : Lsa) : bool :=
  (1 <=? ttl_sec l) && (ttl_sec l <=? MAX_LSA_TTL_SEC) &&
  (zlen (adjacencies l) <=? MAX_LSA_ADJACENCIES) && valid_topic_ads (topics l).

Definition lsa_version (l : Lsa) : version := (epoch l, seq_no l).
Definition is_newer (cp : ControlPlane) (candidate : Lsa) : bool :=
  match lsdb cp !! origin candidate with
  | None => true
  | Some current => oltb (entry_version current) (lsa_version candidate)
  end.

(** ** Frames and timers *)

Definition digest (cp : ControlPlane) : list DigestEntry :=
  (λ '(o, e), {| de_origin := o; de_epoch := (entry_version e).1;
                 de_seq := (entry_version e).2 |}) <$> btree_iter (lsdb cp).
Definition send_digest (cp : ControlPlane) (link : LinkId) : ControlAction :=
  CaSend link (CfDigest (digest cp)).
Definition send_lsa (link : LinkId) (m : LsaMessage) : ControlAction := CaSend link (CfLsa m).
Definition ttl_ms (l : Lsa) : Z := sat_mul 64 (ttl_sec l) 1000.
Definition next_digest_timer (now : MonoTime) (link : LinkId) : ControlAction :=
  CaSetTimer (CtDigest link) (sat_add 64 now DIGEST_INTERVAL_MS).
Definition next_refresh_timer (now : MonoTime) (l : Lsa) : ControlAction :=
  CaSetTimer (CtLsaRefresh (epoch l) (seq_no l)) (sat_add 64 now (ttl_ms l / 5)).

Definition flood (cp : ControlPlane) (m : LsaMessage) (except : option LinkId) :
  list ControlAction :=
  (λ link, CaSend link (CfLsa m)) <$>
    filter (λ link, Some link ≠ except) (btree_keys (local_adjacencies cp)).

(** ** The database *)

Definition expiry_of (m : LsaMessage) (now : MonoTime) : MonoTime :=
  sat_add 64 now (ttl_ms (lsa m)).
Definition active_entry (m : LsaMessage) (now : MonoTime) : LsdbEntry :=
  {| entry_version := lsa_version (lsa m);
     entry_state := Active {| message := m; received_at := now;
                              expires_at := expiry_of m now |} |}.
(** [None] is the refusal of a full database; the state is then unchanged. *)
Definition install (cp : ControlPlane) (m : LsaMessage) (now : MonoTime) :
  option (ControlPlane * ControlAction) :=
  if bool_decide (lsdb cp !! origin (lsa m) = None) && (MAX_LSDB_ENTRIES <=? lsdb_len cp)
  then None
  else
    let v := lsa_version (lsa m) in
    Some (set_lsdb cp (<[origin (lsa m) := active_entry m now]> (lsdb cp)),
          CaSetTimer (CtLsaExpire (origin (lsa m)) v.1 v.2) (expiry_of m now)).

(** The outer [option] is the panic of [expect], the inner one the returned
    action. *)
Definition mark_spf_dirty (cp : ControlPlane) (now : MonoTime) :
  option (ControlPlane * option ControlAction) :=
  let was_quiet :=
    match last_lsdb_change_at cp with
    | Some last_change => SPF_QUIET_RESET_MS <=? sat_sub now last_change
    | None => false
    end in
  let hold := if was_quiet then SPF_INITIAL_HOLD_MS else spf_hold_ms cp in
  if match pending_spf cp with Some _ => true | None => false end && negb was_quiet then
    Some (set_spf cp (pending_spf cp) (spf_generation cp) hold (Some now), None)
  else
    gen ← checked_add 64 (spf_generation cp) 1;
    let at_ := sat_add 64 now hold in
    Some (set_spf cp (Some {| ps_generation := gen; ps_at := at_ |}) gen hold (Some now),
          Some (CaSetTimer (CtSpfHold gen) at_)).

(** [if let Some(action) = .. { actions.push(action) }] *)
Definition push_opt {A} (l : list A) (o : option A) : list A :=
  l ++ match o with Some a => [a] | None => [] end.

Definition best_by_peer (adjs : list LocalAdjacency) : gmap NodeId LinkCost :=
  group_best la_peer la_cost omin adjs.

Definition local_lsa (cp : ControlPlane) : Lsa :=
  {| origin := me cp; epoch := my_epoch cp; seq_no := my_seq cp;
     ttl_sec := DEFAULT_LSA_TTL_SEC;
     adjacencies := (λ '(p, c), {| adj_peer := p; adj_cost := c |}) <$>
       btree_iter (best_by_peer (btree_values (local_adjacencies cp)));
     topics := local_topic_ads cp |}.

Definition originate_lsa `{LsaAuth} (cp : ControlPlane) (now : MonoTime) :
  option (ControlPlane * list ControlAction) :=
  seq ← checked_add 64 (my_seq cp) 1;
  let cp := set_my_seq cp seq in
  let m := sign (local_lsa cp) in
  '(cp, expiry) ← install cp m now;
  let actions :=
    [CaPersistSeq (my_seq cp)] ++ flood cp m None ++
    [expiry; next_refresh_timer now (lsa m)] in
  '(cp, action) ← mark_spf_dirty cp now;
  Some (cp, push_opt actions action).

(** The stored LSA, sent back to a peer that advertises an older one. *)
Definition send_back (cp : ControlPlane) (incoming : LinkId) (o : NodeId) (l : Lsa) :
  list ControlAction :=
  match lsdb cp !! o with
  | Some entry =>
      if oltb (lsa_version l) (entry_version entry) then
        match active entry with
        | Some a => [send_lsa incoming (message a)]
        | None => []
        end
      else []
  | None => []
  end.

Definition receive_lsa `{LsaAuth} (cp : ControlPlane) (now : MonoTime) (incoming : LinkId)
    (m : LsaMessage) : option (ControlPlane * list ControlAction) :=
  if bool_decide (local_adjacencies cp !! incoming = None)
     || negb (valid_lsa (lsa m)) || negb (verify m) then Some (cp, [])
  else if decide (origin (lsa m) = me cp) then
    Some (cp, send_back cp incoming (me cp) (lsa m))
  else if negb (is_newer cp (lsa m)) then
    Some (cp, send_back cp incoming (origin (lsa m)) (lsa m))
  else
    match install cp m now with
    | None => Some (cp, [])
    | Some (cp, expiry) =>
        let actions := flood cp m (Some incoming) ++ [expiry] in
        '(cp, action) ← mark_spf_dirty cp now;
        Some (cp, push_opt actions action)
    end.

(** ** Anti-entropy *)

(** The greatest version the peer lists per origin. *)
Definition remote_versions (entries : list DigestEntry) : gmap NodeId version :=
  group_best de_origin de_version omax entries.

(** One iteration of [for origin in origins]. *)
Definition digest_step (cp : ControlPlane) (incoming : LinkId) (remote : gmap NodeId version)
    (acc : list NodeId * list ControlAction) (o : NodeId) :
  option (list NodeId * list ControlAction) :=
  let '(requested, actions) := acc in
  let local := lsdb cp !! o in
  relation ← compare_versions (entry_version <$> local) (remote !! o);
  Some match relation with
       | RemoteOnly | RemoteNewer =>
           if decide (o ≠ me cp) then (requested ++ [o], actions) else (requested, actions)
       | LocalOnly | LocalNewer =>
           match local ≫= active with
           | Some a => (requested, actions ++ [send_lsa incoming (message a)])
           | None => (requested, actions)
           end
       | SameVersion => (requested, actions)
       end.
Fixpoint digest_loop (cp : ControlPlane) (incoming : LinkId) (remote : gmap NodeId version)
    (acc : list NodeId * list ControlAction) (origins : list NodeId) :
  option (list NodeId * list ControlAction) :=
  match origins with
  | [] => Some acc
  | o :: os => acc ← digest_step cp incoming remote acc o; digest_loop cp incoming remote acc os
  end.

Definition receive_digest (cp : ControlPlane) (incoming : LinkId) (entries : list DigestEntry) :
  option (list ControlAction) :=
  if bool_decide (local_adjacencies cp !! incoming = None)
     || (MAX_DIGEST_ENTRIES <? zlen entries) then Some []
  else
    let remote := remote_versions entries in
    let origins : gset NodeId :=
      list_to_set (btree_keys (lsdb cp) ++ btree_keys remote) in
    '(requested, actions) ← digest_loop cp incoming remote ([], []) (bset_iter origins);
    Some (if decide (requested = []) then actions
          else actions ++ [CaSend incoming (CfDigestReq requested)]).

Definition receive_digest_req (cp : ControlPlane) (incoming : LinkId) (origins : list NodeId) :
  list ControlAction :=
  if bool_decide (local_adjacencies cp !! incoming = None)
     || (MAX_DIGEST_REQ_ORIGINS <? zlen origins) then []
  else omap (λ o, (λ a, send_lsa incoming (message a)) <$> get_active cp o)
         (bset_iter (list_to_set origins)).

(** ** Routes and discovered topics *)

(** [iter().any(|reverse| reverse.peer == *origin)] on the peer's active LSA. *)
Definition lists_back (cp : ControlPlane) (o peer : NodeId) : bool :=
  match get_active cp peer with
  | Some a => existsb (λ r, bool_decide (adj_peer r = o)) (adjacencies (lsa (message a)))
  | None => false
  end.
Definition accepted_edges (cp : ControlPlane) (o : NodeId) (a : ActiveLsa) : list Adjacency :=
  filter (λ e, lists_back cp o (adj_peer e)) (adjacencies (lsa (message a))).
Definition bidirectional_graph (cp : ControlPlane) : Graph :=
  list_to_map (omap (λ '(o, entry), (λ a, (o, accepted_edges cp o a)) <$> active entry)
                 (btree_iter (lsdb cp))).

Definition best_link_to (cp : ControlPlane) (peer : NodeId) : option LinkId :=
  fst <$> min_by_key (λ p : LinkId * LocalAdjacency, (la_cost p.2, p.1))
            (filter (λ p, la_peer p.2 = peer) (btree_iter (local_adjacencies cp))).

(** The closure of the final [filter_map]; [None] is a panicking index, and
    the inner [None] drops the destination. *)
Definition route_to (cp : ControlPlane) (st : SpfState) (p : NodeId * Z) :
  option (option (NodeId * Route)) :=
  let '(destination, cost) := p in
  if decide (destination = me cp) then Some None
  else
    peer ← first_peer st !! destination;
    match best_link_to cp peer with
    | None => Some None
    | Some link =>
        h ← path_hops st !! destination;
        Some (Some (destination, {| next_hop := link; route_cost := cost; hops := h |}))
    end.
Definition shortest_paths (cp : ControlPlane) : option (gmap NodeId Route) :=
  st ← spf_run (bidirectional_graph cp) (me cp);
  l ← mapM (route_to cp st) (btree_iter (distance st));
  Some (list_to_map (omap id l)).

(** [self.routes.version + 1] panics on overflow. *)
Definition recompute_routes (cp : ControlPlane) : option (ControlPlane * option ControlAction) :=
  routes ← shortest_paths cp;
  if decide (routes = table_routes (cp_routes cp)) then Some (cp, None)
  else
    v ← checked_add 64 (table_version (cp_routes cp)) 1;
    let table := {| table_version := v; table_routes := routes |} in
    Some (set_routes cp table, Some (CaPublishRoutes table)).

Definition discovered_topics (cp : ControlPlane) : list DiscoveredTopicAd :=
  osort (mjoin (omap (λ '(node, entry),
    (λ a, (λ ad, {| disc_node := node; disc_ad := ad |}) <$> topics (lsa (message a)))
      <$> active entry) (btree_iter (lsdb cp)))).
Definition recompute_topic_ads (cp : ControlPlane) : ControlPlane * option ControlAction :=
  let discovered := discovered_topics cp in
  if decide (discovered = published_topic_ads cp) then (cp, None)
  else (set_published_topic_ads cp discovered, Some (CaPublishTopicAds discovered)).

(** ** Timers *)

Definition handle_digest_timer (cp : ControlPlane) (now : MonoTime) (link : LinkId) :
  list ControlAction :=
  if bool_decide (local_adjacencies cp !! link = None) then []
  else [send_digest cp link; next_digest_timer now link].

Definition handle_spf_timer (cp : ControlPlane) (now : MonoTime) (generation : Z) :
  option (ControlPlane * list ControlAction) :=
  match pending_spf cp with
  | None => Some (cp, [])
  | Some pending =>
      if negb (ps_generation pending =? generation) then Some (cp, [])
      else if now <? ps_at pending then
        Some (cp, [CaSetTimer (CtSpfHold generation) (ps_at pending)])
      else
        let cp := set_spf cp None (spf_generation cp)
                    (Z.min (sat_mul 64 (spf_hold_ms cp) 2) SPF_MAX_HOLD_MS)
                    (last_lsdb_change_at cp) in
        '(cp, routes) ← recompute_routes cp;
        let '(cp, ads) := recompute_topic_ads cp in
        Some (cp, push_opt (push_opt [] routes) ads)
  end.

Definition handle_expire_timer (cp : ControlPlane) (now : MonoTime) (o : NodeId)
    (epoch seq : Z) : option (ControlPlane * list ControlAction) :=
  match lsdb cp !! o with
  | None => Some (cp, [])
  | Some entry =>
      if decide (entry_version entry = (epoch, seq)) then
        match active entry with
        | None => Some (cp, [])
        | Some a =>
            if now <? expires_at a then
              Some (cp, [CaSetTimer (CtLsaExpire o epoch seq) (expires_at a)])
            else
              let cp := set_lsdb cp (<[o := {| entry_version := entry_version entry;
                                              entry_state := Tombstone |}]> (lsdb cp)) in
              '(cp, action) ← mark_spf_dirty cp now;
              Some (cp, push_opt [] action)
        end
      else Some (cp, [])
  end.

(** ** [impl Component for ControlPlane] *)

Definition is_current (cp : ControlPlane) (epoch seq : Z) : bool :=
  match lsdb cp !! me cp with
  | Some entry => bool_decide (entry_version entry = (epoch, seq)) &&
                  match active entry with Some _ => true | None => false end
  | None => false
  end.
Definition handle_refresh_timer `{LsaAuth} (cp : ControlPlane) (now : MonoTime) (epoch seq : Z) :
  option (ControlPlane * list ControlAction) :=
  if is_current cp epoch seq then originate_lsa cp now else Some (cp, []).

Definition cp_handle `{LsaAuth} (cp : ControlPlane) (now : MonoTime) (event : ControlEvent) :
  option (ControlPlane * list ControlAction) :=
  match event with
  | CeLinkUp link peer cost =>
      let cp := set_adjacencies cp
                  (<[link := {| la_peer := peer; la_cost := cost |}]> (local_adjacencies cp)) in
      '(cp, actions) ← originate_lsa cp now;
      Some (cp, actions ++ [send_digest cp link; next_digest_timer now link])
  | CeLinkDown link =>
      match local_adjacencies cp !! link with
      | None => Some (cp, [])
      | Some _ => originate_lsa (set_adjacencies cp (delete link (local_adjacencies cp))) now
      end
  | CeLocalTopicAdsChanged ads =>
      let ads := osort ads in
      if negb (valid_topic_ads ads) || bool_decide (ads = local_topic_ads cp) then Some (cp, [])
      else originate_lsa (set_local_topic_ads cp ads) now
  | CeFrame link (CfLsa m) => receive_lsa cp now link m
  | CeFrame link (CfDigest entries) =>
      actions ← receive_digest cp link entries; Some (cp, actions)
  | CeFrame link (CfDigestReq origins) => Some (cp, receive_digest_req cp link origins)
  | CeTimer (CtDigest link) => Some (cp, handle_digest_timer cp now link)
  | CeTimer (CtSpfHold generation) => handle_spf_timer cp now generation
  | CeTimer (CtLsaRefresh epoch seq) => handle_refresh_timer cp now epoch seq
  | CeTimer (CtLsaExpire o epoch seq) => handle_expire_timer cp now o epoch seq
  end.

#[global] Instance ControlPlane_component `{LsaAuth} :
  Component ControlPlane ControlEvent ControlAction := {| handle := cp_handle |}.
