(* ===== verification/ControlRoutes.v ===== *)
(** * From labels to route tables

    What [bidirectional_graph], [best_link_to] and [shortest_paths] compute,
    in terms of the database and of the search. *)

From S2P Require Export Prelude Ord Bytes Types ControlTypes Spf Control.

(** ** Maps collected from lists *)

Lemma lookup_list_to_map_fun `{Countable K} {V} (l : list (K * V)) k v :
  (∀ k v v', (k, v) ∈ l → (k, v') ∈ l → v = v') →
  (list_to_map l : gmap K V) !! k = Some v ↔ (k, v) ∈ l.
Proof.
  intros Hfun. split; [apply elem_of_list_to_map_2|].
  intros Hin. apply elem_of_list_to_map_1'; [|done]. intros v' Hin'. by eapply Hfun.
Qed.

Lemma elem_of_mapM_omap {A B} (f : A → option (option B)) (l : list A) (k : list (option B)) y :
  mapM f l = Some k → y ∈ omap id k ↔ ∃ x, x ∈ l ∧ f x = Some (Some y).
Proof.
  intros HF%mapM_Some. rewrite list_elem_of_omap. split.
  - intros (oy & Hin & Hid). cbn in Hid. subst oy.
    apply list_elem_of_lookup in Hin as [i Hi].
    destruct (Forall2_lookup_r _ _ _ _ _ HF Hi) as (x & Hx & Hf).
    exists x. split; [by eapply list_elem_of_lookup_2|done].
  - intros (x & Hin & Hf). apply list_elem_of_lookup in Hin as [i Hi].
    destruct (Forall2_lookup_l _ _ _ _ _ HF Hi) as (oy & Hy & Hf').
    exists (Some y). split; [|done]. eapply list_elem_of_lookup_2. rewrite Hf in Hf'. by simplify_eq.
Qed.

(** ** The graph *)

Lemma lookup_bidirectional_graph cp o es :
  bidirectional_graph cp !! o = Some es ↔
  ∃ a, get_active cp o = Some a ∧ es = accepted_edges cp o a.
Proof.
  unfold bidirectional_graph. rewrite lookup_list_to_map_fun.
  - rewrite list_elem_of_omap. unfold get_active. split.
    + intros ([o' e] & Hin & Hf). apply elem_of_btree_iter in Hin.
      destruct (active e) as [a|] eqn:Ea; simplify_eq/=. exists a. by rewrite Hin.
    + intros (a & Ha & ->). destruct (lsdb cp !! o) as [e|] eqn:Ee; simplify_eq/=.
      exists (o, e). rewrite elem_of_btree_iter. by rewrite Ha.
  - intros o1 v v' (p & Hp & Hv)%list_elem_of_omap (q & Hq & Hv')%list_elem_of_omap.
    destruct p as [k e], q as [k' e'].
    destruct (active e) as [a|] eqn:Ea, (active e') as [a'|] eqn:Ea'; simplify_eq/=.
    apply elem_of_btree_iter in Hp. apply elem_of_btree_iter in Hq. congruence.
Qed.

(** [o] has an edge to [p]: both LSAs are active and list each other. *)
Lemma elem_of_graph_edges cp o e :
  e ∈ edges (bidirectional_graph cp) o ↔
  ∃ a b r, get_active cp o = Some a ∧ e ∈ adjacencies (lsa (message a)) ∧
    get_active cp (adj_peer e) = Some b ∧ r ∈ adjacencies (lsa (message b)) ∧ adj_peer r = o.
Proof.
  unfold edges. destruct (bidirectional_graph cp !! o) as [es|] eqn:Eg; cbn.
  - apply lookup_bidirectional_graph in Eg as (a & Ha & ->).
    unfold accepted_edges. rewrite list_elem_of_filter. unfold lists_back. split.
    + intros [Hb He]. destruct (get_active cp (adj_peer e)) as [b|] eqn:Eb; [|done].
      apply Is_true_true, existsb_exists in Hb as (r & Hr & Hd%bool_decide_eq_true).
      exists a, b, r. by rewrite <-list_elem_of_In in Hr.
    + intros (a' & b & r & Ha' & He & Hb & Hr & Hp). simplify_eq. split; [|done].
      rewrite Hb. apply Is_true_true, existsb_exists. exists r.
      rewrite <-list_elem_of_In. split; [done|]. by apply bool_decide_eq_true.
  - split; [by intros ?%not_elem_of_nil|].
    intros (a & b & r & Ha & _). exfalso.
    assert (∃ es, bidirectional_graph cp !! o = Some es) as [es Hes].
    { eexists. apply lookup_bidirectional_graph. eauto. }
    congruence.
Qed.

(** ** The best link to a peer *)

Lemma best_link_to_Some cp p l :
  best_link_to cp p = Some l →
  ∃ a, local_adjacencies cp !! l = Some a ∧ la_peer a = p ∧
    ∀ l' a', local_adjacencies cp !! l' = Some a' → la_peer a' = p →
      ole (la_cost a, l) (la_cost a', l').
Proof.
  unfold best_link_to. intros ([l0 a] & Hmin & ->)%fmap_Some.
  apply min_by_key_Some in Hmin as [Hin Hmin].
  apply list_elem_of_filter in Hin as [Hp Hin]. apply elem_of_btree_iter in Hin.
  exists a. split; [done|]. split; [done|]. intros l' a' Hl' Hp'.
  apply (Hmin (l', a')). apply list_elem_of_filter. by rewrite elem_of_btree_iter.
Qed.
Lemma best_link_to_is_Some cp p l a :
  local_adjacencies cp !! l = Some a → la_peer a = p → is_Some (best_link_to cp p).
Proof.
  intros Hl Hp. unfold best_link_to. apply fmap_is_Some, not_eq_None_Some.
  rewrite min_by_key_None. intros Hnil.
  assert ((l, a) ∈ filter (λ q : Z * LocalAdjacency, la_peer q.2 = p)
                     (btree_iter (local_adjacencies cp))) as Hin.
  { apply list_elem_of_filter. by rewrite elem_of_btree_iter. }
  rewrite Hnil in Hin. by apply not_elem_of_nil in Hin.
Qed.

(** ** The LSA a node advertises: one adjacency per peer, at the least cost *)

Lemma lookup_best_by_peer adjs p c :
  best_by_peer adjs !! p = Some c ↔
  (∃ a, a ∈ adjs ∧ la_peer a = p ∧ la_cost a = c) ∧
  ∀ a, a ∈ adjs → la_peer a = p → ole c (la_cost a).
Proof. apply (lookup_group_best la_peer la_cost omin); auto using omin_sel, omin_l, omin_r with typeclass_instances. Qed.

Lemma elem_of_local_lsa cp e :
  e ∈ adjacencies (local_lsa cp) ↔
  (∃ l a, local_adjacencies cp !! l = Some a ∧ la_peer a = adj_peer e ∧
          la_cost a = adj_cost e) ∧
  ∀ l a, local_adjacencies cp !! l = Some a → la_peer a = adj_peer e →
    ole (adj_cost e) (la_cost a).
Proof.
  cbn. rewrite list_elem_of_fmap. split.
  - intros ([p c] & -> & Hin). apply elem_of_btree_iter, lookup_best_by_peer in Hin
      as [(a & Ha & Hp & Hc) Hmin]. cbn. split.
    + apply elem_of_btree_values in Ha as [l Hl]. eauto.
    + intros l b Hl. apply Hmin. apply elem_of_btree_values. eauto.
  - intros [(l & a & Hl & Hp & Hc) Hmin]. exists (adj_peer e, adj_cost e).
    split; [by destruct e|]. apply elem_of_btree_iter, lookup_best_by_peer. split.
    + exists a. split; [|done]. apply elem_of_btree_values. eauto.
    + intros b [l' Hl']%elem_of_btree_values. eauto.
Qed.

(** ** The route table of a finished search *)

Lemma route_to_total g cp st d c :
  spf_inv g (me cp) st → distance st !! d = Some c → is_Some (route_to cp st (d, c)).
Proof.
  intros Hinv Hd. unfold route_to. case_decide as Hme; [by eexists|].
  destruct (inv_walk _ _ _ Hinv d c Hme Hd) as (p & C & N & -> & _ & _ & ->). cbn.
  destruct (best_link_to cp p); by eexists.
Qed.

Lemma shortest_paths_spec cp :
  ∃ st routes,
    spf_done (bidirectional_graph cp) (me cp) st ∧ shortest_paths cp = Some routes ∧
    ∀ d r, routes !! d = Some r ↔
      d ≠ me cp ∧ ∃ p, distance st !! d = Some (route_cost r) ∧ first_peer st !! d = Some p ∧
        best_link_to cp p = Some (next_hop r) ∧ path_hops st !! d = Some (hops r).
Proof.
  destruct (spf_total (bidirectional_graph cp) (me cp)) as (st & Hrun & Hdone).
  pose proof Hdone as [Hinv _]. unfold shortest_paths. rewrite Hrun. cbn.
  destruct (mapM_is_Some_2 (route_to cp st) (btree_iter (distance st))) as [l Hl].
  { apply Forall_forall. intros [d c] Hin. apply elem_of_btree_iter in Hin.
    by eapply route_to_total. }
  rewrite Hl. cbn. do 2 eexists. split; [done|]. split; [done|].
  assert (Hin : ∀ d r, (d, r) ∈ omap id l ↔
    d ≠ me cp ∧ ∃ p, distance st !! d = Some (route_cost r) ∧ first_peer st !! d = Some p ∧
      best_link_to cp p = Some (next_hop r) ∧ path_hops st !! d = Some (hops r)).
  { intros d r. rewrite (elem_of_mapM_omap _ _ _ _ Hl). split.
    - intros ([d' c] & Hin & Hr). apply elem_of_btree_iter in Hin. unfold route_to in Hr.
      case_decide; [done|].
      destruct (first_peer st !! d') as [p|] eqn:Ep; cbn in Hr; [|done].
      destruct (best_link_to cp p) as [k|] eqn:Ek; [|done].
      destruct (path_hops st !! d') as [h|] eqn:Eh; simplify_eq/=. eauto 10.
    - intros (Hne & p & Hd & Hp & Hb & Hh). exists (d, route_cost r).
      rewrite elem_of_btree_iter. split; [done|]. unfold route_to.
      rewrite decide_False by done. rewrite Hp. cbn. rewrite Hb, Hh. cbn. by destruct r. }
  intros d r. rewrite lookup_list_to_map_fun; [apply Hin|].
  intros k v v' (_ & p & Hd & Hp & Hb & Hh)%Hin (_ & p' & Hd' & Hp' & Hb' & Hh')%Hin.
  destruct v, v'; simplify_eq/=. congruence.
Qed.

(** ** Walks out of [me] start on a local adjacency *)

Lemma graph_walk_first g me v p c n :
  walk g me v p c n → ∃ e, e ∈ edges g me ∧ adj_peer e = p.
Proof. induction 1; eauto. Qed.
