(* ===== verification/ControlInv.v ===== *)
(** * Invariants of the control plane

    The invariant every event preserves, the absence of panics and the
    monotonicity of the link-state database. *)

From S2P Require Export Prelude Ord Bytes Types ControlTypes Spf Control ControlRoutes.

(** ** The invariant *)

(** The SPF schedule: the hold time stays between its bounds, a pending run
    carries the current generation, and each published table has used up a
    generation. *)
Record spf_ok (cp : ControlPlane) : Prop := {
  spf_hold_bounds : SPF_INITIAL_HOLD_MS ≤ spf_hold_ms cp ≤ SPF_MAX_HOLD_MS;
  spf_pending_gen p : pending_spf cp = Some p → ps_generation p = spf_generation cp;
  spf_table_version : 0 ≤ table_version (cp_routes cp);
  spf_version_gen :
    table_version (cp_routes cp) + match pending_spf cp with Some _ => 1 | None => 0 end ≤ spf_generation cp;
  spf_gen_width : spf_generation cp ≤ u_max 64;
}.

(** What the database stores under [o]. *)
Definition entry_ok (cp : ControlPlane) (o : NodeId) (e : LsdbEntry) : Prop :=
  match active e with
  | Some a =>
      origin (lsa (message a)) = o ∧ entry_version e = lsa_version (lsa (message a)) ∧
      expires_at a = expiry_of (message a) (received_at a) ∧
      (o ≠ me cp → valid_lsa (lsa (message a)) = true)
  | None => True
  end.

(** The part that still holds between a change of the local adjacencies or
    advertisements and the origination it triggers. *)
Record db_ok (cp : ControlPlane) : Prop := {
  db_reserved : lsdb cp ≠ ∅ → is_Some (lsdb cp !! me cp);
  db_size : lsdb_len cp ≤ MAX_LSDB_ENTRIES;
  db_entries : map_Forall (entry_ok cp) (lsdb cp);
  db_own_version e : lsdb cp !! me cp = Some e → entry_version e = (my_epoch cp, my_seq cp);
  db_topics : valid_topic_ads (local_topic_ads cp) = true ∧
              StronglySorted ole (local_topic_ads cp);
  db_spf : spf_ok cp;
}.

Record cp_ok (cp : ControlPlane) : Prop := {
  cp_db : db_ok cp;
  cp_linked : local_adjacencies cp ≠ ∅ → is_Some (lsdb cp !! me cp);
  cp_own a : get_active cp (me cp) = Some a → lsa (message a) = local_lsa cp;
}.

(** ** The database only grows *)

(** A version is replaced by a newer one or by its own tombstone. *)
Definition entry_le (e e' : LsdbEntry) : Prop :=
  olt (entry_version e) (entry_version e') ∨
  entry_version e = entry_version e' ∧ (e' = e ∨ active e' = None).
Definition lsdb_le (cp cp' : ControlPlane) : Prop :=
  me cp' = me cp ∧
  ∀ o e, lsdb cp !! o = Some e → ∃ e', lsdb cp' !! o = Some e' ∧ entry_le e e'.

#[global] Instance entry_le_refl : Reflexive entry_le.
Proof. intros e. right. auto. Qed.
#[global] Instance entry_le_trans : Transitive entry_le.
Proof.
  intros e1 e2 e3 [H12|[H12 D12]] [H23|[H23 D23]].
  - left. by etrans.
  - left. by rewrite <-H23.
  - left. by rewrite H12.
  - right. split; [congruence|].
    destruct D12 as [->|?], D23 as [->|?]; auto.
Qed.
#[global] Instance lsdb_le_refl : Reflexive lsdb_le.
Proof. intros cp. split; [done|]. intros o e He. exists e. by split. Qed.
#[global] Instance lsdb_le_trans : Transitive lsdb_le.
Proof.
  intros c1 c2 c3 [M12 H12] [M23 H23]. split; [congruence|]. intros o e He.
  destruct (H12 o e He) as (e2 & He2 & L12). destruct (H23 o e2 He2) as (e3 & He3 & L23).
  exists e3. split; [done|by etrans].
Qed.

(** A change that keeps the identity and the database. *)
Lemma lsdb_le_same cp cp' : me cp' = me cp → lsdb cp' = lsdb cp → lsdb_le cp cp'.
Proof. intros Hm Hl. split; [done|]. intros o e He. exists e. by rewrite Hl. Qed.
Lemma lsdb_le_insert cp o e' :
  (∀ e, lsdb cp !! o = Some e → entry_le e e') →
  lsdb_le cp (set_lsdb cp (<[o := e']> (lsdb cp))).
Proof.
  intros Hle. split; [done|]. intros o' e He. cbn.
  destruct (decide (o = o')) as [<-|Hne].
  - exists e'. rewrite lookup_insert_eq. auto.
  - exists e. by rewrite lookup_insert_ne.
Qed.

(** ** Scheduling a run *)

Lemma mark_spf_dirty_frame cp now cp' a :
  mark_spf_dirty cp now = Some (cp', a) →
  ∃ p gen hold, cp' = set_spf cp p gen hold (Some now).
Proof.
  unfold mark_spf_dirty. intros H. split_match_in H; eauto;
  match type of H with
  | (checked_add _ _ _ ≫= _) = _ => destruct (checked_add _ _ _); simplify_eq/=; eauto
  end.
Qed.

Lemma mark_spf_dirty_spec cp now :
  spf_ok cp → spf_generation cp < u_max 64 →
  ∃ p gen hold a,
    mark_spf_dirty cp now = Some (set_spf cp (Some p) gen hold (Some now), a) ∧
    spf_ok (set_spf cp (Some p) gen hold (Some now)) ∧
    (pending_spf cp = Some p ∧ a = None ∨
     a = Some (CaSetTimer (CtSpfHold (ps_generation p)) (ps_at p)) ∧
     ps_at p = sat_add 64 now hold).
Proof.
  intros [Hhold Hgen Hv Hvg Hw] Hlt. unfold mark_spf_dirty, checked_add.
  set (quiet := match last_lsdb_change_at cp with Some _ => _ | None => _ end).
  assert (SPF_INITIAL_HOLD_MS ≤ (if quiet then SPF_INITIAL_HOLD_MS else spf_hold_ms cp)
          ≤ SPF_MAX_HOLD_MS) by (destruct quiet; [done|lia]).
  rewrite (proj2 (Z.leb_le _ _)) by lia.
  destruct (pending_spf cp) as [p|] eqn:Ep; destruct quiet; cbn.
  all: do 4 eexists; split; [reflexivity|].
  all: split; [constructor; cbn; try done; try lia; intros ? [= <-]; auto|].
  all: cbn; naive_solver.
Qed.

Lemma mark_spf_dirty_ok cp now cp' a :
  spf_ok cp → mark_spf_dirty cp now = Some (cp', a) →
  ∃ p gen hold, cp' = set_spf cp (Some p) gen hold (Some now) ∧ spf_ok cp' ∧
    (pending_spf cp = Some p ∧ a = None ∨
     a = Some (CaSetTimer (CtSpfHold (ps_generation p)) (ps_at p)) ∧
     ps_at p = sat_add 64 now hold).
Proof.
  intros Hok Hm. destruct (decide (spf_generation cp < u_max 64)) as [Hlt|Hge].
  - destruct (mark_spf_dirty_spec cp now Hok Hlt) as (p & gen & hold & a' & E & Hok' & Ha).
    rewrite E in Hm. simplify_eq. eauto 10.
  - destruct Hok as [Hhold Hgen Hv Hvg Hw].
    unfold mark_spf_dirty, checked_add in Hm. rewrite (proj2 (Z.leb_gt _ _)) in Hm by lia.
    destruct (pending_spf cp) as [p|] eqn:Ep; [|done].
    set (quiet := match last_lsdb_change_at cp with Some _ => _ | None => _ end) in *.
    destruct quiet; simplify_eq/=. eexists p, _, _. split; [done|].
    split; [|by left]. constructor; cbn; try done; lia.
Qed.

(** ** Installing an LSA *)

Lemma install_Some cp m now r :
  install cp m now = Some r ↔
  (is_Some (lsdb cp !! origin (lsa m)) ∨ lsdb_len cp < MAX_LSDB_ENTRIES) ∧
  r = (set_lsdb cp (<[origin (lsa m) := active_entry m now]> (lsdb cp)),
       CaSetTimer (CtLsaExpire (origin (lsa m)) (epoch (lsa m)) (seq_no (lsa m)))
         (expiry_of m now)).
Proof.
  unfold install. case_bool_decide as E; cbn.
  - destruct (Z.leb_spec MAX_LSDB_ENTRIES (lsdb_len cp)).
    + split; [done|]. intros [[[? ?]|?] _]; [congruence|lia].
    + naive_solver.
  - split; [|by intros [_ ->]]. intros [= <-]. split; [|done]. left. by apply not_eq_None_Some.
Qed.
Lemma install_None cp m now :
  install cp m now = None ↔
  lsdb cp !! origin (lsa m) = None ∧ MAX_LSDB_ENTRIES ≤ lsdb_len cp.
Proof.
  unfold install. case_bool_decide as E; cbn; [|naive_solver].
  destruct (Z.leb_spec MAX_LSDB_ENTRIES (lsdb_len cp)); naive_solver lia.
Qed.

Lemma lsdb_len_insert cp o e :
  (is_Some (lsdb cp !! o) ∨ lsdb_len cp < MAX_LSDB_ENTRIES) → lsdb_len cp ≤ MAX_LSDB_ENTRIES →
  Z.of_nat (size (<[o := e]> (lsdb cp))) ≤ MAX_LSDB_ENTRIES.
Proof.
  unfold lsdb_len. intros Hor Hle. destruct (lsdb cp !! o) eqn:E.
  - rewrite map_size_insert_Some; [lia|eauto].
  - rewrite map_size_insert_None by done. destruct Hor as [[]|]; [done|lia].
Qed.

Lemma db_insert_entries cp o e :
  db_ok cp → entry_ok cp o e →
  map_Forall (entry_ok cp) (<[o := e]> (lsdb cp)).
Proof. intros Hdb He. apply map_Forall_insert_2; [done|apply db_entries, Hdb]. Qed.

Lemma insert_reserved cp o e :
  db_ok cp → (o = me cp ∨ is_Some (lsdb cp !! me cp)) →
  is_Some (<[o := e]> (lsdb cp) !! me cp).
Proof.
  intros Hdb Ho. destruct (decide (o = me cp)) as [->|Hne].
  - rewrite lookup_insert_eq. eauto.
  - rewrite lookup_insert_ne by done. naive_solver.
Qed.

(** The first origination goes into an empty database, later ones replace the
    entry that is already there: the reserved slot is never taken. *)
Lemma reserved_slot cp :
  db_ok cp → is_Some (lsdb cp !! me cp) ∨ lsdb_len cp < MAX_LSDB_ENTRIES.
Proof.
  intros Hdb. destruct (decide (lsdb cp = ∅)) as [E|E].
  - right. unfold lsdb_len. rewrite E, map_size_empty. done.
  - left. by apply (db_reserved _ Hdb).
Qed.

(** Only the SPF fields change. *)
Lemma db_ok_set_spf cp p gen hold last :
  db_ok cp → spf_ok (set_spf cp p gen hold last) → db_ok (set_spf cp p gen hold last).
Proof. intros [] ?. by constructor. Qed.

Lemma version_bump (e s : Z) : olt (e, s) (e, s + 1).
Proof.
  unfold olt. cbn. rewrite Z.compare_refl. cbn. apply Z.compare_lt_iff. lia.
Qed.

(** ** Origination *)

Section Originate.
Context `{LsaAuthLaws}.

Definition bumped (cp : ControlPlane) : ControlPlane := set_my_seq cp (my_seq cp + 1).
Definition own_message (cp : ControlPlane) : LsaMessage := sign (local_lsa (bumped cp)).
(** The state [originate_lsa] leaves before the run is scheduled. *)
Definition originated (cp : ControlPlane) (now : MonoTime) : ControlPlane :=
  set_lsdb (bumped cp) (<[me cp := active_entry (own_message cp) now]> (lsdb cp)).

Lemma install_own cp now :
  db_ok cp →
  install (bumped cp) (own_message cp) now =
  Some (originated cp now,
        CaSetTimer (CtLsaExpire (me cp) (my_epoch cp) (my_seq cp + 1))
          (expiry_of (own_message cp) now)).
Proof.
  intros Hdb. apply install_Some. unfold own_message. rewrite !sign_lsa. cbn.
  split; [|done]. exact (reserved_slot cp Hdb).
Qed.

Lemma originated_ok cp now : db_ok cp → cp_ok (originated cp now) ∧ lsdb_le cp (originated cp now).
Proof.
  intros Hdb. pose proof Hdb as [Hres Hsz Hent Hown Htop [Hh Hg Ht Hvg Hw]].
  assert (Hentry : entry_ok cp (me cp) (active_entry (own_message cp) now)).
  { unfold entry_ok, own_message. cbn. rewrite sign_lsa. done. }
  split; [constructor|].
  - constructor; cbn; [..|done|by constructor].
    + intros _. by rewrite lookup_insert_eq.
    + apply (lsdb_len_insert cp); [by apply reserved_slot|done].
    + exact (db_insert_entries cp _ _ Hdb Hentry).
    + intros e. rewrite lookup_insert_eq. intros [= <-]. unfold own_message. cbn.
      by rewrite sign_lsa.
  - intros _. cbn. by rewrite lookup_insert_eq.
  - intros a. unfold get_active. cbn. rewrite lookup_insert_eq. cbn. intros [= <-].
    exact (sign_lsa (local_lsa (bumped cp))).
  - apply (lsdb_le_insert cp (me cp)). intros e He. left. rewrite (Hown e He).
    unfold own_message. cbn. rewrite sign_lsa. cbn. apply version_bump.
Qed.

(** The state and the actions of an origination. *)
Lemma originate_spec cp now cp' acts :
  db_ok cp → originate_lsa cp now = Some (cp', acts) →
  ∃ p gen hold a,
    cp' = set_spf (originated cp now) (Some p) gen hold (Some now) ∧ spf_ok cp' ∧
    (pending_spf cp = Some p ∧ a = None ∨
     a = Some (CaSetTimer (CtSpfHold (ps_generation p)) (ps_at p)) ∧
     ps_at p = sat_add 64 now hold) ∧
    my_seq cp < u_max 64 ∧
    acts = push_opt
      (CaPersistSeq (my_seq cp + 1) ::
       flood cp (own_message cp) None ++
       [CaSetTimer (CtLsaExpire (me cp) (my_epoch cp) (my_seq cp + 1))
          (expiry_of (own_message cp) now);
        next_refresh_timer now (local_lsa (bumped cp))]) a.
Proof.
  intros Hdb. unfold originate_lsa.
  destruct (checked_add 64 (my_seq cp) 1) as [s|] eqn:Es; cbn; [|done].
  apply checked_add_Some in Es as [-> Hlt].
  change (set_my_seq cp (my_seq cp + 1)) with (bumped cp).
  change (sign (local_lsa (bumped cp))) with (own_message cp).
  rewrite (install_own cp now Hdb). cbn.
  destruct (mark_spf_dirty (originated cp now) now) as [[c a]|] eqn:Em; cbn; [|done].
  intros [= <- <-].
  destruct (originated_ok cp now Hdb) as [[Hdb' _ _] _].
  destruct (mark_spf_dirty_ok _ _ _ _ (db_spf _ Hdb') Em) as (p & gen & hold & -> & Hok & Ha).
  exists p, gen, hold, a. split; [done|]. split; [done|]. split; [done|]. split; [lia|].
  f_equal. f_equal. unfold flood. cbn. unfold own_message at 3. by rewrite sign_lsa.
Qed.

Lemma originate_ok cp now cp' acts :
  db_ok cp → originate_lsa cp now = Some (cp', acts) →
  cp_ok cp' ∧ lsdb_le cp cp'.
Proof.
  intros Hdb Ho. destruct (originate_spec _ _ _ _ Hdb Ho) as (p & gen & hold & a & -> & Hok & _).
  destruct (originated_ok cp now Hdb) as [[Hdb' Hl Ho'] Hle]. split; [|done].
  constructor; [by apply db_ok_set_spf|done..].
Qed.

Lemma originate_total cp now :
  db_ok cp → my_seq cp < u_max 64 → spf_generation cp < u_max 64 →
  is_Some (originate_lsa cp now).
Proof.
  intros Hdb Hs Hg. unfold originate_lsa.
  rewrite (proj2 (checked_add_Some 64 (my_seq cp) 1 _)) by (split; [reflexivity|lia]). cbn.
  change (set_my_seq cp (my_seq cp + 1)) with (bumped cp).
  change (sign (local_lsa (bumped cp))) with (own_message cp).
  rewrite (install_own cp now Hdb). cbn.
  destruct (originated_ok cp now Hdb) as [[Hdb' _ _] _].
  destruct (mark_spf_dirty_spec (originated cp now) now (db_spf _ Hdb') Hg)
    as (p & gen & hold & a & -> & _). by eexists.
Qed.
End Originate.

(** ** Received LSAs *)

(** The guards of [receive_lsa] that let an LSA into the database. *)
Definition admits `{LsaAuth} (cp : ControlPlane) (incoming : LinkId) (m : LsaMessage) : Prop :=
  is_Some (local_adjacencies cp !! incoming) ∧ valid_lsa (lsa m) = true ∧ verify m = true ∧
  origin (lsa m) ≠ me cp ∧ is_newer cp (lsa m) = true ∧
  (is_Some (lsdb cp !! origin (lsa m)) ∨ lsdb_len cp < MAX_LSDB_ENTRIES).

Section Handlers.
Context `{LsaAuthLaws}.

(** The database after an accepted LSA. *)
Definition received (cp : ControlPlane) (m : LsaMessage) (now : MonoTime) : ControlPlane :=
  set_lsdb cp (<[origin (lsa m) := active_entry m now]> (lsdb cp)).

Lemma receive_lsa_reject cp now incoming m :
  ¬ admits cp incoming m →
  ∃ acts, receive_lsa cp now incoming m = Some (cp, acts) ∧
    (acts = [] ∨
     ∃ e a, lsdb cp !! origin (lsa m) = Some e ∧
       olt (lsa_version (lsa m)) (entry_version e) ∧ active e = Some a ∧
       acts = [send_lsa incoming (message a)]).
Proof.
  intros Hna. unfold receive_lsa.
  destruct (_ || negb (verify m)) eqn:Eg; [by eauto|].
  apply orb_false_iff in Eg as [[Eg1 Eg2]%orb_false_iff Eg3].
  apply bool_decide_eq_false, not_eq_None_Some in Eg1.
  apply negb_false_iff in Eg2. apply negb_false_iff in Eg3.
  assert (Hback : ∀ acts, acts = send_back cp incoming (origin (lsa m)) (lsa m) →
    acts = [] ∨ ∃ e a, lsdb cp !! origin (lsa m) = Some e ∧
      olt (lsa_version (lsa m)) (entry_version e) ∧ active e = Some a ∧
      acts = [send_lsa incoming (message a)]).
  { intros acts ->. unfold send_back. destruct (lsdb cp !! _) as [e|]; [|by auto].
    destruct (oltb _ _) eqn:Eo; [|by auto]. apply oltb_lt in Eo.
    destruct (active e) as [a|] eqn:Ea; [|by auto]. right. by exists e, a. }
  case_decide as Ho; [rewrite <-Ho; eauto|].
  destruct (is_newer cp (lsa m)) eqn:En; cbn; [|by eauto].
  destruct (install cp m now) as [r|] eqn:Ei; [|by eauto].
  apply install_Some in Ei as [Hroom _]. by destruct Hna.
Qed.

Lemma receive_lsa_accept cp now incoming m :
  admits cp incoming m →
  receive_lsa cp now incoming m =
  ('(cp', action) ← mark_spf_dirty (received cp m now) now;
   Some (cp', push_opt
     (flood cp m (Some incoming) ++
      [CaSetTimer (CtLsaExpire (origin (lsa m)) (epoch (lsa m)) (seq_no (lsa m)))
         (expiry_of m now)]) action)).
Proof.
  intros (Ha & Hv & Hs & Ho & Hn & Hroom). unfold receive_lsa.
  rewrite (bool_decide_eq_false_2 _), Hv, Hs by by apply not_eq_None_Some. cbn.
  rewrite decide_False, Hn by done. cbn.
  by rewrite (proj2 (install_Some cp m now _) (conj Hroom eq_refl)).
Qed.

Lemma is_newer_le cp m now e :
  is_newer cp (lsa m) = true → lsdb cp !! origin (lsa m) = Some e →
  entry_le e (active_entry m now).
Proof. unfold is_newer. intros Hn He. rewrite He in Hn. apply oltb_lt in Hn. by left. Qed.

Lemma received_ok cp incoming m now :
  cp_ok cp → admits cp incoming m →
  cp_ok (received cp m now) ∧ lsdb_le cp (received cp m now).
Proof.
  intros [Hdb Hl Hown] ((b & Hb) & Hv & Hs & Ho & Hn & Hroom).
  pose proof Hdb as [Hres Hsz Hent Hv' Htop [Hh Hg Ht Hvg Hw]].
  assert (Hme : is_Some (lsdb cp !! me cp)).
  { apply Hl. intros E. by rewrite E, lookup_empty in Hb. }
  split; [constructor|].
  - constructor; cbn; [..|done|by constructor].
    + intros _. by rewrite lookup_insert_ne.
    + by apply (lsdb_len_insert cp).
    + apply (db_insert_entries cp _ _ Hdb). unfold entry_ok. cbn. done.
    + intros e. rewrite lookup_insert_ne by done. apply Hv'.
  - intros _. cbn. by rewrite lookup_insert_ne.
  - intros a. unfold get_active. cbn. rewrite lookup_insert_ne by done. apply Hown.
  - apply (lsdb_le_insert cp). intros e He. by eapply is_newer_le.
Qed.

#[global] Instance admits_dec cp incoming m : Decision (admits cp incoming m).
Proof. unfold admits. apply _. Defined.

Lemma cp_ok_set_spf cp p gen hold last :
  cp_ok cp → spf_ok (set_spf cp p gen hold last) → cp_ok (set_spf cp p gen hold last).
Proof. intros [] ?. constructor; [by apply db_ok_set_spf|done..]. Qed.

(** Scheduling a run keeps the invariant. *)
Lemma marked_ok cp now cp' a :
  cp_ok cp → mark_spf_dirty cp now = Some (cp', a) → cp_ok cp' ∧ lsdb_le cp cp'.
Proof.
  intros Hok Hm.
  destruct (mark_spf_dirty_ok _ _ _ _ (db_spf _ (cp_db _ Hok)) Hm)
    as (p & gen & hold & -> & Hs & _).
  split; [by apply cp_ok_set_spf|by apply lsdb_le_same].
Qed.
Lemma marked_total cp now :
  cp_ok cp → spf_generation cp < u_max 64 → is_Some (mark_spf_dirty cp now).
Proof.
  intros Hok Hg.
  destruct (mark_spf_dirty_spec cp now (db_spf _ (cp_db _ Hok)) Hg) as (? & ? & ? & ? & -> & _).
  by eexists.
Qed.

Lemma receive_lsa_ok cp now incoming m cp' acts :
  cp_ok cp → receive_lsa cp now incoming m = Some (cp', acts) → cp_ok cp' ∧ lsdb_le cp cp'.
Proof.
  intros Hok Hr. destruct (decide (admits cp incoming m)) as [Ha|Ha].
  - rewrite (receive_lsa_accept _ _ _ _ Ha) in Hr.
    destruct (received_ok _ _ _ now Hok Ha) as [Hok1 Hle1].
    destruct (mark_spf_dirty _ now) as [[c a]|] eqn:Em; simplify_eq/=.
    destruct (marked_ok _ _ _ _ Hok1 Em). split; [done|by etrans].
  - destruct (receive_lsa_reject cp now incoming m Ha) as (acts' & E & _). by simplify_eq.
Qed.

(** ** Timers *)

Definition expired (cp : ControlPlane) (o : NodeId) (e : LsdbEntry) : ControlPlane :=
  set_lsdb cp (<[o := {| entry_version := entry_version e;
                         entry_state := Tombstone |}]> (lsdb cp)).

Lemma expired_ok cp o e :
  cp_ok cp → lsdb cp !! o = Some e → cp_ok (expired cp o e) ∧ lsdb_le cp (expired cp o e).
Proof.
  intros [Hdb Hl Hown] He. pose proof Hdb as [Hres Hsz Hent Hv' Htop [Hh Hg Ht Hvg Hw]].
  assert (Hme : is_Some (lsdb cp !! me cp)).
  { apply Hres. intros E. by rewrite E, lookup_empty in He. }
  split; [constructor|].
  - constructor; cbn; [..|done|by constructor].
    + intros _. by apply insert_reserved; auto.
    + apply (lsdb_len_insert cp); eauto.
    + exact (db_insert_entries cp o (Build_LsdbEntry _ Tombstone) Hdb I).
    + intros e'. destruct (decide (o = me cp)) as [->|Hne].
      * rewrite lookup_insert_eq. intros [= <-]. cbn. by apply Hv'.
      * rewrite lookup_insert_ne by done. apply Hv'.
  - intros _. exact (insert_reserved cp o _ Hdb (or_intror Hme)).
  - intros a. unfold get_active. cbn. destruct (decide (o = me cp)) as [->|Hne].
    + by rewrite lookup_insert_eq.
    + rewrite lookup_insert_ne by done. apply Hown.
  - apply (lsdb_le_insert cp). intros e' He'. simplify_eq. right. auto.
Qed.

Lemma expire_ok cp now o ep sq cp' acts :
  cp_ok cp → handle_expire_timer cp now o ep sq = Some (cp', acts) →
  cp_ok cp' ∧ lsdb_le cp cp'.
Proof.
  intros Hok Hx. unfold handle_expire_timer in Hx.
  destruct (lsdb cp !! o) as [e|] eqn:Ee; [|by simplify_eq].
  case_decide; [|by simplify_eq]. destruct (active e) as [a|]; [|by simplify_eq].
  destruct (now <? expires_at a); [by simplify_eq|].
  change (set_lsdb cp _) with (expired cp o e) in Hx.
  destruct (mark_spf_dirty _ now) as [[c act]|] eqn:Em; simplify_eq/=.
  destruct (expired_ok cp o e Hok Ee) as [Hok1 Hle1].
  destruct (marked_ok _ _ _ _ Hok1 Em). split; [done|by etrans].
Qed.
Lemma expire_total cp now o ep sq :
  cp_ok cp → spf_generation cp < u_max 64 → is_Some (handle_expire_timer cp now o ep sq).
Proof.
  intros Hok Hg. unfold handle_expire_timer.
  destruct (lsdb cp !! o) as [e|] eqn:Ee; [|by eexists].
  case_decide; [|by eexists]. destruct (active e) as [a|]; [|by eexists].
  destruct (now <? expires_at a); [by eexists|].
  change (set_lsdb cp _) with (expired cp o e).
  destruct (expired_ok cp o e Hok Ee) as [Hok1 Hle1].
  destruct (marked_total _ now Hok1 Hg) as [[c act] ->]. by eexists.
Qed.

(** The state of a due SPF timer before the tables are recomputed. *)
Definition spf_fired (cp : ControlPlane) : ControlPlane :=
  set_spf cp None (spf_generation cp) (Z.min (sat_mul 64 (spf_hold_ms cp) 2) SPF_MAX_HOLD_MS)
    (last_lsdb_change_at cp).

Lemma cp_ok_set_routes cp t :
  cp_ok cp → spf_ok (set_routes cp t) → cp_ok (set_routes cp t).
Proof. intros [[] ? ?] ?. by constructor. Qed.
Lemma cp_ok_set_published cp l : cp_ok cp → cp_ok (set_published_topic_ads cp l).
Proof. intros [[? ? ? ? ? []] ? ?]. by constructor. Qed.

(** A due run: routes and advertisements are recomputed from the database,
    and the table version moves by at most one. *)
Lemma spf_run_ok cp p :
  cp_ok cp → pending_spf cp = Some p →
  ∃ cp' acts routes, cp_ok cp' ∧ lsdb_le cp cp' ∧ shortest_paths cp = Some routes ∧
    ('(cp, r) ← recompute_routes (spf_fired cp);
     let '(cp, ads) := recompute_topic_ads cp in
     Some (cp, push_opt (push_opt [] r) ads)) = Some (cp', acts) ∧
    table_routes (cp_routes cp') = routes ∧ published_topic_ads cp' = discovered_topics cp.
Proof.
  intros Hok Hp. destruct (shortest_paths_spec cp) as (st & routes & _ & Hsp & _).
  pose proof (db_spf _ (cp_db _ Hok)) as [Hh Hg Ht Hvg Hw]. rewrite Hp in Hvg.
  assert (Hfired : cp_ok (spf_fired cp)).
  { apply cp_ok_set_spf; [done|]. constructor; cbn; try done; try lia.
    unfold sat_mul, u_max, SPF_INITIAL_HOLD_MS, SPF_MAX_HOLD_MS in *. lia. }
  unfold recompute_routes. change (shortest_paths (spf_fired cp)) with (shortest_paths cp).
  rewrite Hsp. cbn [mbind option_bind].
  assert (Hpub : ∀ c, cp_ok c → lsdb_le cp c → lsdb c = lsdb cp →
    table_routes (cp_routes c) = routes → ∃ ads c', recompute_topic_ads c = (c', ads) ∧
      cp_ok c' ∧ lsdb_le cp c' ∧ table_routes (cp_routes c') = routes ∧
      published_topic_ads c' = discovered_topics cp).
  { intros c Hc Hle Hl Hr. unfold recompute_topic_ads.
    assert (discovered_topics c = discovered_topics cp) as ->
      by (unfold discovered_topics; by rewrite Hl).
    case_decide as E; do 2 eexists; (split; [reflexivity|]).
    - done.
    - split; [by apply cp_ok_set_published|]. by split_and!. }
  change (cp_routes (spf_fired cp)) with (cp_routes cp).
  case_decide as Er.
  - destruct (Hpub (spf_fired cp) Hfired) as (ads & c' & E & Hc' & Hle & Hr & Hd);
      [by apply lsdb_le_same|done|by symmetry|].
    exists c', (push_opt (push_opt [] None) ads), routes. cbn [mbind option_bind]. by rewrite E.
  - rewrite (proj2 (checked_add_Some 64 (table_version (cp_routes cp)) 1 _))
      by (split; [reflexivity|lia]). cbn [mbind option_bind].
    set (t := {| table_version := _; table_routes := routes |}).
    destruct (Hpub (set_routes (spf_fired cp) t)) as (ads & c' & E & Hc' & Hle & Hr & Hd);
      [|by apply lsdb_le_same|done|done|].
    { apply cp_ok_set_routes; [done|].
      destruct (db_spf _ (cp_db _ Hfired)) as [Hh' _ _ _ _].
      constructor; cbn; try done; lia. }
    exists c', (push_opt (push_opt [] (Some (CaPublishRoutes t))) ads), routes. by rewrite E.
Qed.

Lemma spf_timer_spec cp now gen :
  cp_ok cp →
  ∃ cp' acts, handle_spf_timer cp now gen = Some (cp', acts) ∧ cp_ok cp' ∧ lsdb_le cp cp'.
Proof.
  intros Hok. unfold handle_spf_timer.
  destruct (pending_spf cp) as [p|] eqn:Hp; [|by eexists cp, _].
  destruct (negb _); [by eexists cp, _|]. destruct (now <? ps_at p); [by eexists cp, _|].
  destruct (spf_run_ok cp p Hok Hp) as (cp' & acts & routes & Hok' & Hle & _ & Hrun & _).
  exists cp', acts. split; [exact Hrun|done].
Qed.
End Handlers.

(** ** Anti-entropy

    What a digest and a digest request are answered with, and what a node
    knows after the answers have been delivered. *)

Lemma lookup_remote_versions es o v :
  remote_versions es !! o = Some v ↔
  (∃ e, e ∈ es ∧ de_origin e = o ∧ de_version e = v) ∧
  ∀ e, e ∈ es → de_origin e = o → ole (de_version e) v.
Proof.
  assert (AntiSymm (=) (flip (ole (A:=version)))).
  { intros x y ??. by apply (anti_symm ole). }
  apply (lookup_group_best de_origin de_version omax (flip ole)); unfold flip;
    auto using omax_sel, omax_l, omax_r.
Qed.
Lemma remote_versions_None es o :
  remote_versions es !! o = None ↔ ∀ e, e ∈ es → de_origin e ≠ o.
Proof. apply group_best_None. Qed.

(** ** The decision per origin *)

Section Step.
Context (cp : ControlPlane) (incoming : LinkId) (remote : gmap NodeId version).

(** The peer has a newer version than the database. *)
Definition wanted (o : NodeId) : Prop :=
  o ≠ me cp ∧
  match remote !! o with
  | Some v => match lsdb cp !! o with Some e => olt (entry_version e) v | None => True end
  | None => False
  end.
#[global] Instance wanted_dec o : Decision (wanted o).
Proof.
  unfold wanted. destruct (remote !! o); [destruct (lsdb cp !! o)|]; apply _.
Defined.

(** The LSA the peer does not have, or has an older version of. *)
Definition offered (o : NodeId) : option LsaMessage :=
  e ← lsdb cp !! o;
  if match remote !! o with Some v => oltb v (entry_version e) | None => true end
  then message <$> active e else None.

Lemma digest_step_spec acc o :
  is_Some (lsdb cp !! o) ∨ is_Some (remote !! o) →
  digest_step cp incoming remote acc o =
  Some (acc.1 ++ (if decide (wanted o) then [o] else []),
        acc.2 ++ match offered o with Some m => [send_lsa incoming m] | None => [] end).
Proof.
  destruct acc as [rq ac]. intros Hor. unfold digest_step, offered, compare_versions.
  destruct (lsdb cp !! o) as [e|] eqn:El, (remote !! o) as [v|] eqn:Er; cbn.
  - destruct (oltb (entry_version e) v) eqn:E1.
    + assert (oltb v (entry_version e) = false) as ->.
      { apply oltb_ge. by apply olt_le, oltb_lt. }
      cbn. rewrite app_nil_r. apply oltb_lt in E1.
      destruct (decide (o ≠ me cp)) as [Hm|Hm].
      * by rewrite decide_True by (unfold wanted; rewrite Er, El; done).
      * rewrite decide_False by (unfold wanted; naive_solver). by rewrite app_nil_r.
    + rewrite (decide_False (P:=wanted o)).
      2: { unfold wanted. rewrite Er, El. intros [_ Hlt%oltb_lt]. congruence. }
      rewrite app_nil_r.
      destruct (oltb v (entry_version e)); cbn; [|by rewrite app_nil_r].
      destruct (active e); cbn; by rewrite ?app_nil_r.
  - rewrite (decide_False (P:=wanted o)) by (unfold wanted; rewrite Er; naive_solver). rewrite app_nil_r.
    destruct (active e); cbn; by rewrite ?app_nil_r.
  - rewrite app_nil_r. destruct (decide (o ≠ me cp)) as [Hm|Hm].
    + by rewrite decide_True by (unfold wanted; rewrite Er, El; done).
    + rewrite decide_False by (unfold wanted; naive_solver). by rewrite app_nil_r.
  - by destruct Hor as [[]|[]].
Qed.

Lemma digest_loop_spec acc os :
  (∀ o, o ∈ os → is_Some (lsdb cp !! o) ∨ is_Some (remote !! o)) →
  digest_loop cp incoming remote acc os =
  Some (acc.1 ++ filter wanted os, acc.2 ++ (send_lsa incoming <$> omap offered os)).
Proof.
  revert acc. induction os as [|o os IH]; intros acc Hos; cbn [digest_loop].
  { cbn. rewrite !app_nil_r. by destruct acc. }
  rewrite digest_step_spec by (apply Hos; by left). cbn [mbind option_bind].
  rewrite IH by (intros; apply Hos; by right). cbn [fst snd].
  rewrite <-!app_assoc, filter_cons. f_equal. f_equal.
  - case_decide; by cbn.
  - f_equal. cbn. by destruct (offered o).
Qed.
End Step.

(** ** Digests *)

Definition request (incoming : LinkId) (requested : list NodeId) : list ControlAction :=
  match requested with [] => [] | _ => [CaSend incoming (CfDigestReq requested)] end.

(** The origins either side knows, in order. *)
Definition known_origins (cp : ControlPlane) (entries : list DigestEntry) : list NodeId :=
  bset_iter (list_to_set (btree_keys (lsdb cp) ++ btree_keys (remote_versions entries))).

Lemma elem_of_known_origins cp entries o :
  o ∈ known_origins cp entries ↔
  is_Some (lsdb cp !! o) ∨ is_Some (remote_versions entries !! o).
Proof.
  unfold known_origins. by rewrite elem_of_bset_iter, elem_of_list_to_set, elem_of_app,
    !elem_of_btree_keys.
Qed.

Lemma receive_digest_spec cp incoming entries :
  is_Some (local_adjacencies cp !! incoming) → zlen entries ≤ MAX_DIGEST_ENTRIES →
  receive_digest cp incoming entries =
  Some ((send_lsa incoming <$>
           omap (offered cp (remote_versions entries)) (known_origins cp entries)) ++
        request incoming
          (filter (wanted cp (remote_versions entries)) (known_origins cp entries))).
Proof.
  intros Hl Hlen. unfold receive_digest.
  rewrite bool_decide_eq_false_2 by by apply not_eq_None_Some.
  rewrite (proj2 (Z.ltb_ge _ _)) by lia. cbn [orb].
  fold (known_origins cp entries). rewrite digest_loop_spec.
  - cbn [mbind option_bind fst snd app]. unfold request.
    destruct (filter _ _); [rewrite decide_True by done; by rewrite app_nil_r|done].
  - intros o. by rewrite elem_of_known_origins.
Qed.
Lemma receive_digest_total cp incoming entries : is_Some (receive_digest cp incoming entries).
Proof.
  destruct (local_adjacencies cp !! incoming) as [a|] eqn:Hl.
  - destruct (decide (zlen entries ≤ MAX_DIGEST_ENTRIES)) as [Hlen|Hlen].
    + rewrite receive_digest_spec by eauto. by eexists.
    + unfold receive_digest. rewrite (proj2 (Z.ltb_lt _ _)), orb_true_r by lia. by eexists.
  - unfold receive_digest. rewrite bool_decide_eq_true_2 by done. by eexists.
Qed.
