(* ===== verification/ControlProps.v ===== *)
(** * What the control plane guarantees

    The theorems about [ControlPlane]: it never panics before its counters are
    exhausted, its database only grows, LSAs are flooded and expire as they
    should, its timers are armed, and its routes are the shortest paths. *)

From S2P Require Export Prelude Ord Bytes Types ControlTypes Spf Control ControlRoutes ControlInv.

(** ** One event *)

Section Step.
Context `{LsaAuthLaws}.

(** Sequence number and SPF generation move by at most one per event. *)
Definition counters_step (cp cp' : ControlPlane) : Prop :=
  my_seq cp' ≤ my_seq cp + 1 ∧ spf_generation cp' ≤ spf_generation cp + 1.

Lemma mark_counters cp now cp' a :
  mark_spf_dirty cp now = Some (cp', a) →
  my_seq cp' = my_seq cp ∧ spf_generation cp' ≤ spf_generation cp + 1.
Proof.
  unfold mark_spf_dirty. intros Hm. destruct (_ && _).
  - simplify_eq/=. lia.
  - destruct (checked_add _ _ _) as [g|] eqn:E; simplify_eq/=.
    apply checked_add_Some in E. lia.
Qed.
Lemma originate_counters cp now cp' acts :
  originate_lsa cp now = Some (cp', acts) → counters_step cp cp'.
Proof.
  unfold originate_lsa, counters_step. intros Ho.
  destruct (checked_add _ _ _) as [s|] eqn:Es; cbn in Ho; [|done].
  apply checked_add_Some in Es as [-> _].
  destruct (install _ _ _) as [[c x]|] eqn:Ei; cbn in Ho; [|done].
  apply install_Some in Ei as [_ [= -> ->]].
  destruct (mark_spf_dirty _ _) as [[c' a]|] eqn:Em; simplify_eq/=.
  apply mark_counters in Em. cbn in Em. lia.
Qed.
Lemma handle_counters cp now e cp' acts :
  cp_handle cp now e = Some (cp', acts) → counters_step cp cp'.
Proof.
  assert (Hsame : counters_step cp cp) by (unfold counters_step; lia).
  unfold cp_handle. destruct e as [l p c|l|ads|l [m|es|os]|[l|g|ep sq|o ep sq]]; intros He.
  - destruct (originate_lsa _ _) as [[c' a]|] eqn:Eo; simplify_eq/=.
    by apply originate_counters in Eo.
  - destruct (local_adjacencies cp !! l); [|by simplify_eq].
    by apply originate_counters in He.
  - destruct (_ || _); [by simplify_eq|]. by apply originate_counters in He.
  - destruct (decide (admits cp l m)) as [Ha|Ha].
    + rewrite (receive_lsa_accept _ _ _ _ Ha) in He.
      destruct (mark_spf_dirty _ _) as [[c' a]|] eqn:Em; simplify_eq/=.
      apply mark_counters in Em. unfold counters_step. cbn in Em. lia.
    + destruct (receive_lsa_reject cp now l m Ha) as (? & E & _). by simplify_eq.
  - destruct (receive_digest _ _ _); by simplify_eq/=.
  - by simplify_eq.
  - by simplify_eq.
  - unfold handle_spf_timer in He. destruct (pending_spf cp) as [p|]; [|by simplify_eq].
    destruct (negb _); [by simplify_eq|]. destruct (now <? _); [by simplify_eq|].
    unfold recompute_routes, recompute_topic_ads in He.
    destruct (shortest_paths _) as [rs|]; cbn in He; [|done].
    destruct (decide (rs = _)); [|destruct (checked_add _ _ _); cbn in He; [|done]];
      cbn [mbind option_bind] in He;
      destruct (decide (discovered_topics _ = _)); simplify_eq/=;
      unfold counters_step; cbn; lia.
  - unfold handle_refresh_timer in He. destruct (is_current cp ep sq);
      [by apply originate_counters in He|by simplify_eq].
  - unfold handle_expire_timer in He. destruct (lsdb cp !! o) as [e|]; [|by simplify_eq].
    case_decide; [|by simplify_eq]. destruct (active e) as [a|]; [|by simplify_eq].
    destruct (now <? _); [by simplify_eq|].
    destruct (mark_spf_dirty _ _) as [[c' x]|] eqn:Em; simplify_eq/=.
    apply mark_counters in Em. unfold counters_step. cbn in Em. lia.
Qed.

(** The intermediate states of [handle]: adjacencies or advertisements have
    changed, the LSA has not yet been originated. *)
Lemma db_ok_set_adjacencies cp m : db_ok cp → db_ok (set_adjacencies cp m).
Proof. intros [? ? ? ? ? []]. by constructor. Qed.
Lemma db_ok_set_topics cp ads :
  db_ok cp → valid_topic_ads ads = true → StronglySorted ole ads →
  db_ok (set_local_topic_ads cp ads).
Proof. intros [? ? ? ? ? []] ??. by constructor. Qed.

Lemma handle_ok cp now e cp' acts :
  cp_ok cp → cp_handle cp now e = Some (cp', acts) → cp_ok cp' ∧ lsdb_le cp cp'.
Proof.
  intros Hok He. pose proof (cp_db _ Hok) as Hdb.
  destruct e as [l p c|l|ads|l [m|es|os]|[l|g|ep sq|o ep sq]]; cbn [cp_handle] in He.
  - destruct (originate_lsa _ _) as [[c' a]|] eqn:Eo; simplify_eq/=.
    exact (originate_ok _ _ _ _ (db_ok_set_adjacencies cp _ Hdb) Eo).
  - destruct (local_adjacencies cp !! l); [|by simplify_eq].
    exact (originate_ok _ _ _ _ (db_ok_set_adjacencies cp _ Hdb) He).
  - destruct (_ || _) eqn:Eg; [by simplify_eq|].
    apply orb_false_iff in Eg as [Ev%negb_false_iff _].
    exact (originate_ok _ _ _ _ (db_ok_set_topics cp _ Hdb Ev (osort_sorted ads)) He).
  - by eapply receive_lsa_ok.
  - destruct (receive_digest _ _ _); by simplify_eq/=.
  - by simplify_eq.
  - by simplify_eq.
  - destruct (spf_timer_spec cp now g Hok) as (c & a & E & ?). by simplify_eq.
  - unfold handle_refresh_timer in He. destruct (is_current cp ep sq);
      [by eapply originate_ok|by simplify_eq].
  - by eapply expire_ok.
Qed.

Lemma handle_total cp now e :
  cp_ok cp → my_seq cp < u_max 64 → spf_generation cp < u_max 64 →
  is_Some (cp_handle cp now e).
Proof.
  intros Hok Hs Hg. pose proof (cp_db _ Hok) as Hdb.
  destruct e as [l p c|l|ads|l [m|es|os]|[l|g|ep sq|o ep sq]]; cbn [cp_handle].
  - destruct (originate_total _ now (db_ok_set_adjacencies cp
      (<[l := {| la_peer := p; la_cost := c |}]> (local_adjacencies cp)) Hdb) Hs Hg)
      as [[c' a] ->]. by eexists.
  - destruct (local_adjacencies cp !! l); [|by eexists].
    by apply originate_total; [apply db_ok_set_adjacencies|..].
  - destruct (_ || _) eqn:Eg; [by eexists|].
    apply orb_false_iff in Eg as [Ev%negb_false_iff _].
    apply originate_total; [apply db_ok_set_topics|done..]; auto using osort_sorted.
  - destruct (decide (admits cp l m)) as [Ha|Ha].
    + rewrite (receive_lsa_accept _ _ _ _ Ha).
      destruct (received_ok _ _ _ now Hok Ha) as [Hok1 _].
      destruct (marked_total _ now Hok1 Hg) as [[c' x] ->]. by eexists.
    + destruct (receive_lsa_reject cp now l m Ha) as (? & -> & _). by eexists.
  - destruct (receive_digest_total cp l es) as [a ->]. by eexists.
  - by eexists.
  - by eexists.
  - destruct (spf_timer_spec cp now g Hok) as (c & a & -> & _). by eexists.
  - unfold handle_refresh_timer. destruct (is_current cp ep sq);
      [by apply originate_total|by eexists].
  - by apply expire_total.
Qed.
End Step.

Lemma initial_ok me epoch last_seq : cp_ok (with_auth_and_seq me epoch last_seq).
Proof.
  constructor; [constructor|..]; cbn; try done.
  split; [by vm_compute|constructor].
Qed.

Section Runs.
Context `{LsaAuthLaws}.

Lemma run_safe cp tr :
  cp_ok cp → my_seq cp + zlen tr ≤ u_max 64 → spf_generation cp + zlen tr ≤ u_max 64 →
  ∃ cp' acts, run cp tr = Some (cp', acts) ∧ cp_ok cp'.
Proof.
  revert cp. induction tr as [|[now e] tr IH]; intros cp Hok Hs Hg; [by exists cp, []|].
  rewrite zlen_cons in Hs, Hg. pose proof (zlen_nonneg tr).
  destruct (handle_total cp now e Hok) as [[cp1 a] He]; [lia..|].
  destruct (handle_counters _ _ _ _ _ He) as [Hs1 Hg1].
  destruct (handle_ok _ _ _ _ _ Hok He) as [Hok1 _].
  destruct (IH cp1 Hok1) as (cp' & acts & Hrun & Hok'); [lia..|].
  exists cp', (a ++ acts). split; [|done]. cbn. rewrite He. cbn. by rewrite Hrun.
Qed.

(** C7: Started with sequence number [last_seq], the control plane handles
    every sequence of events without a panic, as long as the 64-bit LSA
    sequence cannot be exhausted by it; in particular [expect("local LSA must
    fit in the reserved LSDB entry")] and the indexing of the search never
    fail.  Afterwards the database holds at most 1000 entries, the entry of
    the node itself among them, the node's own active LSA is the one its
    links, advertisements and sequence number describe, and the SPF hold time
    is between 100 and 5000 ms. *)
Theorem control_run_safe me epoch last_seq (tr : list (MonoTime * ControlEvent)) :
  0 ≤ last_seq → last_seq + zlen tr ≤ u_max 64 →
  ∃ cp acts, run (with_auth_and_seq me epoch last_seq) tr = Some (cp, acts) ∧ cp_ok cp.
Proof.
  intros Hs Hle. apply run_safe; [apply initial_ok|done|cbn; lia].
Qed.

(** A state the control plane can be in. *)
Definition reachable (cp : ControlPlane) : Prop :=
  ∃ me epoch last_seq tr acts, run (with_auth_and_seq me epoch last_seq) tr = Some (cp, acts).

Lemma reachable_ok cp : reachable cp → cp_ok cp.
Proof.
  intros (me & ep & s & tr & acts & Hr).
  eapply (run_invariant cp_ok (λ _ _, True)); [|apply initial_ok| |exact Hr].
  - intros s0 now ev s' a Hs _ Hh. exact (proj1 (handle_ok _ _ _ _ _ Hs Hh)).
  - by apply Forall_true.
Qed.

(** C12: Along every run, no origin ever leaves the link-state database, its
    version never goes back, and an LSA that has been replaced or has expired
    never becomes active again. *)
Theorem lsdb_monotone cp tr cp' acts :
  reachable cp → run cp tr = Some (cp', acts) →
  ∀ o e, lsdb cp !! o = Some e →
    ∃ e', lsdb cp' !! o = Some e' ∧
      (olt (entry_version e) (entry_version e') ∨
       entry_version e = entry_version e' ∧ (e' = e ∨ entry_state e' = Tombstone)).
Proof.
  intros Hok%reachable_ok Hr' o e He.
  assert (lsdb_le cp cp') as [_ Hle].
  { eapply (run_monotone lsdb_le cp_ok); [apply _..| |exact Hok|exact Hr'].
    intros s now ev s' a Hs Hh. exact (handle_ok _ _ _ _ _ Hs Hh). }
  destruct (Hle o e He) as (e' & He' & Hcase). exists e'. split; [done|].
  destruct Hcase as [?|[? [?|Ha]]]; [by left|by right; split; [|left]|].
  right. split; [done|]. right.
  unfold active in Ha. by destruct (entry_state e').
Qed.
End Runs.

(** ** Flooding *)

Lemma elem_of_flood cp m except a :
  a ∈ flood cp m except ↔
  ∃ l, is_Some (local_adjacencies cp !! l) ∧ Some l ≠ except ∧ a = CaSend l (CfLsa m).
Proof.
  unfold flood. rewrite list_elem_of_fmap. setoid_rewrite list_elem_of_filter.
  setoid_rewrite elem_of_btree_keys. naive_solver.
Qed.
Lemma flood_NoDup cp m except : NoDup (flood cp m except).
Proof.
  apply NoDup_fmap_2.
  - by intros l l' [= ->].
  - apply NoDup_filter, btree_keys_NoDup.
Qed.

Section Flooding.
Context `{LsaAuthLaws}.

(** C13: An LSA that arrives over a link that is up, is well formed and signed,
    comes from another node, is strictly newer than the stored version and
    fits is stored with its expiry timer, is sent exactly once over every
    other link and never back over the incoming one, and an SPF run is
    pending afterwards.  Any other LSA changes nothing, and is answered at
    most with the newer LSA the node has. *)
Theorem receive_lsa_floods cp now incoming m :
  reachable cp → spf_generation cp < u_max 64 →
  ∃ cp' acts, cp_handle cp now (CeFrame incoming (CfLsa m)) = Some (cp', acts) ∧
    if decide (admits cp incoming m) then
      lsdb cp' = <[origin (lsa m) := active_entry m now]> (lsdb cp) ∧
      is_Some (pending_spf cp') ∧
      ∃ timers,
        acts = flood cp m (Some incoming) ++
          CaSetTimer (CtLsaExpire (origin (lsa m)) (epoch (lsa m)) (seq_no (lsa m)))
            (expiry_of m now) :: timers ∧
        (timers = [] ∨ ∃ g t, timers = [CaSetTimer (CtSpfHold g) t]) ∧
        NoDup (flood cp m (Some incoming)) ∧
        ∀ l, CaSend l (CfLsa m) ∈ acts ↔ is_Some (local_adjacencies cp !! l) ∧ l ≠ incoming
    else
      cp' = cp ∧
      (acts = [] ∨
       ∃ e a, lsdb cp !! origin (lsa m) = Some e ∧ active e = Some a ∧
         olt (lsa_version (lsa m)) (entry_version e) ∧
         acts = [CaSend incoming (CfLsa (message a))]).
Proof.
  intros Hok%reachable_ok Hg. cbn [cp_handle]. case_decide as Ha.
  - rewrite (receive_lsa_accept _ _ _ _ Ha).
    destruct (received_ok _ _ _ now Hok Ha) as [Hok1 _].
    destruct (mark_spf_dirty_spec (received cp m now) now (db_spf _ (cp_db _ Hok1)) Hg)
      as (p & gen & hold & a & -> & _ & Hact). cbn [mbind option_bind].
    do 2 eexists. split; [reflexivity|]. cbn [lsdb set_spf received set_lsdb pending_spf].
    split; [done|]. split; [by eexists|].
    exists (match a with Some x => [x] | None => [] end).
    unfold push_opt. rewrite <-!app_assoc. cbn [app]. split; [done|]. split.
    { destruct Hact as [[_ ->]|[-> _]]; eauto. }
    split; [apply flood_NoDup|]. intros l. rewrite elem_of_app, elem_of_flood. split.
    + intros [(l' & ? & ? & [= ->])|Hin]; [split; [done|congruence]|].
      exfalso. destruct Hact as [[_ ->]|[-> _]]; set_solver.
    + intros [Hl Hne]. left. exists l. naive_solver.
  - destruct (receive_lsa_reject cp now incoming m Ha) as (acts & -> & Hacts).
    do 2 eexists. split; [reflexivity|]. split; [done|].
    destruct Hacts as [?|(e & a & ? & ? & ? & ?)]; [by left|]. right. by exists e, a.
Qed.
End Flooding.
