(* ===== verification/ControlTimers.v ===== *)
(** * Timers of the control plane

    Every obligation of the control plane (a pending SPF run, the expiry and
    the refresh of an LSA, the periodic digest of a link) has a timer: the
    event that creates it sets the timer, and so does every event that
    consumes the timer without discharging the obligation. *)

From S2P Require Export Prelude Ord Bytes Types ControlTypes Spf Control ControlRoutes ControlInv ControlProps.

(** The time at which [t] has work to do, if it has any. *)
Definition deadline (cp : ControlPlane) (t : ControlTimer) : option MonoTime :=
  match t with
  | CtSpfHold g =>
      p ← pending_spf cp; if decide (g = ps_generation p) then Some (ps_at p) else None
  | CtLsaExpire o ep sq =>
      e ← lsdb cp !! o;
      if decide (entry_version e = (ep, sq)) then expires_at <$> active e else None
  | CtLsaRefresh ep sq =>
      e ← lsdb cp !! me cp;
      if decide (entry_version e = (ep, sq)) then
        (λ a, sat_add 64 (received_at a) (ttl_ms (lsa (message a)) / 5)) <$> active e
      else None
  | CtDigest _ => None
  end.

Lemma mark_armed cp now cp' a t at_ :
  spf_ok cp → mark_spf_dirty cp now = Some (cp', a) → deadline cp' t = Some at_ →
  deadline cp t = Some at_ ∨ a = Some (CaSetTimer t at_).
Proof.
  intros Hok Hm Hd. destruct (mark_spf_dirty_ok _ _ _ _ Hok Hm) as (p & gen & hold & -> & _ & Ha).
  destruct t as [l|g|ep sq|o ep sq]; [done| |by left..]. cbn in Hd.
  case_decide; simplify_eq/=.
  destruct Ha as [[Hp ->]|[-> _]]; [left|by right]. rewrite Hp. cbn. by rewrite decide_True.
Qed.

Section Timers.
Context `{LsaAuthLaws}.

Definition is_refresh (t : ControlTimer) : bool :=
  match t with CtLsaRefresh _ _ => true | _ => false end.

(** The timers of an origination; older refresh timers are moot. *)
Lemma originate_armed cp now cp' acts t at_ :
  db_ok cp → originate_lsa cp now = Some (cp', acts) → deadline cp' t = Some at_ →
  deadline cp t = Some at_ ∧ is_refresh t = false ∨ CaSetTimer t at_ ∈ acts.
Proof.
  intros Hdb Ho Hd.
  destruct (originate_spec _ _ _ _ Hdb Ho) as (p & gen & hold & a & -> & _ & Ha & _ & ->).
  unfold push_opt. rewrite !elem_of_app, elem_of_cons, elem_of_app, !elem_of_cons.
  destruct t as [l|g|ep sq|o ep sq]; [done|..]; cbn in Hd |- *.
  - case_decide; simplify_eq/=. destruct Ha as [[Hp ->]|[-> _]].
    + left. rewrite Hp. cbn. by rewrite decide_True.
    + right. right. by apply list_elem_of_singleton.
  - right. rewrite lookup_insert_eq in Hd. cbn in Hd.
    unfold own_message, lsa_version in Hd. rewrite sign_lsa in Hd. cbn in Hd.
    case_decide; simplify_eq/=. left. right. right. right. left.
    reflexivity.
  - destruct (decide (o = me cp)) as [->|Hne].
    + right. rewrite lookup_insert_eq in Hd. cbn in Hd. 
      unfold own_message, lsa_version in Hd. rewrite sign_lsa in Hd. cbn in Hd. case_decide; simplify_eq/=. left. right. right. by left.
    + left. by rewrite lookup_insert_ne in Hd.
Qed.

Lemma received_armed cp incoming m now t at_ :
  admits cp incoming m → deadline (received cp m now) t = Some at_ →
  deadline cp t = Some at_ ∨
  t = CtLsaExpire (origin (lsa m)) (epoch (lsa m)) (seq_no (lsa m)) ∧ at_ = expiry_of m now.
Proof.
  intros (_ & _ & _ & Hne & _) Hd. destruct t as [l|g|ep sq|o ep sq]; [done|by left|..];
    cbn in Hd |- *.
  - rewrite lookup_insert_ne in Hd by done. by left.
  - destruct (decide (origin (lsa m) = o)) as [<-|Ho].
    + rewrite lookup_insert_eq in Hd. cbn in Hd. unfold lsa_version in Hd.
      case_decide; simplify_eq/=. by right.
    + rewrite lookup_insert_ne in Hd by done. by left.
Qed.

Lemma expired_armed cp o e t at_ :
  lsdb cp !! o = Some e → deadline (expired cp o e) t = Some at_ →
  deadline cp t = Some at_ ∧ t ≠ CtLsaExpire o (entry_version e).1 (entry_version e).2.
Proof.
  intros He Hd. destruct t as [l|g|ep sq|o' ep sq]; [done|by split|..]; cbn in Hd |- *.
  - destruct (decide (o = me cp)) as [->|Hne].
    + rewrite lookup_insert_eq in Hd. cbn in Hd. by case_decide.
    + rewrite lookup_insert_ne in Hd by done. by split.
  - destruct (decide (o = o')) as [->|Hne].
    + rewrite lookup_insert_eq in Hd. cbn in Hd. by case_decide.
    + rewrite lookup_insert_ne in Hd by done. split; [done|congruence].
Qed.

(** A due run changes no deadline but its own. *)
Lemma spf_due_frame cp r c ads :
  recompute_routes (spf_fired cp) = Some (c, r) → recompute_topic_ads c = ads →
  pending_spf ads.1 = None ∧ lsdb ads.1 = lsdb cp ∧ me ads.1 = me cp.
Proof.
  unfold recompute_routes, recompute_topic_ads. intros Hr <-.
  destruct (shortest_paths _); cbn in Hr; [|done].
  destruct (decide (_ = table_routes _)); [|destruct (checked_add _ _ _); cbn in Hr; [|done]];
    simplify_eq/=; destruct (decide (_ = published_topic_ads _)); done.
Qed.
Lemma spf_timer_armed cp now g cp' acts t at_ :
  handle_spf_timer cp now g = Some (cp', acts) → deadline cp' t = Some at_ →
  deadline cp t = Some at_ ∧ t ≠ CtSpfHold g ∨ CaSetTimer t at_ ∈ acts.
Proof.
  intros Hh Hd. unfold handle_spf_timer in Hh.
  destruct (pending_spf cp) as [p|] eqn:Hp.
  2: { simplify_eq. left. split; [done|]. intros ->. cbn in Hd. by rewrite Hp in Hd. }
  destruct (Z.eqb_spec (ps_generation p) g) as [<-|Hg]; cbn in Hh.
  2: { simplify_eq. left. split; [done|]. intros ->. cbn in Hd. rewrite Hp in Hd. cbn in Hd.
       by rewrite decide_False in Hd by congruence. }
  destruct (now <? ps_at p).
  { simplify_eq. destruct (decide (t = CtSpfHold (ps_generation p))) as [->|Ht]; [|by left].
    right. cbn in Hd. rewrite Hp in Hd. cbn in Hd. rewrite decide_True in Hd by done.
    simplify_eq. by left. }
  fold (spf_fired cp) in Hh.
  destruct (recompute_routes _) as [[c r]|] eqn:Er; cbn in Hh; [|done].
  pose proof (spf_due_frame cp r c _ Er eq_refl) as (Hpend & Hl & Hm).
  destruct (recompute_topic_ads c) as [c' ads]; simplify_eq. cbn in *.
  left. destruct t as [l|g|ep sq|o ep sq]; cbn in *; rewrite ?Hpend, ?Hl, ?Hm in Hd; done.
Qed.

Lemma expire_timer_armed cp now o ep sq cp' acts t at_ :
  cp_ok cp → handle_expire_timer cp now o ep sq = Some (cp', acts) → deadline cp' t = Some at_ →
  deadline cp t = Some at_ ∧ t ≠ CtLsaExpire o ep sq ∨ CaSetTimer t at_ ∈ acts.
Proof.
  intros Hok Hh Hd. unfold handle_expire_timer in Hh.
  destruct (lsdb cp !! o) as [e|] eqn:He.
  2: { simplify_eq. left. split; [done|]. intros ->. cbn in Hd. by rewrite He in Hd. }
  destruct (decide (entry_version e = (ep, sq))) as [Ev|Ev].
  2: { simplify_eq. left. split; [done|]. intros ->. cbn in Hd. rewrite He in Hd. cbn in Hd.
       by rewrite decide_False in Hd. }
  destruct (active e) as [a|] eqn:Ea.
  2: { simplify_eq. left. split; [done|]. intros ->. cbn in Hd. rewrite He in Hd. cbn in Hd.
       by rewrite decide_True, Ea in Hd. }
  destruct (now <? expires_at a).
  { simplify_eq. destruct (decide (t = CtLsaExpire o ep sq)) as [->|Ht]; [|by left].
    right. cbn in Hd. rewrite He in Hd. cbn in Hd. rewrite decide_True, Ea in Hd by done.
    simplify_eq/=. by left. }
  fold (expired cp o e) in Hh.
  destruct (mark_spf_dirty _ _) as [[c x]|] eqn:Em; simplify_eq/=.
  destruct (expired_ok cp o e Hok He) as [Hok1 _].
  destruct (mark_armed _ _ _ _ _ _ (db_spf _ (cp_db _ Hok1)) Em Hd) as [Hd1| ->];
    [|right; by apply list_elem_of_singleton].
  left. destruct (expired_armed _ _ _ _ _ He Hd1). by rewrite Ev in *.
Qed.

Lemma refresh_timer_armed cp now ep sq cp' acts t at_ :
  cp_ok cp → handle_refresh_timer cp now ep sq = Some (cp', acts) →
  deadline cp' t = Some at_ →
  deadline cp t = Some at_ ∧ CeTimer (CtLsaRefresh ep sq) ≠ CeTimer t ∨
  CaSetTimer t at_ ∈ acts.
Proof.
  intros Hok Hh Hd. unfold handle_refresh_timer in Hh.
  destruct (is_current cp ep sq) eqn:Ec.
  - destruct (originate_armed _ _ _ _ _ _ (cp_db _ Hok) Hh Hd) as [[? Hr]|?];
      [left|by right]. split; [done|]. by intros [= <-].
  - simplify_eq. left. split; [done|]. intros [= <-]. cbn in Hd. unfold is_current in Ec.
    destruct (lsdb cp' !! me cp') as [ent|]; [|done]. cbn in Hd.
    case_decide as Ev; [|done]. rewrite bool_decide_eq_true_2 in Ec by done.
    by destruct (active ent).
Qed.

(** Which other parts a timer leaves alone. *)
Lemma spf_timer_frame cp now g cp' acts :
  handle_spf_timer cp now g = Some (cp', acts) →
  local_adjacencies cp' = local_adjacencies cp ∧ lsdb cp' = lsdb cp.
Proof.
  unfold handle_spf_timer, recompute_routes, recompute_topic_ads. intros Hh.
  destruct (pending_spf cp) as [p|]; [|by simplify_eq].
  destruct (negb _); [by simplify_eq|]. destruct (now <? _); [by simplify_eq|].
  destruct (shortest_paths _); cbn [mbind option_bind] in Hh; [|done].
  destruct (decide (_ = table_routes _)); [|destruct (checked_add _ _ _)];
    cbn [mbind option_bind] in Hh; try done;
    destruct (decide (_ = published_topic_ads _)); by simplify_eq/=.
Qed.
Lemma expire_timer_frame cp now o ep sq cp' acts :
  handle_expire_timer cp now o ep sq = Some (cp', acts) →
  local_adjacencies cp' = local_adjacencies cp ∧
  (lsdb cp' = lsdb cp ∨
   ∃ e a, lsdb cp !! o = Some e ∧ active e = Some a ∧ entry_version e = (ep, sq) ∧
     expires_at a ≤ now ∧ lsdb cp' = lsdb (expired cp o e)).
Proof.
  unfold handle_expire_timer. intros Hh.
  destruct (lsdb cp !! o) as [e|]; [|simplify_eq; by auto].
  case_decide; [|simplify_eq; by auto]. destruct (active e) as [a|] eqn:Ea; [|simplify_eq; by auto].
  destruct (Z.ltb_spec now (expires_at a)); [simplify_eq; by auto|].
  destruct (mark_spf_dirty _ _) as [[c x]|] eqn:Em; simplify_eq/=.
  destruct (mark_spf_dirty_frame _ _ _ _ Em) as (? & ? & ? & ->). split; [done|].
  right. exists e, a. by split_and!.
Qed.

Lemma deadline_armed cp now e cp' acts t at_ :
  cp_ok cp → cp_handle cp now e = Some (cp', acts) → deadline cp' t = Some at_ →
  deadline cp t = Some at_ ∧ e ≠ CeTimer t ∨ CaSetTimer t at_ ∈ acts.
Proof.
  intros Hok He Hd. pose proof (cp_db _ Hok) as Hdb.
  destruct e as [l p c|l|ads|l [m|es|os]|[l|g|ep sq|o ep sq]]; cbn [cp_handle] in He.
  - destruct (originate_lsa _ _) as [[c' a]|] eqn:Eo; simplify_eq/=. rewrite elem_of_app.
    destruct (originate_armed _ _ _ _ _ _ (db_ok_set_adjacencies cp _ Hdb) Eo Hd)
      as [[? _]|?]; [by left|by auto].
  - destruct (local_adjacencies cp !! l); [|simplify_eq; by left].
    destruct (originate_armed _ _ _ _ _ _ (db_ok_set_adjacencies cp _ Hdb) He Hd)
      as [[? _]|?]; [by left|by auto].
  - destruct (_ || _) eqn:Eg; [simplify_eq; by left|].
    apply orb_false_iff in Eg as [Ev%negb_false_iff _].
    pose proof (db_ok_set_topics cp _ Hdb Ev (osort_sorted ads)) as Hdb'.
    destruct (originate_armed _ _ _ _ _ _ Hdb' He Hd) as [[? _]|?]; [by left|by auto].
  - destruct (decide (admits cp l m)) as [Ha|Ha].
    + rewrite (receive_lsa_accept _ _ _ _ Ha) in He.
      destruct (received_ok _ _ _ now Hok Ha) as [Hok1 _].
      destruct (mark_spf_dirty _ _) as [[c x]|] eqn:Em; simplify_eq/=.
      unfold push_opt. rewrite !elem_of_app.
      destruct (mark_armed _ _ _ _ _ _ (db_spf _ (cp_db _ Hok1)) Em Hd) as [Hd1| ->].
      * destruct (received_armed _ _ _ _ _ _ Ha Hd1) as [?|[-> ->]]; [by left|].
        right. left. right. by left.
      * right. right. by left.
    + destruct (receive_lsa_reject cp now l m Ha) as (? & E & _). simplify_eq. by left.
  - destruct (receive_digest _ _ _); simplify_eq/=. by left.
  - simplify_eq. by left.
  - simplify_eq. left. split; [done|]. by intros [= <-].
  - destruct (spf_timer_armed _ _ _ _ _ _ _ He Hd) as [[? ?]|?]; [left|by right].
    split; [done|congruence].
  - by eapply refresh_timer_armed.
  - destruct (expire_timer_armed _ _ _ _ _ _ _ _ _ Hok He Hd) as [[? ?]|?]; [left|by right].
    split; [done|congruence].
Qed.

Lemma digest_armed cp now e cp' acts l :
  cp_ok cp → cp_handle cp now e = Some (cp', acts) → is_Some (local_adjacencies cp' !! l) →
  is_Some (local_adjacencies cp !! l) ∧ e ≠ CeTimer (CtDigest l) ∨
  CaSetTimer (CtDigest l) (sat_add 64 now DIGEST_INTERVAL_MS) ∈ acts.
Proof.
  intros Hok He Hl. pose proof (cp_db _ Hok) as Hdb.
  destruct e as [k p c|k|ads|k [m|es|os]|[k|g|ep sq|o ep sq]]; cbn [cp_handle] in He.
  - destruct (originate_lsa _ _) as [[c' a]|] eqn:Eo; simplify_eq/=.
    destruct (originate_spec _ _ _ _ (db_ok_set_adjacencies cp _ Hdb) Eo)
      as (? & ? & ? & ? & -> & _). cbn in Hl.
    destruct (decide (k = l)) as [<-|Hne].
    + right. apply elem_of_app. right. right. by left.
    + rewrite lookup_insert_ne in Hl by done. by left.
  - destruct (local_adjacencies cp !! k) eqn:El; [|simplify_eq; by left].
    destruct (originate_spec _ _ _ _ (db_ok_set_adjacencies cp _ Hdb) He)
      as (? & ? & ? & ? & -> & _). cbn in Hl. destruct Hl as [y Hl].
    apply lookup_delete_Some in Hl as [_ ?]. left. split; [by eexists|done].
  - destruct (_ || _) eqn:Eg; [simplify_eq; by left|].
    apply orb_false_iff in Eg as [Ev%negb_false_iff _].
    pose proof (db_ok_set_topics cp _ Hdb Ev (osort_sorted ads)) as Hdb'.
    destruct (originate_spec _ _ _ _ Hdb' He) as (? & ? & ? & ? & -> & _). by left.
  - destruct (decide (admits cp k m)) as [Ha|Ha].
    + rewrite (receive_lsa_accept _ _ _ _ Ha) in He.
      destruct (mark_spf_dirty _ _) as [[c act]|] eqn:Em; simplify_eq/=.
      destruct (mark_spf_dirty_frame _ _ _ _ Em) as (? & ? & ? & ->). by left.
    + destruct (receive_lsa_reject cp now k m Ha) as (? & E & _). simplify_eq. by left.
  - destruct (receive_digest _ _ _); simplify_eq/=. by left.
  - simplify_eq. by left.
  - simplify_eq. unfold handle_digest_timer.
    destruct (decide (k = l)) as [<-|Hne]; [|left; split; [done|congruence]].
    right. rewrite bool_decide_eq_false_2 by by apply not_eq_None_Some. right. by left.
  - destruct (spf_timer_frame _ _ _ _ _ He) as [<- _]. by left.
  - unfold handle_refresh_timer in He. destruct (is_current cp ep sq); [|simplify_eq; by left].
    destruct (originate_spec _ _ _ _ Hdb He) as (? & ? & ? & ? & -> & _). by left.
  - destruct (expire_timer_frame _ _ _ _ _ _ _ He) as [<- _]. by left.
Qed.

(** No obligation is ever without a timer.  After any event, a pending SPF
    run, the expiry of an active LSA and the refresh of the node's own LSA
    either were due at the same time before the event, with a timer the event
    did not consume, or the event sets that timer; likewise every link that
    is up keeps its periodic digest timer. *)
Theorem timers_armed cp now e cp' acts :
  reachable cp → cp_handle cp now e = Some (cp', acts) →
  (∀ t at_, deadline cp' t = Some at_ →
     deadline cp t = Some at_ ∧ e ≠ CeTimer t ∨ CaSetTimer t at_ ∈ acts) ∧
  (∀ l, is_Some (local_adjacencies cp' !! l) →
     is_Some (local_adjacencies cp !! l) ∧ e ≠ CeTimer (CtDigest l) ∨
     CaSetTimer (CtDigest l) (sat_add 64 now DIGEST_INTERVAL_MS) ∈ acts).
Proof.
  intros Hok%reachable_ok He. split; intros; [by eapply deadline_armed|by eapply digest_armed].
Qed.

(** ** Expiry *)

(** What one event does to the database: nothing, a new active entry, or one
    expiry. *)
Lemma lsdb_step cp now e cp' acts :
  cp_ok cp → cp_handle cp now e = Some (cp', acts) →
  lsdb cp' = lsdb cp ∨
  (∃ o m, lsdb cp' = <[o := active_entry m now]> (lsdb cp)) ∨
  (∃ o ep sq ent a, e = CeTimer (CtLsaExpire o ep sq) ∧ lsdb cp !! o = Some ent ∧
     active ent = Some a ∧ entry_version ent = (ep, sq) ∧ expires_at a ≤ now ∧
     lsdb cp' = lsdb (expired cp o ent)).
Proof.
  intros Hok He. pose proof (cp_db _ Hok) as Hdb.
  assert (Horig : ∀ c cp' acts, db_ok c → lsdb c = lsdb cp → originate_lsa c now = Some (cp', acts) →
    ∃ o m, lsdb cp' = <[o := active_entry m now]> (lsdb cp)).
  { intros c c' a Hc Hl Ho. destruct (originate_spec _ _ _ _ Hc Ho) as (? & ? & ? & ? & -> & _).
    cbn. rewrite Hl. eauto. }
  destruct e as [l p c|l|ads|l [m|es|os]|[l|g|ep sq|o ep sq]]; cbn [cp_handle] in He.
  - destruct (originate_lsa _ _) as [[c' a]|] eqn:Eo; simplify_eq/=. right. left.
    exact (Horig _ _ _ (db_ok_set_adjacencies cp _ Hdb) eq_refl Eo).
  - destruct (local_adjacencies cp !! l); [|simplify_eq; by left]. right. left.
    exact (Horig _ _ _ (db_ok_set_adjacencies cp _ Hdb) eq_refl He).
  - destruct (_ || _) eqn:Eg; [simplify_eq; by left|]. right. left.
    apply orb_false_iff in Eg as [Ev%negb_false_iff _].
    exact (Horig _ _ _ (db_ok_set_topics cp _ Hdb Ev (osort_sorted ads)) eq_refl He).
  - destruct (decide (admits cp l m)) as [Ha|Ha].
    + rewrite (receive_lsa_accept _ _ _ _ Ha) in He.
      destruct (mark_spf_dirty _ _) as [[c act]|] eqn:Em; simplify_eq/=.
      destruct (mark_spf_dirty_frame _ _ _ _ Em) as (? & ? & ? & ->). right. left. by do 2 eexists.
    + destruct (receive_lsa_reject cp now l m Ha) as (? & E & _). simplify_eq. by left.
  - destruct (receive_digest _ _ _); simplify_eq/=. by left.
  - simplify_eq. by left.
  - simplify_eq. by left.
  - left. by destruct (spf_timer_frame _ _ _ _ _ He) as [_ ->].
  - unfold handle_refresh_timer in He. destruct (is_current cp ep sq); [|simplify_eq; by left].
    right. left. exact (Horig _ _ _ Hdb eq_refl He).
  - destruct (expire_timer_frame _ _ _ _ _ _ _ He) as [_ [->|(ent & a & Hl & Ha & Hv & Hle & ->)]];
      [by left|].
    right. right. exists o, ep, sq, ent, a. by split_and!.
Qed.

(** C32: An LSA stays active for exactly its time to live: it expires only
    through its own timer and never before [received_at + 1000 * ttl] ms, and
    that timer, once due, always turns the entry into a tombstone of the same
    version and schedules a route computation. *)
Theorem lsa_expiry cp o ent a :
  reachable cp → lsdb cp !! o = Some ent → active ent = Some a →
  expires_at a = sat_add 64 (received_at a) (sat_mul 64 (ttl_sec (lsa (message a))) 1000) ∧
  (∀ now e cp' acts ent',
     cp_handle cp now e = Some (cp', acts) → lsdb cp' !! o = Some ent' → active ent' = None →
     e = CeTimer (CtLsaExpire o (entry_version ent).1 (entry_version ent).2) ∧
     expires_at a ≤ now) ∧
  (∀ now, expires_at a ≤ now → spf_generation cp < u_max 64 →
     ∃ cp' acts,
       cp_handle cp now (CeTimer (CtLsaExpire o (entry_version ent).1 (entry_version ent).2))
         = Some (cp', acts) ∧
       lsdb cp' = <[o := {| entry_version := entry_version ent; entry_state := Tombstone |}]>
                    (lsdb cp) ∧
       is_Some (pending_spf cp')).
Proof.
  intros Hok%reachable_ok Hl Ha. split; [|split].
  - pose proof (db_entries _ (cp_db _ Hok) o ent Hl) as Hent. unfold entry_ok in Hent.
    rewrite Ha in Hent. destruct Hent as (_ & _ & -> & _). done.
  - intros now e cp' acts ent' He Hl' Ha'.
    destruct (lsdb_step _ _ _ _ _ Hok He)
      as [E|[(o' & m & E)|(o' & ep & sq & e0 & a0 & -> & Hl0 & Ha0 & Hv & Hle & E)]];
      rewrite E in Hl'.
    + congruence.
    + destruct (decide (o' = o)) as [->|Hne].
      * rewrite lookup_insert_eq in Hl'. by simplify_eq/=.
      * rewrite lookup_insert_ne in Hl' by done. congruence.
    + cbn in Hl'. destruct (decide (o' = o)) as [->|Hne].
      * simplify_eq. by rewrite Hv.
      * rewrite lookup_insert_ne in Hl' by done. congruence.
  - intros now Hle Hg. cbn [cp_handle]. unfold handle_expire_timer. rewrite Hl.
    rewrite decide_True by (by destruct (entry_version ent)). rewrite Ha.
    rewrite (proj2 (Z.ltb_ge _ _)) by lia. fold (expired cp o ent).
    destruct (expired_ok cp o ent Hok Hl) as [Hok1 _].
    destruct (mark_spf_dirty_spec _ now (db_spf _ (cp_db _ Hok1)) Hg)
      as (p & gen & hold & x & -> & _). cbn [mbind option_bind].
    do 2 eexists. split; [reflexivity|]. split; [done|]. by eexists.
Qed.
End Timers.
