(* ===== verification/ControlActions.v ===== *)
(** * The actions of the control plane, as a runtime sees them

    Every own LSA that is sent has the current sequence number, a new number
    is persisted before anything else is done, and published advertisements
    are valid. *)

From S2P Require Export Prelude Ord Bytes Types ControlTypes Spf Control ControlRoutes ControlInv ControlProps ControlTimers.

Definition ads_valid (ads : list DiscoveredTopicAd) : Prop :=
  Forall (λ d, valid_topic_ad (disc_ad d) = true) ads.

(** An action other than [PersistSeq] of a control plane in state [cp]. *)
Definition plain_action (cp : ControlPlane) (a : ControlAction) : Prop :=
  match a with
  | CaSend _ (CfLsa m) =>
      origin (lsa m) = me cp → epoch (lsa m) = my_epoch cp ∧ seq_no (lsa m) = my_seq cp
  | CaPublishTopicAds ads => ads_valid ads
  | CaPersistSeq _ => False
  | _ => True
  end.

(** The actions of one event: either the sequence number stays, or the new
    one is persisted first. *)
Definition actions_spec (cp cp' : ControlPlane) (acts : list ControlAction) : Prop :=
  (my_seq cp' = my_seq cp ∧ Forall (plain_action cp') acts) ∨
  (my_seq cp' = my_seq cp + 1 ∧ my_seq cp' ≤ u_max 64 ∧
   ∃ rest, acts = CaPersistSeq (my_seq cp') :: rest ∧ Forall (plain_action cp') rest).

Lemma plain_db cp l o e a :
  db_ok cp → lsdb cp !! o = Some e → active e = Some a →
  plain_action cp (send_lsa l (message a)).
Proof.
  intros Hdb He Ha. cbn. intros Ho. pose proof (db_entries _ Hdb o e He) as Hent.
  unfold entry_ok in Hent. rewrite Ha in Hent. destruct Hent as (Hor & Hv & _). rewrite Ho in Hor.
  subst o. rewrite (db_own_version _ Hdb e He) in Hv. by injection Hv as <- <-.
Qed.
Lemma plain_active cp l o a :
  db_ok cp → get_active cp o = Some a → plain_action cp (send_lsa l (message a)).
Proof.
  unfold get_active. intros Hdb Ha. destruct (lsdb cp !! o) as [e|] eqn:E; [|done].
  by eapply plain_db.
Qed.
Lemma plain_push cp l o :
  Forall (plain_action cp) l → (∀ a, o = Some a → plain_action cp a) →
  Forall (plain_action cp) (push_opt l o).
Proof.
  intros Hl Ho. unfold push_opt. apply Forall_app. split; [done|]. destruct o; auto using Forall_nil.
Qed.
Lemma plain_flood cp c m except :
  (origin (lsa m) = me cp → epoch (lsa m) = my_epoch cp ∧ seq_no (lsa m) = my_seq cp) →
  Forall (plain_action cp) (flood c m except).
Proof. intros Hm. unfold flood. by apply Forall_fmap, Forall_true. Qed.

Lemma mark_action cp now cp' a :
  mark_spf_dirty cp now = Some (cp', a) → ∀ x, a = Some x → ∃ g t, x = CaSetTimer (CtSpfHold g) t.
Proof.
  unfold mark_spf_dirty. intros Hm x ->. destruct (_ && _); [by simplify_eq|].
  destruct (checked_add _ _ _); simplify_eq/=. eauto.
Qed.

(** ** Published advertisements *)

Lemma own_topics_valid cp a :
  cp_ok cp → get_active cp (me cp) = Some a → valid_topic_ads (topics (lsa (message a))) = true.
Proof. intros Hok Ha. rewrite (cp_own _ Hok a Ha). apply (db_topics _ (cp_db _ Hok)). Qed.

Lemma valid_ads_each ads ad : valid_topic_ads ads = true → ad ∈ ads → valid_topic_ad ad = true.
Proof.
  unfold valid_topic_ads. intros Hv Hin. bool_prop.
  match goal with H : forallb _ _ = true |- _ => rewrite forallb_forall in H; apply H end.
  by apply list_elem_of_In.
Qed.
Lemma valid_lsa_topics l : valid_lsa l = true → valid_topic_ads (topics l) = true.
Proof. unfold valid_lsa. intros H. bool_prop. done. Qed.

Lemma discovered_valid cp : cp_ok cp → ads_valid (discovered_topics cp).
Proof.
  intros Hok. apply Forall_forall. intros d Hd. unfold discovered_topics in Hd.
  rewrite osort_perm in Hd. apply list_elem_of_join in Hd as (l & Hd & Hl).
  apply list_elem_of_omap in Hl as ([o e] & He%elem_of_btree_iter & Hl).
  destruct (active e) as [a|] eqn:Ha; simplify_eq/=.
  apply list_elem_of_fmap in Hd as (ad & -> & Had). cbn.
  eapply valid_ads_each; [|exact Had].
  destruct (decide (o = me cp)) as [->|Ho].
  - apply (own_topics_valid cp a Hok). unfold get_active. by rewrite He.
  - pose proof (db_entries _ (cp_db _ Hok) o e He) as Hent. unfold entry_ok in Hent.
    rewrite Ha in Hent. apply valid_lsa_topics. by apply Hent.
Qed.

(** ** Every event *)

Section Handlers.
Context `{LsaAuthLaws}.

Lemma originate_actions cp now cp' acts rest :
  db_ok cp → originate_lsa cp now = Some (cp', acts) → Forall (plain_action cp') rest →
  actions_spec cp cp' (acts ++ rest).
Proof.
  intros Hdb Ho Hrest. destruct (originate_spec _ _ _ _ Hdb Ho)
    as (p & gen & hold & a & -> & _ & Ha & Hmax & ->). right. split; [done|]. split; [cbn; lia|].
  eexists. split; [reflexivity|]. apply Forall_app. split; [|done].
  assert (Hown : lsa (own_message cp) = local_lsa (bumped cp)) by apply sign_lsa.
  apply plain_push.
  - apply Forall_app. split; [|by repeat constructor]. apply plain_flood. intros _.
    by rewrite Hown.
  - intros x ->. by destruct Ha as [[_ ?]|[[= ->] _]].
Qed.

Lemma receive_actions cp now incoming m cp' acts :
  cp_ok cp → receive_lsa cp now incoming m = Some (cp', acts) →
  my_seq cp' = my_seq cp ∧ Forall (plain_action cp') acts.
Proof.
  intros Hok Hr. destruct (decide (admits cp incoming m)) as [Ha|Ha].
  - rewrite (receive_lsa_accept _ _ _ _ Ha) in Hr.
    destruct (mark_spf_dirty _ _) as [[c act]|] eqn:Em; simplify_eq/=.
    pose proof (mark_action _ _ _ _ Em) as Hact.
    destruct (mark_spf_dirty_frame _ _ _ _ Em) as (pn & gn & hn & ->). split; [done|].
    apply plain_push.
    + apply Forall_app. split; [|by repeat constructor]. apply plain_flood.
      intros Ho. by destruct Ha as (_ & _ & _ & ? & _).
    + intros y Hy. by destruct (Hact y Hy) as (? & ? & ->).
  - destruct (receive_lsa_reject cp now incoming m Ha) as (acts' & E & Hacts). simplify_eq.
    split; [done|]. destruct Hacts as [->|(e & a & He & _ & Hact & ->)]; [done|].
    apply Forall_singleton. by eapply plain_db; [apply (cp_db _ Hok)|..].
Qed.

Lemma digest_actions cp incoming entries acts :
  cp_ok cp → receive_digest cp incoming entries = Some acts → Forall (plain_action cp) acts.
Proof.
  intros Hok Hr.
  destruct (local_adjacencies cp !! incoming) as [adj|] eqn:Hl.
  2: { unfold receive_digest in Hr. rewrite bool_decide_eq_true_2 in Hr by done.
       injection Hr as <-. constructor. }
  destruct (decide (zlen entries ≤ MAX_DIGEST_ENTRIES)) as [Hlen|Hlen].
  2: { unfold receive_digest in Hr. rewrite (proj2 (Z.ltb_lt _ _)), orb_true_r in Hr by lia.
       injection Hr as <-. constructor. }
  rewrite receive_digest_spec in Hr by eauto. simplify_eq. apply Forall_app. split.
  - apply Forall_fmap, Forall_forall. intros m (o & _ & Hm)%list_elem_of_omap. cbn.
    unfold offered in Hm. destruct (lsdb cp !! o) as [e|] eqn:He; cbn in Hm; [|done].
    case_match; [|done]. destruct (active e) as [a|] eqn:Ha; simplify_eq/=.
    by apply (plain_db cp incoming o e a (cp_db _ Hok)).
  - unfold request. by destruct (filter _ _); repeat constructor.
Qed.

Lemma spf_actions cp now g cp' acts :
  cp_ok cp → handle_spf_timer cp now g = Some (cp', acts) →
  my_seq cp' = my_seq cp ∧ Forall (plain_action cp') acts.
Proof.
  intros Hok Hh. pose proof (discovered_valid cp Hok) as Hv. revert Hh.
  unfold handle_spf_timer, recompute_routes, recompute_topic_ads. intros Hh.
  destruct (pending_spf cp) as [p|]; [|by simplify_eq].
  destruct (negb _); [by simplify_eq|]. destruct (now <? _).
  { simplify_eq. split; [done|]. by repeat constructor. }
  destruct (shortest_paths _); cbn [mbind option_bind] in Hh; [|done].
  destruct (decide (_ = table_routes _)); [|destruct (checked_add _ _ _)];
    cbn [mbind option_bind] in Hh; try done;
    destruct (decide (_ = published_topic_ads _)); simplify_eq/=; split; try done;
    by repeat constructor.
Qed.

Lemma expire_actions cp now o ep sq cp' acts :
  handle_expire_timer cp now o ep sq = Some (cp', acts) →
  my_seq cp' = my_seq cp ∧ Forall (plain_action cp') acts.
Proof.
  unfold handle_expire_timer. intros Hh.
  destruct (lsdb cp !! o) as [e|]; [|by simplify_eq].
  case_decide; [|by simplify_eq]. destruct (active e) as [a|]; [|by simplify_eq].
  destruct (now <? _); [simplify_eq; by repeat constructor|].
  destruct (mark_spf_dirty _ _) as [[c x]|] eqn:Em; simplify_eq/=.
  pose proof (mark_action _ _ _ _ Em) as Hact.
  destruct (mark_spf_dirty_frame _ _ _ _ Em) as (pn & gn & hn & ->). split; [done|].
  apply plain_push; [done|]. intros z Hz. by destruct (Hact z Hz) as (? & ? & ->).
Qed.

Lemma handle_actions cp now e cp' acts :
  cp_ok cp → cp_handle cp now e = Some (cp', acts) → actions_spec cp cp' acts.
Proof.
  intros Hok He. pose proof (cp_db _ Hok) as Hdb.
  destruct e as [l p c|l|ads|l [m|es|os]|[l|g|ep sq|o ep sq]]; cbn [cp_handle] in He.
  - destruct (originate_lsa _ _) as [[c' a]|] eqn:Eo; simplify_eq/=.
    by eapply (originate_actions (set_adjacencies cp _));
      [apply db_ok_set_adjacencies| |repeat constructor].
  - destruct (local_adjacencies cp !! l); [|left; by simplify_eq].
    rewrite <-(app_nil_r acts).
    by eapply (originate_actions (set_adjacencies cp _)); [apply db_ok_set_adjacencies|..].
  - destruct (_ || _) eqn:Eg; [left; by simplify_eq|].
    apply orb_false_iff in Eg as [Ev%negb_false_iff _]. rewrite <-(app_nil_r acts).
    eapply (originate_actions (set_local_topic_ads cp _)); [|done..].
    apply db_ok_set_topics; auto using osort_sorted.
  - left. by eapply receive_actions.
  - destruct (receive_digest _ _ _) as [a|] eqn:Er; simplify_eq/=. left.
    split; [done|]. by eapply digest_actions.
  - simplify_eq. left. split; [done|]. unfold receive_digest_req. case_match; [done|].
    apply Forall_forall. intros x (o & _ & Hx)%list_elem_of_omap.
    destruct (get_active cp' o) as [a|] eqn:Ea; simplify_eq/=. by eapply plain_active.
  - simplify_eq. left. split; [done|]. unfold handle_digest_timer.
    case_match; by repeat constructor.
  - left. by eapply spf_actions.
  - unfold handle_refresh_timer in He. destruct (is_current cp ep sq); [|left; by simplify_eq].
    rewrite <-(app_nil_r acts). by eapply originate_actions.
  - left. by eapply expire_actions.
Qed.
End Handlers.
