(* ===== verification/ControlSync.v ===== *)
(** * Anti-entropy between two nodes

    One exchange of a digest, its answers and the answers to its request, run
    through the handlers of both control planes. *)

From S2P Require Export Prelude Ord Bytes Types ControlTypes Spf Control ControlRoutes ControlInv ControlProps.

(** The LSAs and the request among the actions of a node. *)
Definition sent_lsas (acts : list ControlAction) : list LsaMessage :=
  omap (λ a, match a with CaSend _ (CfLsa m) => Some m | _ => None end) acts.
Definition sent_requests (acts : list ControlAction) : list (list NodeId) :=
  omap (λ a, match a with CaSend _ (CfDigestReq os) => Some os | _ => None end) acts.
(** Their arrival at the other end of the link. *)
Definition arrivals (link : LinkId) (now : MonoTime) (ms : list LsaMessage) :
  list (MonoTime * ControlEvent) :=
  (λ m, (now, CeFrame link (CfLsa m))) <$> ms.

(** ** What is sent *)

Lemma lookup_digest_versions cp o :
  remote_versions (digest cp) !! o = entry_version <$> lsdb cp !! o.
Proof.
  assert (Hin : ∀ e, e ∈ digest cp ↔ ∃ ent, lsdb cp !! de_origin e = Some ent ∧
    de_version e = entry_version ent).
  { intros [o' ep sq]. unfold digest. rewrite list_elem_of_fmap. split.
    - intros ([k ent] & [= -> -> ->] & Hk). apply elem_of_btree_iter in Hk.
      exists ent. split; [done|]. cbn. by destruct (entry_version ent).
    - cbn. intros (ent & Hl & Hv). exists (o', ent). rewrite elem_of_btree_iter. split; [|done].
      cbn. unfold de_version in Hv. cbn in Hv. by rewrite <-Hv. }
  destruct (lsdb cp !! o) as [ent|] eqn:El; cbn.
  - apply lookup_remote_versions. split.
    + exists {| de_origin := o; de_epoch := (entry_version ent).1;
                de_seq := (entry_version ent).2 |}.
      split; [apply Hin; exists ent; split; [done|]|split; [done|]];
        unfold de_version; cbn; by destruct (entry_version ent).
    + intros e He Ho. apply Hin in He as (ent' & Hl & ->). rewrite Ho in Hl.
      rewrite El in Hl. by injection Hl as <-.
  - apply remote_versions_None. intros e He Ho. apply Hin in He as (ent' & Hl & _).
    rewrite Ho in Hl. congruence.
Qed.
Lemma length_digest cp : zlen (digest cp) = lsdb_len cp.
Proof. unfold digest, zlen, lsdb_len. by rewrite length_fmap, length_btree_iter. Qed.

Lemma sent_lsas_send link ms rq :
  sent_lsas ((send_lsa link <$> ms) ++ request link rq) = ms.
Proof.
  unfold sent_lsas. rewrite omap_app. assert (omap _ (request link rq) = []) as ->.
  { by destruct rq. }
  rewrite app_nil_r. induction ms as [|m ms IH]; [done|]. cbn. by rewrite IH.
Qed.
Lemma sent_requests_send link ms rq :
  sent_requests ((send_lsa link <$> ms) ++ request link rq) =
  match rq with [] => [] | _ => [rq] end.
Proof.
  unfold sent_requests. rewrite omap_app. assert (omap _ (send_lsa link <$> ms) = []) as ->.
  { by induction ms as [|m ms IH]. }
  by destruct rq.
Qed.

(** ** What is learnt *)

Section Learn.
Context `{LsaAuthLaws}.

(** [cp] would accept the LSA if it were newer. *)
Definition acceptable (cp : ControlPlane) (m : LsaMessage) : Prop :=
  valid_lsa (lsa m) = true ∧ verify m = true ∧ origin (lsa m) ≠ me cp.
Definition learnt (cp : ControlPlane) (m : LsaMessage) : Prop :=
  ∃ e, lsdb cp !! origin (lsa m) = Some e ∧ ole (lsa_version (lsa m)) (entry_version e).

Lemma learnt_mono cp cp' m : lsdb_le cp cp' → learnt cp m → learnt cp' m.
Proof.
  intros [_ Hle] (e & He & Hv). destruct (Hle _ _ He) as (e' & He' & [Hlt|[Heq _]]).
  - exists e'. split; [done|]. etrans; [done|by apply olt_le].
  - exists e'. by rewrite <-Heq.
Qed.

Lemma receive_learns cp now link m cp' acts :
  cp_ok cp → is_Some (local_adjacencies cp !! link) →
  cp_handle cp now (CeFrame link (CfLsa m)) = Some (cp', acts) →
  local_adjacencies cp' = local_adjacencies cp ∧
  dom (lsdb cp') ⊆ {[origin (lsa m)]} ∪ dom (lsdb cp) ∧
  (acceptable cp m → (size ({[origin (lsa m)]} ∪ dom (lsdb cp)) ≤ 1000)%nat → learnt cp' m).
Proof.
  intros Hok Hl He. cbn [cp_handle] in He. destruct (decide (admits cp link m)) as [Ha|Ha].
  - rewrite (receive_lsa_accept _ _ _ _ Ha) in He.
    destruct (mark_spf_dirty _ _) as [[c x]|] eqn:Em; simplify_eq/=.
    destruct (mark_spf_dirty_frame _ _ _ _ Em) as (? & ? & ? & ->). cbn.
    split; [done|]. rewrite dom_insert_L. split; [done|]. intros _ _.
    exists (active_entry m now). cbn. by rewrite lookup_insert_eq.
  - destruct (receive_lsa_reject cp now link m Ha) as (? & E & _). simplify_eq.
    split; [done|]. split; [set_solver|]. intros (Hv & Hs & Ho) Hroom.
    destruct (lsdb cp' !! origin (lsa m)) as [e|] eqn:El.
    + exists e. split; [done|]. apply oltb_ge.
      destruct (oltb _ _) eqn:E; [|done]. destruct Ha.
      unfold admits, is_newer. rewrite El. split_and!; try done. left. by eexists.
    + destruct Ha. unfold admits, is_newer. rewrite El. split_and!; try done. right.
      rewrite size_union, size_singleton in Hroom by (apply not_elem_of_dom in El; set_solver).
      unfold lsdb_len, MAX_LSDB_ENTRIES. rewrite <-size_dom. lia.
Qed.

Lemma arrivals_learnt link now ms cp cp' acts :
  cp_ok cp → is_Some (local_adjacencies cp !! link) →
  (size (list_to_set ((λ m, origin (lsa m)) <$> ms) ∪ dom (lsdb cp)) ≤ 1000)%nat →
  run cp (arrivals link now ms) = Some (cp', acts) →
  lsdb_le cp cp' ∧ ∀ m, m ∈ ms → acceptable cp m → learnt cp' m.
Proof.
  revert cp acts. induction ms as [|m ms IH]; intros cp acts Hok Hl Hsz Hrun.
  { cbn in Hrun. simplify_eq. split; [done|]. by intros m ?%not_elem_of_nil. }
  cbn in Hrun. destruct (receive_lsa _ _ _ _) as [[cp1 a]|] eqn:He; cbn in Hrun; [|done].
  destruct (run cp1 _) as [[cp2 b]|] eqn:Hr; simplify_eq/=.
  change (cp_handle cp now (CeFrame link (CfLsa m)) = Some (cp1, a)) in He.
  destruct (handle_ok _ _ _ _ _ Hok He) as [Hok1 Hle1].
  destruct (receive_learns _ _ _ _ _ _ Hok Hl He) as (Ha1 & Hd1 & Hlearn).
  destruct (IH cp1 b Hok1) as [Hle2 Hall]; [by rewrite Ha1| |exact Hr|].
  { etrans; [apply subseteq_size|exact Hsz]. set_solver. }
  split; [by etrans|]. intros m' [->|Hm]%elem_of_cons Hacc.
  - apply (learnt_mono cp1); [done|]. apply Hlearn; [done|].
    etrans; [apply subseteq_size|exact Hsz]. set_solver.
  - apply Hall; [done|]. destruct Hacc as (? & ? & ?). destruct Hle1 as [Hm1 _].
    repeat split; [done..|]. by rewrite Hm1.
Qed.
End Learn.

(** ** One exchange *)

Section Round.
Context `{LsaAuthLaws}.

(** [x] is up to date with everything [y] has an active LSA for. *)
Definition caught_up (x y : ControlPlane) : Prop :=
  ∀ o a, get_active y o = Some a → acceptable x (message a) → learnt x (message a).

(** The sequence and generation counters are not about to run out. *)
Definition has_slack (cp : ControlPlane) : Prop :=
  my_seq cp + MAX_LSDB_ENTRIES ≤ u_max 64 ∧ spf_generation cp + MAX_LSDB_ENTRIES ≤ u_max 64.

Lemma active_version cp o a :
  cp_ok cp → get_active cp o = Some a →
  ∃ e, lsdb cp !! o = Some e ∧ active e = Some a ∧ origin (lsa (message a)) = o ∧
    entry_version e = lsa_version (lsa (message a)).
Proof.
  intros Hok Ha. unfold get_active in Ha. destruct (lsdb cp !! o) as [e|] eqn:El; [|done].
  cbn in Ha. exists e. pose proof (db_entries _ (cp_db _ Hok) o e El) as He.
  unfold entry_ok in He. rewrite Ha in He. naive_solver.
Qed.

(** The messages one side sends are active LSAs of its own database. *)
Definition from_db (cp : ControlPlane) (ms : list LsaMessage) : Prop :=
  (length ms ≤ size (lsdb cp))%nat ∧
  ∀ m, m ∈ ms → ∃ o a, get_active cp o = Some a ∧ m = message a.

Lemma sync_one x y link now ms :
  cp_ok x → cp_ok y → has_slack x → is_Some (local_adjacencies x !! link) →
  (size (dom (lsdb x) ∪ dom (lsdb y)) ≤ 1000)%nat → from_db y ms →
  (∀ o a, get_active y o = Some a → acceptable x (message a) →
     message a ∈ ms ∨ learnt x (message a)) →
  ∃ x' acts, run x (arrivals link now ms) = Some (x', acts) ∧ caught_up x' y ∧ lsdb_le x x'.
Proof.
  intros Hx Hy [Hs Hg] Hl Hsz [Hlen Hms] Hcov.
  assert (Hz : zlen (arrivals link now ms) ≤ MAX_LSDB_ENTRIES).
  { unfold arrivals, zlen. rewrite length_fmap. pose proof (db_size _ (cp_db _ Hy)) as Hd.
    unfold lsdb_len in Hd. lia. }
  destruct (run_safe x (arrivals link now ms) Hx) as (x' & acts & Hrun & _); [lia..|].
  destruct (arrivals_learnt link now ms x x' acts Hx Hl) as [Hle Hall]; [|done|].
  { etrans; [apply subseteq_size|exact Hsz]. intros o [Ho|Ho]%elem_of_union; [|set_solver].
    apply elem_of_list_to_set, list_elem_of_fmap in Ho as (m & -> & Hm).
    destruct (Hms m Hm) as (o & a & Ha & ->).
    destruct (active_version y o a Hy Ha) as (e & He & _ & -> & _).
    apply elem_of_union. right. apply elem_of_dom. by eexists. }
  exists x', acts. split; [done|]. split; [|done]. intros o a Ha Hacc.
  assert (Hacc' : acceptable x (message a)).
  { destruct Hacc as (? & ? & Hne), Hle as [Hm _]. by rewrite Hm in Hne. }
  destruct (Hcov o a Ha Hacc') as [Hin|Hin]; [by apply Hall|by apply (learnt_mono x)].
Qed.

Lemma omap_db_length {B} cp (f : NodeId → option B) (l : list NodeId) :
  NoDup l → (∀ o, is_Some (f o) → is_Some (lsdb cp !! o)) →
  (length (omap f l) ≤ size (lsdb cp))%nat.
Proof.
  intros Hnd Hf. rewrite <-size_dom.
  assert (length (omap f l) = length (filter (λ o, is_Some (f o)) l)) as ->.
  { clear Hnd. induction l as [|o l IH]; [done|]. rewrite filter_cons. cbn.
    destruct (f o) eqn:E; [rewrite decide_True by by eexists|rewrite decide_False by by intros []].
    - cbn. by rewrite IH.
    - done. }
  rewrite <-(size_list_to_set (C:=gset NodeId) _ (NoDup_filter _ _ Hnd)). apply subseteq_size.
  intros o Ho%elem_of_list_to_set. apply list_elem_of_filter in Ho as [Ho _].
  by apply elem_of_dom, Hf.
Qed.

(** What [y] answers a digest of [x] with. *)
Lemma offered_from_db x y :
  from_db y (omap (offered y (remote_versions (digest x))) (known_origins y (digest x))).
Proof.
  assert (Hoff : ∀ o m, offered y (remote_versions (digest x)) o = Some m →
    ∃ a, get_active y o = Some a ∧ m = message a).
  { intros o m. unfold offered, get_active. destruct (lsdb y !! o) as [e|]; [|done]. cbn.
    destruct (match _ with Some _ => _ | None => _ end); [|done].
    destruct (active e) as [a|]; [|done]. intros [= <-]. by exists a. }
  split.
  - apply omap_db_length; [apply bset_iter_NoDup|]. intros o [m Hm].
    destruct (Hoff o m Hm) as (a & Ha & _). unfold get_active in Ha.
    destruct (lsdb y !! o); [by eexists|done].
  - intros m (o & _ & Ho)%list_elem_of_omap. exists o. by apply Hoff.
Qed.
Lemma offered_covers x y o a :
  cp_ok y → get_active y o = Some a →
  message a ∈ omap (offered y (remote_versions (digest x))) (known_origins y (digest x)) ∨
  learnt x (message a).
Proof.
  intros Hy Ha. destruct (active_version y o a Hy Ha) as (e & He & Hact & Ho & Hv).
  destruct (offered y (remote_versions (digest x)) o) as [m|] eqn:Eo.
  - left. apply list_elem_of_omap. exists o. rewrite elem_of_known_origins.
    split; [left; by eexists|]. rewrite Eo. unfold offered in Eo. rewrite He in Eo. cbn in Eo.
    destruct (match _ with Some _ => _ | None => _ end); [|done].
    rewrite Hact in Eo. by simplify_eq/=.
  - right. unfold offered in Eo. rewrite He in Eo. cbn in Eo.
    rewrite lookup_digest_versions, Hact in Eo.
    destruct (lsdb x !! o) as [ex|] eqn:Ex; [|done]. cbn in Eo.
    destruct (oltb _ _) eqn:Elt; [done|]. apply oltb_ge in Elt. exists ex.
    by rewrite Ho, Ex, <-Hv.
Qed.

(** What [x] answers the request of [y] with. *)
Definition requested (x y : ControlPlane) : list NodeId :=
  filter (wanted y (remote_versions (digest x))) (known_origins y (digest x)).
Definition supplied (x y : ControlPlane) : list LsaMessage :=
  omap (λ o, message <$> get_active x o) (bset_iter (list_to_set (requested x y))).

Lemma requested_length x y : zlen (requested x y) ≤ lsdb_len x.
Proof.
  unfold zlen, lsdb_len. apply inj_le. rewrite <-size_dom.
  rewrite <-(size_list_to_set (C:=gset NodeId) (requested x y)).
  - apply subseteq_size. intros o Ho%elem_of_list_to_set.
    apply list_elem_of_filter in Ho as [[_ Hw] _]. apply elem_of_dom.
    rewrite lookup_digest_versions in Hw. by destruct (lsdb x !! o).
  - apply NoDup_filter, bset_iter_NoDup.
Qed.
Lemma supplied_from_db x y : from_db x (supplied x y).
Proof.
  split.
  - apply omap_db_length; [apply bset_iter_NoDup|]. intros o [m Hm]. unfold get_active in Hm.
    destruct (lsdb x !! o); [by eexists|done].
  - intros m (o & _ & (a & Ha & ->)%fmap_Some)%list_elem_of_omap. eauto.
Qed.
Lemma supplied_covers x y o a :
  cp_ok x → get_active x o = Some a → acceptable y (message a) →
  message a ∈ supplied x y ∨ learnt y (message a).
Proof.
  intros Hx Ha (_ & _ & Hne). destruct (active_version x o a Hx Ha) as (e & He & _ & Ho & Hv).
  rewrite Ho in Hne. destruct (decide (o ∈ requested x y)) as [Hin|Hout].
  - left. apply list_elem_of_omap. exists o. rewrite elem_of_bset_iter, elem_of_list_to_set.
    by rewrite Ha.
  - right. destruct (lsdb y !! o) as [ey|] eqn:Ey.
    + exists ey. rewrite Ho. split; [done|]. rewrite <-Hv. apply oltb_ge.
      destruct (oltb _ _) eqn:Elt; [|done]. destruct Hout. apply oltb_lt in Elt.
      apply list_elem_of_filter. rewrite elem_of_known_origins. unfold wanted.
      rewrite lookup_digest_versions, He, Ey. cbn. split; [done|]. left. by eexists.
    + destruct Hout. apply list_elem_of_filter. rewrite elem_of_known_origins. unfold wanted.
      rewrite lookup_digest_versions, He, Ey. cbn. split; [done|]. right. by eexists.
Qed.
Lemma answer_request x link rq :
  is_Some (local_adjacencies x !! link) → zlen rq ≤ MAX_DIGEST_REQ_ORIGINS →
  sent_lsas (receive_digest_req x link rq) =
  omap (λ o, message <$> get_active x o) (bset_iter (list_to_set rq)).
Proof.
  intros Hl Hz. unfold receive_digest_req.
  rewrite bool_decide_eq_false_2 by by apply not_eq_None_Some.
  rewrite (proj2 (Z.ltb_ge _ _)) by lia. cbn [orb]. generalize (bset_iter (list_to_set rq)).
  intros l. induction l as [|o l IH]; [done|]. cbn.
  destruct (get_active x o); cbn; [by f_equal|done].
Qed.

(** One digest exchange synchronises two neighbours.  [x] sends its digest
    to [y]; [y] answers with LSAs and at most one request; [x] answers the
    request.  When the answers have been delivered, each side has, for every
    LSA that was active at the other and that it can accept, that version or
    a newer one, and no version has gone back. *)
Theorem anti_entropy_round x y link_x link_y now :
  reachable x → reachable y → has_slack x → has_slack y →
  is_Some (local_adjacencies x !! link_x) → is_Some (local_adjacencies y !! link_y) →
  (size (dom (lsdb x) ∪ dom (lsdb y)) ≤ 1000)%nat →
  ∃ answers, receive_digest y link_y (digest x) = Some answers ∧
    (∃ x' acts, run x (arrivals link_x now (sent_lsas answers)) = Some (x', acts) ∧
       caught_up x' y ∧ lsdb_le x x') ∧
    (∃ y' acts,
       run y (arrivals link_y now
                (sent_requests answers ≫= λ rq, sent_lsas (receive_digest_req x link_x rq)))
         = Some (y', acts) ∧
       caught_up y' x ∧ lsdb_le y y').
Proof.
  intros Hx%reachable_ok Hy%reachable_ok Hsx Hsy Hlx Hly Hsz.
  pose proof (db_size _ (cp_db _ Hx)) as Hdx.
  rewrite receive_digest_spec by (rewrite ?length_digest; done).
  eexists. split; [reflexivity|]. rewrite sent_lsas_send, sent_requests_send. split.
  - apply (sync_one x y); auto using offered_from_db.
    intros o a Ha _. by eapply offered_covers.
  - fold (requested x y).
    assert (E : (match requested x y with [] => [] | _ => [requested x y] end
      ≫= λ rq, sent_lsas (receive_digest_req x link_x rq)) = supplied x y).
    { unfold supplied. pose proof (requested_length x y) as Hrl.
      destruct (requested x y) as [|o rq] eqn:Er; [done|]. rewrite <-Er in *.
      cbn. rewrite app_nil_r. apply answer_request; [done|].
      unfold MAX_DIGEST_REQ_ORIGINS. lia. }
    rewrite E. rewrite union_comm_L in Hsz.
    apply (sync_one y x); auto using supplied_from_db.
    intros o a Ha Hacc. by eapply supplied_covers.
Qed.
End Round.

(** ** What one event does to the neighbours

    The sends of the handlers against the database they leave: which LSAs
    become active and where they are flooded, and what an LSA, a digest or a
    request in an incoming frame is answered with. *)

(** The link an event came in on. *)
Definition event_link (e : ControlEvent) : option LinkId :=
  match e with CeFrame l _ => Some l | _ => None end.
(** The links after the event. *)
Definition links_after (m : gmap LinkId LocalAdjacency) (e : ControlEvent) :
  gmap LinkId LocalAdjacency :=
  match e with
  | CeLinkUp l p c => <[l := {| la_peer := p; la_cost := c |}]> m
  | CeLinkDown l => delete l m
  | _ => m
  end.

(** What a frame may carry when it is sent in state [cp]. *)
Definition frame_sendable (cp : ControlPlane) (f : ControlFrame) : Prop :=
  match f with
  | CfLsa m => ∃ a, get_active cp (origin (lsa m)) = Some a ∧ message a = m
  | CfDigest es => es = digest cp
  | CfDigestReq os => zlen os ≤ MAX_DIGEST_REQ_ORIGINS
  end.

Section Effects.
Context `{LsaAuthLaws}.

(** [m] is new in [cp']: the node's next own LSA, or the one that came in. *)
Definition fresh_lsa (cp : ControlPlane) (e : ControlEvent) (cp' : ControlPlane)
    (m : LsaMessage) : Prop :=
  m = sign (local_lsa cp') ∧ my_seq cp' = my_seq cp + 1 ∨
  ∃ l, e = CeFrame l (CfLsa m) ∧ admits cp l m.

Record handled (cp : ControlPlane) (e : ControlEvent) (cp' : ControlPlane)
    (acts : list ControlAction) : Prop := {
  hd_me : me cp' = me cp;
  hd_epoch : my_epoch cp' = my_epoch cp;
  hd_seq : my_seq cp' = my_seq cp ∨
           my_seq cp' = my_seq cp + 1 ∧ event_link e = None ∧
           ∃ a, get_active cp' (me cp) = Some a ∧ message a = sign (local_lsa cp');
  hd_links : local_adjacencies cp' = links_after (local_adjacencies cp) e;
  hd_sends l f : CaSend l f ∈ acts → frame_sendable cp' f;
  hd_active o a : get_active cp' o = Some a →
    get_active cp o = Some a ∨
    fresh_lsa cp e cp' (message a) ∧
    ∀ l, is_Some (local_adjacencies cp' !! l) → Some l ≠ event_link e →
         CaSend l (CfLsa (message a)) ∈ acts;
  hd_entries o e' : lsdb cp' !! o = Some e' →
    is_Some (active e') ∨ ∃ e, lsdb cp !! o = Some e ∧ entry_version e = entry_version e';
}.

(** Nothing but the fields of the SPF and of the tables changes. *)
Lemma handled_quiet cp e cp' acts :
  me cp' = me cp → my_epoch cp' = my_epoch cp → my_seq cp' = my_seq cp →
  lsdb cp' = lsdb cp → local_adjacencies cp' = links_after (local_adjacencies cp) e →
  (∀ l f, CaSend l f ∈ acts → frame_sendable cp' f) → handled cp e cp' acts.
Proof.
  intros Hm He Hs Hl Ha Hsend. constructor; try done; [by left|..].
  - intros o a. unfold get_active. rewrite Hl. by left.
  - intros o e'. rewrite Hl. intros He'. right. by exists e'.
Qed.

Lemma active_insert cp o e o' :
  get_active (set_lsdb cp (<[o := e]> (lsdb cp))) o' =
  if decide (o = o') then active e else get_active cp o'.
Proof.
  unfold get_active. cbn. destruct (decide (o = o')) as [<-|Hne].
  - by rewrite lookup_insert_eq.
  - by rewrite lookup_insert_ne.
Qed.

(** *** Origination *)

Lemma push_opt_timer acts o l f :
  (∀ x, o = Some x → ∃ t n, x = CaSetTimer t n) →
  CaSend l f ∈ push_opt acts o ↔ CaSend l f ∈ acts.
Proof.
  intros Ho. unfold push_opt. rewrite elem_of_app. split; [|by left].
  intros [?|Hin]; [done|]. destruct o as [x|]; [|by apply not_elem_of_nil in Hin].
  apply list_elem_of_singleton in Hin as <-. by destruct (Ho _ eq_refl) as (? & ? & ?).
Qed.

Lemma originate_handled cp now cp' acts rest e :
  db_ok cp → originate_lsa cp now = Some (cp', acts) → event_link e = None →
  ∀ old, me old = me cp → my_epoch old = my_epoch cp → my_seq old = my_seq cp →
    lsdb old = lsdb cp → local_adjacencies cp = links_after (local_adjacencies old) e →
    (∀ l f, CaSend l f ∈ rest → frame_sendable cp' f) →
    handled old e cp' (acts ++ rest).
Proof.
  intros Hdb Ho Hev old Hme Hep Hsq Hdb' Hadj Hrest.
  destruct (originate_spec _ _ _ _ Hdb Ho) as (p & gen & hold & a & -> & _ & Ha & _ & ->).
  set (cp' := set_spf _ _ _ _ _) in *.
  assert (Hown : get_active cp' (me cp) = active (active_entry (own_message cp) now))
    by (unfold get_active, cp'; cbn; by rewrite lookup_insert_eq).
  assert (Hlsa : origin (lsa (own_message cp)) = me cp) by (unfold own_message; by rewrite sign_lsa).
  assert (Hsend : ∀ l f, CaSend l f ∈ push_opt
    (CaPersistSeq (my_seq cp + 1) :: flood cp (own_message cp) None ++
     [CaSetTimer (CtLsaExpire (me cp) (my_epoch cp) (my_seq cp + 1)) (expiry_of (own_message cp) now);
      next_refresh_timer now (local_lsa (bumped cp))]) a ↔
    f = CfLsa (own_message cp) ∧ is_Some (local_adjacencies cp !! l)).
  { intros l f. rewrite push_opt_timer by (intros x ->; destruct Ha as [[_ ?]|[[= ->] _]]; [done|eauto]).
    rewrite elem_of_cons, elem_of_app, elem_of_flood, !elem_of_cons. split.
    - intros [?|[(l' & Hl & _ & [= -> ->])|[?|[?|?%not_elem_of_nil]]]]; done.
    - intros [-> Hl]. right. left. by exists l. }
  constructor.
  - done.
  - done.
  - right. split; [cbn; lia|]. split; [done|]. rewrite Hme. eexists. by rewrite Hown.
  - by rewrite <-Hadj.
  - intros l f [(-> & _)%Hsend|Hin]%elem_of_app; [|by eapply Hrest].
    cbn. rewrite Hlsa, Hown. by eexists.
  - intros o x Hx. unfold cp' in Hx. change (get_active (set_spf ?c _ _ _ _)) with (get_active c) in Hx.
    unfold originated in Hx.
    destruct (decide (me cp = o)) as [<-|Hne].
    + right. assert (message x = own_message cp) as ->.
      { unfold get_active in Hx. cbn in Hx. rewrite lookup_insert_eq in Hx. cbn in Hx. by injection Hx as <-. }
      split; [left; split; [done|cbn; lia]|]. intros l Hl _. apply elem_of_app. left. by apply Hsend.
    + left. unfold get_active in Hx |- *. cbn in Hx. rewrite lookup_insert_ne in Hx by done. by rewrite Hdb'.
  - intros o e' He'. unfold cp' in He'. cbn in He'.
    apply lookup_insert_Some in He' as [[<- <-]|[_ He']]; [left; by eexists|].
    right. exists e'. by rewrite Hdb'.
Qed.

(** *** Frames *)

Lemma sendable_active cp o a :
  cp_ok cp → get_active cp o = Some a → frame_sendable cp (CfLsa (message a)).
Proof.
  intros Hok Ha. destruct (active_version cp o a Hok Ha) as (_ & _ & _ & Ho & _).
  cbn. rewrite Ho. eauto.
Qed.

Lemma receive_lsa_handled cp now l m cp' acts :
  cp_ok cp → receive_lsa cp now l m = Some (cp', acts) → handled cp (CeFrame l (CfLsa m)) cp' acts.
Proof.
  intros Hok Hr. destruct (decide (admits cp l m)) as [Ha|Ha].
  - rewrite (receive_lsa_accept _ _ _ _ Ha) in Hr.
    destruct (mark_spf_dirty _ _) as [[c act]|] eqn:Em; simplify_eq/=.
    pose proof (mark_spf_dirty_frame _ _ _ _ Em) as (pn & gn & hn & ->).
    assert (Hsend : ∀ k f, CaSend k f ∈ push_opt (flood cp m (Some l) ++
      [CaSetTimer (CtLsaExpire (origin (lsa m)) (epoch (lsa m)) (seq_no (lsa m))) (expiry_of m now)]) act ↔
      f = CfLsa m ∧ is_Some (local_adjacencies cp !! k) ∧ Some k ≠ Some l).
    { intros k f. rewrite push_opt_timer.
      2: { intros x ->. unfold mark_spf_dirty in Em. destruct (_ && _); [done|].
           destruct (checked_add _ _ _); simplify_eq/=. eauto. }
      rewrite elem_of_app, elem_of_flood, list_elem_of_singleton. split.
      - intros [(k' & Hk & Hne & [= -> ->])|?]; done.
      - intros (-> & Hk & Hne). left. by exists k. }
    constructor; try done; [by left|..].
    + intros k f (-> & _)%Hsend. cbn. unfold get_active. cbn. rewrite lookup_insert_eq. by eexists.
    + intros o a Hg. change (get_active (set_spf ?c _ _ _ _)) with (get_active c) in Hg.
      unfold received in Hg. rewrite active_insert in Hg. case_decide as Ho; [|by left].
      right. cbn in Hg. injection Hg as <-. split; [right; by exists l|].
      intros k Hk Hne. by apply Hsend.
    + intros o e' He'. cbn in He'.
      apply lookup_insert_Some in He' as [[<- <-]|[_ He']]; [left; by eexists|]. right. by exists e'.
  - destruct (receive_lsa_reject cp now l m Ha) as (acts' & E & Hacts). simplify_eq.
    apply handled_quiet; try done. intros k f Hin.
    destruct Hacts as [->|(e & a & He & _ & Hact & ->)]; [by apply not_elem_of_nil in Hin|].
    apply list_elem_of_singleton in Hin as [= -> ->]. eapply (sendable_active _ (origin (lsa m))); [done|].
    unfold get_active. by rewrite He.
Qed.

Lemma request_length cp es :
  zlen es ≤ MAX_DIGEST_ENTRIES →
  zlen (filter (wanted cp (remote_versions es)) (known_origins cp es)) ≤ MAX_DIGEST_REQ_ORIGINS.
Proof.
  intros Hz. etrans; [|exact Hz]. unfold zlen. apply inj_le.
  rewrite <-(length_fmap de_origin es).
  apply NoDup_incl_length; [apply NoDup_ListNoDup, NoDup_filter, bset_iter_NoDup|].
  intros o [Hw _]%list_elem_of_In%list_elem_of_filter. destruct Hw as [_ Hw].
  destruct (remote_versions es !! o) as [v|] eqn:Er; [|done].
  apply lookup_remote_versions in Er as [(d & Hd & <- & _) _].
  apply list_elem_of_In, list_elem_of_fmap. eauto.
Qed.

Lemma receive_digest_handled cp l es acts :
  cp_ok cp → receive_digest cp l es = Some acts → handled cp (CeFrame l (CfDigest es)) cp acts.
Proof.
  intros Hok Hr. apply handled_quiet; try done. intros k f Hin.
  destruct (decide (is_Some (local_adjacencies cp !! l) ∧ zlen es ≤ MAX_DIGEST_ENTRIES)) as [[Hl Hz]|Hn].
  - rewrite receive_digest_spec in Hr by done. simplify_eq.
    apply elem_of_app in Hin as [Hin|Hin].
    + apply list_elem_of_fmap in Hin as (m & [= -> ->] & (o & _ & Hm)%list_elem_of_omap).
      unfold offered in Hm. destruct (lsdb cp !! o) as [e|] eqn:He; cbn in Hm; [|done].
      destruct (match remote_versions es !! o with Some _ => _ | None => _ end); [|done].
      destruct (active e) as [a|] eqn:Ha; [|done]. cbn in Hm. injection Hm as <-.
      eapply (sendable_active _ o); [done|]. unfold get_active. by rewrite He.
    + pose proof (request_length cp es Hz). unfold request in Hin.
      destruct (filter _ _); [by apply not_elem_of_nil in Hin|].
      by apply list_elem_of_singleton in Hin as [= -> ->].
  - unfold receive_digest in Hr. destruct (_ || _) eqn:Eg.
    { injection Hr as <-. by apply not_elem_of_nil in Hin. }
    apply orb_false_iff in Eg as [Eb%bool_decide_eq_false Ez%Z.ltb_ge].
    destruct Hn. split; [by apply not_eq_None_Some|lia].
Qed.

Lemma receive_req_sends cp l os k f :
  CaSend k f ∈ receive_digest_req cp l os →
  ∃ o a, k = l ∧ get_active cp o = Some a ∧ f = CfLsa (message a).
Proof.
  unfold receive_digest_req. destruct (_ || _); [by intros ?%not_elem_of_nil|].
  intros (o & _ & Ho)%list_elem_of_omap. destruct (get_active cp o) as [a|] eqn:Ha; [|done].
  cbn in Ho. injection Ho as <- <-. eauto.
Qed.

(** *** Timers *)

Lemma spf_timer_handled cp now g cp' acts :
  handle_spf_timer cp now g = Some (cp', acts) → handled cp (CeTimer (CtSpfHold g)) cp' acts.
Proof.
  intros Hh. assert (Hcase : me cp' = me cp ∧ my_epoch cp' = my_epoch cp ∧ my_seq cp' = my_seq cp ∧
    lsdb cp' = lsdb cp ∧ local_adjacencies cp' = local_adjacencies cp ∧ ∀ l f, CaSend l f ∉ acts).
  { unfold handle_spf_timer, recompute_routes, recompute_topic_ads in Hh.
    destruct (pending_spf cp) as [p|]; [|simplify_eq; set_solver].
    destruct (negb _); [simplify_eq; set_solver|]. destruct (now <? _); [simplify_eq; set_solver|].
    destruct (shortest_paths _); cbn [mbind option_bind] in Hh; [|done].
    destruct (decide (_ = table_routes _)); [|destruct (checked_add _ _ _)];
      cbn [mbind option_bind] in Hh; try done;
      destruct (decide (_ = published_topic_ads _)); simplify_eq/=; set_solver. }
  destruct Hcase as (? & ? & ? & ? & ? & Hno). apply handled_quiet; try done.
  intros l f Hin. by apply Hno in Hin.
Qed.

Lemma expire_handled cp now o ep sq cp' acts :
  handle_expire_timer cp now o ep sq = Some (cp', acts) →
  handled cp (CeTimer (CtLsaExpire o ep sq)) cp' acts.
Proof.
  unfold handle_expire_timer. intros Hh.
  assert (Hsame : ∀ t n, handled cp (CeTimer (CtLsaExpire o ep sq)) cp [CaSetTimer t n]).
  { intros t n. apply handled_quiet; try done. by intros l f Hin%list_elem_of_singleton. }
  assert (Hnil : handled cp (CeTimer (CtLsaExpire o ep sq)) cp []).
  { apply handled_quiet; try done. by intros l f Hin%not_elem_of_nil. }
  destruct (lsdb cp !! o) as [e|] eqn:He; [|by simplify_eq].
  case_decide; [|by simplify_eq]. destruct (active e) as [a|]; [|by simplify_eq].
  destruct (now <? _); [by simplify_eq|].
  destruct (mark_spf_dirty _ _) as [[c act]|] eqn:Em; simplify_eq/=.
  pose proof (mark_spf_dirty_frame _ _ _ _ Em) as (pn & gn & hn & ->).
  constructor; try done; [by left|..].
  - intros l f Hin. rewrite push_opt_timer in Hin; [by apply not_elem_of_nil in Hin|].
    intros x ->. unfold mark_spf_dirty in Em. destruct (_ && _); [done|].
    destruct (checked_add _ _ _); simplify_eq/=. eauto.
  - intros o' x Hx. left. change (get_active (set_spf ?c _ _ _ _)) with (get_active c) in Hx.
    rewrite active_insert in Hx. by case_decide.
  - intros o' e' He'. cbn in He'.
    apply lookup_insert_Some in He' as [[<- <-]|[_ He']]; right; eauto.
Qed.

(** ** Every event *)

Lemma handle_handled cp now e cp' acts :
  cp_ok cp → cp_handle cp now e = Some (cp', acts) → handled cp e cp' acts.
Proof.
  intros Hok He. pose proof (cp_db _ Hok) as Hdb.
  assert (Hnil : ∀ ev, links_after (local_adjacencies cp) ev = local_adjacencies cp → handled cp ev cp []).
  { intros ev Hev. apply handled_quiet; try done. by intros l f ?%not_elem_of_nil. }
  assert (Hno : ∀ l f, CaSend l f ∈ ([] : list ControlAction) → frame_sendable cp' f)
    by by intros l f ?%not_elem_of_nil.
  destruct e as [l p c|l|ads|l [m|es|os]|[l|g|ep sq|o ep sq]]; cbn [cp_handle] in He.
  - destruct (originate_lsa _ _) as [[c' a]|] eqn:Eo; simplify_eq/=.
    eapply (originate_handled (set_adjacencies cp _)); try done; [by apply db_ok_set_adjacencies|].
    intros k f [[= -> ->]|[?|?%not_elem_of_nil]%elem_of_cons]%elem_of_cons; done.
  - destruct (local_adjacencies cp !! l) eqn:El.
    2: { simplify_eq. apply Hnil. cbn. by apply delete_id. }
    rewrite <-(app_nil_r acts).
    eapply (originate_handled (set_adjacencies cp _)); try done. by apply db_ok_set_adjacencies.
  - destruct (_ || _) eqn:Eg; [simplify_eq; by apply Hnil|].
    apply orb_false_iff in Eg as [Ev%negb_false_iff _]. rewrite <-(app_nil_r acts).
    eapply (originate_handled (set_local_topic_ads cp _)); try done.
    apply db_ok_set_topics; [done|done|apply osort_sorted].
  - by eapply receive_lsa_handled.
  - destruct (receive_digest cp l es) as [a|] eqn:Er; simplify_eq/=. by apply receive_digest_handled.
  - simplify_eq. apply handled_quiet; try done. intros k f Hin.
    apply receive_req_sends in Hin as (o & a & -> & Ha & ->). by eapply sendable_active.
  - simplify_eq. apply handled_quiet; try done. unfold handle_digest_timer. intros k f Hin.
    case_bool_decide; [by apply not_elem_of_nil in Hin|].
    by apply elem_of_cons in Hin as [[= -> ->]|[?|?%not_elem_of_nil]%elem_of_cons].
  - by eapply spf_timer_handled.
  - unfold handle_refresh_timer in He. destruct (is_current _ _ _); [|simplify_eq; by apply Hnil].
    rewrite <-(app_nil_r acts). by eapply originate_handled.
  - by eapply expire_handled.
Qed.

(** ** Answers *)

(** A new link starts with the digest of the database. *)
Lemma link_up_digest cp now l p c cp' acts :
  cp_handle cp now (CeLinkUp l p c) = Some (cp', acts) → CaSend l (CfDigest (digest cp')) ∈ acts.
Proof.
  cbn. destruct (originate_lsa _ _) as [[c' a]|]; [|done]. intros [= <- <-].
  apply elem_of_app. right. by left.
Qed.
(** A digest with a newer version is answered by a request. *)
Lemma digest_requests cp now l es cp' acts d :
  cp_handle cp now (CeFrame l (CfDigest es)) = Some (cp', acts) →
  is_Some (local_adjacencies cp !! l) → zlen es ≤ MAX_DIGEST_ENTRIES →
  d ∈ es → de_origin d ≠ me cp →
  (∃ e, lsdb cp !! de_origin d = Some e ∧ ole (de_version d) (entry_version e)) ∨
  ∃ os, CaSend l (CfDigestReq os) ∈ acts ∧ de_origin d ∈ os.
Proof.
  intros Hh Hl Hz Hd Hne. cbn [cp_handle] in Hh. rewrite receive_digest_spec in Hh by done.
  simplify_eq/=. destruct (decide (wanted cp' (remote_versions es) (de_origin d))) as [Hw|Hw].
  - right. assert (Hin : de_origin d ∈ filter (wanted cp' (remote_versions es)) (known_origins cp' es)).
    { apply list_elem_of_filter. split; [done|]. apply elem_of_known_origins.
      destruct Hw as [_ Hw]. destruct (remote_versions es !! _); [right; by eexists|done]. }
    eexists. split; [|exact Hin]. apply elem_of_app. right. unfold request.
    destruct (filter _ _); [by apply not_elem_of_nil in Hin|]. by left.
  - left. unfold wanted in Hw. destruct (remote_versions es !! de_origin d) as [v|] eqn:Er.
    + apply lookup_remote_versions in Er as [_ Hmax].
      destruct (lsdb cp' !! de_origin d) as [e|]; [|naive_solver]. exists e. split; [done|].
      etrans; [by apply Hmax|]. apply ole_not_lt. naive_solver.
    + by destruct (proj1 (remote_versions_None es _) Er d Hd).
Qed.
(** A request is answered by the active LSAs. *)
Lemma request_answered cp now l os cp' acts o a :
  cp_handle cp now (CeFrame l (CfDigestReq os)) = Some (cp', acts) →
  is_Some (local_adjacencies cp !! l) → zlen os ≤ MAX_DIGEST_REQ_ORIGINS →
  o ∈ os → get_active cp o = Some a → CaSend l (CfLsa (message a)) ∈ acts.
Proof.
  intros [= <- <-] Hl Hz Ho Ha. unfold receive_digest_req.
  rewrite bool_decide_eq_false_2 by by apply not_eq_None_Some.
  rewrite (proj2 (Z.ltb_ge _ _)) by lia. cbn [orb].
  apply list_elem_of_omap. exists o. rewrite elem_of_bset_iter, elem_of_list_to_set, Ha. done.
Qed.
End Effects.
