(* ===== verification/MeshNet.v ===== *)
(** * A network of control planes

    Several control planes joined by links that carry control frames in order.
    A link is a pair of channels, one per direction; each end learns of it by
    its own [CeLinkUp], frames wait in the channel until the other end is up,
    and a link that goes down loses what it carried.  The events of the nodes
    (links, timers, topic changes, deliveries) interleave freely.  The
    invariant of the network: whatever a node holds is covered for every
    neighbour. *)

From S2P Require Export Prelude Ord Bytes Types ControlTypes Spf Control ControlRoutes ControlInv ControlProps ControlSync.

(** ** State *)

(** One direction of a link: where it leads and the frames under way. *)
Record Channel := { ch_far : NodeId * LinkId; ch_frames : list ControlFrame }.
Record MeshNet := {
  net_planes : gmap NodeId ControlPlane;
  net_channels : gmap (NodeId * LinkId) Channel;
}.

(** The frames that actions send over a link, in order. *)
Definition sends_on (l : LinkId) (acts : list ControlAction) : list ControlFrame :=
  omap (λ a, match a with
             | CaSend l' f => if decide (l' = l) then Some f else None
             | _ => None
             end) acts.
Definition extend (ch : Channel) (fs : list ControlFrame) : Channel :=
  {| ch_far := ch_far ch; ch_frames := ch_frames ch ++ fs |}.
Definition post (u : NodeId) (acts : list ControlAction) (m : gmap (NodeId * LinkId) Channel) :
  gmap (NodeId * LinkId) Channel :=
  map_imap (λ k ch, Some (if decide (k.1 = u) then extend ch (sends_on k.2 acts) else ch)) m.

(** ** Steps *)

Inductive NetEvent :=
| NeConnect (u : NodeId) (l : LinkId) (v : NodeId) (l' : LinkId)
| NeLinkUp (u : NodeId) (l : LinkId) (now : MonoTime) (peer : NodeId) (cost : LinkCost)
| NeLinkDown (u : NodeId) (l : LinkId) (now : MonoTime)
| NeDeliver (u : NodeId) (l : LinkId) (now : MonoTime)
| NeLocal (u : NodeId) (now : MonoTime) (e : ControlEvent).

Definition is_local (e : ControlEvent) : bool :=
  match e with CeTimer _ | CeLocalTopicAdsChanged _ => true | _ => false end.
Definition is_up (net : MeshNet) (k : NodeId * LinkId) : bool :=
  match net_planes net !! k.1 with
  | Some cp => bool_decide (is_Some (local_adjacencies cp !! k.2))
  | None => false
  end.
Definition is_wired (net : MeshNet) (k : NodeId * LinkId) : bool :=
  match net_channels net !! k with Some _ => true | None => false end.
(** The link leads to [peer], unless it is no longer there. *)
Definition may_lead_to (net : MeshNet) (k : NodeId * LinkId) (peer : NodeId) : bool :=
  match net_channels net !! k with Some ch => bool_decide ((ch_far ch).1 = peer) | None => true end.
Definition with_channels (net : MeshNet) (m : gmap (NodeId * LinkId) Channel) : MeshNet :=
  {| net_planes := net_planes net; net_channels := m |}.

Section Net.
Context `{LsaAuth}.

(** A node handles an event; what it sends enters its channels. *)
Definition net_handle (net : MeshNet) (u : NodeId) (now : MonoTime) (e : ControlEvent) :
  option MeshNet :=
  cp ← net_planes net !! u;
  '(cp', acts) ← handle cp now e;
  Some {| net_planes := <[u := cp']> (net_planes net);
          net_channels := post u acts (net_channels net) |}.

(** [None]: the event is not enabled, or a node panics. *)
Definition net_step (net : MeshNet) (e : NetEvent) : option MeshNet :=
  match e with
  | NeConnect u l v l' =>
      if decide ((u, l) ≠ (v, l') ∧ is_Some (net_planes net !! u) ∧ is_Some (net_planes net !! v) ∧
                 is_wired net (u, l) = false ∧ is_wired net (v, l') = false ∧
                 is_up net (u, l) = false ∧ is_up net (v, l') = false)
      then Some (with_channels net
             (<[(u, l) := {| ch_far := (v, l'); ch_frames := [] |}]>
              (<[(v, l') := {| ch_far := (u, l); ch_frames := [] |}]> (net_channels net))))
      else None
  | NeLinkUp u l now peer cost =>
      if decide (is_up net (u, l) = false ∧ is_Some (net_planes net !! peer) ∧
                 may_lead_to net (u, l) peer = true)
      then net_handle net u now (CeLinkUp l peer cost) else None
  | NeLinkDown u l now =>
      net_handle
        (with_channels net
           match net_channels net !! (u, l) with
           | Some ch => delete (u, l) (delete (ch_far ch) (net_channels net))
           | None => net_channels net
           end) u now (CeLinkDown l)
  | NeDeliver u l now =>
      ch ← net_channels net !! (u, l);
      match ch_frames ch with
      | [] => None
      | f :: rest =>
          if is_up net (ch_far ch) then
            net_handle (with_channels net
                (<[(u, l) := {| ch_far := ch_far ch; ch_frames := rest |}]> (net_channels net)))
              (ch_far ch).1 now (CeFrame (ch_far ch).2 f)
          else None
      end
  | NeLocal u now e => if is_local e then net_handle net u now e else None
  end.
Fixpoint net_run (net : MeshNet) (es : list NetEvent) : option MeshNet :=
  match es with
  | [] => Some net
  | e :: es => net ← net_step net e; net_run net es
  end.

(** Nodes start with empty databases, at the epochs and sequence numbers given. *)
Definition net_start (nodes : gmap NodeId (Z * Z)) : MeshNet :=
  {| net_planes := map_imap (λ u x, Some (with_auth_and_seq u x.1 x.2)) nodes;
     net_channels := ∅ |}.
(** At most as many nodes as an LSA may list neighbours. *)
Definition net_reachable (net : MeshNet) : Prop :=
  ∃ nodes es, map_Forall (λ _ x, 0 ≤ x.2) nodes ∧
    Z.of_nat (size nodes) ≤ MAX_LSA_ADJACENCIES ∧ net_run (net_start nodes) es = Some net.
End Net.

(** ** Lookups *)

Lemma elem_of_sends_on l acts f : f ∈ sends_on l acts ↔ CaSend l f ∈ acts.
Proof.
  unfold sends_on. rewrite list_elem_of_omap. split.
  - intros (a & Ha & Hf). destruct a as [l' f'| | | |]; try done. case_decide; by simplify_eq.
  - intros Ha. exists (CaSend l f). by rewrite decide_True.
Qed.
Lemma lookup_post u acts m k :
  post u acts m !! k =
  (λ ch, if decide (k.1 = u) then extend ch (sends_on k.2 acts) else ch) <$> m !! k.
Proof. unfold post. rewrite map_lookup_imap. by destruct (m !! k). Qed.
Lemma lookup_post_Some u acts m k ch' :
  post u acts m !! k = Some ch' →
  ∃ ch, m !! k = Some ch ∧ ch_far ch' = ch_far ch ∧
    (∀ f, f ∈ ch_frames ch' ↔ f ∈ ch_frames ch ∨ k.1 = u ∧ CaSend k.2 f ∈ acts).
Proof.
  rewrite lookup_post. intros (ch & Hch & ->)%fmap_Some. exists ch. split; [done|].
  case_decide as Hk; cbn; split; try done; intros f; [rewrite elem_of_app, elem_of_sends_on|]; naive_solver.
Qed.

(** ** The invariant

    Whatever a node holds is covered for every neighbour: the neighbour has it,
    a frame under way brings or announces it, or a request for it is under way. *)

(** The LSAs every origin has issued, by sequence number. *)
Abbreviation History := (gmap (NodeId * Z) Lsa).

(** ** Coverage *)

(** [v] has version [w] of [o], or a later one. *)
Definition knows (net : MeshNet) (v o : NodeId) (w : version) : Prop :=
  ∃ cv e, net_planes net !! v = Some cv ∧ lsdb cv !! o = Some e ∧ ole w (entry_version e).
Definition in_flight (net : MeshNet) (k : NodeId * LinkId) (P : ControlFrame → Prop) : Prop :=
  ∃ ch f, net_channels net !! k = Some ch ∧ f ∈ ch_frames ch ∧ P f.
(** The frame brings or announces that version. *)
Definition brings (o : NodeId) (w : version) (f : ControlFrame) : Prop :=
  match f with
  | CfLsa m => origin (lsa m) = o ∧ ole w (lsa_version (lsa m))
  | CfDigest es => ∃ d, d ∈ es ∧ de_origin d = o ∧ ole w (de_version d)
  | CfDigestReq _ => False
  end.
Definition asks (o : NodeId) (f : ControlFrame) : Prop :=
  match f with CfDigestReq os => o ∈ os | _ => False end.
Definition covered (net : MeshNet) (k far : NodeId * LinkId) (o : NodeId) (w : version) : Prop :=
  knows net far.1 o w ∨ in_flight net k (brings o w) ∨ in_flight net far (asks o).
(** The same for a frame [x] that has left its channel and is being handled. *)
Definition handed (x : option ((NodeId * LinkId) * ControlFrame)) (k far : NodeId * LinkId)
    (o : NodeId) (w : version) : Prop :=
  match x with
  | Some (k', f) => k' = k ∧ brings o w f ∨ k' = far ∧ asks o f
  | None => False
  end.

Section Inv.
Context `{LsaAuthLaws}.

(** A frame from [u]: the LSA in it was issued, and [u] has it or a later one. *)
Definition frame_known (h : History) (net : MeshNet) (u : NodeId) (f : ControlFrame) : Prop :=
  match f with
  | CfLsa m =>
      h !! (origin (lsa m), seq_no (lsa m)) = Some (lsa m) ∧ verify m = true ∧
      knows net u (origin (lsa m)) (lsa_version (lsa m))
  | CfDigest es => zlen es ≤ MAX_DIGEST_ENTRIES
  | CfDigestReq os => zlen os ≤ MAX_DIGEST_REQ_ORIGINS
  end.

Record net_inv (x : option ((NodeId * LinkId) * ControlFrame)) (h : History) (net : MeshNet) :
    Prop := {
  ni_planes u cp : net_planes net !! u = Some cp → cp_ok cp ∧ me cp = u ∧ 0 ≤ my_seq cp;
  ni_peers u cp l a : net_planes net !! u = Some cp → local_adjacencies cp !! l = Some a →
    is_Some (net_planes net !! la_peer a) ∧ may_lead_to net (u, l) (la_peer a) = true;
  ni_channels k ch : net_channels net !! k = Some ch →
    is_Some (net_planes net !! k.1) ∧
    ∃ ch', net_channels net !! ch_far ch = Some ch' ∧ ch_far ch' = k ∧ ch_far ch ≠ k;
  ni_history o s l : h !! (o, s) = Some l →
    origin l = o ∧ seq_no l = s ∧ 0 ≤ s ∧ valid_lsa l = true ∧
    ∃ cp, net_planes net !! o = Some cp ∧ epoch l = my_epoch cp ∧ s ≤ my_seq cp ∧
          is_Some (lsdb cp !! o);
  ni_db u cp o a : net_planes net !! u = Some cp → get_active cp o = Some a →
    h !! (o, seq_no (lsa (message a))) = Some (lsa (message a)) ∧ verify (message a) = true;
  ni_entries u cp o e : net_planes net !! u = Some cp → lsdb cp !! o = Some e →
    ∃ s l, h !! (o, s) = Some l ∧ entry_version e = lsa_version l;
  ni_frames k ch f : net_channels net !! k = Some ch → f ∈ ch_frames ch →
    frame_known h net k.1 f;
  ni_covered k ch cp o a : net_channels net !! k = Some ch → net_planes net !! k.1 = Some cp →
    is_Some (local_adjacencies cp !! k.2) → get_active cp o = Some a →
    covered net k (ch_far ch) o (lsa_version (lsa (message a))) ∨
    handed x k (ch_far ch) o (lsa_version (lsa (message a)));
}.
End Inv.

Lemma ole_version (ep s s' : Z) : ole (ep, s) (ep, s') ↔ s ≤ s'.
Proof. unfold ole. cbn. rewrite Z.compare_refl. cbn. apply ole_Z. Qed.

(** An LSA of a node with few neighbours is valid. *)
Lemma local_lsa_valid cp (S : gset NodeId) :
  db_ok cp → (∀ l a, local_adjacencies cp !! l = Some a → la_peer a ∈ S) →
  Z.of_nat (size S) ≤ MAX_LSA_ADJACENCIES → valid_lsa (local_lsa cp) = true.
Proof.
  intros Hdb HS Hsz. unfold valid_lsa. cbn [ttl_sec adjacencies topics local_lsa].
  destruct (db_topics _ Hdb) as [-> _].
  unfold zlen. rewrite length_fmap, length_btree_iter. rewrite !andb_true_iff.
  split; [|done]. split; [done|]. apply Z.leb_le. etrans; [|exact Hsz]. apply inj_le.
  rewrite <-size_dom. apply subseteq_size. intros p [c Hp]%elem_of_dom.
  apply lookup_best_by_peer in Hp as [(a & Ha & <- & _) _].
  apply elem_of_btree_values in Ha as [l Hl]. by eapply HS.
Qed.

(** ** One node handles an event *)

Section Handle.
Context `{LsaAuthLaws} (Hverify : ∀ l, verify (sign l) = true).
Context (x : option ((NodeId * LinkId) * ControlFrame)) (h : History) (net : MeshNet).
Context (Hinv : net_inv x h net).
Context (Hsize : Z.of_nat (size (net_planes net)) ≤ MAX_LSA_ADJACENCIES).
Context (v : NodeId) (now : MonoTime) (e : ControlEvent) (cv cv' : ControlPlane).
Context (acts : list ControlAction).
Context (Hcv : net_planes net !! v = Some cv) (Hh : cp_handle cv now e = Some (cv', acts)).

(** The event is the frame [x], or no frame at all. *)
Definition frame_event : Prop :=
  match x with
  | None => event_link e = None
  | Some (k, f) => ∃ ch l, net_channels net !! k = Some ch ∧ ch_far ch = (v, l) ∧
      e = CeFrame l f ∧ is_Some (local_adjacencies cv !! l) ∧ frame_known h net k.1 f
  end.
Definition link_event : Prop :=
  match e with
  | CeLinkUp l p _ => local_adjacencies cv !! l = None ∧ is_Some (net_planes net !! p) ∧
      may_lead_to net (v, l) p = true
  | _ => True
  end.
Context (Hframe : frame_event) (Hlink : link_event).

Let net' : MeshNet :=
  {| net_planes := <[v := cv']> (net_planes net);
     net_channels := post v acts (net_channels net) |}.
Let h' : History :=
  if decide (my_seq cv' = my_seq cv) then h
  else <[(v, my_seq cv') := local_lsa cv']> h.

Lemma cv_ok : cp_ok cv ∧ me cv = v ∧ 0 ≤ my_seq cv.
Proof. by apply (ni_planes _ _ _ Hinv). Qed.
Lemma cv_handled : handled cv e cv' acts.
Proof. eapply handle_handled; [apply cv_ok|exact Hh]. Qed.
Lemma cv'_ok : cp_ok cv' ∧ lsdb_le cv cv'.
Proof. eapply handle_ok; [apply cv_ok|exact Hh]. Qed.
Lemma cv'_me : me cv' = v.
Proof. rewrite (hd_me _ _ _ _ cv_handled). apply cv_ok. Qed.

Lemma planes_after u cp :
  net_planes net' !! u = Some cp ↔ u = v ∧ cp = cv' ∨ u ≠ v ∧ net_planes net !! u = Some cp.
Proof. cbn. rewrite lookup_insert_Some. naive_solver. Qed.
Lemma planes_kept u : is_Some (net_planes net !! u) → is_Some (net_planes net' !! u).
Proof.
  intros [cp Hu]. destruct (decide (u = v)) as [->|Hne]; cbn.
  - rewrite lookup_insert_eq. by eexists.
  - rewrite lookup_insert_ne by done. by eexists.
Qed.
Lemma lead_after k p : may_lead_to net' k p = may_lead_to net k p.
Proof.
  unfold may_lead_to. cbn [net_channels net']. rewrite lookup_post.
  destruct (net_channels net !! k); [|done]. cbn. by case_decide.
Qed.
Lemma knows_after u o w : knows net u o w → knows net' u o w.
Proof.
  intros (cp & ent & Hu & Hent & Hw). destruct (decide (u = v)) as [->|Hne].
  - rewrite Hcv in Hu. injection Hu as <-. destruct cv'_ok as [_ [_ Hle]].
    destruct (Hle _ _ Hent) as (ent' & Hent' & Hd). exists cv', ent'.
    split; [by apply planes_after; left|]. split; [done|]. etrans; [done|].
    destruct Hd as [Hlt|[-> _]]; [by apply olt_le|done].
  - exists cp, ent. split; [|done]. apply planes_after. by right.
Qed.
Lemma flight_after k P : in_flight net k P → in_flight net' k P.
Proof.
  intros (ch & f & Hk & Hf & HP). unfold in_flight. cbn [net_channels net']. rewrite lookup_post, Hk.
  eexists _, f. split; [reflexivity|]. split; [|done]. case_decide; [|done]. apply elem_of_app. by left.
Qed.
Lemma flight_sent l f (P : ControlFrame → Prop) :
  is_Some (net_channels net !! (v, l)) → CaSend l f ∈ acts → P f → in_flight net' (v, l) P.
Proof.
  intros [ch Hk] Hs HP. unfold in_flight. cbn [net_channels net']. rewrite lookup_post, Hk.
  eexists _, f. split; [reflexivity|]. split; [|done]. cbn. rewrite decide_True by done.
  apply elem_of_app. right. by apply elem_of_sends_on.
Qed.
Lemma covered_after k far o w : covered net k far o w → covered net' k far o w.
Proof.
  intros [Hk|[Hk|Hk]]; [left; by apply knows_after|right; left|right; right]; by apply flight_after.
Qed.

(** *** The history *)

Lemma history_grows o s l : h !! (o, s) = Some l → h' !! (o, s) = Some l.
Proof.
  unfold h'. case_decide as Hs; [done|]. intros Hl. rewrite lookup_insert_ne; [done|].
  intros [= <- <-]. destruct (hd_seq _ _ _ _ cv_handled) as [?|(E & _)]; [done|].
  destruct (ni_history _ _ _ Hinv _ _ _ Hl) as (_ & _ & _ & _ & cp & Hcp & _ & Hle & _).
  rewrite Hcv in Hcp. injection Hcp as <-. lia.
Qed.
Lemma peers_after l a : local_adjacencies cv' !! l = Some a →
  is_Some (net_planes net !! la_peer a) ∧ may_lead_to net (v, l) (la_peer a) = true.
Proof.
  rewrite (hd_links _ _ _ _ cv_handled). pose proof Hlink as Hk. unfold link_event in Hk.
  destruct e as [k p c|k| | |]; cbn [links_after].
  - intros [[<- <-]|[_ Ha]]%lookup_insert_Some; [by destruct Hk|by apply (ni_peers _ _ _ Hinv v cv)].
  - intros [_ Ha]%lookup_delete_Some. by apply (ni_peers _ _ _ Hinv v cv).
  - by apply (ni_peers _ _ _ Hinv v cv).
  - by apply (ni_peers _ _ _ Hinv v cv).
  - by apply (ni_peers _ _ _ Hinv v cv).
Qed.
Lemma own_lsa_valid : valid_lsa (local_lsa cv') = true.
Proof.
  apply (local_lsa_valid cv' (dom (net_planes net))); [apply cv'_ok| |by rewrite size_dom].
  intros l a [Ha _]%peers_after. by apply elem_of_dom.
Qed.
Lemma history_after o s l : h' !! (o, s) = Some l →
  origin l = o ∧ seq_no l = s ∧ 0 ≤ s ∧ valid_lsa l = true ∧
  ∃ cp, net_planes net' !! o = Some cp ∧ epoch l = my_epoch cp ∧ s ≤ my_seq cp ∧
        is_Some (lsdb cp !! o).
Proof.
  intros Hl. destruct cv_ok as (_ & Hme & Hpos). pose proof cv_handled as [_ Hep Hsq _ _ _ _].
  destruct (decide (h !! (o, s) = Some l)) as [Hold|Hnew].
  - destruct (ni_history _ _ _ Hinv _ _ _ Hold) as (Ho & Hs & Hs0 & Hv & cp & Hcp & He & Hle & [ent Hent]).
    split_and!; [done..|]. destruct (decide (o = v)) as [->|Hne].
    + rewrite Hcv in Hcp. injection Hcp as <-. exists cv'. split; [by apply planes_after; left|].
      rewrite Hep. split; [done|]. split; [destruct Hsq as [->|[-> _]]; lia|].
      destruct cv'_ok as [_ [_ Hdb]]. destruct (Hdb _ _ Hent) as (ent' & -> & _). by eexists.
    + exists cp. split; [apply planes_after; by right|]. split_and!; [done..|by eexists].
  - unfold h' in Hl. case_decide as Hsame; [done|].
    apply lookup_insert_Some in Hl as [[[= <- <-] <-]|[_ Hl]]; [|done].
    destruct Hsq as [?|(Hsq & _ & a & Ha & _)]; [done|].
    split; [apply cv'_me|]. split; [done|]. split; [lia|]. split; [apply own_lsa_valid|].
    exists cv'. split; [by apply planes_after; left|]. split; [done|]. split; [done|].
    rewrite Hme in Ha. unfold get_active in Ha. destruct (lsdb cv' !! v); [by eexists|done].
Qed.

(** *** The frame *)

(** [f] came over the channel [k], which leads to link [l] of the node. *)
Definition came (k : NodeId * LinkId) (l : LinkId) (f : ControlFrame) : Prop :=
  x = Some (k, f) ∧ e = CeFrame l f ∧ is_Some (local_adjacencies cv !! l) ∧ frame_known h net k.1 f ∧
  ∃ ch ch', net_channels net !! k = Some ch ∧ ch_far ch = (v, l) ∧
            net_channels net !! (v, l) = Some ch' ∧ ch_far ch' = k.
Lemma handed_came k f : x = Some (k, f) → ∃ l, came k l f.
Proof.
  intros Hx. pose proof Hframe as Hf. unfold frame_event in Hf. rewrite Hx in Hf.
  destruct Hf as (ch & l & Hk & Hfar & He & Hl & Hkn). exists l. unfold came. split_and!; [done..|].
  destruct (ni_channels _ _ _ Hinv k ch Hk) as (_ & ch' & Hk' & Hback & _). rewrite Hfar in Hk'. eauto 10.
Qed.
Lemma event_came l f : e = CeFrame l f → ∃ k, came k l f.
Proof.
  intros He. pose proof Hframe as Hf. unfold frame_event in Hf.
  assert (∃ y, x = y) as [[[k f']|] Hx] by eauto; [|by rewrite Hx, He in Hf].
  destruct (handed_came k f' Hx) as (l' & Hc). exists k.
  pose proof Hc as (_ & He' & _). rewrite He in He'. by injection He' as -> ->.
Qed.

(** *** Databases and frames *)

Lemma fresh_known o a :
  get_active cv' o = Some a → fresh_lsa cv e cv' (message a) →
  h' !! (o, seq_no (lsa (message a))) = Some (lsa (message a)) ∧ verify (message a) = true.
Proof.
  intros Ha Hf. destruct cv'_ok as [Hok _].
  destruct (active_version cv' o a Hok Ha) as (ent & _ & _ & Ho & _).
  destruct Hf as [[Hm Hs]|(l & He & _)].
  - rewrite Hm in Ho |- *. rewrite sign_lsa in Ho |- *. cbn in Ho. split; [|apply Hverify].
    unfold h'. rewrite decide_False by lia. rewrite <-Ho, cv'_me. cbn. by rewrite lookup_insert_eq.
  - destruct (event_came l _ He) as (k & _ & _ & _ & (Hk & Hv & _) & _).
    split; [|done]. rewrite <-Ho. by apply history_grows.
Qed.
Lemma db_after u cp o a :
  net_planes net' !! u = Some cp → get_active cp o = Some a →
  h' !! (o, seq_no (lsa (message a))) = Some (lsa (message a)) ∧ verify (message a) = true.
Proof.
  assert (Hold : ∀ u cp, net_planes net !! u = Some cp → get_active cp o = Some a →
    h' !! (o, seq_no (lsa (message a))) = Some (lsa (message a)) ∧ verify (message a) = true).
  { intros u' cp' Hu Ha. destruct (ni_db _ _ _ Hinv _ _ _ _ Hu Ha). split; [by apply history_grows|done]. }
  intros [[-> ->]|[_ Hu]]%planes_after Ha; [|by eapply Hold].
  destruct (hd_active _ _ _ _ cv_handled o a Ha) as [Ha'|[Hf _]]; [by eapply Hold|by apply fresh_known].
Qed.
Lemma entries_after u cp o ent :
  net_planes net' !! u = Some cp → lsdb cp !! o = Some ent →
  ∃ s l, h' !! (o, s) = Some l ∧ entry_version ent = lsa_version l.
Proof.
  assert (Hold : ∀ u cp ent, net_planes net !! u = Some cp → lsdb cp !! o = Some ent →
    ∃ s l, h' !! (o, s) = Some l ∧ entry_version ent = lsa_version l).
  { intros u' cp' ent' Hu He. destruct (ni_entries _ _ _ Hinv _ _ _ _ Hu He) as (s & l & Hl & Hv).
    exists s, l. split; [by apply history_grows|done]. }
  intros Hu He. pose proof Hu as [[-> ->]|[_ Hu']]%planes_after; [|by eapply Hold].
  destruct (hd_entries _ _ _ _ cv_handled o ent He) as [[a Ha]|(ent' & He' & <-)]; [|by eapply Hold].
  assert (Hact : get_active cv' o = Some a) by (unfold get_active; by rewrite He).
  destruct (db_after v cv' o a Hu Hact) as [Hl _]. eexists _, _. split; [exact Hl|].
  destruct cv'_ok as [Hok _]. destruct (active_version cv' o a Hok Hact) as (ent' & He' & _ & _ & Hv).
  rewrite He in He'. by injection He' as <-.
Qed.
Lemma active_knows u cp o a :
  net_planes net' !! u = Some cp → get_active cp o = Some a → cp_ok cp →
  knows net' u o (lsa_version (lsa (message a))).
Proof.
  intros Hu Ha Hok. destruct (active_version cp o a Hok Ha) as (ent & He & _ & _ & Hv).
  exists cp, ent. by rewrite Hv.
Qed.
Lemma frames_after k ch f :
  net_channels net' !! k = Some ch → f ∈ ch_frames ch → frame_known h' net' k.1 f.
Proof.
  intros (ch0 & Hk & _ & Hfr)%lookup_post_Some [Hf|[Hv Hf]]%Hfr.
  - pose proof (ni_frames _ _ _ Hinv k ch0 f Hk Hf) as Hkn. destruct f as [m|es|os]; [|done..].
    destruct Hkn as (? & ? & ?). split_and!; [by apply history_grows|done|by apply knows_after].
  - rewrite Hv. pose proof (hd_sends _ _ _ _ cv_handled _ f Hf) as Hs. destruct cv'_ok as [Hok _].
    assert (Hv' : net_planes net' !! v = Some cv') by (apply planes_after; by left).
    destruct f as [m|es|os]; cbn in Hs |- *.
    + destruct Hs as (a & Ha & <-). destruct (db_after v cv' _ a Hv' Ha). split_and!; [done..|].
      by apply (active_knows v cv').
    + subst es. rewrite length_digest. apply (db_size _ (cp_db _ Hok)).
    + done.
Qed.

(** *** Coverage *)

(** The node has its own LSAs. *)
Lemma knows_own m :
  h !! (v, seq_no (lsa m)) = Some (lsa m) → knows net' v v (lsa_version (lsa m)).
Proof.
  intros Hl. apply knows_after.
  destruct (ni_history _ _ _ Hinv _ _ _ Hl) as (_ & _ & _ & _ & cp & Hcp & Hep & Hle & [ent He]).
  rewrite Hcv in Hcp. injection Hcp as <-. exists cv, ent. split_and!; [done..|].
  destruct cv_ok as (Hok & Hme & _). pose proof (db_own_version _ (cp_db _ Hok)) as Hv.
  rewrite Hme in Hv. rewrite (Hv ent He). unfold lsa_version. rewrite Hep.
  apply ole_version. lia.
Qed.

(** A frame that brings or announces what the peer has: afterwards the node has
    it, or has asked for it. *)
Lemma brought k l f o m :
  came k l f → h !! (o, seq_no (lsa m)) = Some (lsa m) → brings o (lsa_version (lsa m)) f →
  knows net' v o (lsa_version (lsa m)) ∨ in_flight net' (v, l) (asks o).
Proof.
  intros (_ & He & Hl & Hkn & ch & ch' & _ & _ & Hk' & _) Hm Hb.
  destruct cv_ok as (Hok & Hme & _). pose proof Hh as Hh'. rewrite He in Hh'.
  assert (Hv' : net_planes net' !! v = Some cv') by (apply planes_after; by left).
  destruct (decide (o = v)) as [->|Hne]; [left; by apply knows_own|].
  destruct f as [m'|es|os]; cbn in Hb, Hkn; [| |done].
  - left. destruct Hb as [<- Hle]. destruct Hkn as (Hm' & Hver & _).
    destruct (ni_history _ _ _ Hinv _ _ _ Hm') as (_ & _ & _ & Hvalid & cp & Hcp & _ & _ & _).
    destruct (receive_learns cv now l m' cv' acts Hok Hl Hh') as (_ & _ & Hlearn).
    destruct Hlearn as (ent & He' & Hle').
    + split_and!; [done..|by rewrite Hme].
    + etrans; [apply subseteq_size|].
      * instantiate (1 := dom (net_planes net)). intros u [->%elem_of_singleton|Hu]%elem_of_union.
        { apply elem_of_dom. by eexists. }
        apply elem_of_dom in Hu as [eu Hu].
        destruct (ni_entries _ _ _ Hinv v cv u eu Hcv Hu) as (s & lu & Hlu & _).
        destruct (ni_history _ _ _ Hinv _ _ _ Hlu) as (_ & _ & _ & _ & cu & Hcu & _).
        apply elem_of_dom. by eexists.
      * rewrite size_dom. unfold MAX_LSA_ADJACENCIES in Hsize. lia.
    + exists cv', ent. split_and!; [done..|by etrans].
  - destruct Hb as (d & Hd & <- & Hle).
    destruct (digest_requests cv now l es cv' acts d Hh' Hl Hkn Hd) as [(ent & Hent & Hv)|(os & Hs & Ho)].
    + by rewrite Hme.
    + left. apply knows_after. exists cv, ent. split_and!; [done..|by etrans].
    + right. eapply flight_sent; [by eexists|exact Hs|done].
Qed.

(** A new link announces the whole database. *)
Lemma announced l p c o a :
  e = CeLinkUp l p c → is_Some (net_channels net !! (v, l)) → get_active cv' o = Some a →
  in_flight net' (v, l) (brings o (lsa_version (lsa (message a)))).
Proof.
  intros He Hk Ha. pose proof Hh as Hh'. rewrite He in Hh'. destruct cv'_ok as [Hok _].
  destruct (active_version cv' o a Hok Ha) as (ent & Hent & _ & _ & Hv).
  eapply flight_sent; [done|by eapply link_up_digest|]. cbn.
  exists {| de_origin := o; de_epoch := (entry_version ent).1; de_seq := (entry_version ent).2 |}.
  split; [|split; [done|]].
  - apply list_elem_of_fmap. exists (o, ent). split; [done|]. by apply elem_of_btree_iter.
  - unfold de_version. cbn. rewrite <-Hv. by destruct (entry_version ent).
Qed.

(** The obligations of the node itself. *)
Lemma covered_node l ch o a :
  net_channels net !! (v, l) = Some ch → is_Some (local_adjacencies cv' !! l) →
  get_active cv' o = Some a → covered net' (v, l) (ch_far ch) o (lsa_version (lsa (message a))).
Proof.
  intros Hk Hl Ha. pose proof cv_handled as Hd. destruct cv'_ok as [Hok _].
  destruct (active_version cv' o a Hok Ha) as (_ & _ & _ & Ho & _).
  assert (Hsend : CaSend l (CfLsa (message a)) ∈ acts →
    covered net' (v, l) (ch_far ch) o (lsa_version (lsa (message a)))).
  { intros Hs. right. left. eapply flight_sent; [by eexists|exact Hs|]. by split. }
  destruct (hd_active _ _ _ _ Hd o a Ha) as [Hold|[Hf Hflood]].
  - destruct (decide (is_Some (local_adjacencies cv !! l))) as [Hup|Hdown].
    + destruct (ni_covered _ _ _ Hinv (v, l) ch cv o a Hk Hcv Hup Hold) as [Hc|Hx];
        [by apply covered_after|].
      unfold handed in Hx. assert (∃ y, x = y) as [[[k f]|] Ex] by eauto; rewrite Ex in Hx; [|done].
      destruct (handed_came k f Ex) as (l' & Hc). destruct (ni_db _ _ _ Hinv v cv o a Hcv Hold) as [Hdb _].
      pose proof Hc as (_ & He & Hl' & Hkn & c1 & c2 & H1 & Hfar & H2 & Hback).
      destruct Hx as [[-> Hb]|[-> Hasks]].
      * destruct (brought _ _ _ o (message a) Hc Hdb Hb) as [?|?]; [left|right; right];
          rewrite Hk in H1; injection H1 as <-; by rewrite Hfar.
      * assert (l' = l) as -> by (destruct (ni_channels _ _ _ Hinv _ ch Hk) as (_ & c3 & H3 & Hb3 & _);
          rewrite H1 in H3; injection H3 as <-; congruence).
        destruct f as [|es|os]; [done..|]. apply Hsend. pose proof Hh as Hh'. rewrite He in Hh'.
        by eapply request_answered.
    + right. left. pose proof (hd_links _ _ _ _ Hd) as Hlinks. rewrite Hlinks in Hl.
      assert (∃ y, e = y) as [y Ey] by eauto. rewrite Ey in Hl.
      destruct y as [l0 p c|l0| | |]; cbn in Hl; try done.
      * destruct (decide (l0 = l)) as [->|Hne]; [by eapply announced|].
        by rewrite lookup_insert_ne in Hl.
      * destruct Hl as [b [_ Hb]%lookup_delete_Some]. destruct Hdown. by eexists.
  - destruct (decide (Some l = event_link e)) as [Hin|Hout]; [|by apply Hsend, Hflood].
    destruct Hf as [[_ Hs]|(l0 & He & _)].
    { destruct (hd_seq _ _ _ _ Hd) as [?|(_ & Hn & _)]; [lia|congruence]. }
    rewrite He in Hin. injection Hin as <-. left.
    destruct (event_came l _ He) as (k & _ & _ & _ & (_ & _ & Hkn) & c1 & c2 & H1 & Hfar & H2 & Hback).
    rewrite Hk in H2. injection H2 as <-. rewrite Hback, <-Ho. by apply knows_after.
Qed.

Lemma covered_all k ch cp o a :
  net_channels net' !! k = Some ch → net_planes net' !! k.1 = Some cp →
  is_Some (local_adjacencies cp !! k.2) → get_active cp o = Some a →
  covered net' k (ch_far ch) o (lsa_version (lsa (message a))).
Proof.
  intros (c0 & Hk & -> & _)%lookup_post_Some [[Hv ->]|[Hne Hu]]%planes_after Hl Ha.
  - destruct k as [u l]. cbn in Hv. subst u. by apply covered_node.
  - destruct (ni_covered _ _ _ Hinv k c0 cp o a Hk Hu Hl Ha) as [Hc|Hx]; [by apply covered_after|].
    unfold handed in Hx. assert (∃ y, x = y) as [[[k' f]|] Ex] by eauto; rewrite Ex in Hx; [|done].
    destruct (handed_came k' f Ex) as (l' & Hc). destruct (ni_db _ _ _ Hinv _ cp o a Hu Ha) as [Hdb _].
    pose proof Hc as (_ & He & Hl' & Hkn & c1 & c2 & H1 & Hfar & H2 & Hback).
    destruct Hx as [[-> Hb]|[-> Hasks]].
    + rewrite Hk in H1. injection H1 as <-. rewrite Hfar.
      destruct (brought _ _ _ o (message a) Hc Hdb Hb); [by left|by right; right].
    + destruct (ni_channels _ _ _ Hinv k c0 Hk) as (_ & c3 & H3 & Hb3 & _).
      rewrite H1 in H3. injection H3 as <-. rewrite Hfar in Hb3. by subst k.
Qed.

Lemma net_handle_inv : net_inv None h' net'.
Proof.
  constructor.
  - intros u cp [[-> ->]|[_ Hu]]%planes_after; [|by apply (ni_planes _ _ _ Hinv)].
    destruct cv'_ok as [? _], cv_ok as (_ & _ & Hpos). split_and!; [done|apply cv'_me|].
    destruct (hd_seq _ _ _ _ cv_handled) as [->|[-> _]]; lia.
  - intros u cp l a [[-> ->]|[_ Hu]]%planes_after Ha; rewrite lead_after.
    + destruct (peers_after l a Ha). split; [by apply planes_kept|done].
    + destruct (ni_peers _ _ _ Hinv _ _ _ _ Hu Ha). split; [by apply planes_kept|done].
  - intros k ch (c0 & Hk & -> & _)%lookup_post_Some.
    destruct (ni_channels _ _ _ Hinv k c0 Hk) as (Hp & ch' & Hk' & Hb & Hne).
    split; [by apply planes_kept|]. cbn. rewrite lookup_post, Hk'. eexists. split; [reflexivity|].
    by case_decide.
  - apply history_after.
  - apply db_after.
  - apply entries_after.
  - apply frames_after.
  - intros k ch cp o a Hk Hu Hl Ha. left. by apply (covered_all k ch cp).
Qed.
End Handle.
