(* ===== verification/ControlRouting.v ===== *)
(** * Routes are shortest paths

    The route table against an abstract description of the mesh: two nodes are
    joined when both have an active LSA and each lists the other. *)

From S2P Require Export Prelude Ord Bytes Types ControlTypes Spf Control ControlRoutes ControlInv ControlProps.

(** ** The mesh the database describes *)

(** [u] can send over [e]: mutual adjacency of two active LSAs. *)
Definition mesh_edge (cp : ControlPlane) (u : NodeId) (e : Adjacency) : Prop :=
  ∃ l l' r, cp_lsa cp u = Some l ∧ e ∈ adjacencies l ∧
    cp_lsa cp (adj_peer e) = Some l' ∧ r ∈ adjacencies l' ∧ adj_peer r = u.

(** A path from the node itself: destination, first hop, cost and length. *)
Inductive mesh_path (cp : ControlPlane) : NodeId → NodeId → Z → Z → Prop :=
| mesh_hop e :
    mesh_edge cp (me cp) e →
    mesh_path cp (adj_peer e) (adj_peer e) (cost_get (adj_cost e)) 1
| mesh_ext u p c n e :
    mesh_path cp u p c n → mesh_edge cp u e →
    mesh_path cp (adj_peer e) p (c + cost_get (adj_cost e)) (n + 1).

Lemma graph_mesh_edge cp u e : e ∈ edges (bidirectional_graph cp) u ↔ mesh_edge cp u e.
Proof.
  rewrite elem_of_graph_edges. unfold mesh_edge, cp_lsa. split.
  - intros (a & b & r & Ha & He & Hb & Hr & Hp). rewrite Ha, Hb. cbn. eauto 10.
  - intros (l & l' & r & (a & Ha & ->)%fmap_Some & He & (b & Hb & ->)%fmap_Some & Hr & Hp).
    eauto 10.
Qed.
Lemma walk_mesh cp v p c n :
  walk (bidirectional_graph cp) (me cp) v p c n ↔ mesh_path cp v p c n.
Proof.
  split.
  - induction 1 as [e He%graph_mesh_edge|u p c n e Hw IH He%graph_mesh_edge];
      [by constructor|by econstructor].
  - induction 1 as [e He%graph_mesh_edge|u p c n e Hw IH He%graph_mesh_edge];
      [by constructor|by econstructor].
Qed.

(** ** Bounds *)

Lemma graph_closed cp u e :
  e ∈ edges (bidirectional_graph cp) u → is_Some (bidirectional_graph cp !! adj_peer e).
Proof.
  intros (a & b & r & _ & _ & Hb & _)%elem_of_graph_edges.
  exists (accepted_edges cp (adj_peer e) b). apply lookup_bidirectional_graph. eauto.
Qed.
Lemma graph_size cp : (size (bidirectional_graph cp) ≤ size (lsdb cp))%nat.
Proof.
  rewrite <-!size_dom. apply subseteq_size. intros o [es Hes]%elem_of_dom.
  apply lookup_bidirectional_graph in Hes as (a & Ha & _). apply elem_of_dom.
  unfold get_active in Ha. destruct (lsdb cp !! o); [by eexists|done].
Qed.

(** No distance saturates. *)
Lemma path_short cp v p c n :
  db_ok cp → mesh_path cp v p c n → v ≠ me cp →
  ∃ p' c' n', mesh_path cp v p' c' n' ∧ c' ≤ c ∧ c' < u_max 32.
Proof.
  intros Hdb Hw%walk_mesh Hne.
  destruct (walk_short _ _ (graph_closed cp) _ _ _ _ Hw Hne) as (p' & c' & n' & Hw' & Hle & Hb).
  exists p', c', n'. rewrite <-walk_mesh. split; [done|]. split; [done|].
  pose proof (graph_size cp). pose proof (db_size _ Hdb) as Hs. unfold lsdb_len in Hs.
  unfold MAX_LSDB_ENTRIES, u_max in *. lia.
Qed.

(** The first hop of a path is a peer the node has a link to. *)
Lemma path_first cp v p c n :
  cp_ok cp → mesh_path cp v p c n → is_Some (best_link_to cp p).
Proof.
  intros Hok Hw%walk_mesh. apply graph_walk_first in Hw as (e & He & <-).
  apply elem_of_graph_edges in He as (a & b & r & Ha & He & _).
  rewrite (cp_own _ Hok a Ha) in He.
  apply elem_of_local_lsa in He as [(l & x & Hl & Hp & _) _].
  by eapply best_link_to_is_Some.
Qed.

(** ** The route table *)

Section Routes.
Context (cp : ControlPlane) (Hok : cp_ok cp).

(** What a route to [d] promises. *)
Definition route_ok (d : NodeId) (r : Route) : Prop :=
  ∃ p n a,
    mesh_path cp d p (route_cost r) n ∧ hops r = Z.min n 255 ∧
    (∀ p' c' n', mesh_path cp d p' c' n' →
       route_cost r ≤ c' ∧ (c' = route_cost r → ole p p')) ∧
    local_adjacencies cp !! next_hop r = Some a ∧ la_peer a = p ∧
    (∀ l' a', local_adjacencies cp !! l' = Some a' → la_peer a' = p →
       ole (la_cost a, next_hop r) (la_cost a', l')).

Lemma labels_exact st d c :
  spf_done (bidirectional_graph cp) (me cp) st → d ≠ me cp → distance st !! d = Some c →
  ∃ p n, first_peer st !! d = Some p ∧ path_hops st !! d = Some (Z.min n 255) ∧
    mesh_path cp d p c n ∧ c < u_max 32 ∧
    (∀ p' c' n', mesh_path cp d p' c' n' → c ≤ c' ∧ (c' = c → ole p p')).
Proof.
  intros Hdone Hne Hd. pose proof Hdone as [Hinv _].
  destruct (inv_walk _ _ _ Hinv d c Hne Hd) as (p & C & n & Hp & Hw%walk_mesh & Hc & Hh).
  destruct (path_short cp d p C n (cp_db _ Hok) Hw Hne) as (p1 & c1 & n1 & Hw1 & Hle & Hlt).
  assert (Hopt : ∀ p' c' n', mesh_path cp d p' c' n' →
    c ≤ c' ∧ (c = c' → c' < u_max 32 → ole p p')).
  { intros p' c' n' Hw'%walk_mesh.
    destruct (spf_optimal _ _ st d p' c' n' Hdone Hw') as (c2 & Hc2 & Hle2 & Ht).
    rewrite Hd in Hc2. injection Hc2 as <-. split; [done|]. intros E Hlt'. by apply Ht. }
  destruct (Hopt _ _ _ Hw1) as [Hc1 _].
  assert (c = C) by lia. subst C.
  exists p, n. split; [done|]. split; [done|]. split; [done|]. split; [lia|].
  intros p' c' n' Hw'. destruct (Hopt _ _ _ Hw') as [? Ht]. split; [done|].
  intros ->. apply Ht; [done|lia].
Qed.

Lemma shortest_paths_routes :
  ∃ routes, shortest_paths cp = Some routes ∧ routes !! me cp = None ∧
    ∀ d, d ≠ me cp →
      match routes !! d with
      | Some r => route_ok d r
      | None => ∀ p c n, ¬ mesh_path cp d p c n
      end.
Proof.
  destruct (shortest_paths_spec cp) as (st & routes & Hdone & Hsp & Hr).
  exists routes. split; [done|]. split.
  { destruct (routes !! me cp) as [r|] eqn:E; [|done]. apply Hr in E as [[] _]. done. }
  intros d Hne. destruct (routes !! d) as [r|] eqn:E.
  - apply Hr in E as (_ & p & Hd & Hp & Hb & Hh).
    destruct (labels_exact st d _ Hdone Hne Hd) as (p' & n & Hp' & Hh' & Hw & _ & Hopt).
    rewrite Hp in Hp'. injection Hp' as <-. rewrite Hh in Hh'. injection Hh' as Hh'.
    destruct (best_link_to_Some _ _ _ Hb) as (a & Ha & Hpa & Hbest).
    exists p, n, a. by split_and!.
  - intros p c n Hw.
    destruct (spf_optimal _ _ st d p c n Hdone (proj2 (walk_mesh _ _ _ _ _) Hw))
      as (c' & Hc' & _).
    destruct (labels_exact st d c' Hdone Hne Hc') as (p' & n' & Hp' & Hh' & Hw' & _).
    destruct (path_first cp d p' _ _ Hok Hw') as [l Hl].
    assert (routes !! d = Some {| next_hop := l; route_cost := c'; hops := Z.min n' 255 |})
      as Hs; [|congruence].
    apply Hr. split; [done|]. by exists p'.
Qed.
End Routes.

(** C6: In every reachable state of the control plane the routes computed from
    the database are complete and optimal: a destination has a route exactly
    when the mesh has a path to it; the cost of the route is the least cost of
    a path, never rounded by the 32-bit arithmetic; the route's first hop is
    the smallest node identifier among the first hops of the cheapest paths;
    and its link is, among the node's links to that neighbour, the cheapest one
    with the smallest identifier. *)
Theorem routes_are_shortest_paths `{LsaAuthLaws} cp :
  reachable cp →
  ∃ routes, shortest_paths cp = Some routes ∧ routes !! me cp = None ∧
    ∀ d, d ≠ me cp →
      match routes !! d with
      | Some r => route_ok cp d r
      | None => ∀ p c n, ¬ mesh_path cp d p c n
      end.
Proof. intros Hok%reachable_ok. by apply shortest_paths_routes. Qed.

(** An SPF timer of the pending generation that is due recomputes both
    tables from the current database: afterwards the stored routes are the
    shortest paths and the stored advertisements those of the active LSAs, the
    table version has advanced by one exactly when the routes changed, the new
    tables are published exactly when they changed, and nothing is pending. *)
Theorem spf_timer_publishes `{LsaAuthLaws} cp p now :
  reachable cp → pending_spf cp = Some p → ps_at p ≤ now →
  ∃ cp' acts, handle_spf_timer cp now (ps_generation p) = Some (cp', acts) ∧
    shortest_paths cp = Some (table_routes (cp_routes cp')) ∧
    published_topic_ads cp' = discovered_topics cp ∧
    pending_spf cp' = None ∧ lsdb cp' = lsdb cp ∧
    spf_hold_ms cp' = Z.min (2 * spf_hold_ms cp) SPF_MAX_HOLD_MS ∧
    table_version (cp_routes cp') = table_version (cp_routes cp) +
      (if decide (table_routes (cp_routes cp') = table_routes (cp_routes cp)) then 0 else 1) ∧
    acts =
      (if decide (table_routes (cp_routes cp') = table_routes (cp_routes cp))
       then [] else [CaPublishRoutes (cp_routes cp')]) ++
      (if decide (published_topic_ads cp' = published_topic_ads cp)
       then [] else [CaPublishTopicAds (published_topic_ads cp')]).
Proof.
  intros Hok%reachable_ok Hp Hdue. pose proof (db_spf _ (cp_db _ Hok)) as [Hh _ _ Hvg Hw].
  rewrite Hp in Hvg. destruct (shortest_paths_spec cp) as (_ & routes & _ & Hsp & _).
  unfold handle_spf_timer. rewrite Hp, Z.eqb_refl. cbn [negb].
  rewrite (proj2 (Z.ltb_ge _ _)) by lia. fold (spf_fired cp). unfold recompute_routes.
  change (shortest_paths (spf_fired cp)) with (shortest_paths cp). rewrite Hsp.
  cbn [mbind option_bind].
  change (cp_routes (spf_fired cp)) with (cp_routes cp).
  assert (Hhold : Z.min (sat_mul 64 (spf_hold_ms cp) 2) SPF_MAX_HOLD_MS
                  = Z.min (2 * spf_hold_ms cp) SPF_MAX_HOLD_MS).
  { unfold sat_mul, u_max, SPF_INITIAL_HOLD_MS, SPF_MAX_HOLD_MS in *. lia. }
  unfold recompute_topic_ads, checked_add.
  destruct (decide (routes = table_routes (cp_routes cp))) as [Er|Er];
    [|rewrite (proj2 (Z.leb_le _ _)) by lia]; cbn [mbind option_bind].
  all: change (discovered_topics (set_routes (spf_fired cp) _)) with (discovered_topics cp)
    || change (discovered_topics (spf_fired cp)) with (discovered_topics cp).
  all: destruct (decide (discovered_topics cp = _)) as [Ed|Ed]; do 2 eexists;
    (split; [reflexivity|]); cbn in *; rewrite ?Hhold.
  all: repeat first [rewrite decide_True by done | rewrite decide_False by done];
    split_and!; try done; try lia.
  all: by rewrite ?Er, ?Ed.
Qed.

(** ** Routes and advertisements are current

    Whenever no route computation is pending, the route table and the published
    advertisements are those of the database: every change of the database, of
    the links or of the own topics schedules a computation.  And what was last
    published is what the control plane holds. *)

Definition current (cp : ControlPlane) : Prop :=
  pending_spf cp = None →
  shortest_paths cp = Some (table_routes (cp_routes cp)) ∧ discovered_topics cp = published_topic_ads cp.

(** What remains published after some actions. *)
Definition last_routes (t : RouteTable) (acts : list ControlAction) : RouteTable :=
  foldl (λ t a, match a with CaPublishRoutes t' => t' | _ => t end) t acts.
Definition last_ads (ads : list DiscoveredTopicAd) (acts : list ControlAction) : list DiscoveredTopicAd :=
  foldl (λ ads a, match a with CaPublishTopicAds ads' => ads' | _ => ads end) ads acts.
Definition unpublished (a : ControlAction) : Prop :=
  match a with CaPublishRoutes _ | CaPublishTopicAds _ => False | _ => True end.

Lemma last_unpublished acts t ads :
  Forall unpublished acts → last_routes t acts = t ∧ last_ads ads acts = ads.
Proof. induction 1 as [|a acts Ha _ IH]; [done|]. by destruct a. Qed.

(** Nothing is published, and a computation is pending or nothing changed. *)
Record settled (cp cp' : ControlPlane) (acts : list ControlAction) : Prop := {
  st_routes : cp_routes cp' = cp_routes cp;
  st_ads : published_topic_ads cp' = published_topic_ads cp;
  st_quiet : Forall unpublished acts;
  st_pending : is_Some (pending_spf cp') ∨ cp' = cp;
}.
Lemma settled_same cp acts : Forall unpublished acts → settled cp cp acts.
Proof. intros. by constructor; auto. Qed.
Lemma push_quiet acts o :
  Forall unpublished acts → (∀ a, o = Some a → unpublished a) → Forall unpublished (push_opt acts o).
Proof.
  intros Ha Ho. unfold push_opt. apply Forall_app. split; [done|].
  destruct o; constructor; auto.
Qed.
Lemma mark_settled cp now cp' a :
  mark_spf_dirty cp now = Some (cp', a) →
  is_Some (pending_spf cp') ∧ cp_routes cp' = cp_routes cp ∧
  published_topic_ads cp' = published_topic_ads cp ∧ (∀ x, a = Some x → unpublished x).
Proof.
  unfold mark_spf_dirty. destruct (match last_lsdb_change_at cp with Some _ => _ | None => _ end);
    destruct (pending_spf cp) as [p|] eqn:E; cbn [andb negb];
    try (destruct (checked_add _ _ _); cbn [mbind option_bind]; [|done]);
    intros [= <- <-]; (split; [cbn; rewrite ?E; by eexists|]); (split; [done|]); (split; [done|]);
    by intros x [= <-].
Qed.
Lemma flood_quiet cp m x : Forall unpublished (flood cp m x).
Proof. unfold flood. apply Forall_fmap, Forall_true. done. Qed.
Lemma install_frame cp m now cp' a :
  install cp m now = Some (cp', a) →
  cp_routes cp' = cp_routes cp ∧ published_topic_ads cp' = published_topic_ads cp ∧ unpublished a.
Proof. unfold install. destruct (_ && _); [done|]. by intros [= <- <-]. Qed.

Lemma originate_settled `{LsaAuth} cp now cp' acts rest :
  originate_lsa cp now = Some (cp', acts) → Forall unpublished rest →
  cp_routes cp' = cp_routes cp ∧ published_topic_ads cp' = published_topic_ads cp ∧
  Forall unpublished (acts ++ rest) ∧ is_Some (pending_spf cp').
Proof.
  unfold originate_lsa. intros Ho Hrest. destruct (checked_add _ _ _); cbn [mbind option_bind] in Ho; [|done].
  destruct (install _ _ _) as [[c1 x]|] eqn:E1; cbn [mbind option_bind] in Ho; [|done].
  destruct (mark_spf_dirty c1 now) as [[c2 y]|] eqn:E2; cbn [mbind option_bind] in Ho; [|done].
  injection Ho as <- <-. apply install_frame in E1 as (E1 & E1' & Hx).
  apply mark_settled in E2 as (Hp & E2 & E2' & Hy).
  split; [by rewrite E2, E1|]. split; [by rewrite E2', E1'|]. split; [|done].
  apply Forall_app. split; [|done]. apply push_quiet; [|done].
  constructor; [done|]. apply Forall_app. split; [apply flood_quiet|]. by repeat constructor.
Qed.
Lemma send_back_quiet cp l o m : Forall unpublished (send_back cp l o m).
Proof.
  unfold send_back. destruct (lsdb cp !! o) as [e|]; [|done]. destruct (oltb _ _); [|done].
  destruct (active e); by repeat constructor.
Qed.
Lemma receive_lsa_settled `{LsaAuth} cp now l m cp' acts :
  receive_lsa cp now l m = Some (cp', acts) → settled cp cp' acts.
Proof.
  unfold receive_lsa. intros Hr. destruct (_ || _).
  { injection Hr as <- <-. by apply settled_same. }
  destruct (decide (origin (lsa m) = me cp)).
  { injection Hr as <- <-. apply settled_same, send_back_quiet. }
  destruct (negb (is_newer cp (lsa m))).
  { injection Hr as <- <-. apply settled_same, send_back_quiet. }
  destruct (install cp m now) as [[c1 x]|] eqn:E1; cbn [mbind option_bind] in Hr.
  2: { injection Hr as <- <-. by apply settled_same. }
  destruct (mark_spf_dirty c1 now) as [[c2 y]|] eqn:E2; cbn [mbind option_bind] in Hr; [|done].
  injection Hr as <- <-. apply install_frame in E1 as (E1 & E1' & Hx).
  apply mark_settled in E2 as (Hp & E2 & E2' & Hy). constructor; [congruence|congruence| |by left].
  apply push_quiet; [|done]. apply Forall_app. split; [apply flood_quiet|]. by repeat constructor.
Qed.
Lemma digest_loop_quiet cp l remote os : ∀ acc r,
  Forall unpublished acc.2 → digest_loop cp l remote acc os = Some r → Forall unpublished r.2.
Proof.
  induction os as [|o os IH]; intros [req acts] r Ha; cbn [digest_loop]; [by intros [= <-]|].
  destruct (digest_step _ _ _ _ _) as [acc1|] eqn:E; cbn [mbind option_bind]; [|done]. apply IH.
  unfold digest_step in E. destruct (compare_versions _ _) as [v|]; cbn [mbind option_bind] in E; [|done].
  injection E as <-. destruct v; try done; try (by case_decide);
    (destruct (lsdb cp !! o ≫= active); [|done]); cbn in *; apply Forall_app; by repeat constructor.
Qed.
Lemma receive_digest_quiet cp l es acts : receive_digest cp l es = Some acts → Forall unpublished acts.
Proof.
  unfold receive_digest. destruct (_ || _); [by intros [= <-]|].
  destruct (digest_loop _ _ _ _ _) as [[req a]|] eqn:E; cbn [mbind option_bind]; [|done].
  apply digest_loop_quiet in E; [|done]. intros [= <-]. case_decide; [done|].
  apply Forall_app. split; [done|]. by repeat constructor.
Qed.
Lemma expire_settled cp now o ep sq cp' acts :
  handle_expire_timer cp now o ep sq = Some (cp', acts) → settled cp cp' acts.
Proof.
  unfold handle_expire_timer. intros Hh. destruct (lsdb cp !! o) as [e|].
  2: { injection Hh as <- <-. by apply settled_same. }
  case_decide; [|injection Hh as <- <-; by apply settled_same].
  destruct (active e) as [a|]; [|injection Hh as <- <-; by apply settled_same].
  destruct (now <? expires_at a); [injection Hh as <- <-; by apply settled_same; repeat constructor|].
  destruct (mark_spf_dirty _ now) as [[c2 y]|] eqn:E2; cbn [mbind option_bind] in Hh; [|done].
  injection Hh as <- <-. apply mark_settled in E2 as (Hp & E2 & E2' & Hy).
  constructor; [done|done| |by left]. by apply push_quiet.
Qed.

(** The timer that is due computes both anew. *)
Lemma spf_current cp now g cp' acts :
  current cp → handle_spf_timer cp now g = Some (cp', acts) →
  current cp' ∧ last_routes (cp_routes cp) acts = cp_routes cp' ∧
  last_ads (published_topic_ads cp) acts = published_topic_ads cp'.
Proof.
  intros Hcur. unfold handle_spf_timer. intros Hh.
  destruct (pending_spf cp) as [p|]; [|by injection Hh as <- <-].
  destruct (negb _); [by injection Hh as <- <-|]. destruct (now <? ps_at p); [by injection Hh as <- <-|].
  unfold recompute_routes, recompute_topic_ads in Hh.
  destruct (shortest_paths _) as [routes|] eqn:Es; cbn [mbind option_bind] in Hh; [|done].
  change (shortest_paths cp = Some routes) in Es.
  destruct (decide (routes = _)) as [E|E].
  - cbn [mbind option_bind] in Hh. destruct (decide (discovered_topics _ = _)) as [Ed|Ed];
      injection Hh as <- <-; (split; [|done]); intros _; (split; [rewrite E in Es; exact Es|done]).
  - destruct (checked_add _ _ _); cbn [mbind option_bind] in Hh; [|done].
    destruct (decide (discovered_topics _ = _)) as [Ed|Ed];
      injection Hh as <- <-; (split; [|done]); intros _; (split; [exact Es|done]).
Qed.

Lemma settled_current cp cp' acts :
  current cp → settled cp cp' acts →
  current cp' ∧ last_routes (cp_routes cp) acts = cp_routes cp' ∧
  last_ads (published_topic_ads cp) acts = published_topic_ads cp'.
Proof.
  intros Hcur [Hr Ha Hq Hp]. destruct (last_unpublished acts (cp_routes cp) (published_topic_ads cp) Hq) as [-> ->].
  split; [|done]. intros Hn. destruct Hp as [[p Hp]|E]; [congruence|]. rewrite E in *. by apply Hcur.
Qed.
Lemma handle_current `{LsaAuth} cp now e cp' acts :
  current cp → cp_handle cp now e = Some (cp', acts) →
  current cp' ∧ last_routes (cp_routes cp) acts = cp_routes cp' ∧
  last_ads (published_topic_ads cp) acts = published_topic_ads cp'.
Proof.
  intros Hcur Hh.
  assert (Hor : ∀ cp1 acts1 rest, originate_lsa cp1 now = Some (cp', acts1) → acts = acts1 ++ rest →
    Forall unpublished rest → cp_routes cp1 = cp_routes cp →
    published_topic_ads cp1 = published_topic_ads cp → settled cp cp' acts).
  { intros cp1 acts1 rest Ho -> Hrest E1 E2.
    destruct (originate_settled cp1 now cp' acts1 rest Ho Hrest) as (H1 & H2 & H3 & H4).
    constructor; [congruence|congruence|done|by left]. }
  destruct e as [l peer c|l|ads|l [m|es|os]|[l|g|ep sq|o ep sq]]; cbn [cp_handle] in Hh.
  - destruct (originate_lsa _ now) as [[c1 a1]|] eqn:E; cbn [mbind option_bind] in Hh; [|done].
    injection Hh as <- <-. apply settled_current; [done|]. eapply Hor; [exact E|reflexivity| |done|done].
    by repeat constructor.
  - destruct (local_adjacencies cp !! l); [|by injection Hh as <- <-].
    apply settled_current; [done|]. eapply (Hor _ acts []); [exact Hh|by rewrite app_nil_r|done..].
  - destruct (_ || _); [by injection Hh as <- <-|].
    apply settled_current; [done|]. eapply (Hor _ acts []); [exact Hh|by rewrite app_nil_r|done..].
  - apply settled_current; [done|]. by eapply receive_lsa_settled.
  - destruct (receive_digest _ _ _) as [a|] eqn:E; cbn [mbind option_bind] in Hh; [|done].
    injection Hh as <- <-. apply settled_current; [done|]. apply settled_same. by eapply receive_digest_quiet.
  - injection Hh as <- <-. apply settled_current; [done|]. apply settled_same.
    unfold receive_digest_req. destruct (_ || _); [done|]. apply Forall_forall.
    intros a (o & _ & Ha)%list_elem_of_omap. destruct (get_active cp o); [|done]. by injection Ha as <-.
  - injection Hh as <- <-. apply settled_current; [done|]. apply settled_same.
    unfold handle_digest_timer. case_bool_decide; by repeat constructor.
  - by eapply spf_current.
  - unfold handle_refresh_timer in Hh. destruct (is_current cp ep sq); [|by injection Hh as <- <-].
    apply settled_current; [done|]. eapply (Hor _ acts []); [exact Hh|by rewrite app_nil_r|done..].
  - apply settled_current; [done|]. by eapply expire_settled.
Qed.

(** A new control plane knows no routes and needs none. *)
Lemma start_current m ep sq : current (with_auth_and_seq m ep sq).
Proof.
  intros _. split; [|done]. pose proof (initial_ok m ep sq) as Hok.
  destruct (shortest_paths_routes (with_auth_and_seq m ep sq) Hok) as (routes & Hr & Hme & Hall).
  rewrite Hr. f_equal. apply map_eq. intros d. cbn. rewrite lookup_empty.
  destruct (decide (d = m)) as [->|Hne]; [exact Hme|]. specialize (Hall d Hne).
  destruct (routes !! d) as [r|]; [|done]. exfalso.
  destruct Hall as (p & n & a & Hw & _). clear -Hw. cut (∀ u e, ¬ mesh_edge (with_auth_and_seq m ep sq) u e).
  - intros Hno. destruct Hw as [e He|u p c n e _ He]; by eapply Hno.
  - intros u e (x & _ & _ & Hx & _). unfold cp_lsa, get_active in Hx. cbn [lsdb with_auth_and_seq] in Hx.
    by rewrite lookup_empty in Hx.
Qed.
