(* ===== verification/MeshRoutes.v ===== *)
(** * Routes of a synchronised mesh

    The route tables of several control planes whose databases agree: following
    the next hops from node to node lowers the remaining cost at every hop, so
    that no packet circles and the links taken add up to the cost of the route.

    The nodes are kept in a map from identifiers to a control plane each, the
    links between them are the local adjacencies of the control planes. *)

From S2P Require Export Prelude Ord Bytes Types ControlTypes Spf Control ControlRoutes ControlInv ControlProps ControlRouting.

Lemma ole_fst {A B} `{TotalOrd A, TotalOrd B} (x y : A) (u v : B) :
  ole (x, u) (y, v) → ole x y.
Proof. unfold ole. cbn. by destruct (ocmp x y). Qed.

(** ** Paths from different nodes *)

Section Paths.
Context (cu cv : ControlPlane).
Context (Hagree : ∀ o, cp_lsa cu o = cp_lsa cv o).

Lemma mesh_edge_agree w e : mesh_edge cu w e → mesh_edge cv w e.
Proof. intros (l & l' & r & H). exists l, l', r. by rewrite <-!Hagree. Qed.

(** A path starts with an edge; the rest of it is a path of the peer. *)
Lemma mesh_path_uncons d p c n :
  mesh_path cu d p c n → me cv = p →
  ∃ e, mesh_edge cu (me cu) e ∧ adj_peer e = p ∧ cost_get (adj_cost e) ≤ c ∧
    (d = p ∧ c = cost_get (adj_cost e) ∨
     ∃ p' n', mesh_path cv d p' (c - cost_get (adj_cost e)) n').
Proof.
  induction 1 as [e He|u p c n e Hp IH He]; intros Hme.
  - exists e. split; [done|]. split; [done|]. split; [lia|by left].
  - destruct (IH Hme) as (e0 & He0 & Hp0 & Hle & Hcase). pose proof (cost_range (adj_cost e)).
    exists e0. split; [done|]. split; [done|]. split; [lia|]. right.
    apply mesh_edge_agree in He. destruct Hcase as [[-> ->]|(p' & n' & Hw)].
    + exists (adj_peer e), 1. rewrite <-Hme in He.
      replace (_ + _ - _) with (cost_get (adj_cost e)) by lia. by constructor.
    + exists p', (n' + 1). replace (c + cost_get (adj_cost e) - cost_get (adj_cost e0))
        with (c - cost_get (adj_cost e0) + cost_get (adj_cost e)) by lia.
      by econstructor.
Qed.
Lemma mesh_path_cons d p' c n e :
  mesh_path cv d p' c n → me cv = adj_peer e → mesh_edge cu (me cu) e →
  ∃ n', mesh_path cu d (adj_peer e) (cost_get (adj_cost e) + c) n'.
Proof.
  intros Hw Hme He. induction Hw as [e1 He1|u p c n e1 Hp IH He1].
  - exists 2. destruct He1 as (l & l' & r & H1).
    apply (mesh_ext cu (adj_peer e) _ _ 1); [by constructor|].
    exists l, l', r. by rewrite !Hagree, <-Hme.
  - destruct IH as [n' Hn]. exists (n' + 1). rewrite Z.add_assoc.
    destruct He1 as (l & l' & r & H1). eapply mesh_ext; [done|].
    exists l, l', r. by rewrite !Hagree.
Qed.
End Paths.

(** The edge of the node's own LSA that a next hop stands for costs what the
    link costs. *)
Lemma own_edge_cost cp e l a :
  cp_ok cp → mesh_edge cp (me cp) e → local_adjacencies cp !! l = Some a →
  la_peer a = adj_peer e →
  (∀ l' a', local_adjacencies cp !! l' = Some a' → la_peer a' = adj_peer e →
     ole (la_cost a, l) (la_cost a', l')) →
  la_cost a = adj_cost e.
Proof.
  intros Hok (m & _ & _ & (x & Hx & ->)%fmap_Some & He & _) Hl Hp Hbest.
  rewrite (cp_own _ Hok x Hx) in He. apply elem_of_local_lsa in He as [(l1 & a1 & H1 & Hp1 & Hc1) Hmin].
  apply (anti_symm ole); [|by apply (Hmin l a)].
  rewrite <-Hc1. specialize (Hbest l1 a1 H1 Hp1). by apply ole_fst in Hbest.
Qed.

(** ** A mesh of nodes *)

(** Every node of the mesh is reachable under its identifier, the databases
    hold the same LSAs, and the originators and peers they name take part. *)
Record mesh_synced (net : gmap NodeId ControlPlane) : Prop := {
  ms_ok u cp : net !! u = Some cp → cp_ok cp ∧ me cp = u;
  ms_agree u v cu cv o : net !! u = Some cu → net !! v = Some cv → cp_lsa cu o = cp_lsa cv o;
  ms_live u cp l a : net !! u = Some cp → local_adjacencies cp !! l = Some a →
    is_Some (net !! la_peer a);
}.

(** The way the routes lead from [u] to [d]: the nodes visited after [u] and the
    cost of the links taken. *)
Inductive trip (net : gmap NodeId ControlPlane) (d : NodeId) : NodeId → list NodeId → Z → Prop :=
| trip_end : trip net d d [] 0
| trip_hop u cp routes r a path c :
    net !! u = Some cp → u ≠ d →
    shortest_paths cp = Some routes → routes !! d = Some r →
    local_adjacencies cp !! next_hop r = Some a →
    trip net d (la_peer a) path c →
    trip net d u (la_peer a :: path) (cost_get (la_cost a) + c).

(** The cost that remains at [u] according to its routes. *)
Definition remaining (net : gmap NodeId ControlPlane) (d u : NodeId) (c : Z) : Prop :=
  u = d ∧ c = 0 ∨
  u ≠ d ∧ ∃ cp routes r, net !! u = Some cp ∧ shortest_paths cp = Some routes ∧
    routes !! d = Some r ∧ c = route_cost r.

Section Mesh.
Context (net : gmap NodeId ControlPlane) (Hnet : mesh_synced net).

Lemma remaining_unique d u c c' : remaining net d u c → remaining net d u c' → c = c'.
Proof. intros [[? ->]|(? & ?)] [[? ->]|(? & ?)]; try done.
  destruct_and?. naive_solver. Qed.

(** What the route of a node says of it. *)
Lemma route_of u cp routes d :
  net !! u = Some cp → shortest_paths cp = Some routes → u ≠ d →
  match routes !! d with
  | Some r => route_ok cp d r
  | None => ∀ p c n, ¬ mesh_path cp d p c n
  end.
Proof.
  intros Hu Hr Hne. destruct (ms_ok _ Hnet u cp Hu) as [Hok Hme].
  destruct (shortest_paths_routes cp Hok) as (routes' & Hr' & _ & Hall).
  rewrite Hr in Hr'. injection Hr' as <-. apply Hall. by rewrite Hme.
Qed.

(** One hop: the peer of the next hop is the destination or has a route that is
    cheaper by the cost of the link. *)
Lemma next_hop_progress u cp routes d r :
  net !! u = Some cp → shortest_paths cp = Some routes → u ≠ d → routes !! d = Some r →
  ∃ a, local_adjacencies cp !! next_hop r = Some a ∧
    remaining net d (la_peer a) (route_cost r - cost_get (la_cost a)).
Proof.
  intros Hu Hr Hne Hd. pose proof (route_of u cp routes d Hu Hr Hne) as Hok. rewrite Hd in Hok.
  destruct Hok as (p & n & a & Hw & _ & Hopt & Ha & <- & Hbest). exists a. split; [done|].
  destruct (ms_ok _ Hnet u cp Hu) as [Hcp Hme].
  destruct (ms_live _ Hnet u cp _ a Hu Ha) as [cv Hv].
  destruct (ms_ok _ Hnet _ cv Hv) as [Hcv Hmv].
  assert (Hag : ∀ o, cp_lsa cp o = cp_lsa cv o) by (intros o; by eapply ms_agree).
  destruct (mesh_path_uncons cp cv Hag d _ _ n Hw Hmv) as (e & He & Hpe & Hle & Hcase).
  rewrite <-Hpe in *. rewrite (own_edge_cost cp e (next_hop r) a Hcp He Ha (eq_sym Hpe) Hbest).
  destruct (decide (adj_peer e = d)) as [E|E].
  - left. split; [done|]. destruct (Hopt (adj_peer e) (cost_get (adj_cost e)) 1) as [Hmin _]; [|lia].
    rewrite <-E. by constructor.
  - right. split; [done|]. destruct Hcase as [[]|(p' & n' & Hw')]; [congruence|].
    destruct (shortest_paths_routes cv Hcv) as (routes' & Hr' & _ & _).
    pose proof (route_of _ cv routes' d Hv Hr' E) as Hok'.
    destruct (routes' !! d) as [r'|] eqn:Ed; [|by apply Hok' in Hw'].
    exists cv, routes', r'. split_and!; [done..|].
    destruct Hok' as (p2 & n2 & _ & Hw2 & _ & Hopt' & _).
    destruct (Hopt' _ _ _ Hw') as [Hle' _].
    destruct (mesh_path_cons cp cv Hag d p2 _ n2 e Hw2 Hmv He) as [n3 Hw3].
    destruct (Hopt _ _ _ Hw3) as [Hle3 _]. lia.
Qed.
Lemma remaining_nonneg d u c : remaining net d u c → 0 ≤ c.
Proof.
  intros [[_ ->]|(Hne & cp & routes & r & Hu & Hr & Hd & ->)]; [done|].
  destruct (next_hop_progress u cp routes d r Hu Hr Hne Hd) as (a & Ha & Hrem).
  pose proof (route_of u cp routes d Hu Hr Hne) as Hok. rewrite Hd in Hok.
  destruct Hok as (p & n & _ & Hw%walk_mesh & _). apply walk_pos in Hw. lia.
Qed.

Lemma trip_remaining d u path c : trip net d u path c → remaining net d u c.
Proof.
  induction 1 as [|u cp routes r a path c Hu Hne Hr Hd Ha _ IH]; [by left|].
  right. split; [done|]. exists cp, routes, r. split_and!; [done..|].
  destruct (next_hop_progress u cp routes d r Hu Hr Hne Hd) as (a' & Ha' & Hrem).
  rewrite Ha in Ha'. injection Ha' as <-. pose proof (remaining_unique _ _ _ _ IH Hrem). lia.
Qed.
Lemma trip_dom d u path c : trip net d u path c → Forall (.∈ dom net) path.
Proof.
  induction 1 as [|u cp routes r a path c Hu Hne Hr Hd Ha _ IH]; constructor; [|done].
  apply elem_of_dom. by eapply ms_live.
Qed.
Lemma trip_short d u path c :
  is_Some (net !! u) → trip net d u path c → NoDup (u :: path) → (length path < size net)%nat.
Proof.
  intros Hu Ht Hnd. rewrite <-size_dom.
  assert (Hsub : list_to_set (u :: path) ⊆ dom net).
  { intros v Hv%elem_of_list_to_set. apply elem_of_dom in Hu.
    apply trip_dom in Ht. rewrite Forall_forall in Ht.
    apply elem_of_cons in Hv as [->|Hv]; auto. }
  apply subseteq_size in Hsub. rewrite size_list_to_set in Hsub by done. cbn in Hsub. lia.
Qed.

(** Following the next hops reaches the destination: each node it visits is
    closer, and the links add up to the cost of the route. *)
Lemma trip_exists d u c :
  remaining net d u c →
  ∃ path, trip net d u path c ∧ Forall (λ v, ∃ c', remaining net d v c' ∧ c' < c) path ∧
    NoDup (u :: path).
Proof.
  revert u. induction c as [c IH] using (well_founded_induction (Z.lt_wf 0)). intros u Hrem.
  pose proof Hrem as [[-> ->]|(Hne & cp & routes & r & Hu & Hr & Hd & ->)].
  { exists []. split; [constructor|]. split; [done|apply NoDup_singleton]. }
  destruct (next_hop_progress u cp routes d r Hu Hr Hne Hd) as (a & Ha & Hrem').
  pose proof (cost_range (la_cost a)). pose proof (remaining_nonneg _ _ _ Hrem').
  destruct (IH (route_cost r - cost_get (la_cost a)) ltac:(lia) _ Hrem') as (path & Ht & Hall & Hnd).
  exists (la_peer a :: path). split.
  { replace (route_cost r) with (cost_get (la_cost a) + (route_cost r - cost_get (la_cost a))) by lia.
    by econstructor. }
  assert (Hall' : Forall (λ v, ∃ c', remaining net d v c' ∧ c' < route_cost r) (la_peer a :: path)).
  { constructor; [eexists; split; [done|lia]|]. eapply Forall_impl; [done|].
    intros v (c' & Hv & Hlt). exists c'. split; [done|lia]. }
  split; [done|]. constructor; [|done]. intros Hin. rewrite Forall_forall in Hall'.
  destruct (Hall' u Hin) as (c' & Hc' & Hlt).
  pose proof (remaining_unique _ _ _ _ Hrem Hc'). lia.
Qed.
End Mesh.
