(* ===== verification/MeshSync.v ===== *)
(** * Quiet networks are synchronised

    The invariant holds in every reachable network, and once no frame is under
    way neighbours agree on every LSA. *)

From S2P Require Export Prelude Ord Bytes Types ControlTypes Spf Control ControlRoutes ControlInv ControlProps ControlSync MeshNet ControlRouting MeshRoutes.

Section Sync.
Context `{LsaAuthLaws} (Hverify : ∀ l, verify (sign l) = true).

(** ** Every step keeps the invariant *)

Lemma net_handle_step x h net v now e net' :
  net_inv x h net → Z.of_nat (size (net_planes net)) ≤ MAX_LSA_ADJACENCIES →
  net_handle net v now e = Some net' →
  (∀ cv, net_planes net !! v = Some cv → frame_event x h net v e cv ∧ link_event net v e cv) →
  ∃ h', net_inv None h' net' ∧ dom (net_planes net') = dom (net_planes net).
Proof.
  intros Hinv Hsz Hh Hev. unfold net_handle in Hh.
  destruct (net_planes net !! v) as [cv|] eqn:Hcv; cbn [mbind option_bind] in Hh; [|done].
  destruct (handle cv now e) as [[cv' acts]|] eqn:He; cbn [mbind option_bind] in Hh; [|done].
  injection Hh as <-. destruct (Hev cv eq_refl) as [Hf Hl]. eexists. split.
  - exact (net_handle_inv Hverify x h net Hinv Hsz v now e cv cv' acts Hcv He Hf Hl).
  - cbn. apply dom_insert_lookup_L. by eexists.
Qed.

(** Removing both directions of a link. *)
Lemma disconnect_inv h net k ch :
  net_inv None h net → net_channels net !! k = Some ch →
  net_inv None h (with_channels net (delete k (delete (ch_far ch) (net_channels net)))).
Proof.
  intros Hinv Hk. destruct (ni_channels _ _ _ Hinv k ch Hk) as (_ & chf & Hkf & Hback & Hne).
  assert (Hold : ∀ k' ch', delete k (delete (ch_far ch) (net_channels net)) !! k' = Some ch' →
    net_channels net !! k' = Some ch' ∧ k' ≠ k ∧ k' ≠ ch_far ch ∧ ch_far ch' ≠ k ∧ ch_far ch' ≠ ch_far ch).
  { intros k' ch' [Hk1 [Hk2 Hk']%lookup_delete_Some]%lookup_delete_Some.
    destruct (ni_channels _ _ _ Hinv k' ch' Hk') as (_ & c & Hc & Hb & _).
    split_and!; try done; intros E; rewrite E in Hc; simplify_eq. }
  assert (Hfl : ∀ k' P, k' ≠ k → k' ≠ ch_far ch → in_flight net k' P →
    in_flight (with_channels net (delete k (delete (ch_far ch) (net_channels net)))) k' P).
  { intros k' P H1 H2 (c & f & Hc & Hf & HP). exists c, f. cbn. by rewrite !lookup_delete_ne. }
  destruct Hinv as [I1 I2 I3 I4 I5 I6 I7 I8]. constructor; try done.
  - intros u cp l a Hu Ha. destruct (I2 u cp l a Hu Ha) as [Hp Hlead]. split; [done|].
    unfold may_lead_to in *. cbn. destruct (delete k _ !! (u, l)) as [c|] eqn:E; [|done].
    apply Hold in E as (E & _). by rewrite E in Hlead.
  - intros k' ch' (Hk' & Hn1 & Hn2 & Hn3 & Hn4)%Hold.
    destruct (I3 k' ch' Hk') as (Hp & c & Hc & Hb & Hd). split; [done|]. exists c. cbn.
    by rewrite !lookup_delete_ne.
  - intros k' ch' f (Hk' & _)%Hold Hf. by apply (I7 k' ch').
  - intros k' ch' cp o a (Hk' & Hn1 & Hn2 & Hn3 & Hn4)%Hold Hu Hl Ha. left.
    destruct (I8 k' ch' cp o a Hk' Hu Hl Ha) as [[Hc|[Hc|Hc]]|[]];
      [by left|right; left|right; right]; by apply Hfl.
Qed.

(** A new link carries nothing and is not up. *)
Lemma connect_inv h net k1 k2 :
  net_inv None h net → k1 ≠ k2 →
  is_Some (net_planes net !! k1.1) → is_Some (net_planes net !! k2.1) →
  is_wired net k1 = false → is_wired net k2 = false → is_up net k1 = false → is_up net k2 = false →
  net_inv None h (with_channels net
    (<[k1 := {| ch_far := k2; ch_frames := [] |}]>
     (<[k2 := {| ch_far := k1; ch_frames := [] |}]> (net_channels net)))).
Proof.
  intros Hinv Hne Hp1 Hp2 Hw1 Hw2 Hu1 Hu2. set (m := <[k1 := _]> _).
  assert (Hold : ∀ k ch, m !! k = Some ch →
    k = k1 ∧ ch = {| ch_far := k2; ch_frames := [] |} ∨
    k = k2 ∧ ch = {| ch_far := k1; ch_frames := [] |} ∨
    k ≠ k1 ∧ k ≠ k2 ∧ net_channels net !! k = Some ch).
  { intros k ch [[<- <-]|[? [[<- <-]|[? ?]]%lookup_insert_Some]]%lookup_insert_Some; auto. }
  assert (Hdown : ∀ k cp, is_up net k = false → net_planes net !! k.1 = Some cp →
    local_adjacencies cp !! k.2 = None).
  { intros k cp Hu Hcp. unfold is_up in Hu. rewrite Hcp in Hu.
    apply bool_decide_eq_false in Hu. by apply eq_None_not_Some. }
  assert (Hkeep : ∀ k ch, net_channels net !! k = Some ch → k ≠ k1 ∧ k ≠ k2).
  { intros k ch Hk. unfold is_wired in Hw1, Hw2. split; intros ->; [by rewrite Hk in Hw1|by rewrite Hk in Hw2]. }
  assert (Hfl : ∀ k P, in_flight net k P → in_flight (with_channels net m) k P).
  { intros k P (c & f & Hc & Hf & HP). destruct (Hkeep k c Hc). exists c, f. cbn. unfold m.
    by rewrite !lookup_insert_ne. }
  destruct Hinv as [I1 I2 I3 I4 I5 I6 I7 I8]. constructor; try done.
  - intros u cp l a Hu Ha. destruct (I2 u cp l a Hu Ha) as [Hp Hlead]. split; [done|].
    unfold may_lead_to in *. cbn. destruct (m !! (u, l)) as [c|] eqn:E; [|done].
    apply Hold in E as [[E _]|[[E _]|(_ & _ & E)]].
    + rewrite <-E in Hu1. apply (Hdown _ cp) in Hu1; [|done]. cbn in Hu1. congruence.
    + rewrite <-E in Hu2. apply (Hdown _ cp) in Hu2; [|done]. cbn in Hu2. congruence.
    + by rewrite E in Hlead.
  - intros k ch [[-> ->]|[[-> ->]|(H1 & H2 & Hk)]]%Hold; cbn; unfold m.
    + split; [done|]. rewrite lookup_insert_ne, lookup_insert_eq by done. by eexists.
    + split; [done|]. rewrite lookup_insert_eq. by eexists.
    + destruct (I3 k ch Hk) as (Hp & c & Hc & Hb & Hd). split; [done|]. exists c.
      destruct (Hkeep _ _ Hc). by rewrite !lookup_insert_ne.
  - intros k ch f [[-> ->]|[[-> ->]|(H1 & H2 & Hk)]]%Hold Hf; [by apply not_elem_of_nil in Hf..|].
    by apply (I7 k ch).
  - intros k ch cp o a [[-> ->]|[[-> ->]|(H1 & H2 & Hk)]]%Hold Hu Hl Ha.
    + rewrite (Hdown k1 cp) in Hl by done. by destruct Hl.
    + rewrite (Hdown k2 cp) in Hl by done. by destruct Hl.
    + left. destruct (I8 k ch cp o a Hk Hu Hl Ha) as [[Hc|[Hc|Hc]]|[]];
        [by left|right; left|right; right]; by apply Hfl.
Qed.

(** A frame that leaves its channel. *)
Lemma take_inv h net k ch f rest :
  net_inv None h net → net_channels net !! k = Some ch → ch_frames ch = f :: rest →
  net_inv (Some (k, f)) h (with_channels net
    (<[k := {| ch_far := ch_far ch; ch_frames := rest |}]> (net_channels net))).
Proof.
  intros Hinv Hk Hf. set (m := <[k := _]> (net_channels net)).
  assert (Hold : ∀ k' ch', m !! k' = Some ch' → ∃ c, net_channels net !! k' = Some c ∧
    ch_far ch' = ch_far c ∧ ∀ f', f' ∈ ch_frames ch' → f' ∈ ch_frames c).
  { intros k' ch' [[<- <-]|[? Hk']]%lookup_insert_Some; [|by exists ch'].
    exists ch. rewrite Hf. split_and!; [done..|]. intros f' Hin. by right. }
  assert (Hfl : ∀ k' P, in_flight net k' P →
    in_flight (with_channels net m) k' P ∨ k' = k ∧ P f).
  { intros k' P (c & f' & Hc & Hin & HP). destruct (decide (k' = k)) as [->|Hne].
    - rewrite Hk in Hc. injection Hc as <-. rewrite Hf in Hin.
      apply elem_of_cons in Hin as [->|Hin]; [by right|]. left. eexists _, f'. cbn. unfold m.
      by rewrite lookup_insert_eq.
    - left. exists c, f'. cbn. unfold m. by rewrite lookup_insert_ne. }
  assert (Hsome : ∀ k' c, net_channels net !! k' = Some c →
    ∃ c', m !! k' = Some c' ∧ ch_far c' = ch_far c).
  { intros k' c Hc. unfold m. destruct (decide (k' = k)) as [->|Hne].
    - rewrite lookup_insert_eq. rewrite Hk in Hc. injection Hc as <-. by eexists.
    - rewrite lookup_insert_ne by done. by exists c. }
  destruct Hinv as [I1 I2 I3 I4 I5 I6 I7 I8]. constructor; try done.
  - intros u cp l a Hu Ha. destruct (I2 u cp l a Hu Ha) as [Hp Hlead]. split; [done|].
    unfold may_lead_to in *. cbn. destruct (m !! (u, l)) as [c|] eqn:E; [|done].
    apply Hold in E as (c' & E & -> & _). by rewrite E in Hlead.
  - intros k' ch' (c & Hc & -> & _)%Hold. destruct (I3 k' c Hc) as (Hp & c2 & Hc2 & Hb & Hd).
    split; [done|]. destruct (Hsome _ _ Hc2) as (c3 & Hc3 & Hb3). exists c3. by rewrite Hb3.
  - intros k' ch' f' (c & Hc & _ & Hin)%Hold Hf'. apply (I7 k' c); auto.
  - intros k' ch' cp o a (c & Hc & -> & _)%Hold Hu Hl Ha.
    destruct (I8 k' c cp o a Hc Hu Hl Ha) as [[Hcov|[Hcov|Hcov]]|[]]; [by left; left|..];
      apply Hfl in Hcov as [Hcov|[<- HP]].
    + left. right. by left.
    + right. by left.
    + left. right. by right.
    + right. by right.
Qed.

Lemma net_step_inv h net e net' :
  net_inv None h net → Z.of_nat (size (net_planes net)) ≤ MAX_LSA_ADJACENCIES →
  net_step net e = Some net' →
  ∃ h', net_inv None h' net' ∧ dom (net_planes net') = dom (net_planes net).
Proof.
  intros Hinv Hsz Hs. destruct e as [u l v l'|u l now p c|u l now|u l now|u now e]; cbn [net_step] in Hs.
  - case_decide as Hd; [|done]. injection Hs as <-. destruct Hd as (? & ? & ? & ? & ? & ? & ?).
    exists h. split; [by apply connect_inv|done].
  - case_decide as Hd; [|done]. destruct Hd as (Hup & Hp & Hlead).
    eapply net_handle_step; [done..|]. intros cv Hcv. split; [done|]. split_and!; [|done..].
    unfold is_up in Hup. cbn in Hup. rewrite Hcv in Hup. apply bool_decide_eq_false in Hup.
    by apply eq_None_not_Some.
  - destruct (net_channels net !! (u, l)) as [ch|] eqn:Hk;
      (apply (net_handle_step None h) in Hs; [exact Hs| |done|intros cv _; exact (conj eq_refl I)]).
    + by apply (disconnect_inv h net (u, l)).
    + by destruct net.
  - destruct (net_channels net !! (u, l)) as [ch|] eqn:Hk; cbn [mbind option_bind] in Hs; [|done].
    destruct (ch_frames ch) as [|f rest] eqn:Hf; [done|]. destruct (is_up _ _) eqn:Hup; [|done].
    eapply net_handle_step in Hs; [exact Hs|by apply take_inv|done|].
    intros cv Hcv. split; [|done]. cbn [frame_event with_channels net_channels].
    eexists _, (ch_far ch).2. rewrite lookup_insert_eq. split; [done|]. cbn.
    split; [apply surjective_pairing|]. split; [done|]. split.
    + unfold is_up in Hup. cbn in Hcv. rewrite Hcv in Hup. by apply bool_decide_eq_true in Hup.
    + pose proof (ni_frames _ _ _ Hinv (u, l) ch f Hk) as Hkn. rewrite Hf in Hkn.
      by apply Hkn; left.
  - destruct (is_local e) eqn:He; [|done]. apply (net_handle_step None h) in Hs; [exact Hs|done..|].
    intros cv Hcv. destruct e; try done; exact (conj eq_refl I).
Qed.
Lemma net_run_inv es h net net' :
  net_inv None h net → Z.of_nat (size (net_planes net)) ≤ MAX_LSA_ADJACENCIES →
  net_run net es = Some net' →
  ∃ h', net_inv None h' net' ∧ dom (net_planes net') = dom (net_planes net).
Proof.
  revert h net. induction es as [|e es IH]; intros h net Hinv Hsz Hr; cbn in Hr.
  { injection Hr as <-. eauto. }
  destruct (net_step net e) as [net1|] eqn:He; cbn in Hr; [|done].
  destruct (net_step_inv h net e net1 Hinv Hsz He) as (h1 & Hinv1 & Hd1).
  destruct (IH h1 net1 Hinv1) as (h' & ? & Hd); [by rewrite <-size_dom, Hd1, size_dom|done|].
  exists h'. by rewrite Hd, Hd1.
Qed.

Lemma net_start_inv nodes :
  map_Forall (λ _ x, 0 ≤ x.2) nodes → net_inv None ∅ (net_start nodes).
Proof.
  intros Hpos. assert (Hst : ∀ u cp, net_planes (net_start nodes) !! u = Some cp →
    ∃ y, cp = with_auth_and_seq u y.1 y.2 ∧ 0 ≤ y.2).
  { intros u cp. cbn. rewrite map_lookup_imap. destruct (nodes !! u) as [y|] eqn:Hu; [|done].
    intros [= <-]. exists y. split; [done|]. by apply (Hpos u). }
  constructor; try done.
  - intros u cp (y & -> & ?)%Hst. split_and!; [apply initial_ok|done|done].
  - by intros u cp l a (y & -> & ?)%Hst Ha.
  - by intros u cp o a (y & -> & ?)%Hst Ha.
  - by intros u cp o e (y & -> & ?)%Hst He.
Qed.
Lemma net_reachable_inv net :
  net_reachable net →
  (∃ h, net_inv None h net) ∧ Z.of_nat (size (net_planes net)) ≤ MAX_LSA_ADJACENCIES.
Proof.
  intros (nodes & es & Hpos & Hsz & Hr).
  assert (Hsz' : Z.of_nat (size (net_planes (net_start nodes))) ≤ MAX_LSA_ADJACENCIES).
  { rewrite <-size_dom. etrans; [|exact Hsz]. rewrite <-size_dom. apply inj_le, subseteq_size.
    intros u [cp Hu]%elem_of_dom. cbn in Hu. rewrite map_lookup_imap in Hu. apply elem_of_dom.
    destruct (nodes !! u); [by eexists|done]. }
  destruct (net_run_inv es ∅ _ net (net_start_inv nodes Hpos) Hsz' Hr) as (h & ? & Hd).
  split; [by exists h|]. by rewrite <-size_dom, Hd, size_dom.
Qed.

(** ** Quiet networks *)

(** No frame is under way. *)
Definition quiet (net : MeshNet) : Prop :=
  map_Forall (λ _ ch, ch_frames ch = []) (net_channels net).
(** Every link is up at both ends. *)
Definition all_up (net : MeshNet) : Prop :=
  map_Forall (λ k _, is_up net k = true) (net_channels net).
(** No database holds an expired LSA. *)
Definition unexpired (net : MeshNet) : Prop :=
  ∀ u cp o e, net_planes net !! u = Some cp → lsdb cp !! o = Some e → is_Some (active e).
(** A link leads from [u] to [v]. *)
Definition adjacent (net : MeshNet) (u v : NodeId) : Prop :=
  ∃ l ch, net_channels net !! (u, l) = Some ch ∧ (ch_far ch).1 = v.

Lemma quiet_knows h net u v cu o a :
  net_inv None h net → quiet net → all_up net → adjacent net u v →
  net_planes net !! u = Some cu → get_active cu o = Some a →
  knows net v o (lsa_version (lsa (message a))).
Proof.
  intros Hinv Hq Hup (l & ch & Hk & <-) Hu Ha.
  assert (Hl : is_Some (local_adjacencies cu !! l)).
  { pose proof (Hup _ _ Hk) as E. unfold is_up in E. cbn in E. rewrite Hu in E.
    by apply bool_decide_eq_true in E. }
  destruct (ni_covered _ _ _ Hinv (u, l) ch cu o a Hk Hu Hl Ha)
    as [[Hc|[(c & f & Hc & Hf & _)|(c & f & Hc & Hf & _)]]|[]]; [done|..];
    rewrite (Hq _ _ Hc) in Hf; by apply not_elem_of_nil in Hf.
Qed.
Lemma adjacent_sym h net u v : net_inv None h net → adjacent net u v → adjacent net v u.
Proof.
  intros Hinv (l & ch & Hk & <-). destruct (ni_channels _ _ _ Hinv _ _ Hk) as (_ & c & Hc & Hb & _).
  exists (ch_far ch).2, c. rewrite Hb. by destruct (ch_far ch).
Qed.

(** Neighbours that hold an LSA of the same origin hold the same one. *)
Lemma quiet_agree h net u v cu cv o :
  net_inv None h net → quiet net → all_up net → unexpired net → adjacent net u v →
  net_planes net !! u = Some cu → net_planes net !! v = Some cv →
  is_Some (get_active cu o) → cp_lsa cu o = cp_lsa cv o.
Proof.
  intros Hinv Hq Hup Hun Hadj Hu Hv [a Ha].
  destruct (quiet_knows h net u v cu o a Hinv Hq Hup Hadj Hu Ha) as (c & ev & Hc & Hev & Hle).
  rewrite Hv in Hc. injection Hc as <-. destruct (Hun v cv o ev Hv Hev) as [b Hb].
  assert (Hact : get_active cv o = Some b) by (unfold get_active; by rewrite Hev).
  destruct (quiet_knows h net v u cv o b Hinv Hq Hup (adjacent_sym _ _ _ _ Hinv Hadj) Hv Hact)
    as (c & eu & Hc & Heu & Hge). rewrite Hu in Hc. injection Hc as <-.
  destruct (ni_planes _ _ _ Hinv u cu Hu) as (Hoku & _), (ni_planes _ _ _ Hinv v cv Hv) as (Hokv & _).
  destruct (active_version cu o a Hoku Ha) as (eu' & Heu' & _ & _ & Hwu).
  destruct (active_version cv o b Hokv Hact) as (ev' & Hev' & _ & _ & Hwv).
  rewrite Heu in Heu'. injection Heu' as <-. rewrite Hev in Hev'. injection Hev' as <-.
  rewrite Hwv in Hle. rewrite Hwu in Hge. pose proof (anti_symm ole _ _ Hle Hge) as E.
  injection E as _ Es. destruct (ni_db _ _ _ Hinv u cu o a Hu Ha) as [Hhu _].
  destruct (ni_db _ _ _ Hinv v cv o b Hv Hact) as [Hhv _]. rewrite Es in Hhu.
  unfold cp_lsa. rewrite Ha, Hact. cbn. congruence.
Qed.
Lemma quiet_agree_all h net u v cu cv o :
  net_inv None h net → quiet net → all_up net → unexpired net → adjacent net u v →
  net_planes net !! u = Some cu → net_planes net !! v = Some cv → cp_lsa cu o = cp_lsa cv o.
Proof.
  intros Hinv Hq Hup Hun Hadj Hu Hv. destruct (get_active cu o) as [a|] eqn:Ha.
  { by apply (quiet_agree h net u v). }
  destruct (get_active cv o) as [b|] eqn:Hb.
  { symmetry. apply (quiet_agree h net v u); try done. by eapply adjacent_sym. }
  unfold cp_lsa. by rewrite Ha, Hb.
Qed.
Lemma connected_agree h net u v cu cv o :
  net_inv None h net → quiet net → all_up net → unexpired net → rtc (adjacent net) u v →
  net_planes net !! u = Some cu → net_planes net !! v = Some cv → cp_lsa cu o = cp_lsa cv o.
Proof.
  intros Hinv Hq Hup Hun Hpath. revert cu.
  induction Hpath as [u|u w v Hadj _ IH]; intros cu Hu Hv; [congruence|].
  destruct (adjacent_sym _ _ _ _ Hinv Hadj) as (l & ch & Hk & _).
  destruct (ni_channels _ _ _ Hinv _ _ Hk) as ([cw Hw] & _).
  rewrite (quiet_agree_all h net u w cu cw o) by done. by apply IH.
Qed.

Lemma quiet_synced h net :
  net_inv None h net → quiet net → all_up net → unexpired net →
  (∀ u v, is_Some (net_planes net !! u) → is_Some (net_planes net !! v) → rtc (adjacent net) u v) →
  mesh_synced (net_planes net).
Proof.
  intros Hinv Hq Hup Hun Hcon. constructor.
  - intros u cp Hu. by destruct (ni_planes _ _ _ Hinv u cp Hu) as (? & ? & _).
  - intros u v cu cv o Hu Hv. apply (connected_agree h net u v); try done. apply Hcon; by eexists.
  - intros u cp l a Hu Ha. by apply (ni_peers _ _ _ Hinv u cp l a).
Qed.

(** C5: A quiet network is synchronised.  In every network of at most 256 nodes
    whose own signatures verify, and that is reached by links coming and going,
    topic changes, timers and the delivery of frames, in any order: once no frame
    is under way, every link is up at both ends and no LSA has expired, any two
    nodes that are connected hold exactly the same LSAs.  If moreover all nodes
    are connected, their databases describe one mesh, whose peers all take
    part. *)
Theorem quiet_network_synced net :
  net_reachable net → quiet net → all_up net → unexpired net →
  (∀ u v cu cv o, rtc (adjacent net) u v →
     net_planes net !! u = Some cu → net_planes net !! v = Some cv → cp_lsa cu o = cp_lsa cv o) ∧
  ((∀ u v, is_Some (net_planes net !! u) → is_Some (net_planes net !! v) → rtc (adjacent net) u v) →
   mesh_synced (net_planes net)).
Proof.
  intros [[h Hinv] _]%net_reachable_inv Hq Hup Hun. split; [|by apply (quiet_synced h)].
  intros u v cu cv o Hc. by apply (connected_agree h net).
Qed.
End Sync.
