(* ===== verification/MeshQuiesce.v ===== *)
(** * Networks become quiet

    Delivering frames cannot go on for ever: a potential of the network falls
    with every delivery.  It counts the LSAs the nodes have still to learn and
    weighs the frames under way by the answers they can cause. *)

From S2P Require Export Prelude Ord Bytes Types ControlTypes Spf Control ControlRoutes ControlInv ControlProps ControlSync MeshNet ControlRouting MeshRoutes MeshSync.

(** ** Sums over a list of keys *)

Lemma zsum_fmap_le {A} (f g : A → Z) (l : list A) :
  (∀ x, x ∈ l → f x ≤ g x) → zsum (f <$> l) ≤ zsum (g <$> l).
Proof.
  induction l as [|x l IH]; intros Hle; [done|]. rewrite !fmap_cons, !zsum_cons.
  pose proof (Hle x ltac:(by left)). assert (zsum (f <$> l) ≤ zsum (g <$> l)); [|lia].
  apply IH. intros y Hy. apply Hle. by right.
Qed.
Lemma zsum_fmap_add {A} (f g : A → Z) (l : list A) :
  zsum ((λ x, f x + g x) <$> l) = zsum (f <$> l) + zsum (g <$> l).
Proof. induction l as [|x l IH]; [done|]. rewrite !fmap_cons, !zsum_cons, IH. lia. Qed.
Lemma zsum_delta `{EqDecision A} (l : list A) x d :
  NoDup l → x ∈ l → zsum ((λ y, if decide (y = x) then d else 0) <$> l) = d.
Proof.
  assert (Hz : ∀ l, x ∉ l → zsum ((λ y, if decide (y = x) then d else 0) <$> l) = 0).
  { clear l. intros l. induction l as [|y l IH]; [done|]. intros [Hne Hl]%not_elem_of_cons.
    rewrite fmap_cons, zsum_cons, decide_False, IH by done. done. }
  induction 1 as [|y l Hy Hnd IH]; intros Hx; [by apply not_elem_of_nil in Hx|].
  rewrite fmap_cons, zsum_cons. apply elem_of_cons in Hx as [<-|Hx].
  - rewrite decide_True, Hz by done. lia.
  - rewrite decide_False by (intros ->; done). rewrite IH by done. lia.
Qed.

(** ** The potential *)

Section Weights.
Context (nodes : list NodeId) (keys : list (NodeId * LinkId)) (seqs : NodeId → Z) (top : Z).

Definition lsa_rank (m : LsaMessage) : Z := seqs (origin (lsa m)) - seq_no (lsa m) + 1.
Definition frame_weight (f : ControlFrame) : Z :=
  match f with
  | CfLsa m => lsa_rank m
  | CfDigestReq _ => zlen nodes * top + 1
  | CfDigest _ => 2 * (zlen nodes * top) + 2
  end.
Definition frames_weight (fs : list ControlFrame) : Z := zsum (frame_weight <$> fs).
Definition channel_weight (net : MeshNet) (k : NodeId * LinkId) : Z :=
  match net_channels net !! k with Some ch => frames_weight (ch_frames ch) | None => 0 end.
(** What a node has still to learn of [o]. *)
Definition missing (cp : ControlPlane) (o : NodeId) : Z :=
  match lsdb cp !! o with Some e => seqs o - (entry_version e).2 | None => seqs o + 1 end.
Definition node_missing (net : MeshNet) (u : NodeId) : Z :=
  match net_planes net !! u with
  | Some cp => zsum (missing cp <$> nodes)
  | None => 0
  end.
Definition potential (net : MeshNet) : Z :=
  (zlen keys * top + 1) * zsum (node_missing net <$> nodes) + zsum (channel_weight net <$> keys).
End Weights.

(** The potential of a network at hand. *)
Definition net_nodes (net : MeshNet) : list NodeId := elements (dom (net_planes net)).
Definition net_keys (net : MeshNet) : list (NodeId * LinkId) := elements (dom (net_channels net)).
Definition own_seq (net : MeshNet) (o : NodeId) : Z :=
  match net_planes net !! o with Some cp => my_seq cp | None => 0 end.
Definition net_top (net : MeshNet) : Z := zsum ((λ o, own_seq net o + 2) <$> net_nodes net).
Definition net_potential (net : MeshNet) : Z :=
  potential (net_nodes net) (net_keys net) (own_seq net) (net_top net) net.

(** ** One delivery *)

Section Deliver.
Context `{LsaAuthLaws} (Hverify : ∀ l, verify (sign l) = true).
Context (nodes : list NodeId) (keys : list (NodeId * LinkId)) (seqs : NodeId → Z) (top : Z).
Context (Hnd : NoDup nodes) (Hkd : NoDup keys).
Abbreviation weight := (frames_weight nodes seqs top).

(** The constants of the potential are those of the network. *)
Record measured (net : MeshNet) : Prop := {
  md_nodes u : is_Some (net_planes net !! u) ↔ u ∈ nodes;
  md_keys k : is_Some (net_channels net !! k) ↔ k ∈ keys;
  md_seqs u cp : net_planes net !! u = Some cp → my_seq cp = seqs u ∧ seqs u + 2 ≤ top;
  md_top : 0 ≤ top;
}.

Lemma known_rank h net m :
  net_inv None h net → measured net →
  h !! (origin (lsa m), seq_no (lsa m)) = Some (lsa m) → 1 ≤ lsa_rank seqs m ≤ top.
Proof.
  intros Hinv Hm Hl. unfold lsa_rank.
  destruct (ni_history _ _ _ Hinv _ _ _ Hl) as (_ & _ & Hpos & _ & cp & Hcp & _ & Hle & _).
  destruct (md_seqs _ Hm _ _ Hcp) as [E ?]. lia.
Qed.
Lemma missing_nonneg h net u cp o :
  net_inv None h net → measured net → net_planes net !! u = Some cp → o ∈ nodes →
  0 ≤ missing seqs cp o.
Proof.
  intros Hinv Hm Hu Ho. unfold missing. destruct (lsdb cp !! o) as [e|] eqn:He.
  - destruct (ni_entries _ _ _ Hinv u cp o e Hu He) as (s & l & Hl & ->). cbn.
    destruct (ni_history _ _ _ Hinv _ _ _ Hl) as (_ & -> & _ & _ & co & Hco & _ & Hle & _).
    destruct (md_seqs _ Hm _ _ Hco) as [E _]. lia.
  - apply (md_nodes _ Hm) in Ho as [co Hco]. destruct (md_seqs _ Hm _ _ Hco) as [E _].
    destruct (ni_planes _ _ _ Hinv o co Hco) as (_ & _ & ?). lia.
Qed.
Lemma frame_weight_pos h net k ch f :
  net_inv None h net → measured net → net_channels net !! k = Some ch → f ∈ ch_frames ch →
  0 < frame_weight nodes seqs top f.
Proof.
  intros Hinv Hm Hk Hf. pose proof (ni_frames _ _ _ Hinv k ch f Hk Hf) as Hkn.
  pose proof (md_top _ Hm). pose proof (zlen_nonneg nodes).
  destruct f as [m|es|os]; cbn in Hkn |- *; [|nia..].
  destruct Hkn as (Hl & _). pose proof (known_rank h net m Hinv Hm Hl). lia.
Qed.
Lemma potential_nonneg h net :
  net_inv None h net → measured net → 0 ≤ potential nodes keys seqs top net.
Proof.
  intros Hinv Hm. unfold potential. pose proof (md_top _ Hm). pose proof (zlen_nonneg keys).
  assert (0 ≤ zsum (node_missing nodes seqs net <$> nodes)).
  { apply zsum_nonneg, Forall_fmap, Forall_forall. intros u Hu. cbn. unfold node_missing.
    destruct (net_planes net !! u) as [cp|] eqn:E; [|done].
    apply zsum_nonneg, Forall_fmap, Forall_forall. intros o Ho. by eapply missing_nonneg. }
  assert (0 ≤ zsum (channel_weight nodes seqs top net <$> keys)); [|nia].
  apply zsum_nonneg, Forall_fmap, Forall_forall. intros k Hk. cbn. unfold channel_weight.
  destruct (net_channels net !! k) as [ch|] eqn:E; [|done].
  apply zsum_nonneg, Forall_fmap, Forall_forall. intros f Hf. cbn.
  pose proof (frame_weight_pos h net k ch f Hinv Hm E Hf). lia.
Qed.

(** *** The frames after a delivery *)

Lemma weight_app l l' : weight (l ++ l') = weight l + weight l'.
Proof. unfold frames_weight. by rewrite fmap_app, zsum_app. Qed.

(** What the answers of node [v] weigh. *)
Definition answers (v : NodeId) (acts : list ControlAction) : Z :=
  zsum ((λ k, if decide (k.1 = v) then weight (sends_on k.2 acts) else 0) <$> keys).

Lemma channels_after net k ch f rest v cv' acts :
  net_channels net !! k = Some ch → ch_frames ch = f :: rest → k ∈ keys →
  (∀ k', k' ∈ keys → is_Some (net_channels net !! k')) →
  zsum (channel_weight nodes seqs top
    {| net_planes := <[v := cv']> (net_planes net);
       net_channels := post v acts (<[k := {| ch_far := ch_far ch; ch_frames := rest |}]> (net_channels net)) |}
    <$> keys) =
  zsum (channel_weight nodes seqs top net <$> keys) - frame_weight nodes seqs top f + answers v acts.
Proof.
  intros Hk Hf Hin Hall.
  pose proof (zsum_delta keys k (- frame_weight nodes seqs top f) Hkd Hin) as Hd.
  rewrite <-Z.add_opp_r, <-Hd. unfold answers. rewrite <-!zsum_fmap_add. f_equal.
  apply list_fmap_ext. intros i k' Hi. cbn beta.
  destruct (Hall k') as [c Hc]; [by eapply list_elem_of_lookup_2|].
  unfold channel_weight. cbn [net_channels]. rewrite lookup_post.
  destruct (decide (k' = k)) as [->|Hne].
  - rewrite lookup_insert_eq, Hk. cbn [fmap option_fmap option_map]. rewrite Hf.
    change (weight (f :: rest)) with (frame_weight nodes seqs top f + weight rest).
    case_decide; cbn [extend ch_frames]; rewrite ?weight_app; lia.
  - rewrite lookup_insert_ne, Hc by done. cbn [fmap option_fmap option_map].
    case_decide; cbn [extend ch_frames]; rewrite ?weight_app; lia.
Qed.

(** Answers over one link. *)
Lemma answers_one v l acts :
  (v, l) ∈ keys → (∀ k f, CaSend k f ∈ acts → k = l) → answers v acts = weight (sends_on l acts).
Proof.
  intros Hin Hone. unfold answers. rewrite <-(zsum_delta keys (v, l) (weight (sends_on l acts)) Hkd Hin).
  f_equal. apply list_fmap_ext. intros i [u k] _. cbn.
  destruct (decide (u = v)) as [->|Hne]; [|by rewrite decide_False by congruence].
  destruct (decide (k = l)) as [->|Hne]; [by rewrite decide_True|].
  rewrite decide_False by congruence. assert (sends_on k acts = []) as ->; [|done].
  destruct (sends_on k acts) as [|f fs] eqn:E; [done|]. destruct Hne. apply (Hone k f).
  apply elem_of_sends_on. rewrite E. by left.
Qed.
(** A flood puts at most one LSA on a link. *)
Lemma sends_on_flood cp m except k :
  sends_on k (flood cp m except) = [] ∨ sends_on k (flood cp m except) = [CfLsa m].
Proof.
  unfold flood. assert (Hnd' : NoDup (filter (λ link, Some link ≠ except) (btree_keys (local_adjacencies cp))))
    by apply NoDup_filter, btree_keys_NoDup.
  induction Hnd' as [|y l Hy Hl IH]; [by left|]. rewrite fmap_cons.
  change (sends_on k (CaSend y (CfLsa m) :: ?l)) with
    (match (if decide (y = k) then Some (CfLsa m) else None) with Some f => f :: sends_on k l | None => sends_on k l end).
  destruct (decide (y = k)) as [->|Hne]; [|done]. right. f_equal.
  destruct (sends_on k _) as [|f fs] eqn:E; [done|]. destruct Hy.
  assert (Hin : CaSend k f ∈ (λ link, CaSend link (CfLsa m)) <$> l)
    by (apply elem_of_sends_on; rewrite E; by left).
  by apply list_elem_of_fmap in Hin as (y & [= <- _] & ?).
Qed.
Lemma sends_on_app k a b : sends_on k (a ++ b) = sends_on k a ++ sends_on k b.
Proof. unfold sends_on. by rewrite omap_app. Qed.
Lemma lsas_weight ms :
  (∀ m, m ∈ ms → 1 ≤ lsa_rank seqs m ≤ top) → weight (CfLsa <$> ms) ≤ zlen ms * top.
Proof.
  intros Hr. unfold frames_weight. rewrite <-list_fmap_compose.
  apply (zsum_bound (frame_weight nodes seqs top ∘ CfLsa)). intros m Hm%Hr. cbn. lia.
Qed.

(** *** The answers to a frame *)

Section Frame.
Context (h : History) (net : MeshNet) (Hinv : net_inv None h net) (Hm : measured net).
Context (v : NodeId) (l : LinkId) (cv : ControlPlane).
Context (Hv : net_planes net !! v = Some cv) (Hkey : (v, l) ∈ keys).
Context (Hup : is_Some (local_adjacencies cv !! l)).

Lemma active_rank o a : get_active cv o = Some a → 1 ≤ lsa_rank seqs (message a) ≤ top.
Proof.
  intros Ha. destruct (ni_planes _ _ _ Hinv v cv Hv) as (Hok & _).
  destruct (active_version cv o a Hok Ha) as (_ & _ & _ & Ho & _).
  destruct (ni_db _ _ _ Hinv v cv o a Hv Ha) as [Hl _]. rewrite <-Ho in Hl.
  by eapply known_rank.
Qed.
Lemma db_fits : (size (lsdb cv) ≤ length nodes)%nat.
Proof.
  rewrite <-size_dom, <-(size_list_to_set (C:=gset NodeId) nodes) by done.
  apply subseteq_size. intros o [e He]%elem_of_dom. apply elem_of_list_to_set, (md_nodes _ Hm).
  destruct (ni_entries _ _ _ Hinv v cv o e Hv He) as (s & lo & Hlo & _).
  destruct (ni_history _ _ _ Hinv _ _ _ Hlo) as (_ & _ & _ & _ & co & Hco & _). by eexists.
Qed.
(** At most one active LSA per origin costs at most [top] each. *)
Lemma actives_weight ms :
  (length ms ≤ size (lsdb cv))%nat → (∀ m, m ∈ ms → ∃ o a, get_active cv o = Some a ∧ m = message a) →
  weight (CfLsa <$> ms) ≤ zlen nodes * top.
Proof.
  intros Hlen Hms. pose proof db_fits. pose proof (md_top _ Hm).
  etrans; [apply lsas_weight|unfold zlen; nia].
  intros m (o & a & Ha & ->)%Hms. by eapply active_rank.
Qed.
Lemma sends_on_lsas ms : sends_on l (send_lsa l <$> ms) = CfLsa <$> ms.
Proof.
  unfold sends_on. induction ms as [|m ms IH]; [done|]. cbn. by rewrite decide_True, IH.
Qed.

Lemma digest_reply es now cv' acts :
  cp_handle cv now (CeFrame l (CfDigest es)) = Some (cv', acts) → zlen es ≤ MAX_DIGEST_ENTRIES →
  cv' = cv ∧ answers v acts < frame_weight nodes seqs top (CfDigest es).
Proof.
  intros Hh Hz. cbn [cp_handle] in Hh. rewrite receive_digest_spec in Hh by done.
  cbn [mbind option_bind] in Hh. injection Hh as <- <-. split; [done|].
  set (ms := omap _ _). set (rq := filter _ _). rewrite (answers_one v l).
  2: done.
  2: { intros k f [(m & [= -> ->] & _)%list_elem_of_fmap|Hin]%elem_of_app; [done|].
       unfold request in Hin. destruct rq; [by apply not_elem_of_nil in Hin|].
       by apply list_elem_of_singleton in Hin as [= -> ->]. }
  rewrite sends_on_app, sends_on_lsas, weight_app.
  assert (weight (CfLsa <$> ms) ≤ zlen nodes * top).
  { apply actives_weight.
    - apply omap_db_length; [apply bset_iter_NoDup|]. intros o [m Hm']. unfold offered in Hm'.
      destruct (lsdb cv !! o); [by eexists|done].
    - intros m (o & _ & Ho)%list_elem_of_omap. exists o. unfold offered, get_active in *.
      destruct (lsdb cv !! o) as [e|]; cbn in Ho |- *; [|done].
      destruct (match _ with Some _ => _ | None => _ end); [|done].
      destruct (active e) as [a|]; [|done]. cbn in Ho. injection Ho as <-. by exists a. }
  assert (weight (sends_on l (request l rq)) ≤ zlen nodes * top + 1); [|cbn; lia].
  pose proof (md_top _ Hm). pose proof (zlen_nonneg nodes).
  unfold request. destruct rq; cbn; [nia|]. rewrite decide_True by done. cbn. lia.
Qed.
Lemma request_reply os now cv' acts :
  cp_handle cv now (CeFrame l (CfDigestReq os)) = Some (cv', acts) →
  cv' = cv ∧ answers v acts < frame_weight nodes seqs top (CfDigestReq os).
Proof.
  intros [= <- <-]. split; [done|]. pose proof (md_top _ Hm). pose proof (zlen_nonneg nodes).
  rewrite (answers_one v l) by (done || by intros k f (o & a & -> & _)%receive_req_sends).
  unfold receive_digest_req. destruct (_ || _); [cbn; nia|].
  assert (Hom : ∀ os' : list NodeId, omap (λ o, (λ a, send_lsa l (message a)) <$> get_active cv o) os' =
    (send_lsa l <$> omap (λ o, message <$> get_active cv o) os' : list ControlAction)).
  { induction os' as [|o os' IH]; [done|]. cbn. destruct (get_active cv o); cbn; by rewrite IH. }
  rewrite Hom, sends_on_lsas.
  assert (weight (CfLsa <$> omap (λ o, message <$> get_active cv o) (bset_iter (list_to_set os : gset NodeId)))
    ≤ zlen nodes * top); [|cbn; lia].
  apply actives_weight.
  - apply omap_db_length; [apply bset_iter_NoDup|]. intros o [m Ho]. unfold get_active in Ho.
    destruct (lsdb cv !! o); [by eexists|done].
  - intros m (o & _ & (a & Ha & ->)%fmap_Some)%list_elem_of_omap. eauto.
Qed.
Lemma reject_reply m now cv' acts :
  cp_handle cv now (CeFrame l (CfLsa m)) = Some (cv', acts) → ¬ admits cv l m →
  h !! (origin (lsa m), seq_no (lsa m)) = Some (lsa m) →
  cv' = cv ∧ answers v acts < frame_weight nodes seqs top (CfLsa m).
Proof.
  intros Hh Hna Hl. cbn [cp_handle] in Hh.
  destruct (receive_lsa_reject cv now l m Hna) as (acts' & E & Hacts). rewrite E in Hh.
  injection Hh as <- <-. split; [done|]. pose proof (known_rank h net m Hinv Hm Hl) as Hr. cbn.
  destruct Hacts as [->|(e & a & He & Hlt & Ha & ->)].
  { rewrite (answers_one v l); [cbn; lia|done|by intros k f ?%not_elem_of_nil]. }
  rewrite (answers_one v l); [|done|by intros k f [= -> ->]%list_elem_of_singleton].
  cbn. rewrite decide_True by done. cbn. rewrite Z.add_0_r. unfold lsa_rank.
  destruct (ni_planes _ _ _ Hinv v cv Hv) as (Hok & _).
  assert (Hact : get_active cv (origin (lsa m)) = Some a) by (unfold get_active; by rewrite He).
  destruct (active_version cv _ a Hok Hact) as (e' & He' & _ & Ho & Hver).
  rewrite He in He'. injection He' as <-. rewrite Ho.
  destruct (ni_db _ _ _ Hinv v cv _ a Hv Hact) as [Hla _].
  destruct (ni_history _ _ _ Hinv _ _ _ Hla) as (_ & _ & _ & _ & c1 & Hc1 & Hep1 & _).
  destruct (ni_history _ _ _ Hinv _ _ _ Hl) as (_ & _ & _ & _ & c2 & Hc2 & Hep2 & _).
  rewrite Hc1 in Hc2. injection Hc2 as <-. rewrite Hver in Hlt. unfold lsa_version in Hlt.
  rewrite Hep1, Hep2 in Hlt. apply olt_not_le in Hlt. rewrite ole_version in Hlt. lia.
Qed.

(** An accepted LSA is one the node was missing. *)
Lemma accept_reply m now cv' acts :
  cp_handle cv now (CeFrame l (CfLsa m)) = Some (cv', acts) → admits cv l m →
  h !! (origin (lsa m), seq_no (lsa m)) = Some (lsa m) →
  answers v acts ≤ zlen keys * top ∧
  zsum (missing seqs cv' <$> nodes) < zsum (missing seqs cv <$> nodes).
Proof.
  intros Hh Ha Hl. cbn [cp_handle] in Hh. rewrite (receive_lsa_accept _ _ _ _ Ha) in Hh.
  destruct (mark_spf_dirty _ _) as [[c act]|] eqn:Em; cbn [mbind option_bind] in Hh; [|done].
  injection Hh as <- <-. pose proof (mark_spf_dirty_frame _ _ _ _ Em) as (pn & gn & hn & ->).
  pose proof (known_rank h net m Hinv Hm Hl) as Hr. pose proof (md_top _ Hm). split.
  - apply (zsum_bound (λ k, if decide (k.1 = v) then _ else 0) keys). intros k _. case_decide; [|lia].
    unfold push_opt. rewrite !sends_on_app. assert (sends_on k.2 [CaSetTimer _ _] = []) as -> by done.
    assert (sends_on k.2 match act with Some x => [x] | None => [] end = []) as ->.
    { destruct act as [x|]; [|done]. unfold mark_spf_dirty in Em. destruct (_ && _); [done|].
      destruct (checked_add _ _ _); simplify_eq/=. done. }
    rewrite !app_nil_r. destruct (sends_on_flood cv m (Some l) k.2) as [->| ->]; cbn; lia.
  - destruct (ni_history _ _ _ Hinv _ _ _ Hl) as (_ & _ & _ & _ & co & Hco & Hep & Hle & _).
    apply (zsum_lower _ _ nodes (origin (lsa m)) Hnd).
    + apply (md_nodes _ Hm). by eexists.
    + unfold missing. cbn. rewrite lookup_insert_eq. cbn.
      destruct Ha as (_ & _ & _ & _ & Hnew & _). unfold is_newer in Hnew.
      destruct (lsdb cv !! origin (lsa m)) as [e|] eqn:He.
      * destruct (ni_entries _ _ _ Hinv v cv _ e Hv He) as (s & lo & Hlo & Hver).
        destruct (ni_history _ _ _ Hinv _ _ _ Hlo) as (_ & _ & _ & _ & c2 & Hc2 & Hep2 & _).
        rewrite Hco in Hc2. injection Hc2 as <-. apply oltb_lt, olt_not_le in Hnew.
        rewrite Hver in *. unfold lsa_version in *. rewrite Hep, Hep2 in Hnew.
        rewrite ole_version in Hnew. cbn. lia.
      * unfold lsa_rank in Hr. destruct (md_seqs _ Hm _ _ Hco).
        destruct (ni_history _ _ _ Hinv _ _ _ Hl) as (_ & _ & ? & _). lia.
    + intros o Ho. unfold missing. cbn. by rewrite lookup_insert_ne.
Qed.
End Frame.

(** *** Every delivery lowers the potential *)

(** What a delivery consists of. *)
Lemma deliver_split net u l now net' :
  net_step net (NeDeliver u l now) = Some net' →
  ∃ ch f rest cv cv' acts,
    net_channels net !! (u, l) = Some ch ∧ ch_frames ch = f :: rest ∧
    net_planes net !! (ch_far ch).1 = Some cv ∧ is_Some (local_adjacencies cv !! (ch_far ch).2) ∧
    cp_handle cv now (CeFrame (ch_far ch).2 f) = Some (cv', acts) ∧
    net' = {| net_planes := <[(ch_far ch).1 := cv']> (net_planes net);
              net_channels := post (ch_far ch).1 acts
                (<[(u, l) := {| ch_far := ch_far ch; ch_frames := rest |}]> (net_channels net)) |}.
Proof.
  cbn [net_step]. destruct (net_channels net !! (u, l)) as [ch|] eqn:Hk; cbn [mbind option_bind]; [|done].
  destruct (ch_frames ch) as [|f rest] eqn:Hf; [done|]. unfold is_up, net_handle.
  cbn [net_planes net_channels with_channels].
  destruct (net_planes net !! (ch_far ch).1) as [cv|] eqn:Hv; cbn [mbind option_bind]; [|done].
  case_bool_decide as Hup; [|done].
  destruct (handle cv now _) as [[cv' acts]|] eqn:Hh; cbn [mbind option_bind]; [|done].
  intros [= <-]. exists ch, f, rest, cv, cv', acts. by split_and!.
Qed.

Lemma missing_after net v cv cv' :
  measured net → net_planes net !! v = Some cv → (∀ net'', net_planes net'' = <[v := cv']> (net_planes net) →
  zsum (node_missing nodes seqs net'' <$> nodes) =
  zsum (node_missing nodes seqs net <$> nodes) +
    (zsum (missing seqs cv' <$> nodes) - zsum (missing seqs cv <$> nodes))).
Proof.
  intros Hm Hv net'' Hp. assert (Hin : v ∈ nodes) by (apply (md_nodes _ Hm); by eexists).
  rewrite <-(zsum_delta nodes v (_ - _) Hnd Hin), <-zsum_fmap_add. f_equal.
  apply list_fmap_ext. intros i u _. unfold node_missing. rewrite Hp.
  destruct (decide (u = v)) as [->|Hne].
  - rewrite lookup_insert_eq, Hv. lia.
  - rewrite lookup_insert_ne by done. lia.
Qed.

Lemma measured_after net u l now net' h :
  net_inv None h net → measured net → net_step net (NeDeliver u l now) = Some net' → measured net'.
Proof.
  intros Hinv Hm Hs.
  destruct (deliver_split _ _ _ _ _ Hs) as (ch & f & rest & cv & cv' & acts & Hk & Hf & Hv & _ & Hh & ->).
  destruct (ni_planes _ _ _ Hinv _ cv Hv) as (Hok & _). pose proof (handle_handled _ _ _ _ _ Hok Hh) as Hd.
  constructor; cbn; [|..|apply (md_top _ Hm)].
  - intros w. rewrite <-(md_nodes _ Hm w). destruct (decide (w = (ch_far ch).1)) as [->|Hne].
    + rewrite lookup_insert_eq, Hv. by split; eexists.
    + by rewrite lookup_insert_ne.
  - intros k. rewrite lookup_post, fmap_is_Some, <-(md_keys _ Hm k).
    destruct (decide (k = (u, l))) as [->|Hne].
    + rewrite lookup_insert_eq, Hk. by split; eexists.
    + by rewrite lookup_insert_ne.
  - intros w cp [[<- <-]|[_ Hw]]%lookup_insert_Some; [|by apply (md_seqs _ Hm)].
    destruct (md_seqs _ Hm _ cv Hv). split; [|done].
    destruct (hd_seq _ _ _ _ Hd) as [->|(_ & ? & _)]; done.
Qed.
Lemma deliver_lowers h net u l now net' :
  net_inv None h net → measured net → net_step net (NeDeliver u l now) = Some net' →
  potential nodes keys seqs top net' < potential nodes keys seqs top net.
Proof.
  intros Hinv Hm Hs.
  destruct (deliver_split _ _ _ _ _ Hs) as (ch & f & rest & cv & cv' & acts & Hk & Hf & Hv & Hup & Hh & ->).
  assert (Hkeys : ∀ k, is_Some (net_channels net !! k) ↔ k ∈ keys) by apply (md_keys _ Hm).
  destruct (ni_channels _ _ _ Hinv _ _ Hk) as (_ & ch' & Hk' & _).
  assert (Hkey : ((ch_far ch).1, (ch_far ch).2) ∈ keys)
    by (apply Hkeys; rewrite <-surjective_pairing; by eexists).
  assert (Hin : f ∈ ch_frames ch) by (rewrite Hf; by left).
  unfold potential. rewrite (channels_after net (u, l) ch f rest); try done;
    [|apply Hkeys; by eexists|intros; by apply Hkeys].
  rewrite (missing_after net _ cv cv' Hm Hv) by done.
  pose proof (frame_weight_pos h net (u, l) ch f Hinv Hm Hk Hin) as Hpos.
  pose proof (ni_frames _ _ _ Hinv (u, l) ch f Hk Hin) as Hkn.
  pose proof (md_top _ Hm). pose proof (zlen_nonneg keys).
  assert (Hcase : cv' = cv ∧ answers (ch_far ch).1 acts < frame_weight nodes seqs top f ∨
    answers (ch_far ch).1 acts ≤ zlen keys * top ∧
    zsum (missing seqs cv' <$> nodes) < zsum (missing seqs cv <$> nodes)).
  { destruct f as [m|es|os]; cbn [frame_known] in Hkn.
    - destruct Hkn as (Hl & _). destruct (decide (admits cv (ch_far ch).2 m)) as [Ha|Ha].
      + right. by eapply accept_reply.
      + left. by eapply reject_reply.
    - left. by eapply digest_reply.
    - left. by eapply request_reply. }
  destruct Hcase as [[-> ?]|[? ?]]; nia.
Qed.
End Deliver.

(** ** Runs of deliveries *)

Definition is_delivery (e : NetEvent) : Prop := match e with NeDeliver _ _ _ => True | _ => False end.
(** Every two nodes are joined by links. *)
Definition connected (net : MeshNet) : Prop :=
  ∀ u v, is_Some (net_planes net !! u) → is_Some (net_planes net !! v) → rtc (adjacent net) u v.
(** The counters of the nodes have room for [n] more events. *)
Definition counters_room (net : MeshNet) (n : Z) : Prop :=
  ∀ u cp, net_planes net !! u = Some cp → my_seq cp < u_max 64 ∧ spf_generation cp + n < u_max 64.

Section Runs.
Context `{LsaAuthLaws} (Hverify : ∀ l, verify (sign l) = true).

(** What deliveries leave as it is. *)
Record same_links (net net' : MeshNet) : Prop := {
  sl_nodes u : is_Some (net_planes net' !! u) ↔ is_Some (net_planes net !! u);
  sl_far k : ch_far <$> net_channels net' !! k = ch_far <$> net_channels net !! k;
  sl_up k : is_up net' k = is_up net k;
  sl_unexpired : unexpired net → unexpired net';
  sl_room n : counters_room net n → counters_room net' (n - 1);
}.

Lemma frame_unexpired cv now l f cv' acts o e' :
  cp_handle cv now (CeFrame l f) = Some (cv', acts) →
  (∀ o e, lsdb cv !! o = Some e → is_Some (active e)) → lsdb cv' !! o = Some e' → is_Some (active e').
Proof.
  intros Hh Hall He. destruct f as [m|es|os]; cbn [cp_handle] in Hh.
  - destruct (decide (admits cv l m)) as [Ha|Ha].
    + rewrite (receive_lsa_accept _ _ _ _ Ha) in Hh.
      destruct (mark_spf_dirty _ _) as [[c act]|] eqn:Em; cbn [mbind option_bind] in Hh; [|done].
      injection Hh as <- <-. pose proof (mark_spf_dirty_frame _ _ _ _ Em) as (pn & gn & hn & ->).
      cbn in He. apply lookup_insert_Some in He as [[_ <-]|[_ He]]; [by eexists|by eapply Hall].
    + destruct (receive_lsa_reject cv now l m Ha) as (? & E & _). rewrite E in Hh. simplify_eq.
      by eapply Hall.
  - destruct (receive_digest cv l es); simplify_eq/=. by eapply Hall.
  - simplify_eq. by eapply Hall.
Qed.

Lemma deliver_same h net u l now net' :
  net_inv None h net → net_step net (NeDeliver u l now) = Some net' → same_links net net'.
Proof.
  intros Hinv Hs.
  destruct (deliver_split _ _ _ _ _ Hs) as (ch & f & rest & cv & cv' & acts & Hk & _ & Hv & _ & Hh & ->).
  destruct (ni_planes _ _ _ Hinv _ cv Hv) as (Hok & _). pose proof (handle_handled _ _ _ _ _ Hok Hh) as Hd.
  pose proof (handle_counters _ _ _ _ _ Hh) as [_ Hgen]. constructor.
  - intros w. cbn. destruct (decide (w = (ch_far ch).1)) as [->|Hne];
      [rewrite lookup_insert_eq, Hv; by split; eexists|by rewrite lookup_insert_ne].
  - intros k. cbn. rewrite lookup_post. destruct (decide (k = (u, l))) as [->|Hne].
    + rewrite lookup_insert_eq, Hk. cbn. by case_decide.
    + rewrite lookup_insert_ne by done. destruct (net_channels net !! k); [|done]. cbn. by case_decide.
  - intros k. unfold is_up. cbn [net_planes]. destruct (decide (k.1 = (ch_far ch).1)) as [->|Hne].
    + rewrite lookup_insert_eq, Hv. by rewrite (hd_links _ _ _ _ Hd).
    + by rewrite lookup_insert_ne.
  - intros Hun w cp o e Hw He. cbn in Hw.
    apply lookup_insert_Some in Hw as [[<- <-]|[_ Hw]]; [|by eapply Hun].
    eapply frame_unexpired; [exact Hh| |exact He]. intros o' e'. by eapply Hun.
  - intros n Hr w cp Hw. cbn in Hw. apply lookup_insert_Some in Hw as [[<- <-]|[_ Hw]].
    + destruct (Hr _ cv Hv). destruct (hd_seq _ _ _ _ Hd) as [->|(_ & ? & _)]; [|done]. lia.
    + destruct (Hr w cp Hw). lia.
Qed.
Lemma same_adjacent net net' u v : same_links net net' → adjacent net u v → adjacent net' u v.
Proof.
  intros Hs (l & ch & Hk & <-). pose proof (sl_far _ _ Hs (u, l)) as E. rewrite Hk in E.
  apply fmap_Some in E as (ch' & Hk' & E'). exists l, ch'. by rewrite E'.
Qed.
Lemma same_connected net net' : same_links net net' → connected net → connected net'.
Proof.
  intros Hs Hc u v Hu%(sl_nodes _ _ Hs) Hv%(sl_nodes _ _ Hs).
  eapply rtc_subrel; [|by apply Hc]. intros x y. by apply same_adjacent.
Qed.
Lemma same_all_up net net' : same_links net net' → all_up net → all_up net'.
Proof.
  intros Hs Hup k ch' Hk'. rewrite (sl_up _ _ Hs). pose proof (sl_far _ _ Hs k) as E.
  rewrite Hk' in E. symmetry in E. apply fmap_Some in E as (ch & Hk & _). by apply (Hup k ch).
Qed.

(** A network that is not quiet has a frame to deliver. *)
Lemma deliver_enabled h net now :
  net_inv None h net → all_up net → counters_room net 0 →
  quiet net ∨ ∃ u l, is_Some (net_step net (NeDeliver u l now)).
Proof.
  intros Hinv Hup Hroom. destruct (decide (quiet net)) as [|Hq]; [by left|]. right.
  apply map_not_Forall in Hq as ([u l] & ch & Hk & Hf); [|apply _]. exists u, l.
  cbn [net_step]. rewrite Hk. cbn [mbind option_bind]. destruct (ch_frames ch) as [|f rest]; [done|].
  destruct (ni_channels _ _ _ Hinv _ _ Hk) as (_ & ch' & Hk' & _). rewrite (Hup _ _ Hk').
  unfold net_handle. cbn [net_planes net_channels with_channels].
  destruct (ni_channels _ _ _ Hinv _ _ Hk') as ([cv Hv] & _). rewrite Hv. cbn [mbind option_bind].
  destruct (ni_planes _ _ _ Hinv _ cv Hv) as (Hok & _). destruct (Hroom _ cv Hv).
  destruct (handle_total cv now (CeFrame (ch_far ch).2 f) Hok) as [[cv' acts] Hh]; [lia..|].
  change (handle cv now) with (cp_handle cv now). rewrite Hh. by eexists.
Qed.

Lemma net_nodes_NoDup net : NoDup (net_nodes net).
Proof. exact (NoDup_elements (dom _)). Qed.
Lemma net_keys_NoDup net : NoDup (net_keys net).
Proof. exact (NoDup_elements (dom _)). Qed.
(** The constants of the potential. *)
Lemma net_measured h net :
  net_inv None h net → measured (net_nodes net) (net_keys net) (own_seq net) (net_top net) net.
Proof.
  intros Hinv. assert (Hpos : ∀ o, 0 ≤ own_seq net o).
  { intros o. unfold own_seq. destruct (net_planes net !! o) as [cp|] eqn:E; [|done].
    by destruct (ni_planes _ _ _ Hinv o cp E) as (_ & _ & ?). }
  constructor.
  - intros u. unfold net_nodes. by rewrite elem_of_elements, elem_of_dom.
  - intros k. unfold net_keys. by rewrite elem_of_elements, elem_of_dom.
  - intros u cp Hu. unfold own_seq at 1. rewrite Hu. split; [done|]. unfold net_top.
    assert (Hin : u ∈ net_nodes net) by (unfold net_nodes; apply elem_of_elements, elem_of_dom; by eexists).
    rewrite <-(zsum_delta (net_nodes net) u (own_seq net u + 2) (net_nodes_NoDup net) Hin).
    apply zsum_fmap_le. intros o _. case_decide as E; [by subst|]. specialize (Hpos o). lia.
  - unfold net_top. apply zsum_nonneg, Forall_fmap, Forall_true. intros o. cbn. specialize (Hpos o). lia.
Qed.

Lemma deliveries_lower nodes keys seqs top es h net net' n :
  NoDup nodes → NoDup keys →
  net_inv None h net → Z.of_nat (size (net_planes net)) ≤ MAX_LSA_ADJACENCIES →
  measured nodes keys seqs top net →
  all_up net → unexpired net → connected net → counters_room net n →
  Forall is_delivery es → net_run net es = Some net' →
  zlen es + potential nodes keys seqs top net' ≤ potential nodes keys seqs top net ∧
  measured nodes keys seqs top net' ∧
  (∃ h', net_inv None h' net') ∧
  all_up net' ∧ unexpired net' ∧ connected net' ∧ counters_room net' (n - zlen es).
Proof.
  intros Hnd Hkd Hinv Hsz Hm Hup Hun Hcon Hroom Hes. revert h net n Hinv Hsz Hm Hup Hun Hcon Hroom.
  induction Hes as [|e es He Hes IH]; intros h net n Hinv Hsz Hm Hup Hun Hcon Hroom Hr; cbn [net_run] in Hr.
  { injection Hr as <-. rewrite zlen_nil, Z.sub_0_r. split_and!; [lia|done|by eexists|done..]. }
  destruct (net_step net e) as [net1|] eqn:Hs; cbn [mbind option_bind] in Hr; [|done].
  destruct e as [| | |u l now|]; try done.
  destruct (net_step_inv Hverify h net _ net1 Hinv Hsz Hs) as (h1 & Hinv1 & Hd1).
  pose proof (deliver_same h net u l now net1 Hinv Hs) as Hsame.
  pose proof (deliver_lowers _ _ _ _ Hnd Hkd h net u l now net1 Hinv Hm Hs) as Hlt.
  destruct (IH h1 net1 (n - 1)) as (Hle & ? & ? & ? & ? & ? & Hroom'); try done.
  - by rewrite <-size_dom, Hd1, size_dom.
  - exact (measured_after _ _ _ _ net u l now net1 h Hinv Hm Hs).
  - by eapply same_all_up.
  - by apply (sl_unexpired _ _ Hsame).
  - by eapply same_connected.
  - by apply (sl_room _ _ Hsame).
  - rewrite zlen_cons. split_and!; try done; [lia|]. by replace (n - (1 + zlen es)) with (n - 1 - zlen es) by lia.
Qed.

(** C1: Flooding and anti-entropy terminate and synchronise the network.  Take
    any reachable network of at most 256 nodes whose own signatures verify, in
    which every link is up at both ends, the links connect all nodes, no LSA has
    expired and the 64-bit counters have room for the deliveries.  Deliver frames
    in any order and at any times: no more than [net_potential] of them can be
    delivered, as long as a frame is under way one can be delivered, and when
    none is left all nodes hold the same LSAs. *)
Theorem deliveries_synchronise net :
  net_reachable net → all_up net → unexpired net → connected net →
  counters_room net (net_potential net) →
  ∀ es net', Forall is_delivery es → net_run net es = Some net' →
    zlen es ≤ net_potential net ∧
    ((∀ now, ∃ u l, is_Some (net_step net' (NeDeliver u l now))) ∨
     quiet net' ∧ mesh_synced (net_planes net')).
Proof.
  intros [[h Hinv] Hsz]%(net_reachable_inv Hverify) Hup Hun Hcon Hroom es net' Hes Hr.
  pose proof (net_measured h net Hinv) as Hm.
  destruct (deliveries_lower _ _ _ _ es h net net' _ (net_nodes_NoDup net) (net_keys_NoDup net)
    Hinv Hsz Hm Hup Hun Hcon Hroom Hes Hr) as (Hle & Hm' & [h' Hinv'] & Hup' & Hun' & Hcon' & Hroom').
  pose proof (potential_nonneg _ _ _ _ h' net' Hinv' Hm') as Hnn. unfold net_potential in *.
  split; [lia|]. assert (Hroom0 : counters_room net' 0).
  { intros u cp Hu. destruct (Hroom' u cp Hu). lia. }
  destruct (decide (quiet net')) as [Hq|Hq].
  - right. split; [done|]. by apply (quiet_synced h').
  - left. intros now. by destruct (deliver_enabled h' net' now Hinv' Hup' Hroom0).
Qed.
End Runs.
