(* ===== verification/Forward.v ===== *)
(** * The forwarder (crates/mb-forward, [Forwarder])

    Overlay packet forwarding: per-link priority queues with conflation, strict
    P0 and deficit round robin for P1 to P3, byte credit and write permission,
    multicast branching, and the rerouting of packets whose link went down. *)

From S2P Require Export Prelude Ord Bytes Types Wire ControlTypes.

(** ** Constants and data *)

Definition QUEUE_LIMIT_PACKETS : list Z := [256; 512; 1024; 4096].
Definition DRR_QUANTUM_BYTES : list Z := [14 * 1024; 5 * 1024; 1024].
Definition P0_ROUTE_WAIT_MS : Z := 2000.

Inductive DropReason :=
| TtlExceeded
| NoRoute
| LoopDetected
| DrLinkDown
| RouteWaitExpired
| InvalidMulticast (error : MulticastPayloadError)
| UnsupportedPacketType (t : PacketType)
| QueueFull (p : Priority).

Inductive ForwardTimer := PendingP0 (generation : Z).

Inductive ForwardEvent :=
| FeOutbound (packet : ForwardPacket)
| FeOutboundMulticast (destinations : list NodeId) (packet : ForwardPacket)
| FeInbound (link : LinkId) (packet : ForwardPacket)
| FeRoutesUpdated (table : RouteTable)
| FeLinkCredit (link : LinkId) (bytes : Z)
| FeLinkWritable (link : LinkId)
| FeLinkDown (link : LinkId)
| FeTimer (timer : ForwardTimer).

Inductive ForwardAction :=
| FaSend (link : LinkId) (packet : ForwardPacket)
| FaDeliverLocal (packet : ForwardPacket)
| FaDrop (reason : DropReason) (packet : ForwardPacket)
| FaBackpressure (link : LinkId) (packet : ForwardPacket)
| FaSetTimer (timer : ForwardTimer) (at_ : MonoTime).

Record QueuedPacket := { q_incoming : option LinkId; q_packet : ForwardPacket }.

(** [[T; 4]] and [[T; 3]] are lists; indexing out of range panics. *)
Record LinkQueues := {
  queues : list (list QueuedPacket);
  queued_bytes : list Z;
  available_credit_bytes : Z;
  writable : bool;
  deficit_bytes : list Z;
  next_drr : nat;
  drr_needs_quantum : bool;
}.

Record PendingP0Batch := { batch_expires_at : MonoTime; batch_packets : list QueuedPacket }.

Record ConflationKey := { ck_source : NodeId; ck_flow_id : Z; ck_conflate_key : Z }.

#[global] Instance DropReason_eq_dec : EqDecision DropReason.
Proof. solve_decision. Defined.
#[global] Instance ForwardTimer_eq_dec : EqDecision ForwardTimer.
Proof. solve_decision. Defined.
#[global] Instance ForwardAction_eq_dec : EqDecision ForwardAction.
Proof. solve_decision. Defined.
#[global] Instance QueuedPacket_eq_dec : EqDecision QueuedPacket.
Proof. solve_decision. Defined.
#[global] Instance ConflationKey_eq_dec : EqDecision ConflationKey.
Proof. solve_decision. Defined.

Definition ConflationKey_from_packet (p : ForwardPacket) : option ConflationKey :=
  if bool_decide (priority (header p) = P1) && flags_contains (flags (header p)) CONFLATABLE
  then Some {| ck_source := source (header p); ck_flow_id := flow_id (header p);
               ck_conflate_key := conflate_key (header p) |}
  else None.

Definition LinkQueues_default : LinkQueues :=
  {| queues := [[]; []; []; []]; queued_bytes := [0; 0; 0; 0]; available_credit_bytes := 0;
     writable := false; deficit_bytes := [0; 0; 0]; next_drr := 0; drr_needs_quantum := true |}.

Record Forwarder := {
  fw_me : NodeId;
  fw_routes : RouteTable;
  links : gmap LinkId LinkQueues;
  down_links : gset LinkId;
  pending_p0 : gmap Z PendingP0Batch;
  next_pending : Z;
}.
Definition Forwarder_new (me : NodeId) (routes : RouteTable) : Forwarder :=
  {| fw_me := me; fw_routes := routes; links := ∅; down_links := ∅; pending_p0 := ∅;
     next_pending := 0 |}.

(** *** Updates *)

Definition set_queues (s : LinkQueues) (q : list (list QueuedPacket)) : LinkQueues :=
  {| queues := q; queued_bytes := queued_bytes s;
     available_credit_bytes := available_credit_bytes s; writable := writable s;
     deficit_bytes := deficit_bytes s; next_drr := next_drr s;
     drr_needs_quantum := drr_needs_quantum s |}.
Definition set_queued_bytes (s : LinkQueues) (l : list Z) : LinkQueues :=
  {| queues := queues s; queued_bytes := l;
     available_credit_bytes := available_credit_bytes s; writable := writable s;
     deficit_bytes := deficit_bytes s; next_drr := next_drr s;
     drr_needs_quantum := drr_needs_quantum s |}.
Definition set_credit (s : LinkQueues) (z : Z) : LinkQueues :=
  {| queues := queues s; queued_bytes := queued_bytes s;
     available_credit_bytes := z; writable := writable s;
     deficit_bytes := deficit_bytes s; next_drr := next_drr s;
     drr_needs_quantum := drr_needs_quantum s |}.
Definition set_writable (s : LinkQueues) (b : bool) : LinkQueues :=
  {| queues := queues s; queued_bytes := queued_bytes s;
     available_credit_bytes := available_credit_bytes s; writable := b;
     deficit_bytes := deficit_bytes s; next_drr := next_drr s;
     drr_needs_quantum := drr_needs_quantum s |}.
Definition set_deficits (s : LinkQueues) (l : list Z) : LinkQueues :=
  {| queues := queues s; queued_bytes := queued_bytes s;
     available_credit_bytes := available_credit_bytes s; writable := writable s;
     deficit_bytes := l; next_drr := next_drr s; drr_needs_quantum := drr_needs_quantum s |}.
Definition set_drr (s : LinkQueues) (n : nat) (b : bool) : LinkQueues :=
  {| queues := queues s; queued_bytes := queued_bytes s;
     available_credit_bytes := available_credit_bytes s; writable := writable s;
     deficit_bytes := deficit_bytes s; next_drr := n; drr_needs_quantum := b |}.

Definition set_fw_routes (fw : Forwarder) (t : RouteTable) : Forwarder :=
  {| fw_me := fw_me fw; fw_routes := t; links := links fw; down_links := down_links fw;
     pending_p0 := pending_p0 fw; next_pending := next_pending fw |}.
Definition set_links (fw : Forwarder) (m : gmap LinkId LinkQueues) : Forwarder :=
  {| fw_me := fw_me fw; fw_routes := fw_routes fw; links := m; down_links := down_links fw;
     pending_p0 := pending_p0 fw; next_pending := next_pending fw |}.
Definition set_down_links (fw : Forwarder) (d : gset LinkId) : Forwarder :=
  {| fw_me := fw_me fw; fw_routes := fw_routes fw; links := links fw; down_links := d;
     pending_p0 := pending_p0 fw; next_pending := next_pending fw |}.
Definition set_pending_p0 (fw : Forwarder) (m : gmap Z PendingP0Batch) (n : Z) : Forwarder :=
  {| fw_me := fw_me fw; fw_routes := fw_routes fw; links := links fw;
     down_links := down_links fw; pending_p0 := m; next_pending := n |}.

(** [a[i] = x] and [a[i] = f(a[i])] on an array. *)
Definition array_set {A} (i : nat) (x : A) (l : list A) : option (list A) :=
  if (i <? length l)%nat then Some (<[i := x]> l) else None.
Definition array_update {A} (i : nat) (f : A → A) (l : list A) : option (list A) :=
  x ← l !! i; Some (<[i := f x]> l).

(** ** Packets *)

Definition set_header (p : ForwardPacket) (t : PacketType) (d : NodeId) (ttl : Z) :
  ForwardPacket :=
  {| header := {| packet_type := t; priority := priority (header p); ttl := ttl;
                  flags := flags (header p); destination := d; source := source (header p);
                  flow_id := flow_id (header p); conflate_key := conflate_key (header p) |};
     multicast_destinations := multicast_destinations p; payload := payload p |}.
Definition set_parts (p : ForwardPacket) (ds : list NodeId) (b : bytes) : ForwardPacket :=
  {| header := header p; multicast_destinations := ds; payload := b |}.
Definition set_ttl (p : ForwardPacket) (n : Z) : ForwardPacket :=
  set_header p (packet_type (header p)) (destination (header p)) n.

Definition multicast_subset_packet (template : ForwardPacket) (ds : list NodeId) (b : bytes)
    (n : Z) : option ForwardPacket :=
  match MulticastPayload_new ds b with
  | Err _ => None
  | Ok m => Some (set_parts (set_header template Multicast NodeId_default n)
                    (destinations m) (body m))
  end.

Definition priority_index (p : Priority) : nat :=
  match p with P0 => 0 | P1 => 1 | P2 => 2 | P3 => 3 end.
Definition drr_priority (i : nat) : option Priority :=
  match i with 0%nat => Some P1 | 1%nat => Some P2 | 2%nat => Some P3 | _ => None end.

(** ** Diagnostics *)

Record LinkQueueSnapshot := {
  snap_credit : Z;
  snap_counts : list Z;
  snap_queued_bytes : list Z;
  snap_deficits : list Z;
  snap_next : Priority;
}.
Definition pending_p0_len (fw : Forwarder) : Z :=
  zsum ((λ b, zlen (batch_packets b)) <$> btree_values (pending_p0 fw)).
(** [None] is an unknown link; the inner [option] is the panic of
    [drr_priority]. *)
Definition queue_snapshot (fw : Forwarder) (link : LinkId) : option (option LinkQueueSnapshot) :=
  (λ s, p ← drr_priority (next_drr s);
        Some {| snap_credit := available_credit_bytes s; snap_counts := zlen <$> queues s;
                snap_queued_bytes := queued_bytes s; snap_deficits := deficit_bytes s;
                snap_next := p |}) <$> links fw !! link.

(** ** Scheduling *)

Definition queued_len (q : QueuedPacket) : Z := ForwardPacket_encoded_len (q_packet q).
Definition advance_drr (s : LinkQueues) : LinkQueues :=
  set_drr s ((next_drr s + 1) mod 3)%nat true.

(** Some queue of P1 to P3 starts with a packet the credit covers. *)
Definition a_packet_fits_credit (s : LinkQueues) : bool :=
  existsb (λ q, match head q with
                | Some x => queued_len x <=? available_credit_bytes s
                | None => false
                end) (drop 1 (queues s)).

(** One iteration of the [loop] of [try_send_one]: continue with a state, or
    return with the packet to send, if any; [inr None] is a panic. *)
Definition drr_step (s : LinkQueues) : LinkQueues + option (LinkQueues * option ForwardPacket) :=
  let panic := inr None in
  if negb (a_packet_fits_credit s) then inr (Some (s, None))
  else
    let drr_index := next_drr s in
    let queue_index := (drr_index + 1)%nat in
    match queues s !! queue_index with
    | None => panic
    | Some [] =>
        match array_set drr_index 0 (deficit_bytes s) with
        | None => panic
        | Some d => inl (advance_drr (set_deficits s d))
        end
    | Some (front :: rest) =>
        match
          (if drr_needs_quantum s then
             quantum ← DRR_QUANTUM_BYTES !! drr_index;
             d ← array_update drr_index (λ x, sat_add usize_bits x quantum) (deficit_bytes s);
             Some (set_drr (set_deficits s d) (next_drr s) false)
           else Some s)
        with
        | None => panic
        | Some s =>
            let packet_len := queued_len front in
            match deficit_bytes s !! drr_index with
            | None => panic
            | Some deficit =>
                if (deficit <? packet_len) || (available_credit_bytes s <? packet_len)
                then inl (advance_drr s)
                else
                  inr (
                    d ← checked_sub deficit packet_len;
                    b ← array_update queue_index (λ x, sat_sub x packet_len) (queued_bytes s);
                    c ← checked_sub (available_credit_bytes s) packet_len;
                    let s := set_queues s (<[queue_index := rest]> (queues s)) in
                    let s := set_deficits s (<[drr_index := d]> (deficit_bytes s)) in
                    let s := set_queued_bytes s b in
                    let s := set_writable (set_credit s c) false in
                    let s := match rest with
                             | [] => advance_drr
                                       (set_deficits s (<[drr_index := 0]> (deficit_bytes s)))
                             | _ => s
                             end in
                    Some (s, Some (q_packet front)))
            end
        end
    end.
(** Enough iterations for any deficit to reach any packet length. *)
Definition drr_fuel : positive := 2 ^ 70.

Definition try_send (s : LinkQueues) : option (LinkQueues * option ForwardPacket) :=
  if negb (writable s) then Some (s, None)
  else
    p0 ← queues s !! 0%nat;
    match p0 with
    | front :: rest =>
        let packet_len := queued_len front in
        if available_credit_bytes s <? packet_len then Some (s, None)
        else
          b ← array_update 0 (λ x, sat_sub x packet_len) (queued_bytes s);
          c ← checked_sub (available_credit_bytes s) packet_len;
          let s := set_queues s (<[0%nat := rest]> (queues s)) in
          Some (set_writable (set_credit (set_queued_bytes s b) c) false,
                Some (q_packet front))
    | [] => mjoin (run_loop drr_step drr_fuel s)
    end.

Definition try_send_one (fw : Forwarder) (link : LinkId) :
  option (Forwarder * list ForwardAction) :=
  match links fw !! link with
  | None => Some (fw, [])
  | Some s =>
      '(s, sent) ← try_send s;
      Some (set_links fw (<[link := s]> (links fw)),
            match sent with Some p => [FaSend link p] | None => [] end)
  end.

(** [self.links.entry(link).or_default()] *)
Definition link_state (fw : Forwarder) (link : LinkId) : LinkQueues :=
  default LinkQueues_default (links fw !! link).

Definition grant_credit (fw : Forwarder) (link : LinkId) (n : Z) :
  option (Forwarder * list ForwardAction) :=
  if decide (link ∈ down_links fw) then Some (fw, [])
  else
    let s := link_state fw link in
    let s := set_credit s (sat_add usize_bits (available_credit_bytes s) n) in
    try_send_one (set_links fw (<[link := s]> (links fw))) link.

Definition mark_writable (fw : Forwarder) (link : LinkId) :
  option (Forwarder * list ForwardAction) :=
  if decide (link ∈ down_links fw) then Some (fw, [])
  else try_send_one
         (set_links fw (<[link := set_writable (link_state fw link) true]> (links fw))) link.

(** The outcome of placing a packet in the queues of a link. *)
Inductive Placement := Placed (s : LinkQueues) | Refused.

Definition place (s : LinkQueues) (p : ForwardPacket) (incoming : option LinkId) :
  option Placement :=
  let i := priority_index (priority (header p)) in
  q ← queues s !! i;
  match (key ← ConflationKey_from_packet p;
         find_first (λ x, bool_decide (ConflationKey_from_packet (q_packet x) = Some key)) q) with
  | Some (k, queued) =>
      let previous_len := queued_len queued in
      let replacement_len := ForwardPacket_encoded_len p in
      b ← array_update i (λ x, sat_add usize_bits (sat_sub x previous_len) replacement_len)
            (queued_bytes s);
      Some (Placed (set_queued_bytes
        (set_queues s (<[i := <[k := {| q_incoming := incoming; q_packet := p |}]> q]> (queues s)))
        b))
  | None =>
      limit ← QUEUE_LIMIT_PACKETS !! i;
      if limit <=? zlen q then Some Refused
      else
        b ← array_update i (λ x, sat_add usize_bits x (ForwardPacket_encoded_len p))
              (queued_bytes s);
        Some (Placed (set_queued_bytes
          (set_queues s (<[i := q ++ [{| q_incoming := incoming; q_packet := p |}]]> (queues s)))
          b))
  end.

Definition enqueue (fw : Forwarder) (link : LinkId) (p : ForwardPacket)
    (incoming : option LinkId) : option (Forwarder * list ForwardAction) :=
  if decide (link ∈ down_links fw) then Some (fw, [FaDrop DrLinkDown p])
  else
    let s := link_state fw link in
    r ← place s p incoming;
    match r with
    | Placed s => try_send_one (set_links fw (<[link := s]> (links fw))) link
    | Refused =>
        Some (set_links fw (<[link := s]> (links fw)),
              if decide (priority (header p) = P0) then [FaBackpressure link p]
              else [FaDrop (QueueFull (priority (header p))) p])
    end.

(** ** Routing *)

(** What happens to a destination other than the node itself. *)
Inductive Verdict := Local | Unrouted | Looped | Via (link : LinkId).
#[global] Instance Verdict_eq_dec : EqDecision Verdict.
Proof. solve_decision. Defined.

(** The checks of the loop body of [forward_multicast], in its order. *)
Definition classify (fw : Forwarder) (incoming : option LinkId) (d : NodeId) : Verdict :=
  if decide (d = fw_me fw) then Local
  else match RouteTable_get (fw_routes fw) d with
       | None => Unrouted
       | Some route =>
           if decide (next_hop route ∈ down_links fw) then Unrouted
           else if decide (incoming = Some (next_hop route)) then Looped
           else Via (next_hop route)
       end.

Definition forward_unicast (fw : Forwarder) (incoming : option LinkId) (p : ForwardPacket) :
  option ForwardAction :=
  if decide (destination (header p) = fw_me fw) then Some (FaDeliverLocal p)
  else
    match RouteTable_get (fw_routes fw) (destination (header p)) with
    | None => Some (FaDrop NoRoute p)
    | Some route =>
        if decide (next_hop route ∈ down_links fw) then Some (FaDrop NoRoute p)
        else if decide (incoming = Some (next_hop route)) then Some (FaDrop LoopDetected p)
        else
          n ← checked_sub (ttl (header p)) 1;
          Some (FaSend (next_hop route) (set_ttl p n))
    end.

(** The variables of the loop over the destinations. *)
Record Split := {
  deliver_local : bool;
  no_route : list NodeId;
  looped : list NodeId;
  by_link : gmap LinkId (list NodeId);
}.
Definition Split_empty : Split :=
  {| deliver_local := false; no_route := []; looped := []; by_link := ∅ |}.
(** [by_link.entry(link).or_default().push(destination)] *)
Definition push_by_link (m : gmap LinkId (list NodeId)) (link : LinkId) (d : NodeId) :
  gmap LinkId (list NodeId) := <[link := default [] (m !! link) ++ [d]]> m.
Definition record_verdict (s : Split) (d : NodeId) (v : Verdict) : Split :=
  match v with
  | Local => {| deliver_local := true; no_route := no_route s; looped := looped s;
                by_link := by_link s |}
  | Unrouted => {| deliver_local := deliver_local s; no_route := no_route s ++ [d];
                   looped := looped s; by_link := by_link s |}
  | Looped => {| deliver_local := deliver_local s; no_route := no_route s;
                 looped := looped s ++ [d]; by_link := by_link s |}
  | Via link => {| deliver_local := deliver_local s; no_route := no_route s; looped := looped s;
                   by_link := push_by_link (by_link s) link d |}
  end.
(** [for destination in destinations { .. }] *)
Definition split_destinations (verdict : NodeId → Verdict) (ds : list NodeId) : Split :=
  foldl (λ s d, record_verdict s d (verdict d)) Split_empty ds.

(** [if !list.is_empty() { .. }] around a dropped subset. *)
Definition drop_subset (reason : DropReason) (p : ForwardPacket) (ds : list NodeId) (b : bytes) :
  option (list ForwardAction) :=
  match ds with
  | [] => Some []
  | _ => q ← multicast_subset_packet p ds b (ttl (header p)); Some [FaDrop reason q]
  end.
Definition local_copy (fw : Forwarder) (p : ForwardPacket) (b : bytes) : ForwardPacket :=
  set_parts (set_header p (packet_type (header p)) (fw_me fw) (ttl (header p))) [] b.

(** [for (link, destinations) in by_link { .. enqueue(..) .. }] *)
Fixpoint enqueue_branches (fw : Forwarder) (incoming : option LinkId) (p : ForwardPacket)
    (b : bytes) (n : Z) (branches : list (LinkId * list NodeId)) :
  option (Forwarder * list ForwardAction) :=
  match branches with
  | [] => Some (fw, [])
  | (link, ds) :: rest =>
      branch ← multicast_subset_packet p ds b n;
      '(fw, a) ← enqueue fw link branch incoming;
      '(fw, a') ← enqueue_branches fw incoming p b n rest;
      Some (fw, a ++ a')
  end.

Definition forward_multicast (fw : Forwarder) (incoming : option LinkId) (p : ForwardPacket) :
  option (Forwarder * list ForwardAction) :=
  match MulticastPayload_new (multicast_destinations p) (payload p) with
  | Err e => Some (fw, [FaDrop (InvalidMulticast e) p])
  | Ok m =>
      let b := body m in
      let s := split_destinations (classify fw incoming) (destinations m) in
      let local := if deliver_local s then [FaDeliverLocal (local_copy fw p b)] else [] in
      unrouted ← drop_subset NoRoute p (no_route s) b;
      loops ← drop_subset LoopDetected p (looped s) b;
      next_ttl ← checked_sub (ttl (header p)) 1;
      '(fw, branches) ← enqueue_branches fw incoming p b next_ttl (btree_iter (by_link s));
      Some (fw, local ++ unrouted ++ loops ++ branches)
  end.

Definition process_packet (fw : Forwarder) (incoming : option LinkId) (p : ForwardPacket) :
  option (Forwarder * list ForwardAction) :=
  if ttl (header p) =? 0 then Some (fw, [FaDrop TtlExceeded p])
  else
    match packet_type (header p) with
    | Unicast =>
        action ← forward_unicast fw incoming p;
        match action with
        | FaSend link p => enqueue fw link p incoming
        | action => Some (fw, [action])
        end
    | Multicast => forward_multicast fw incoming p
    | unsupported => Some (fw, [FaDrop (UnsupportedPacketType unsupported) p])
    end.

Definition process_outbound_multicast (fw : Forwarder) (ds : list NodeId) (p : ForwardPacket) :
  option (Forwarder * list ForwardAction) :=
  let p := set_header p Multicast NodeId_default (ttl (header p)) in
  match MulticastPayload_new ds (payload p) with
  | Err e => Some (fw, [FaDrop (InvalidMulticast e) p])
  | Ok m => process_packet fw None (set_parts p (destinations m) (body m))
  end.

(** ** Rerouting *)

Definition reroute_link (fw : Forwarder) (d : NodeId) (incoming : option LinkId) :
  option LinkId :=
  route ← RouteTable_get (fw_routes fw) d;
  if decide (next_hop route ∉ down_links fw ∧ incoming ≠ Some (next_hop route))
  then Some (next_hop route) else None.

Definition reroute_unicast (fw : Forwarder) (q : QueuedPacket) :
  option (Forwarder * list ForwardAction * list QueuedPacket) :=
  let p := q_packet q in
  if decide (destination (header p) = fw_me fw) then Some (fw, [FaDeliverLocal p], [])
  else
    match reroute_link fw (destination (header p)) (q_incoming q) with
    | None => Some (fw, [], [q])
    | Some link => '(fw, a) ← enqueue fw link p (q_incoming q); Some (fw, a, [])
    end.

(** The loop body of [reroute_multicast]: a destination without a usable route
    stays unresolved. *)
Definition reroute_verdict (fw : Forwarder) (incoming : option LinkId) (d : NodeId) : Verdict :=
  if decide (d = fw_me fw) then Local
  else match reroute_link fw d incoming with Some link => Via link | None => Unrouted end.

Definition reroute_multicast (fw : Forwarder) (q : QueuedPacket) :
  option (Forwarder * list ForwardAction * list QueuedPacket) :=
  let p := q_packet q in
  match MulticastPayload_new (multicast_destinations p) (payload p) with
  | Err e => Some (fw, [FaDrop (InvalidMulticast e) p], [])
  | Ok m =>
      let b := body m in
      let s := split_destinations (reroute_verdict fw (q_incoming q)) (destinations m) in
      let local := if deliver_local s then [FaDeliverLocal (local_copy fw p b)] else [] in
      '(fw, branches) ← enqueue_branches fw (q_incoming q) p b (ttl (header p))
                          (btree_iter (by_link s));
      unresolved ←
        match no_route s with
        | [] => Some []
        | ds => u ← multicast_subset_packet p ds b (ttl (header p));
                Some [{| q_incoming := q_incoming q; q_packet := u |}]
        end;
      Some (fw, local ++ branches, unresolved)
  end.

Definition reroute_queued (fw : Forwarder) (q : QueuedPacket) :
  option (Forwarder * list ForwardAction * list QueuedPacket) :=
  match packet_type (header (q_packet q)) with
  | Unicast => reroute_unicast fw q
  | Multicast => reroute_multicast fw q
  | unsupported => Some (fw, [FaDrop (UnsupportedPacketType unsupported) (q_packet q)], [])
  end.

Definition drop_queued_packets (l : list QueuedPacket) (reason : DropReason) :
  list ForwardAction := (λ q, FaDrop reason (q_packet q)) <$> l.

(** The loops over queued packets, with the actions and the unresolved packets
    of each. *)
Fixpoint reroute_all (fw : Forwarder) (l : list QueuedPacket) :
  option (Forwarder * list (list ForwardAction * list QueuedPacket)) :=
  match l with
  | [] => Some (fw, [])
  | q :: l =>
      '(fw, routed, unresolved) ← reroute_queued fw q;
      '(fw, rest) ← reroute_all fw l;
      Some (fw, (routed, unresolved) :: rest)
  end.

(** ** Events *)

(** [loop] of [next_pending_generation]; the state is the counter. *)
Definition generation_step (pending : gmap Z PendingP0Batch) (next : Z) : Z + (Z * Z) :=
  let generation := next in
  let next := wrap 64 (next + 1) in
  match pending !! generation with
  | None => inr (generation, next)
  | Some _ => inl next
  end.
Definition next_pending_generation (fw : Forwarder) : option (Z * Forwarder) :=
  '(generation, next) ← run_loop (generation_step (pending_p0 fw))
                          (Pos.of_succ_nat (size (pending_p0 fw))) (next_pending fw);
  Some (generation, set_pending_p0 fw (pending_p0 fw) next).

(** [if !p0.is_empty() { .. }]: the P0 packets wait for a new route. *)
Definition hold_p0 (fw : Forwarder) (now : MonoTime) (p0 : list QueuedPacket) :
  option (Forwarder * list ForwardAction) :=
  match p0 with
  | [] => Some (fw, [])
  | _ =>
      '(generation, fw) ← next_pending_generation fw;
      let expires_at := sat_add 64 now P0_ROUTE_WAIT_MS in
      Some (set_pending_p0 fw
              (<[generation := {| batch_expires_at := expires_at; batch_packets := p0 |}]>
                 (pending_p0 fw)) (next_pending fw),
            [FaSetTimer (PendingP0 generation) expires_at])
  end.

Definition handle_link_down (fw : Forwarder) (now : MonoTime) (link : LinkId) :
  option (Forwarder * list ForwardAction) :=
  let fw := set_down_links fw ({[link]} ∪ down_links fw) in
  match links fw !! link with
  | None => Some (fw, [])
  | Some s =>
      let fw := set_links fw (delete link (links fw)) in
      p0 ← queues s !! 0%nat; p1 ← queues s !! 1%nat;
      p2 ← queues s !! 2%nat; p3 ← queues s !! 3%nat;
      '(fw, timers) ← hold_p0 fw now p0;
      '(fw, rerouted) ← reroute_all fw p2;
      Some (fw, timers ++ drop_queued_packets p1 DrLinkDown ++
                (rerouted ≫= λ '(routed, unresolved),
                   routed ++ drop_queued_packets unresolved DrLinkDown) ++
                drop_queued_packets p3 DrLinkDown)
  end.

(** One batch of [retry_pending_p0]. *)
Definition retry_batch (fw : Forwarder) (now : MonoTime) (generation : Z)
    (batch : PendingP0Batch) : option (Forwarder * list ForwardAction) :=
  if batch_expires_at batch <=? now then
    Some (fw, drop_queued_packets (batch_packets batch) RouteWaitExpired)
  else
    '(fw, rerouted) ← reroute_all fw (batch_packets batch);
    let remaining := rerouted ≫= snd in
    let fw := match remaining with
              | [] => fw
              | _ => set_pending_p0 fw
                       (<[generation := {| batch_expires_at := batch_expires_at batch;
                                           batch_packets := remaining |}]>
                          (pending_p0 fw)) (next_pending fw)
              end in
    Some (fw, rerouted ≫= fst).
(** [for (generation, batch) in batches], after [std::mem::take]. *)
Fixpoint retry_batches (fw : Forwarder) (now : MonoTime) (l : list (Z * PendingP0Batch)) :
  option (Forwarder * list ForwardAction) :=
  match l with
  | [] => Some (fw, [])
  | (generation, batch) :: l =>
      '(fw, a) ← retry_batch fw now generation batch;
      '(fw, a') ← retry_batches fw now l;
      Some (fw, a ++ a')
  end.
Definition retry_pending_p0 (fw : Forwarder) (now : MonoTime) :
  option (Forwarder * list ForwardAction) :=
  let batches := btree_iter (pending_p0 fw) in
  retry_batches (set_pending_p0 fw ∅ (next_pending fw)) now batches.

Definition handle_routes_updated (fw : Forwarder) (now : MonoTime) (t : RouteTable) :
  option (Forwarder * list ForwardAction) :=
  let fw := set_fw_routes fw t in
  let referenced_links : gset LinkId :=
    list_to_set ((λ '(_, r), next_hop r) <$> RouteTable_iter t) in
  retry_pending_p0 (set_down_links fw (filter (λ l, l ∈ referenced_links) (down_links fw))) now.

Definition fw_handle_timer (fw : Forwarder) (now : MonoTime) (t : ForwardTimer) :
  Forwarder * list ForwardAction :=
  let '(PendingP0 generation) := t in
  match pending_p0 fw !! generation with
  | None => (fw, [])
  | Some batch =>
      if now <? batch_expires_at batch then (fw, [FaSetTimer t (batch_expires_at batch)])
      else (set_pending_p0 fw (delete generation (pending_p0 fw)) (next_pending fw),
            drop_queued_packets (batch_packets batch) RouteWaitExpired)
  end.

(** [impl Component for Forwarder]. *)
Definition fw_handle (fw : Forwarder) (now : MonoTime) (e : ForwardEvent) :
  option (Forwarder * list ForwardAction) :=
  match e with
  | FeOutbound p => process_packet fw None p
  | FeOutboundMulticast ds p => process_outbound_multicast fw ds p
  | FeInbound link p => process_packet fw (Some link) p
  | FeRoutesUpdated t => handle_routes_updated fw now t
  | FeLinkCredit link n => grant_credit fw link n
  | FeLinkWritable link => mark_writable fw link
  | FeLinkDown link => handle_link_down fw now link
  | FeTimer t => Some (fw_handle_timer fw now t)
  end.
#[global] Instance Forwarder_component : Component Forwarder ForwardEvent ForwardAction :=
  {| handle := fw_handle |}.
