(* ===== verification/ForwardSched.v ===== *)
(** * Scheduling of a link

    The invariant of [LinkQueues], and what [try_send] and [place] do to it:
    the round-robin loop terminates, sends at most one packet, is work
    conserving, serves P0 first and every queue in order. *)

From S2P Require Export Prelude Ord Bytes Types Wire ControlTypes Forward.

(** ** The invariant *)

(** Sizes for which the byte counter of a full queue cannot saturate. *)
Definition packet_fits (p : ForwardPacket) : Prop := ForwardPacket_encoded_len p ≤ 2 ^ 50.

Definition queue_keys (q : list QueuedPacket) : list ConflationKey :=
  omap (λ x, ConflationKey_from_packet (q_packet x)) q.
Definition queue_bytes (q : list QueuedPacket) : Z := zsum (queued_len <$> q).

Record queue_ok (i : nat) (q : list QueuedPacket) : Prop := {
  qo_limit : ∃ n, QUEUE_LIMIT_PACKETS !! i = Some n ∧ zlen q ≤ n;
  qo_priority : Forall (λ x, priority_index (priority (header (q_packet x))) = i) q;
  qo_fits : Forall (λ x, packet_fits (q_packet x)) q;
  qo_keys : NoDup (queue_keys q);
}.

Record drr_ok (s : LinkQueues) : Prop := {
  drr_deficits : length (deficit_bytes s) = 3%nat ∧ Forall (is_uint 64) (deficit_bytes s);
  drr_next : (next_drr s < 3)%nat;
}.

Record lq_ok (s : LinkQueues) : Prop := {
  lq_shape : length (queues s) = 4%nat;
  lq_queues i q : queues s !! i = Some q → queue_ok i q;
  lq_bytes : queued_bytes s = queue_bytes <$> queues s;
  lq_credit : is_uint 64 (available_credit_bytes s);
  lq_drr : drr_ok s;
}.

Lemma encoded_len_range p : 0 ≤ ForwardPacket_encoded_len p ≤ u_max 64.
Proof.
  unfold ForwardPacket_encoded_len, sat_add, sat_mul, multicast_prefix_len, sat_add, sat_mul,
    u_max, FORWARD_HEADER_LEN, MULTICAST_COUNT_LEN, NODE_ID_LEN.
  pose proof (zlen_nonneg (payload p)). pose proof (zlen_nonneg (multicast_destinations p)).
  case_decide; lia.
Qed.
Lemma encoded_len_pos p : 0 < ForwardPacket_encoded_len p.
Proof.
  unfold ForwardPacket_encoded_len, sat_add, sat_mul, multicast_prefix_len, sat_add, sat_mul,
    u_max, FORWARD_HEADER_LEN, MULTICAST_COUNT_LEN, NODE_ID_LEN.
  pose proof (zlen_nonneg (payload p)). pose proof (zlen_nonneg (multicast_destinations p)).
  case_decide; lia.
Qed.

Lemma LinkQueues_default_ok : lq_ok LinkQueues_default.
Proof.
  constructor; [done| |done|by unfold is_uint|].
  - intros i q Hq. do 4 (destruct i as [|i]; [injection Hq as <-; constructor;
      [eexists; split; [reflexivity|done]|constructor|constructor|constructor]|]). done.
  - constructor; [|cbn; lia]. split; [done|].
    by repeat (apply Forall_cons; split; [by unfold is_uint|]).
Qed.

(** *** Byte counters *)

Lemma queue_bytes_cons x q : queue_bytes (x :: q) = queued_len x + queue_bytes q.
Proof. done. Qed.
Lemma queue_bytes_app q x : queue_bytes (q ++ [x]) = queue_bytes q + queued_len x.
Proof. unfold queue_bytes. rewrite fmap_app, zsum_app. cbn. lia. Qed.
Lemma queue_bytes_nonneg q : 0 ≤ queue_bytes q.
Proof.
  apply zsum_nonneg, Forall_fmap, Forall_true. intros x. apply encoded_len_range.
Qed.
Lemma queued_len_le q x : x ∈ q → queued_len x ≤ queue_bytes q.
Proof.
  induction q as [|y q IH]; [by intros ?%not_elem_of_nil|]. rewrite queue_bytes_cons.
  pose proof (encoded_len_range (q_packet y)) as Hy. fold (queued_len y) in Hy.
  pose proof (queue_bytes_nonneg q). intros [->|Hx]%elem_of_cons; [lia|].
  specialize (IH Hx). lia.
Qed.
Lemma queue_bytes_insert q k x y :
  q !! k = Some x → queue_bytes (<[k := y]> q) = queue_bytes q - queued_len x + queued_len y.
Proof.
  revert k. induction q as [|z q IH]; intros [|k] Hk; [done..| |].
  - injection Hk as ->. cbn [insert list_insert]. rewrite !queue_bytes_cons. lia.
  - change (<[S k := y]> (z :: q)) with (z :: <[k := y]> q). rewrite !queue_bytes_cons.
    rewrite (IH k Hk). lia.
Qed.
Lemma queue_bytes_bound i q : queue_ok i q → queue_bytes q ≤ 4096 * 2 ^ 50.
Proof.
  intros [(n & Hn & Hlen) _ Hfit _].
  assert (n ≤ 4096).
  { do 4 (destruct i as [|i]; [cbn in Hn; injection Hn as <-; lia|]). done. }
  unfold queue_bytes. pose proof (zsum_bound queued_len q (2 ^ 50)) as [_ Hb].
  { intros x Hx. rewrite Forall_forall in Hfit. split; [apply encoded_len_range|by apply Hfit]. }
  pose proof (zlen_nonneg q). nia.
Qed.

(** *** Removing the front of a queue *)

Lemma queue_ok_tail i x q : queue_ok i (x :: q) → queue_ok i q.
Proof.
  intros [(n & Hn & Hlen) Hp Hf Hk]. constructor.
  - exists n. split; [done|]. rewrite zlen_cons in Hlen. lia.
  - by inversion Hp.
  - by inversion Hf.
  - unfold queue_keys in *. cbn in Hk. destruct (ConflationKey_from_packet _); [|done].
    by apply NoDup_cons in Hk as [_ ?].
Qed.

Lemma lookup_insert_queue (s : LinkQueues) i q j q' :
  length (queues s) = 4%nat → (i < 4)%nat → <[i := q]> (queues s) !! j = Some q' →
  (i = j ∧ q' = q) ∨ (i ≠ j ∧ queues s !! j = Some q').
Proof.
  intros Hl Hi Hj. destruct (decide (i = j)) as [<-|Hne].
  - rewrite list_lookup_insert_eq in Hj by lia. naive_solver.
  - rewrite list_lookup_insert_ne in Hj by done. auto.
Qed.

(** One packet leaves queue [i]. *)
Record dequeued (s : LinkQueues) (i : nat) (x : QueuedPacket) (s' : LinkQueues) : Prop := {
  dq_front : ∃ rest, queues s !! i = Some (x :: rest) ∧ queues s' = <[i := rest]> (queues s);
  dq_bytes : ∃ n, queued_bytes s !! i = Some n ∧
    queued_bytes s' = <[i := sat_sub n (queued_len x)]> (queued_bytes s);
  dq_fit : queued_len x ≤ available_credit_bytes s;
  dq_credit : available_credit_bytes s' = available_credit_bytes s - queued_len x;
  dq_writable : writable s' = false;
  dq_drr : drr_ok s';
}.

Lemma dequeued_ok s i x s' : lq_ok s → dequeued s i x s' → lq_ok s'.
Proof.
  intros [Hsh Hq Hb Hc Hd] [(rest & Hf & Hq') (n & Hn & Hb') Hfit Hc' Hw Hd'].
  assert (Hi : (i < 4)%nat) by (apply lookup_lt_Some in Hf; lia).
  constructor.
  - by rewrite Hq', length_insert.
  - intros j q. rewrite Hq'. intros [[<- ->]|[Hne Hj]]%lookup_insert_queue; [|by auto..].
    by eapply queue_ok_tail, Hq.
  - rewrite Hb', Hq', Hb, list_fmap_insert. f_equal.
    rewrite Hb, list_lookup_fmap, Hf in Hn. injection Hn as <-.
    pose proof (queue_bytes_nonneg rest). rewrite queue_bytes_cons. unfold sat_sub. lia.
  - rewrite Hc'. destruct (encoded_len_range (q_packet x)). unfold is_uint, queued_len in *. lia.
  - done.
Qed.

(** ** One iteration of the round robin *)

Lemma array_update_Some {A} i (f : A → A) (l : list A) x :
  l !! i = Some x → array_update i f l = Some (<[i := f x]> l).
Proof. unfold array_update. by intros ->. Qed.
Lemma array_set_Some {A} i (x : A) (l : list A) :
  (i < length l)%nat → array_set i x l = Some (<[i := x]> l).
Proof. intros. unfold array_set. by destruct (Nat.ltb_spec i (length l)); [|lia]. Qed.

Lemma drr_ok_ext s t :
  deficit_bytes t = deficit_bytes s → next_drr t = next_drr s → drr_ok s → drr_ok t.
Proof. intros Hd Hn [? ?]. constructor; by rewrite ?Hd, ?Hn. Qed.
Lemma drr_ok_advance s : drr_ok s → drr_ok (advance_drr s).
Proof.
  intros [? ?]. constructor; [done|]. cbn. pose proof (Nat.mod_upper_bound (next_drr s + 1) 3). lia.
Qed.
Lemma drr_ok_deficit s i d :
  drr_ok s → is_uint 64 d → drr_ok (set_deficits s (<[i := d]> (deficit_bytes s))).
Proof.
  intros [[Hl Hf] Hn] Hd. constructor; [|done]. cbn. rewrite length_insert. split; [done|].
  by apply Forall_insert.
Qed.

(** The deficit of the current queue after its quantum. *)
Definition replenished (s : LinkQueues) (d quantum : Z) : Z :=
  if drr_needs_quantum s then sat_add usize_bits d quantum else d.
Definition replenish (s : LinkQueues) (d quantum : Z) : LinkQueues :=
  if drr_needs_quantum s then
    set_drr (set_deficits s (<[next_drr s := sat_add usize_bits d quantum]> (deficit_bytes s)))
      (next_drr s) false
  else s.

Lemma quantum_pos i : (i < 3)%nat → ∃ n, DRR_QUANTUM_BYTES !! i = Some n ∧ 1024 ≤ n < 2 ^ 64.
Proof. intros. do 3 (destruct i as [|i]; [by eexists|]). lia. Qed.

Lemma replenish_ok s d n :
  drr_ok s → deficit_bytes s !! next_drr s = Some d → 0 ≤ n →
  drr_ok (replenish s d n) ∧ deficit_bytes (replenish s d n) !! next_drr s = Some (replenished s d n)
  ∧ is_uint 64 (replenished s d n).
Proof.
  intros Hok Hd Hn. pose proof Hok as [[Hl Hf] Hi].
  assert (is_uint 64 d) by by eapply Forall_lookup_1.
  assert (is_uint 64 (sat_add 64 d n)) by (unfold is_uint, sat_add, u_max in *; lia).
  unfold replenish, replenished. destruct (drr_needs_quantum s); [|done].
  split; [|split; [|done]].
  - destruct (drr_ok_deficit s (next_drr s) (sat_add 64 d n)); [done..|]. by constructor.
  - cbn. by rewrite list_lookup_insert_eq by lia.
Qed.

Lemma drr_step_spec s :
  lq_ok s → a_packet_fits_credit s = true →
  ∃ q d n, queues s !! S (next_drr s) = Some q ∧ deficit_bytes s !! next_drr s = Some d ∧
    DRR_QUANTUM_BYTES !! next_drr s = Some n ∧ 1024 ≤ n < 2 ^ 64 ∧
    match q with
    | [] => drr_step s =
              inl (advance_drr (set_deficits s (<[next_drr s := 0]> (deficit_bytes s))))
    | x :: _ =>
        if (replenished s d n <? queued_len x) || (available_credit_bytes s <? queued_len x)
        then drr_step s = inl (advance_drr (replenish s d n))
        else ∃ s', drr_step s = inr (Some (s', Some (q_packet x))) ∧
                   dequeued s (S (next_drr s)) x s'
    end.
Proof.
  intros [Hsh Hq Hb Hc Hdrr] Hfit. pose proof Hdrr as [[Hl Hf] Hi].
  destruct (lookup_lt_is_Some_2 (queues s) (S (next_drr s))) as [q Hqi]; [lia|].
  destruct (lookup_lt_is_Some_2 (deficit_bytes s) (next_drr s)) as [d Hd]; [lia|].
  destruct (quantum_pos _ Hi) as (n & Hn & Hnb).
  exists q, d, n. split; [done|]. split; [done|]. split; [done|]. split; [done|].
  unfold drr_step. rewrite Hfit, Nat.add_1_r, Hqi. cbn [negb]. destruct q as [|x rest].
  { by rewrite array_set_Some by lia. }
  assert (E : (if drr_needs_quantum s
     then quantum ← DRR_QUANTUM_BYTES !! next_drr s;
          d0 ← array_update (next_drr s) (λ x0, sat_add 64 x0 quantum) (deficit_bytes s);
          Some (set_drr (set_deficits s d0) (next_drr s) false)
     else Some s) = Some (replenish s d n)).
  { unfold replenish. destruct (drr_needs_quantum s); [|done].
    rewrite Hn. cbn [mbind option_bind]. by rewrite (array_update_Some _ _ _ _ Hd). }
  rewrite E. destruct (replenish_ok s d n Hdrr Hd) as (Hok1 & Hd1 & Hu1); [lia|]. rewrite Hd1.
  assert (Hsame : queues (replenish s d n) = queues s ∧ queued_bytes (replenish s d n) = queued_bytes s
    ∧ available_credit_bytes (replenish s d n) = available_credit_bytes s).
  { unfold replenish. by destruct (drr_needs_quantum s). }
  destruct Hsame as (Eq & Eb & Ec). rewrite Ec.
  destruct (_ || _) eqn:Ecmp; [done|]. bool_prop.
  destruct (lookup_lt_is_Some_2 (queued_bytes s) (S (next_drr s))) as [bi Hbi].
  { rewrite Hb, length_fmap. lia. }
  unfold checked_sub. rewrite !(proj2 (Z.leb_le _ _)) by lia. cbn [mbind option_bind].
  rewrite Eb, (array_update_Some _ _ _ _ Hbi). cbn [mbind option_bind].
  eexists. split; [reflexivity|].
  assert (Hz : is_uint 64 (replenished s d n - queued_len x)).
  { pose proof (encoded_len_pos (q_packet x)). unfold is_uint, queued_len in *. lia. }
  destruct rest as [|y rest]; constructor; cbn;
    rewrite ?Eq, ?Ec; try done; try lia; try (by eexists); try (exists bi; split; [done|]); try done.
  - pose proof (drr_ok_deficit _ (next_drr s) _ Hok1 Hz) as Hok2.
    pose proof (drr_ok_deficit _ (next_drr s) 0 Hok2 ltac:(by unfold is_uint)) as Hok3.
    by eapply drr_ok_ext; [..|exact (drr_ok_advance _ Hok3)].
  - by eapply drr_ok_ext; [..|exact (drr_ok_deficit _ (next_drr s) _ Hok1 Hz)].
Qed.

(** ** The round robin terminates *)

Section Loop.
Context (s0 : LinkQueues) (Hs0 : lq_ok s0).

(** The loop changes nothing but the round-robin state until it returns. *)
Record drr_frame (s : LinkQueues) : Prop := {
  df_queues : queues s = queues s0;
  df_bytes : queued_bytes s = queued_bytes s0;
  df_credit : available_credit_bytes s = available_credit_bytes s0;
  df_writable : writable s = writable s0;
  df_drr : drr_ok s;
}.
Lemma drr_frame_refl : drr_frame s0.
Proof. destruct Hs0. by constructor. Qed.
Lemma drr_frame_ok s : drr_frame s → lq_ok s.
Proof.
  intros [Hq Hb Hc _ Hd]. destruct Hs0 as [S1 S2 S3 S4 _].
  constructor; rewrite ?Hq, ?Hb, ?Hc; done.
Qed.
Lemma drr_frame_advance s : drr_frame s → drr_frame (advance_drr s).
Proof. intros [? ? ? ? ?%drr_ok_advance]. by constructor. Qed.
Lemma drr_frame_deficit s i d :
  drr_frame s → is_uint 64 d → drr_frame (set_deficits s (<[i := d]> (deficit_bytes s))).
Proof. intros [? ? ? ? ?] Hd. constructor; try done. by apply drr_ok_deficit. Qed.
Lemma drr_frame_replenish s d n :
  drr_frame s → deficit_bytes s !! next_drr s = Some d → 0 ≤ n → drr_frame (replenish s d n).
Proof.
  intros [? ? ? ? Hok] Hd Hn. destruct (replenish_ok s d n Hok Hd Hn) as [? _].
  constructor; try done; unfold replenish; by destruct (drr_needs_quantum s).
Qed.

Lemma fits_frame s : drr_frame s → a_packet_fits_credit s = a_packet_fits_credit s0.
Proof. intros [Hq _ Hc _ _]. unfold a_packet_fits_credit. by rewrite Hq, Hc. Qed.

(** What the loop returns. *)
Definition drr_result (r : option (LinkQueues * option ForwardPacket)) : Prop :=
  ∃ s i x, r = Some (s, Some (q_packet x)) ∧ dequeued s0 (S i) x s.

Lemma dequeued_frame s i x s' : drr_frame s → dequeued s i x s' → dequeued s0 i x s'.
Proof.
  intros [Hq Hb Hc Hw _] [Df Db Dfit Dc Dw Dd].
  rewrite Hq in Df. rewrite Hb in Db. rewrite Hc in Dfit, Dc. by constructor.
Qed.

Context (k : nat) (x : QueuedPacket) (rest : list QueuedPacket).
Context (Hk : queues s0 !! S k = Some (x :: rest)).
Context (Hx : queued_len x ≤ available_credit_bytes s0).

Definition shortfall (s : LinkQueues) : Z :=
  Z.max 0 (queued_len x - default 0 (deficit_bytes s !! k)).
Definition turns (s : LinkQueues) : Z := Z.of_nat ((k + 3 - next_drr s) mod 3).
Definition drr_measure (s : LinkQueues) : Z :=
  3 * shortfall s + turns s + (if drr_needs_quantum s then 0 else 3).

Lemma k_small : (k < 3)%nat.
Proof. apply lookup_lt_Some in Hk. rewrite (lq_shape _ Hs0) in Hk. lia. Qed.

Lemma fits_target s : drr_frame s → a_packet_fits_credit s = true.
Proof.
  intros Hf. rewrite (fits_frame s Hf). unfold a_packet_fits_credit.
  apply existsb_exists. exists (x :: rest). split.
  - apply list_elem_of_In, list_elem_of_lookup. exists k. by rewrite lookup_drop.
  - cbn. by apply Z.leb_le.
Qed.

Lemma turns_advance s :
  (next_drr s < 3)%nat →
  turns (advance_drr s) = (if decide (next_drr s = k) then 2 else turns s - 1).
Proof.
  pose proof k_small. unfold turns. cbn. intros Hn.
  destruct (next_drr s) as [|[|[|]]], k as [|[|[|]]]; try lia; done.
Qed.
Lemma turns_range s : 0 ≤ turns s ≤ 2.
Proof. unfold turns. pose proof (Nat.mod_upper_bound (k + 3 - next_drr s) 3). lia. Qed.
Lemma turns_here s : next_drr s = k → turns s = 0.
Proof.
  intros E. unfold turns. rewrite E. replace (k + 3 - k)%nat with 3%nat by lia. reflexivity.
Qed.

Lemma shortfall_other s i d :
  i ≠ k → shortfall (set_deficits s (<[i := d]> (deficit_bytes s))) = shortfall s.
Proof. intros Hne. unfold shortfall. cbn. by rewrite list_lookup_insert_ne. Qed.

(** Another queue's turn brings the target one step closer. *)
Lemma drr_step_other s s' :
  drr_frame s → next_drr s ≠ k → drr_step s = inl s' →
  drr_frame s' ∧ drr_measure s' < drr_measure s.
Proof.
  intros Hf Hne Hstep. pose proof (drr_frame_ok s Hf) as Hok.
  pose proof (drr_next _ (lq_drr _ Hok)) as Hn.
  destruct (drr_step_spec s Hok (fits_target s Hf)) as (q & d & n & _ & Hd & _ & Hnb & Hcase).
  destruct q as [|y q].
  - rewrite Hcase in Hstep. injection Hstep as <-. split.
    + apply drr_frame_advance, drr_frame_deficit; [done|by unfold is_uint].
    + unfold drr_measure. rewrite turns_advance by done. cbn [next_drr set_deficits].
      rewrite decide_False by done. change (turns (set_deficits s _)) with (turns s).
      change (shortfall (advance_drr ?t)) with (shortfall t).
      rewrite shortfall_other by done. cbn. destruct (drr_needs_quantum s); lia.
  - destruct (_ || _); [|destruct Hcase as (? & E & _); congruence].
    rewrite Hcase in Hstep. injection Hstep as <-. split.
    + apply drr_frame_advance, drr_frame_replenish; [done|done|lia].
    + unfold drr_measure.
      assert (Et : next_drr (replenish s d n) = next_drr s)
        by (unfold replenish; by destruct (drr_needs_quantum s)).
      rewrite turns_advance by (by rewrite Et). rewrite Et, decide_False by done.
      assert (shortfall (advance_drr (replenish s d n)) = shortfall s) as ->.
      { change (shortfall (replenish s d n) = shortfall s). unfold replenish.
        destruct (drr_needs_quantum s); [|done]. by apply (shortfall_other s). }
      assert (turns (replenish s d n) = turns s) as -> by (unfold turns; by rewrite Et).
      cbn. destruct (drr_needs_quantum s); lia.
Qed.

(** On its own turn the target is sent, or its deficit grows. *)
Lemma drr_step_target s s' :
  drr_frame s → next_drr s = k → drr_step s = inl s' →
  drr_frame s' ∧ drr_measure s' < drr_measure s.
Proof.
  intros Hf Hk' Hstep. pose proof (drr_frame_ok s Hf) as Hok.
  pose proof (lq_drr _ Hok) as Hdrr. pose proof Hdrr as [[Hl HF] Hn].
  destruct (drr_step_spec s Hok (fits_target s Hf)) as (q & d & n & Hq & Hd & _ & Hnb & Hcase).
  rewrite (df_queues _ Hf), Hk' in Hq. rewrite Hk in Hq. injection Hq as <-.
  destruct (_ || _) eqn:Ecmp; [|destruct Hcase as (? & E & _); congruence].
  rewrite (df_credit _ Hf), (proj2 (Z.ltb_ge _ _) Hx), orb_false_r in Ecmp.
  apply Z.ltb_lt in Ecmp. rewrite Hcase in Hstep. injection Hstep as <-. split.
  { apply drr_frame_advance, drr_frame_replenish; [done|done|lia]. }
  destruct (replenish_ok s d n Hdrr Hd) as (_ & Hd1 & _); [lia|].
  assert (is_uint 64 d) by by eapply Forall_lookup_1.
  pose proof (encoded_len_range (q_packet x)) as Hlen. fold (queued_len x) in Hlen.
  assert (Et : next_drr (replenish s d n) = next_drr s)
    by (unfold replenish; by destruct (drr_needs_quantum s)).
  unfold drr_measure. rewrite turns_advance by (by rewrite Et).
  rewrite Et, decide_True by done. rewrite (turns_here s Hk').
  change (shortfall (advance_drr ?t)) with (shortfall t).
  unfold shortfall. rewrite <-Hk', Hd1, Hd. cbn.
  unfold replenished, sat_add, u_max in *. unfold is_uint in *.
  destruct (drr_needs_quantum s); lia.
Qed.

Lemma drr_loop_total : ∃ r, run_loop drr_step drr_fuel s0 = Some r ∧ drr_result r.
Proof.
  apply (run_loop_total drr_step drr_frame drr_result drr_measure).
  - apply drr_frame_refl.
  - intros s _. unfold drr_measure, shortfall. pose proof (turns_range s).
    destruct (drr_needs_quantum s); lia.
  - intros s s' Hf Hstep. destruct (decide (next_drr s = k));
      [by apply drr_step_target|by apply drr_step_other].
  - intros s r Hf Hstep. pose proof (drr_frame_ok s Hf) as Hok.
    destruct (drr_step_spec s Hok (fits_target s Hf)) as (q & d & n & _ & _ & _ & _ & Hcase).
    destruct q as [|y q]; [congruence|]. destruct (_ || _); [congruence|].
    destruct Hcase as (s' & E & Hdq). rewrite E in Hstep. injection Hstep as <-.
    exists s', (next_drr s), y. split; [done|]. by eapply dequeued_frame.
  - unfold drr_measure, shortfall. pose proof (turns_range s0).
    pose proof (encoded_len_range (q_packet x)) as Hlen. fold (queued_len x) in Hlen.
    pose proof (drr_deficits _ (lq_drr _ Hs0)) as [Hl HF].
    destruct (lookup_lt_is_Some_2 (deficit_bytes s0) k) as [d Hd]; [pose proof k_small; lia|].
    rewrite Hd. cbn. assert (is_uint 64 d) by by eapply Forall_lookup_1.
    unfold is_uint, u_max, drr_fuel in *. destruct (drr_needs_quantum s0); lia.
Qed.
End Loop.

(** ** Sending *)

(** Nothing may be sent: no permission to write, or no credit for the packet
    that is next (of P0), or, with P0 empty, for any packet that is next. *)
Definition blocked (s : LinkQueues) : Prop :=
  writable s = false ∨
  ∃ p0, queues s !! 0%nat = Some p0 ∧
    match p0 with
    | x :: _ => available_credit_bytes s < queued_len x
    | [] => ∀ i x rest, queues s !! i = Some (x :: rest) →
                        available_credit_bytes s < queued_len x
    end.

(** What a call of [try_send] does. *)
Definition send_spec (s s' : LinkQueues) (r : option ForwardPacket) : Prop :=
  match r with
  | None => drr_frame s s' ∧ blocked s
  | Some p =>
      writable s = true ∧
      ∃ i x, p = q_packet x ∧ dequeued s i x s' ∧
             (i ≠ 0%nat → queues s !! 0%nat = Some [])
  end.

Lemma fits_false_blocked s :
  lq_ok s → queues s !! 0%nat = Some [] → a_packet_fits_credit s = false →
  ∀ i x rest, queues s !! i = Some (x :: rest) → available_credit_bytes s < queued_len x.
Proof.
  intros Hok H0 Hf i x rest Hi. destruct i as [|i]; [congruence|].
  destruct (decide (queued_len x ≤ available_credit_bytes s)) as [Hle|]; [|lia].
  unfold a_packet_fits_credit in Hf. apply not_true_iff_false in Hf. destruct Hf.
  apply existsb_exists. exists (x :: rest). split.
  - apply list_elem_of_In, list_elem_of_lookup. exists i. by rewrite lookup_drop.
  - by apply Z.leb_le.
Qed.

Lemma fits_true_target s :
  a_packet_fits_credit s = true →
  ∃ k x rest, queues s !! S k = Some (x :: rest) ∧ queued_len x ≤ available_credit_bytes s.
Proof.
  unfold a_packet_fits_credit. intros (q & Hq & Hx)%existsb_exists.
  destruct q as [|x rest]; [done|]. cbn in Hx. apply Z.leb_le in Hx.
  apply list_elem_of_In, list_elem_of_lookup in Hq as [k Hk]. rewrite lookup_drop in Hk.
  by exists k, x, rest.
Qed.

Lemma try_send_spec s :
  lq_ok s → ∃ s' r, try_send s = Some (s', r) ∧ lq_ok s' ∧ send_spec s s' r.
Proof.
  intros Hok. unfold try_send. destruct (writable s) eqn:Ew; cbn [negb].
  2: { exists s, None. split; [done|]. split; [done|]. split; [by apply drr_frame_refl|by left]. }
  pose proof Hok as [Hsh Hqs Hb Hc Hdrr].
  destruct (lookup_lt_is_Some_2 (queues s) 0) as [p0 H0]; [lia|]. rewrite H0. cbn [mbind option_bind].
  destruct p0 as [|x rest].
  - destruct (a_packet_fits_credit s) eqn:Ef.
    + destruct (fits_true_target s Ef) as (k & y & rest & Hk & Hy).
      destruct (drr_loop_total s Hok k y rest Hk Hy) as (r & Hr & s' & i & x & -> & Hdq).
      rewrite Hr. cbn. exists s', (Some (q_packet x)). split; [done|].
      split; [by eapply dequeued_ok|]. split; [done|]. by exists (S i), x.
    + assert (run_loop drr_step drr_fuel s = Some (Some (s, None))) as ->.
      { destruct (run_loop_total drr_step (λ t, t = s) (λ r, r = Some (s, None)) (λ _, 0)
          drr_fuel s) as (r & -> & ->); try done; intros t r -> Hstep;
          unfold drr_step in Hstep; rewrite Ef in Hstep; cbn in Hstep; congruence. }
      cbn. exists s, None. split; [done|]. split; [done|]. split; [by apply drr_frame_refl|].
      right. exists []. split; [done|]. by apply fits_false_blocked.
  - destruct (Z.ltb_spec (available_credit_bytes s) (queued_len x)) as [Hlt|Hle].
    + exists s, None. split; [done|]. split; [done|]. split; [by apply drr_frame_refl|].
      right. by exists (x :: rest).
    + destruct (lookup_lt_is_Some_2 (queued_bytes s) 0) as [b0 Hb0]; [rewrite Hb, length_fmap; lia|].
      rewrite (array_update_Some _ _ _ _ Hb0). cbn [mbind option_bind].
      unfold checked_sub. rewrite (proj2 (Z.leb_le _ _)) by lia. cbn [mbind option_bind].
      do 2 eexists. split; [reflexivity|].
      assert (Hdq : dequeued s 0 x (set_writable (set_credit (set_queued_bytes
        (set_queues s (<[0%nat := rest]> (queues s)))
        (<[0%nat := sat_sub b0 (queued_len x)]> (queued_bytes s)))
        (available_credit_bytes s - queued_len x)) false)).
      { constructor; cbn; try done; [by eexists|by eexists|]. by destruct Hdrr. }
      split; [by eapply dequeued_ok|]. split; [done|]. by exists 0%nat, x.
Qed.

(** ** Placing a packet *)

Lemma priority_index_lt p : (priority_index p < 4)%nat.
Proof. destruct p; cbn; lia. Qed.

(** A packet is appended to its queue, or takes the place of the queued packet
    with its conflation key. *)
Definition place_spec (s : LinkQueues) (p : ForwardPacket) (incoming : option LinkId)
    (r : Placement) : Prop :=
  let i := priority_index (priority (header p)) in
  let new := {| q_incoming := incoming; q_packet := p |} in
  ∃ q limit, queues s !! i = Some q ∧ QUEUE_LIMIT_PACKETS !! i = Some limit ∧
  match r with
  | Placed s' =>
      available_credit_bytes s' = available_credit_bytes s ∧ writable s' = writable s ∧
      ((queues s' = <[i := q ++ [new]]> (queues s) ∧ zlen q < limit ∧
        ∀ key, ConflationKey_from_packet p = Some key → key ∉ queue_keys q) ∨
       (∃ k old key, q !! k = Some old ∧ ConflationKey_from_packet p = Some key ∧
          ConflationKey_from_packet (q_packet old) = Some key ∧
          queues s' = <[i := <[k := new]> q]> (queues s)))
  | Refused =>
      zlen q = limit ∧ ∀ key, ConflationKey_from_packet p = Some key → key ∉ queue_keys q
  end.

Lemma queue_keys_app q x :
  queue_keys (q ++ [x]) =
  queue_keys q ++ match ConflationKey_from_packet (q_packet x) with Some k => [k] | None => [] end.
Proof. unfold queue_keys. rewrite omap_app. cbn. by destruct (ConflationKey_from_packet _). Qed.
Lemma queue_keys_insert q k old new :
  q !! k = Some old →
  ConflationKey_from_packet (q_packet new) = ConflationKey_from_packet (q_packet old) →
  queue_keys (<[k := new]> q) = queue_keys q.
Proof.
  revert k. induction q as [|z q IH]; intros [|k] Hk E; simplify_eq/=; [by rewrite E|].
  unfold queue_keys in *. cbn. by rewrite (IH k Hk E).
Qed.

Lemma queue_ok_snoc i q x limit :
  queue_ok i q → QUEUE_LIMIT_PACKETS !! i = Some limit → zlen q < limit →
  priority_index (priority (header (q_packet x))) = i → packet_fits (q_packet x) →
  (∀ key, ConflationKey_from_packet (q_packet x) = Some key → key ∉ queue_keys q) →
  queue_ok i (q ++ [x]).
Proof.
  intros [_ Hp Hf Hk] Hl Hlt Hi Hx Hkey. constructor.
  - exists limit. rewrite zlen_app, zlen_cons, zlen_nil. split; [done|lia].
  - apply Forall_app. split; [done|]. by constructor.
  - apply Forall_app. split; [done|]. by constructor.
  - rewrite queue_keys_app. apply NoDup_app. split; [done|].
    destruct (ConflationKey_from_packet (q_packet x)) as [key|]; [|split; [set_solver|constructor]].
    specialize (Hkey key eq_refl). split; [|apply NoDup_singleton].
    intros key' Hin ->%list_elem_of_singleton. done.
Qed.
Lemma queue_ok_replace i q k old new :
  queue_ok i q → q !! k = Some old →
  priority_index (priority (header (q_packet new))) = i → packet_fits (q_packet new) →
  ConflationKey_from_packet (q_packet new) = ConflationKey_from_packet (q_packet old) →
  queue_ok i (<[k := new]> q).
Proof.
  intros [(n & Hn & Hlen) Hp Hf Hk] Hold Hi Hfit Hkey. constructor.
  - exists n. unfold zlen. rewrite length_insert. done.
  - by apply Forall_insert.
  - by apply Forall_insert.
  - by rewrite (queue_keys_insert _ _ _ _ Hold Hkey).
Qed.

Lemma lq_ok_set_queue s i q' b :
  lq_ok s → (i < 4)%nat → queue_ok i q' → b = <[i := queue_bytes q']> (queued_bytes s) →
  lq_ok (set_queued_bytes (set_queues s (<[i := q']> (queues s))) b).
Proof.
  intros [Hsh Hqs Hb Hc Hd] Hi Hq' ->. constructor; cbn.
  - by rewrite length_insert.
  - intros j q. intros [[<- ->]|[_ ?]]%lookup_insert_queue; auto.
  - by rewrite Hb, list_fmap_insert.
  - done.
  - by destruct Hd.
Qed.

Lemma find_key_None key q :
  find_first (λ x, bool_decide (ConflationKey_from_packet (q_packet x) = Some key)) q = None →
  key ∉ queue_keys q.
Proof.
  intros HF%find_first_None (x & Hx & Hk)%list_elem_of_omap.
  rewrite Forall_forall in HF. specialize (HF x Hx). cbn in HF.
  apply bool_decide_eq_false in HF. done.
Qed.

Lemma place_total s p incoming :
  lq_ok s → packet_fits p →
  ∃ r, place s p incoming = Some r ∧ place_spec s p incoming r ∧
    match r with Placed s' => lq_ok s' | Refused => True end.
Proof.
  intros Hok Hfit. pose proof Hok as [Hsh Hqs Hb Hc Hdrr].
  set (i := priority_index (priority (header p))).
  assert (Hi : (i < 4)%nat) by apply priority_index_lt.
  destruct (lookup_lt_is_Some_2 (queues s) i) as [q Hq]; [lia|].
  pose proof (Hqs i q Hq) as Hqok. pose proof Hqok as [(limit & Hlim & Hlen) _ _ _].
  assert (Hbi : queued_bytes s !! i = Some (queue_bytes q)) by by rewrite Hb, list_lookup_fmap, Hq.
  pose proof (queue_bytes_bound i q Hqok). pose proof (queue_bytes_nonneg q).
  pose proof (encoded_len_range p).
  unfold place. fold i. rewrite Hq. cbn [mbind option_bind].
  destruct (ConflationKey_from_packet p ≫= _) as [[k old]|] eqn:Efind.
  - destruct (ConflationKey_from_packet p) as [key|] eqn:Ek; [|done]. cbn in Efind.
    apply find_first_Some in Efind as (Hold & Hd%bool_decide_eq_true & _).
    rewrite (array_update_Some _ _ _ _ Hbi). cbn [mbind option_bind].
    eexists. split; [reflexivity|]. split.
    + exists q, limit. split; [done|]. split; [done|]. split; [done|]. split; [done|]. right.
      exists k, old, key. by rewrite Ek.
    + apply lq_ok_set_queue; [done|done| |].
      * apply (queue_ok_replace i q k old); [done..|]. cbn. by rewrite Ek, Hd.
      * f_equal. rewrite (queue_bytes_insert _ _ _ _ Hold).
        pose proof (list_elem_of_lookup_2 _ _ _ Hold) as Hin.
        pose proof (queued_len_le q old Hin). pose proof (encoded_len_range (q_packet old)).
        unfold sat_add, sat_sub, u_max, packet_fits, queued_len in *. cbn [q_packet]. lia.
  - assert (Hkey : ∀ key, ConflationKey_from_packet p = Some key → key ∉ queue_keys q).
    { intros key Ek. rewrite Ek in Efind. by apply find_key_None. }
    rewrite Hlim. cbn [mbind option_bind]. destruct (Z.leb_spec limit (zlen q)).
    + eexists. split; [reflexivity|]. split; [|done]. exists q, limit. by split_and!; try lia.
    + rewrite (array_update_Some _ _ _ _ Hbi). cbn [mbind option_bind].
      eexists. split; [reflexivity|]. split.
      * exists q, limit. split; [done|]. split; [done|]. split; [done|]. split; [done|]. by left.
      * apply lq_ok_set_queue; [done|done| |].
        -- by eapply queue_ok_snoc.
        -- f_equal. rewrite queue_bytes_app.
           unfold sat_add, u_max, packet_fits, queued_len in *. cbn [q_packet]. lia.
Qed.
