(* ===== verification/ForwardInv.v ===== *)
(** * The forwarder, step by step

    The invariant of [Forwarder], and the accounting every operation obeys:
    each (destination, packet) pair that enters is delivered, sent, dropped,
    pushed back, still queued, still pending, or conflated; sends consume
    credit and write permission. *)

From S2P Require Export Prelude Ord Bytes Types Wire WirePackets ControlTypes Forward ForwardSched.

(** ** Occurrences *)

Section Occ.
Context {A : Type} `{EqDecision A}.

Definition occ (u : A) (l : list A) : Z := zsum ((λ x, if decide (x = u) then 1 else 0) <$> l).

Lemma occ_nil u : occ u [] = 0.
Proof. done. Qed.
Lemma occ_app u l k : occ u (l ++ k) = occ u l + occ u k.
Proof. unfold occ. by rewrite fmap_app, zsum_app. Qed.
Lemma occ_perm u l k : l ≡ₚ k → occ u l = occ u k.
Proof. intros E. apply zsum_perm. by rewrite E. Qed.
Lemma occ_nonneg u l : 0 ≤ occ u l.
Proof. apply zsum_nonneg, Forall_fmap, Forall_true. intros x. cbn. case_decide; lia. Qed.
Lemma occ_bind {B} u (f : B → list A) l : occ u (l ≫= f) = zsum ((λ x, occ u (f x)) <$> l).
Proof.
  induction l as [|x l IH]; [done|].
  change ((x :: l) ≫= f) with (f x ++ (l ≫= f)). by rewrite occ_app, IH.
Qed.

Lemma occ_cons u x l : occ u (x :: l) = (if decide (x = u) then 1 else 0) + occ u l.
Proof. done. Qed.

(** Equal counts everywhere are a permutation. *)
Lemma occ_zero_nil l : (∀ u, occ u l = 0) → l = [].
Proof.
  destruct l as [|x l]; [done|]. intros Hl. specialize (Hl x).
  rewrite occ_cons, decide_True in Hl by done. pose proof (occ_nonneg x l). lia.
Qed.
Lemma occ_elem u l : 0 < occ u l → u ∈ l.
Proof.
  induction l as [|x l IH]; [done|]. rewrite occ_cons. case_decide as E.
  - intros _. subst x. by apply list_elem_of_here.
  - intros H. right. by apply IH.
Qed.
Lemma perm_of_occ l k : (∀ u, occ u l = occ u k) → l ≡ₚ k.
Proof.
  revert k. induction l as [|x l IH]; intros k Hk.
  - symmetry. by rewrite (occ_zero_nil k) by (intros u; by rewrite <-Hk).
  - assert (x ∈ k) as (k1 & k2 & ->)%list_elem_of_split.
    { apply occ_elem. rewrite <-Hk, occ_cons, decide_True by done.
      pose proof (occ_nonneg x l). lia. }
    rewrite <-Permutation_middle. apply Permutation_skip, IH. intros u. specialize (Hk u).
    rewrite (occ_perm u (k1 ++ x :: k2) (x :: k1 ++ k2)) in Hk by by rewrite <-Permutation_middle.
    rewrite !occ_cons in Hk. lia.
Qed.
End Occ.
#[global] Arguments occ : simpl never.

(** ** Units: one per destination of a packet *)

(** What identifies a packet apart from its destinations and its TTL. *)
Record Tag := {
  tag_priority : Priority; tag_flags : Z; tag_source : NodeId; tag_flow : Z; tag_key : Z;
  tag_payload : bytes;
}.
#[global] Instance Tag_eq_dec : EqDecision Tag.
Proof. solve_decision. Defined.
Definition tag (p : ForwardPacket) : Tag :=
  {| tag_priority := priority (header p); tag_flags := flags (header p);
     tag_source := source (header p); tag_flow := flow_id (header p);
     tag_key := conflate_key (header p); tag_payload := payload p |}.
Abbreviation unit_of := (NodeId * Tag)%type (only parsing).

Definition units (p : ForwardPacket) : list unit_of :=
  if decide (packet_type (header p) = Multicast)
  then (λ d, (d, tag p)) <$> multicast_destinations p
  else [(destination (header p), tag p)].
Definition q_units (l : list QueuedPacket) : list unit_of := l ≫= λ q, units (q_packet q).
Definition action_units (a : ForwardAction) : list unit_of :=
  match a with
  | FaSend _ p | FaDrop _ p | FaBackpressure _ p => units p
  | FaDeliverLocal p => [(destination (header p), tag p)]
  | FaSetTimer _ _ => []
  end.
Definition acts_units (l : list ForwardAction) : list unit_of := l ≫= action_units.

Definition link_units (s : LinkQueues) : list unit_of := q_units (mjoin (queues s)).
Definition batch_units (b : PendingP0Batch) : list unit_of := q_units (batch_packets b).
(** Everything the forwarder holds. *)
Definition fw_units (fw : Forwarder) : list unit_of :=
  (btree_values (links fw) ≫= link_units) ++ (btree_values (pending_p0 fw) ≫= batch_units).

Lemma q_units_app l k : q_units (l ++ k) = q_units l ++ q_units k.
Proof. apply bind_app. Qed.
Lemma acts_units_app l k : acts_units (l ++ k) = acts_units l ++ acts_units k.
Proof. apply bind_app. Qed.
Lemma q_units_cons q l : q_units (q :: l) = units (q_packet q) ++ q_units l.
Proof. done. Qed.
Lemma q_units_one q : q_units [q] = units (q_packet q).
Proof. unfold q_units. cbn. apply app_nil_r. Qed.
Lemma acts_units_one a : acts_units [a] = action_units a.
Proof. unfold acts_units. cbn. apply app_nil_r. Qed.
Lemma acts_units_nil : acts_units [] = [].
Proof. done. Qed.
Lemma bind_units_one p : ([p] ≫= units) = units p.
Proof. cbn. apply app_nil_r. Qed.
Lemma units_set_ttl p n : units (set_ttl p n) = units p.
Proof. done. Qed.

(** *** Weight of a map *)

Lemma map_weight_insert `{Countable K, !TotalOrd K} {V} (f : V → Z) (m : gmap K V) k v :
  zsum (f <$> btree_values (<[k := v]> m)) =
  zsum (f <$> btree_values m) - default 0 (f <$> m !! k) + f v.
Proof.
  destruct (m !! k) as [w|] eqn:E; cbn [fmap option_fmap option_map default from_option id].
  - rewrite <-(insert_delete_eq m k v).
    rewrite (zsum_perm _ _ (fmap_Permutation f _ _
      (btree_values_insert (delete k m) k v (lookup_delete_eq m k)))).
    rewrite (zsum_perm _ _ (fmap_Permutation f _ _ (btree_values_delete m k w E))).
    rewrite !fmap_cons, !zsum_cons. lia.
  - rewrite (zsum_perm _ _ (fmap_Permutation f _ _ (btree_values_insert m k v E))).
    rewrite fmap_cons, zsum_cons. lia.
Qed.
Lemma map_weight_delete `{Countable K, !TotalOrd K} {V} (f : V → Z) (m : gmap K V) k :
  zsum (f <$> btree_values (delete k m)) =
  zsum (f <$> btree_values m) - default 0 (f <$> m !! k).
Proof.
  destruct (m !! k) as [w|] eqn:E; cbn [fmap option_fmap option_map default from_option id].
  - rewrite (zsum_perm _ _ (fmap_Permutation f _ _ (btree_values_delete m k w E))).
    rewrite !fmap_cons, !zsum_cons. lia.
  - rewrite delete_id by done. lia.
Qed.

Lemma occ_fw_units u fw :
  occ u (fw_units fw) =
  zsum ((λ s, occ u (link_units s)) <$> btree_values (links fw)) +
  zsum ((λ b, occ u (batch_units b)) <$> btree_values (pending_p0 fw)).
Proof. unfold fw_units. by rewrite occ_app, !occ_bind. Qed.

Lemma link_units_default : link_units LinkQueues_default = [].
Proof. done. Qed.
Lemma occ_set_link u fw l s :
  occ u (fw_units (set_links fw (<[l := s]> (links fw)))) =
  occ u (fw_units fw) - occ u (link_units (link_state fw l)) + occ u (link_units s).
Proof.
  rewrite !occ_fw_units. cbn [links set_links pending_p0]. rewrite map_weight_insert. unfold link_state.
  destruct (links fw !! l); cbn [fmap option_fmap option_map default from_option id];
    [|rewrite link_units_default, occ_nil]; lia.
Qed.
Lemma occ_set_pending u fw g b n :
  occ u (fw_units (set_pending_p0 fw (<[g := b]> (pending_p0 fw)) n)) =
  occ u (fw_units fw) - default 0 ((λ b, occ u (batch_units b)) <$> pending_p0 fw !! g)
  + occ u (batch_units b).
Proof. rewrite !occ_fw_units. cbn [links set_pending_p0 pending_p0]. rewrite map_weight_insert. lia. Qed.

(** *** Units of a link *)

Lemma mjoin_insert_perm {A} (l : list (list A)) i x y :
  l !! i = Some x → mjoin (<[i := y]> l) ++ x ≡ₚ mjoin l ++ y.
Proof.
  revert i. induction l as [|z l IH]; intros [|i] Hi; simplify_eq/=.
  - rewrite (Permutation_app_comm (y ++ mjoin l) x), (Permutation_app_comm y). by rewrite app_assoc.
  - rewrite <-!app_assoc. by rewrite (IH i Hi).
Qed.
Lemma occ_link_insert u s i x y s' :
  queues s !! i = Some x → queues s' = <[i := y]> (queues s) →
  occ u (link_units s') = occ u (link_units s) - occ u (q_units x) + occ u (q_units y).
Proof.
  intros Hi Hq. unfold link_units. rewrite Hq.
  assert (E : q_units (mjoin (<[i := y]> (queues s))) ++ q_units x ≡ₚ
              q_units (mjoin (queues s)) ++ q_units y).
  { rewrite <-!q_units_app. unfold q_units. by rewrite (mjoin_insert_perm _ _ _ y Hi). }
  apply (occ_perm u) in E. rewrite !occ_app in E. lia.
Qed.

(** ** The invariant of the forwarder *)

Definition waiting_ok (q : QueuedPacket) : Prop :=
  priority (header (q_packet q)) = P0 ∧ packet_fits (q_packet q).
Definition batch_ok (g : Z) (b : PendingP0Batch) : Prop :=
  is_uint 64 g ∧ batch_packets b ≠ [] ∧ Forall waiting_ok (batch_packets b).

Record fw_ok (fw : Forwarder) : Prop := {
  fo_links : map_Forall (λ _, lq_ok) (links fw);
  fo_up l : is_Some (links fw !! l) → l ∉ down_links fw;
  fo_pending : map_Forall batch_ok (pending_p0 fw);
  fo_next : is_uint 64 (next_pending fw);
}.

(** Credit and write permission of a link; none before it is first used. *)
Definition credit (fw : Forwarder) (l : LinkId) : Z := available_credit_bytes (link_state fw l).
Definition permits (fw : Forwarder) (l : LinkId) : Z :=
  if writable (link_state fw l) then 1 else 0.
(** Bytes and packets the actions put on a link. *)
Definition sent_bytes (l : LinkId) (acts : list ForwardAction) : Z :=
  zsum ((λ a, match a with
              | FaSend l' p => if decide (l' = l) then ForwardPacket_encoded_len p else 0
              | _ => 0
              end) <$> acts).
Definition sent_count (l : LinkId) (acts : list ForwardAction) : Z :=
  zsum ((λ a, match a with FaSend l' _ => if decide (l' = l) then 1 else 0 | _ => 0 end) <$> acts).

Lemma sent_bytes_app l a b : sent_bytes l (a ++ b) = sent_bytes l a + sent_bytes l b.
Proof. unfold sent_bytes. by rewrite fmap_app, zsum_app. Qed.
Lemma sent_count_app l a b : sent_count l (a ++ b) = sent_count l a + sent_count l b.
Proof. unfold sent_count. by rewrite fmap_app, zsum_app. Qed.

(** Only links that are up are written to, and P0 is dropped only for one of
    the reasons that concern the packet itself or the loss of all its routes. *)
Definition action_ok (fw : Forwarder) (a : ForwardAction) : Prop :=
  match a with
  | FaSend l p => l ∉ down_links fw
  | FaDrop (QueueFull pr) p => pr = priority (header p) ∧ pr ≠ P0
  | FaBackpressure _ p => priority (header p) = P0
  | FaDeliverLocal p => destination (header p) = fw_me fw
  | _ => True
  end.

(** Packets that a newer packet with the same conflation key replaces. *)
Definition conflatable (p : ForwardPacket) : Prop := is_Some (ConflationKey_from_packet p).

(** What an operation does: [input] are the units it takes in, [out] the units
    it hands back to its caller. *)
Record effect (fw : Forwarder) (input : list unit_of) (fw' : Forwarder)
    (acts : list ForwardAction) (out : list unit_of) : Prop := {
  eff_ok : fw_ok fw';
  eff_env : fw_me fw' = fw_me fw ∧ fw_routes fw' = fw_routes fw ∧
            down_links fw' = down_links fw ∧ pending_p0 fw' = pending_p0 fw ∧
            next_pending fw' = next_pending fw;
  eff_units : ∃ lost, Forall conflatable lost ∧ ∀ u,
    occ u (fw_units fw) + occ u input =
    occ u (fw_units fw') + occ u (acts_units acts) + occ u out + occ u (lost ≫= units);
  eff_credit l : credit fw' l + sent_bytes l acts = credit fw l;
  eff_permits l : permits fw' l + sent_count l acts = permits fw l;
  eff_actions : Forall (action_ok fw) acts;
}.

Lemma action_ok_down fw fw' :
  fw_me fw' = fw_me fw → down_links fw' = down_links fw → action_ok fw' = action_ok fw.
Proof. intros Em E. unfold action_ok. by rewrite E, Em. Qed.

Lemma effect_refl fw u : fw_ok fw → effect fw u fw [] u.
Proof.
  intros Hok. constructor; try done.
  - exists []. split; [done|]. intros v. cbn. rewrite !occ_nil. lia.
  - intros l. unfold sent_bytes. cbn. lia.
  - intros l. unfold sent_count. cbn. lia.
Qed.
Lemma effect_trans fw i1 fw1 a1 o1 i2 fw2 a2 o2 :
  effect fw i1 fw1 a1 o1 → effect fw1 i2 fw2 a2 o2 →
  effect fw (i1 ++ i2) fw2 (a1 ++ a2) (o1 ++ o2).
Proof.
  intros [Hok1 (? & ? & Hd1 & ? & ?) (l1 & Hl1 & Hu1) Hc1 Hp1 Ha1]
         [Hok2 (? & ? & Hd2 & ? & ?) (l2 & Hl2 & Hu2) Hc2 Hp2 Ha2].
  constructor.
  - done.
  - split_and!; congruence.
  - exists (l1 ++ l2). split; [by apply Forall_app|]. intros u.
    specialize (Hu1 u). specialize (Hu2 u).
    rewrite acts_units_app, bind_app, !occ_app. lia.
  - intros l. specialize (Hc1 l). specialize (Hc2 l). rewrite sent_bytes_app. lia.
  - intros l. specialize (Hp1 l). specialize (Hp2 l). rewrite sent_count_app. lia.
  - apply Forall_app. split; [done|]. by rewrite (action_ok_down fw fw1) in Ha2.
Qed.

(** Inputs are multisets. *)
Lemma effect_perm fw i i' fw' acts o o' :
  effect fw i fw' acts o → (∀ u, occ u i + occ u o' = occ u i' + occ u o) →
  effect fw i' fw' acts o'.
Proof.
  intros [? ? (l & Hl & Hu) ? ? ?] Hio. constructor; try done.
  exists l. split; [done|]. intros u. specialize (Hu u). specialize (Hio u). lia.
Qed.

(** An action that touches neither queues nor links. *)
Definition inert (fw : Forwarder) (a : ForwardAction) : Prop :=
  match a with
  | FaDeliverLocal p => destination (header p) = fw_me fw
  | FaSetTimer _ _ => True
  | FaDrop r _ => ∀ p, r ≠ QueueFull p
  | _ => False
  end.
Lemma effect_inert fw a : fw_ok fw → inert fw a → effect fw (action_units a) fw [a] [].
Proof.
  intros Hok Ha. constructor; try done.
  - exists []. split; [done|]. intros v. cbn [mbind list_bind].
    rewrite acts_units_one, !occ_nil. lia.
  - intros l. unfold sent_bytes. destruct a; cbn in *; try done; lia.
  - intros l. unfold sent_count. destruct a; cbn in *; try done; lia.
  - constructor; [|done]. destruct a as [| |[]| |]; cbn in *; try done. naive_solver.
Qed.

(** ** Links *)

Lemma link_state_ok fw l : fw_ok fw → lq_ok (link_state fw l).
Proof.
  intros Hok. unfold link_state. destruct (links fw !! l) as [s|] eqn:E; cbn.
  - by apply (fo_links _ Hok l).
  - apply LinkQueues_default_ok.
Qed.
Definition put_link (fw : Forwarder) (l : LinkId) (s : LinkQueues) : Forwarder :=
  set_links fw (<[l := s]> (links fw)).
Lemma fw_ok_put_link fw l s : fw_ok fw → lq_ok s → l ∉ down_links fw → fw_ok (put_link fw l s).
Proof.
  intros [Hl Hu Hp Hn] Hs Hd. constructor; try done; cbn.
  - by apply map_Forall_insert_2.
  - intros l' [s' Hs']. destruct (decide (l = l')) as [<-|Hne]; [done|].
    rewrite lookup_insert_ne in Hs' by done. apply Hu. by eexists.
Qed.
Lemma link_state_put fw l s l' :
  link_state (put_link fw l s) l' = if decide (l = l') then s else link_state fw l'.
Proof.
  unfold link_state, put_link. cbn. case_decide as E.
  - subst. by rewrite lookup_insert_eq.
  - by rewrite lookup_insert_ne.
Qed.
Lemma credit_put fw l s l' :
  credit (put_link fw l s) l' = if decide (l = l') then available_credit_bytes s else credit fw l'.
Proof. unfold credit. rewrite link_state_put. by case_decide. Qed.
Lemma permits_put fw l s l' :
  permits (put_link fw l s) l' =
  if decide (l = l') then (if writable s then 1 else 0) else permits fw l'.
Proof. unfold permits. rewrite link_state_put. by case_decide. Qed.
Lemma occ_put_link u fw l s :
  occ u (fw_units (put_link fw l s)) =
  occ u (fw_units fw) - occ u (link_units (link_state fw l)) + occ u (link_units s).
Proof. apply occ_set_link. Qed.

(** A change of one link that is accounted for locally. *)
Lemma effect_link fw l s input acts :
  fw_ok fw → lq_ok s → l ∉ down_links fw →
  (∃ lost, Forall conflatable lost ∧ ∀ u, occ u (link_units (link_state fw l)) + occ u input =
     occ u (link_units s) + occ u (acts_units acts) + occ u (lost ≫= units)) →
  (∀ l', sent_bytes l' acts =
     if decide (l = l') then credit fw l - available_credit_bytes s else 0) →
  (∀ l', sent_count l' acts =
     if decide (l = l') then permits fw l - (if writable s then 1 else 0) else 0) →
  Forall (action_ok fw) acts →
  effect fw input (put_link fw l s) acts [].
Proof.
  intros Hok Hs Hd (lost & Hlost & Hu) Hb Hc Ha. constructor; try done.
  - by apply fw_ok_put_link.
  - exists lost. split; [done|]. intros u. specialize (Hu u). rewrite occ_put_link, occ_nil. lia.
  - intros l'. rewrite credit_put, Hb. case_decide; subst; lia.
  - intros l'. rewrite permits_put, Hc. case_decide; subst; lia.
Qed.

Lemma sent_nil l : sent_bytes l [] = 0 ∧ sent_count l [] = 0.
Proof. done. Qed.
Lemma sent_one l l' p :
  sent_bytes l' [FaSend l p] = (if decide (l = l') then ForwardPacket_encoded_len p else 0) ∧
  sent_count l' [FaSend l p] = (if decide (l = l') then 1 else 0).
Proof. unfold sent_bytes, sent_count. cbn. case_decide; lia. Qed.

Definition send_action (l : LinkId) (r : option ForwardPacket) : list ForwardAction :=
  match r with Some p => [FaSend l p] | None => [] end.

(** Sending, relative to a state that is about to be stored. *)
Lemma try_send_effect fw l s :
  fw_ok fw → lq_ok s → l ∉ down_links fw →
  ∃ s' r, try_send s = Some (s', r) ∧ lq_ok s' ∧ send_spec s s' r ∧
    effect (put_link fw l s) [] (put_link fw l s') (send_action l r) [].
Proof.
  intros Hok Hs Hd. destruct (try_send_spec s Hs) as (s' & r & Hr & Hs' & Hspec).
  exists s', r. split; [done|]. split; [done|]. split; [done|].
  assert (Hput : put_link fw l s' = put_link (put_link fw l s) l s').
  { unfold put_link, set_links. cbn. by rewrite insert_insert_eq. }
  rewrite Hput. apply effect_link; [by apply fw_ok_put_link|done|done|..].
  - exists []. split; [done|]. intros u. rewrite link_state_put, decide_True by done.
    cbn [mbind list_bind]. rewrite !occ_nil.
    destruct r as [p|]; cbn [send_spec send_action] in Hspec |- *.
    + destruct Hspec as (_ & i & x & -> & [(rest & Hf & Hq) _ _ _ _ _] & _).
      rewrite (occ_link_insert u s i (x :: rest) rest s' Hf Hq).
      rewrite q_units_cons, acts_units_one, occ_app. cbn [action_units]. lia.
    + destruct Hspec as [[Hq _ _ _ _] _]. unfold link_units. rewrite Hq, acts_units_nil, occ_nil. lia.
  - intros l'. rewrite credit_put, (decide_True (P:=l = l)) by done. destruct r as [p|]; cbn [send_spec send_action] in Hspec |- *.
    + destruct Hspec as (_ & i & x & -> & [_ _ _ Hc _ _] & _).
      rewrite (proj1 (sent_one l l' _)), Hc. unfold queued_len. case_decide; lia.
    + destruct Hspec as [[_ _ Hc _ _] _]. rewrite (proj1 (sent_nil l')), Hc. case_decide; lia.
  - intros l'. rewrite permits_put, (decide_True (P:=l = l)) by done. destruct r as [p|]; cbn [send_spec send_action] in Hspec |- *.
    + destruct Hspec as (Hw & i & x & -> & [_ _ _ _ Hw' _] & _).
      rewrite (proj2 (sent_one l l' _)), Hw, Hw'. case_decide; lia.
    + destruct Hspec as [[_ _ _ Hw _] _]. rewrite (proj2 (sent_nil l')), Hw.
      destruct (writable s); case_decide; lia.
  - destruct r; [|done]. by constructor.
Qed.

Lemma try_send_one_put fw l s :
  try_send_one (put_link fw l s) l =
  ('(s', r) ← try_send s; Some (put_link fw l s', send_action l r)).
Proof.
  unfold try_send_one, put_link. cbn. rewrite lookup_insert_eq.
  destruct (try_send s) as [[s' r]|]; [|done]. cbn. unfold set_links. cbn.
  by rewrite insert_insert_eq.
Qed.

(** Placing a packet changes only its queue. *)
Lemma placed_effect fw l p incoming s' :
  fw_ok fw → l ∉ down_links fw → lq_ok s' →
  place_spec (link_state fw l) p incoming (Placed s') →
  effect fw (units p) (put_link fw l s') [] [].
Proof.
  intros Hok Hd Hs' (q & limit & Hq & _ & Hc & Hw & Hcase). apply effect_link; try done.
  - destruct Hcase as [(Hq' & _)|(k & old & key & Hold & Hk & Hk' & Hq')].
    + exists []. split; [done|]. intros u. rewrite (occ_link_insert u _ _ _ _ _ Hq Hq').
      rewrite q_units_app, q_units_one, acts_units_nil, occ_app. cbn [mbind list_bind q_packet].
      rewrite !occ_nil. lia.
    + exists [q_packet old]. split; [repeat constructor; red; eauto|]. intros u.
      rewrite (occ_link_insert u _ _ _ _ _ Hq Hq').
      assert (E : occ u (q_units (<[k := {| q_incoming := incoming; q_packet := p |}]> q)) =
        occ u (q_units q) - occ u (units (q_packet old)) + occ u (units p)).
      { unfold q_units. rewrite !occ_bind. clear Hq Hq'. revert k Hold.
        induction q as [|z q IH]; intros [|k] Hold; simplify_eq/=; [lia|].
        specialize (IH k Hold). lia. }
      rewrite E, acts_units_nil, bind_units_one, occ_nil. lia.
  - intros l'. unfold credit. rewrite Hc. rewrite (proj1 (sent_nil l')). case_decide; lia.
  - intros l'. unfold permits. rewrite Hw. rewrite (proj2 (sent_nil l')). case_decide; lia.
Qed.

Lemma enqueue_effect fw l p incoming :
  fw_ok fw → packet_fits p →
  ∃ fw' acts, enqueue fw l p incoming = Some (fw', acts) ∧ effect fw (units p) fw' acts [].
Proof.
  intros Hok Hfit. unfold enqueue. case_decide as Hd.
  { exists fw, [FaDrop DrLinkDown p]. split; [done|]. by apply (effect_inert fw (FaDrop DrLinkDown p)). }
  pose proof (link_state_ok fw l Hok) as Hs.
  destruct (place_total (link_state fw l) p incoming Hs Hfit) as ([s'|] & -> & Hspec & Hs').
  - cbn [mbind option_bind]. fold (put_link fw l s'). rewrite try_send_one_put.
    destruct (try_send_effect fw l s' Hok Hs' Hd) as (s2 & r & -> & _ & _ & Heff).
    cbn [mbind option_bind]. do 2 eexists. split; [reflexivity|].
    pose proof (effect_trans _ _ _ _ _ _ _ _ _ (placed_effect fw l p incoming s' Hok Hd Hs' Hspec) Heff) as E.
    by rewrite app_nil_r in E.
  - cbn [mbind option_bind]. fold (put_link fw l (link_state fw l)).
    do 2 eexists. split; [reflexivity|]. apply effect_link; try done.
    + exists []. split; [done|]. intros u. cbn [mbind list_bind]. rewrite occ_nil.
      case_decide; rewrite acts_units_one; cbn [action_units]; lia.
    + intros l'. unfold credit, sent_bytes. case_decide; cbn; case_decide; lia.
    + intros l'. unfold permits, sent_count. case_decide; cbn; case_decide; lia.
    + case_decide; by constructor.
Qed.
