(* ===== verification/ForwardRoute.v ===== *)
(** * Multicast branching and rerouting

    How the destinations of a packet are split over the links, and the effect
    of every operation that routes packets. *)

From S2P Require Export Prelude Ord Bytes Types Wire WirePackets ControlTypes Forward ForwardSched ForwardInv.

(** ** Splitting destinations *)

Definition local_part (me : NodeId) (s : Split) : list NodeId :=
  if deliver_local s then [me] else [].
Definition branch_part (s : Split) : list NodeId := mjoin (btree_values (by_link s)).

Lemma occ_mjoin {A} `{EqDecision A} (u : A) (ls : list (list A)) :
  occ u (mjoin ls) = zsum (occ u <$> ls).
Proof.
  induction ls as [|l ls IH]; [done|].
  change (mjoin (l :: ls)) with (l ++ mjoin ls). by rewrite occ_app, IH.
Qed.
Lemma occ_push_by_link u m link d :
  occ u (mjoin (btree_values (push_by_link m link d))) =
  occ u (mjoin (btree_values m)) + occ u [d].
Proof.
  unfold push_by_link. rewrite !occ_mjoin, map_weight_insert, occ_app.
  destruct (m !! link); cbn [fmap option_fmap option_map default from_option id];
    rewrite ?occ_nil; lia.
Qed.

Lemma filter_snoc {A} (P : A → Prop) `{!∀ x, Decision (P x)} l x :
  filter P (l ++ [x]) = filter P l ++ if decide (P x) then [x] else [].
Proof. by rewrite filter_app, filter_cons. Qed.

Section Split.
Context (me : NodeId) (verdict : NodeId → Verdict).
Context (Hlocal : ∀ d, verdict d = Local ↔ d = me).

Abbreviation split ds := (split_destinations verdict ds).

Lemma split_snoc ds d : split (ds ++ [d]) = record_verdict (split ds) d (verdict d).
Proof. unfold split_destinations. by rewrite foldl_snoc. Qed.

Lemma split_local ds : deliver_local (split ds) = bool_decide (me ∈ ds).
Proof.
  induction ds as [|d ds IH] using rev_ind.
  { symmetry. apply bool_decide_eq_false. by intros ?%not_elem_of_nil. }
  rewrite split_snoc. destruct (decide (d = me)) as [->|Hd].
  - rewrite (proj2 (Hlocal me) eq_refl). cbn. symmetry. apply bool_decide_eq_true. set_solver.
  - assert (E : deliver_local (record_verdict (split ds) d (verdict d)) = deliver_local (split ds)).
    { destruct (verdict d) eqn:E; [|done..]. by apply Hlocal in E. }
    rewrite E, IH. apply bool_decide_ext. set_solver.
Qed.

(** The parts of the split, as filters of the destinations. *)
Lemma split_filters ds :
  no_route (split ds) = filter (λ d, verdict d = Unrouted) ds ∧
  looped (split ds) = filter (λ d, verdict d = Looped) ds ∧
  ∀ l, by_link (split ds) !! l =
    match filter (λ d, verdict d = Via l) ds with [] => None | k => Some k end.
Proof.
  induction ds as [|d ds (IH1 & IH2 & IH3)] using rev_ind; [done|].
  rewrite split_snoc, !filter_snoc. setoid_rewrite filter_snoc.
  destruct (verdict d) eqn:E; cbn; rewrite ?IH1, ?IH2, ?app_nil_r; split_and!; try done.
  1-3: by intros l; rewrite IH3, app_nil_r.
  intros l. unfold push_by_link. rewrite lookup_insert. case_decide as El.
  - subst l. rewrite decide_True by done. rewrite IH3.
    by destruct (filter (λ d0, verdict d0 = Via link) ds).
  - rewrite decide_False by congruence. by rewrite IH3, app_nil_r.
Qed.

Lemma split_occ ds u :
  NoDup ds →
  occ u ds = occ u (local_part me (split ds)) + occ u (no_route (split ds)) +
             occ u (looped (split ds)) + occ u (branch_part (split ds)).
Proof.
  induction ds as [|d ds IH] using rev_ind; [done|].
  intros (Hnd & Hd & _)%NoDup_app. specialize (IH Hnd).
  pose proof (split_local ds) as Hl. rewrite split_snoc, occ_app, IH.
  unfold local_part, branch_part in *.
  destruct (verdict d) eqn:E; cbn [record_verdict deliver_local no_route looped by_link];
    rewrite ?occ_app, ?occ_push_by_link; try lia.
  apply Hlocal in E as ->. rewrite bool_decide_eq_false_2 in Hl by set_solver.
  rewrite Hl, occ_nil. lia.
Qed.

Lemma branch_elem ds l ds' :
  by_link (split ds) !! l = Some ds' → ds' ≠ [] ∧ ds' = filter (λ d, verdict d = Via l) ds.
Proof.
  destruct (split_filters ds) as (_ & _ & ->). by destruct (filter _ ds); intros [= <-].
Qed.
End Split.

(** ** Subsets of a validated packet *)

Lemma multicast_ok_sub ds ds' b :
  multicast_ok ds b → ds' ≠ [] → sublist ds' ds → multicast_ok ds' b.
Proof.
  intros (_ & Hl & Hnd & Hsz) Hne Hsub. apply sublist_length in Hsub as Hlen.
  unfold multicast_ok, zlen in *. split_and!; [done|lia|by eapply sublist_NoDup|lia].
Qed.
Lemma sublist_filter {A} (P : A → Prop) `{!∀ x, Decision (P x)} l : sublist (filter P l) l.
Proof. induction l as [|x l IH]; [done|]. rewrite filter_cons. case_decide; by constructor. Qed.

Definition subset_packet (p : ForwardPacket) (ds : list NodeId) (n : Z) : ForwardPacket :=
  set_parts (set_header p Multicast NodeId_default n) (osort ds) (payload p).

Lemma subset_packet_Some p ds n :
  multicast_ok ds (payload p) →
  multicast_subset_packet p ds (payload p) n = Some (subset_packet p ds n).
Proof.
  intros Hok. unfold multicast_subset_packet.
  by rewrite (proj2 (multicast_new_Ok _ _ _) (conj Hok eq_refl)).
Qed.
Lemma subset_packet_units u p ds n :
  occ u (units (subset_packet p ds n)) = occ u ((λ d, (d, tag p)) <$> ds).
Proof.
  apply occ_perm. unfold units. rewrite decide_True by done.
  apply (fmap_Permutation (λ d, (d, tag p)) (osort ds) ds), osort_perm.
Qed.
Lemma subset_packet_fits p ds n :
  multicast_ok ds (payload p) → packet_fits (subset_packet p ds n).
Proof.
  intros (_ & Hl & _ & Hsz). unfold packet_fits, ForwardPacket_encoded_len.
  rewrite decide_True by done. unfold subset_packet.
  cbn [multicast_destinations set_parts payload]. rewrite zlen_osort. pose proof (zlen_nonneg ds). pose proof (zlen_nonneg (payload p)).
  rewrite multicast_prefix_len_small by lia.
  unfold sat_add, u_max, FORWARD_HEADER_LEN, MAX_FORWARD_PAYLOAD_LEN, MAX_PAYLOAD_LEN,
    FORWARD_HEADER_LEN in *. lia.
Qed.

(** The units of [p]'s payload for the destinations [ds]. *)
Definition spread (p : ForwardPacket) (ds : list NodeId) : list unit_of :=
  (λ d, (d, tag p)) <$> ds.

Lemma spread_app p ds ds' : spread p (ds ++ ds') = spread p ds ++ spread p ds'.
Proof. apply fmap_app. Qed.
Lemma occ_spread d t p ds : occ (d, t) (spread p ds) = if decide (tag p = t) then occ d ds else 0.
Proof.
  unfold spread. induction ds as [|x ds IH]; [by case_decide|].
  rewrite fmap_cons, !occ_cons, IH. repeat case_decide; simplify_eq; try lia; try done.
Qed.

(** ** Effects of routing *)

Section Effects.
Implicit Types fw : Forwarder.

Lemma enqueue_branches_effect fw incoming p n branches :
  fw_ok fw → Forall (λ b, multicast_ok b.2 (payload p)) branches →
  ∃ fw' acts, enqueue_branches fw incoming p (payload p) n branches = Some (fw', acts) ∧
    effect fw (spread p (mjoin branches.*2)) fw' acts [].
Proof.
  revert fw. induction branches as [|[l ds] branches IH]; intros fw Hok Hall.
  { exists fw, []. split; [done|]. by apply effect_refl. }
  apply Forall_cons in Hall as [Hds Hall]. cbn in Hds. cbn [enqueue_branches].
  rewrite subset_packet_Some by done. cbn [mbind option_bind].
  destruct (enqueue_effect fw l (subset_packet p ds n) incoming Hok
              (subset_packet_fits p ds n Hds)) as (fw1 & a1 & -> & He1).
  cbn [mbind option_bind].
  destruct (IH fw1 (eff_ok _ _ _ _ _ He1) Hall) as (fw2 & a2 & -> & He2).
  cbn [mbind option_bind]. do 2 eexists. split; [reflexivity|].
  eapply effect_perm; [exact (effect_trans _ _ _ _ _ _ _ _ _ He1 He2)|].
  intros u. rewrite fmap_cons. change (mjoin (_ :: ?k)) with (ds ++ mjoin k).
  rewrite spread_app, !occ_app, subset_packet_units. fold (spread p ds).
  rewrite !occ_nil. lia.
Qed.

Lemma drop_subset_effect fw reason p ds :
  fw_ok fw → (∀ q, reason ≠ QueueFull q) → (ds ≠ [] → multicast_ok ds (payload p)) →
  ∃ acts, drop_subset reason p ds (payload p) = Some acts ∧ effect fw (spread p ds) fw acts [].
Proof.
  intros Hok Hr Hds. destruct ds as [|d ds].
  { exists []. split; [done|]. by apply effect_refl. }
  specialize (Hds ltac:(done)). unfold drop_subset. rewrite subset_packet_Some by done.
  eexists. split; [reflexivity|].
  eapply effect_perm; [apply (effect_inert fw (FaDrop reason (subset_packet p (d :: ds) _))); done|].
  intros u. cbn [action_units]. rewrite subset_packet_units. fold (spread p (d :: ds)). lia.
Qed.

Lemma local_effect fw p s :
  fw_ok fw →
  effect fw (spread p (local_part (fw_me fw) s)) fw
    (if deliver_local s then [FaDeliverLocal (local_copy fw p (payload p))] else []) [].
Proof.
  intros Hok. unfold local_part. destruct (deliver_local s); [|by apply effect_refl].
  by apply (effect_inert fw (FaDeliverLocal (local_copy fw p (payload p)))).
Qed.

Lemma classify_local fw incoming d : classify fw incoming d = Local ↔ d = fw_me fw.
Proof.
  unfold classify. case_decide; [done|]. split; [|done].
  destruct (RouteTable_get _ _); [|done]. repeat case_decide; done.
Qed.
Lemma reroute_local fw incoming d : reroute_verdict fw incoming d = Local ↔ d = fw_me fw.
Proof.
  unfold reroute_verdict. case_decide; [done|]. split; [|done]. by destruct (reroute_link _ _ _).
Qed.

(** The branches of a split are valid packets. *)
Lemma split_branches_ok verdict ds b :
  multicast_ok ds b →
  Forall (λ x, multicast_ok x.2 b) (btree_iter (by_link (split_destinations verdict ds))) ∧
  (no_route (split_destinations verdict ds) ≠ [] →
     multicast_ok (no_route (split_destinations verdict ds)) b) ∧
  (looped (split_destinations verdict ds) ≠ [] →
     multicast_ok (looped (split_destinations verdict ds)) b).
Proof.
  intros Hok. destruct (split_filters verdict ds) as (En & El & _). split_and!.
  - apply Forall_forall. intros [l ds'] Hin%elem_of_btree_iter.
    apply branch_elem in Hin as [Hne ->]. by eapply multicast_ok_sub, sublist_filter.
  - intros Hne. eapply multicast_ok_sub; [done..|]. rewrite En. apply sublist_filter.
  - intros Hne. eapply multicast_ok_sub; [done..|]. rewrite El. apply sublist_filter.
Qed.

(** A split accounts for every destination. *)
Lemma split_spread me verdict p ds u :
  (∀ d, verdict d = Local ↔ d = me) → NoDup ds →
  let s := split_destinations verdict ds in
  occ u (spread p ds) =
  occ u (spread p (local_part me s)) + occ u (spread p (no_route s)) +
  occ u (spread p (looped s)) + occ u (spread p (mjoin (btree_iter (by_link s)).*2)).
Proof.
  intros Hl Hnd s. destruct u as [d t]. rewrite !occ_spread.
  pose proof (split_occ me verdict Hl ds d Hnd) as E. unfold branch_part, btree_values in E.
  fold s in E. case_decide; lia.
Qed.

Lemma new_parts p m :
  MulticastPayload_new (multicast_destinations p) (payload p) = Ok m →
  multicast_ok (destinations m) (payload p) ∧ body m = payload p ∧
  destinations m ≡ₚ multicast_destinations p.
Proof.
  intros [Hok ->]%multicast_new_Ok. cbn. split; [by apply multicast_ok_osort|].
  split; [done|apply osort_perm].
Qed.
Lemma units_multicast u p ds :
  packet_type (header p) = Multicast → ds ≡ₚ multicast_destinations p →
  occ u (units p) = occ u (spread p ds).
Proof.
  intros Hm E. unfold units. rewrite decide_True by done. apply occ_perm. unfold spread.
  by rewrite E.
Qed.

Lemma forward_multicast_effect fw incoming p :
  fw_ok fw → 0 < ttl (header p) → packet_type (header p) = Multicast →
  ∃ fw' acts, forward_multicast fw incoming p = Some (fw', acts) ∧ effect fw (units p) fw' acts [].
Proof.
  intros Hok Httl Hm. unfold forward_multicast.
  destruct (MulticastPayload_new _ _) as [m|e] eqn:Enew.
  2: { do 2 eexists. split; [reflexivity|]. by apply (effect_inert fw (FaDrop _ p)). }
  destruct (new_parts p m Enew) as (Hmok & -> & Hperm).
  set (s := split_destinations (classify fw incoming) (destinations m)).
  destruct (split_branches_ok (classify fw incoming) (destinations m) _ Hmok) as (Hb & Hn & Hl).
  fold s in Hb, Hn, Hl.
  destruct (drop_subset_effect fw NoRoute p (no_route s) Hok ltac:(done) Hn) as (a1 & -> & He1).
  destruct (drop_subset_effect fw LoopDetected p (looped s) Hok ltac:(done) Hl) as (a2 & -> & He2).
  cbn [mbind option_bind].
  rewrite (proj2 (checked_sub_Some (ttl (header p)) 1 _)) by (split; [reflexivity|lia]).
  cbn [mbind option_bind].
  destruct (enqueue_branches_effect fw incoming p (ttl (header p) - 1) _ Hok Hb)
    as (fw' & a3 & -> & He3).
  cbn [mbind option_bind]. do 2 eexists. split; [reflexivity|].
  pose proof (effect_trans _ _ _ _ _ _ _ _ _ (local_effect fw p s Hok)
    (effect_trans _ _ _ _ _ _ _ _ _ He1 (effect_trans _ _ _ _ _ _ _ _ _ He2 He3))) as E.
  eapply effect_perm; [exact E|]. intros u.
  rewrite (units_multicast u p (destinations m) Hm Hperm), !occ_app.
  destruct Hmok as (_ & _ & Hnd & _).
  rewrite (split_spread (fw_me fw) _ p _ u (classify_local fw incoming) Hnd). fold s.
  rewrite !occ_nil. lia.
Qed.

Lemma units_unicast p :
  packet_type (header p) = Unicast → units p = [(destination (header p), tag p)].
Proof. intros E. unfold units. by rewrite decide_False by (rewrite E; done). Qed.

Lemma process_packet_effect fw incoming p :
  fw_ok fw → 0 ≤ ttl (header p) → packet_fits p →
  ∃ fw' acts, process_packet fw incoming p = Some (fw', acts) ∧ effect fw (units p) fw' acts [].
Proof.
  intros Hok Httl Hfit. unfold process_packet.
  assert (Hdrop : ∀ r, (∀ q, r ≠ QueueFull q) → effect fw (units p) fw [FaDrop r p] []).
  { intros r Hr. by apply (effect_inert fw (FaDrop r p)). }
  destruct (Z.eqb_spec (ttl (header p)) 0) as [|Hne]; [by eauto|].
  destruct (packet_type (header p)) eqn:Et; [|by apply forward_multicast_effect; [|lia|]|by eauto..].
  unfold forward_unicast. case_decide as Hd.
  { do 2 eexists. split; [reflexivity|]. rewrite (units_unicast p Et).
    by apply (effect_inert fw (FaDeliverLocal p)). }
  destruct (RouteTable_get _ _) as [r|]; [|by do 2 eexists; split; [reflexivity|auto]].
  case_decide; [by do 2 eexists; split; [reflexivity|auto]|].
  case_decide; [by do 2 eexists; split; [reflexivity|auto]|].
  rewrite (proj2 (checked_sub_Some (ttl (header p)) 1 _)) by (split; [reflexivity|lia]).
  cbn [mbind option_bind]. rewrite <-(units_set_ttl p (ttl (header p) - 1)).
  by apply enqueue_effect.
Qed.

(** ** Rerouting *)

(** A packet keeps its priority and its validity while it waits. *)
Definition like (q x : QueuedPacket) : Prop :=
  priority (header (q_packet x)) = priority (header (q_packet q)) ∧ packet_fits (q_packet x).

Lemma reroute_multicast_effect fw q :
  fw_ok fw → packet_type (header (q_packet q)) = Multicast →
  ∃ fw' acts un, reroute_multicast fw q = Some (fw', acts, un) ∧
    effect fw (units (q_packet q)) fw' acts (q_units un) ∧ Forall (like q) un.
Proof.
  intros Hok Hm. unfold reroute_multicast. set (p := q_packet q) in *.
  destruct (MulticastPayload_new _ _) as [m|e] eqn:Enew.
  2: { do 3 eexists. split; [reflexivity|]. split; [|done]. by apply (effect_inert fw (FaDrop _ p)). }
  destruct (new_parts p m Enew) as (Hmok & -> & Hperm).
  set (s := split_destinations (reroute_verdict fw (q_incoming q)) (destinations m)).
  destruct (split_branches_ok (reroute_verdict fw (q_incoming q)) (destinations m) _ Hmok)
    as (Hb & Hn & _). fold s in Hb, Hn.
  destruct (enqueue_branches_effect fw (q_incoming q) p (ttl (header p)) _ Hok Hb)
    as (fw' & a & -> & He). cbn [mbind option_bind].
  assert (Hun : ∃ un, match no_route s with
      | [] => Some []
      | ds => u ← multicast_subset_packet p ds (payload p) (ttl (header p));
              Some [{| q_incoming := q_incoming q; q_packet := u |}]
      end = Some un ∧ (∀ u, occ u (q_units un) = occ u (spread p (no_route s))) ∧
      Forall (like q) un).
  { destruct (no_route s) as [|d ds]; [by exists []|]. specialize (Hn ltac:(done)).
    rewrite subset_packet_Some by done. eexists. split; [reflexivity|]. split.
    - intros u. rewrite q_units_one. cbn [q_packet]. by rewrite subset_packet_units.
    - repeat constructor. by apply (subset_packet_fits p (d :: ds)). }
  destruct Hun as (un & -> & Hu & HF). cbn [mbind option_bind].
  do 3 eexists. split; [reflexivity|]. split; [|done].
  eapply effect_perm; [exact (effect_trans _ _ _ _ _ _ _ _ _ (local_effect fw p s Hok) He)|].
  intros u. rewrite (units_multicast u p (destinations m) Hm Hperm), !occ_app, Hu.
  destruct Hmok as (_ & _ & Hnd & _).
  rewrite (split_spread (fw_me fw) _ p _ u (reroute_local fw (q_incoming q)) Hnd). fold s.
  assert (looped s = []) as ->.
  { destruct (split_filters (reroute_verdict fw (q_incoming q)) (destinations m)) as (_ & El & _).
    fold s in El. rewrite El. clear. induction (destinations m) as [|d ds IH]; [done|].
    rewrite filter_cons, decide_False; [done|]. unfold reroute_verdict.
    case_decide; [done|]. by destruct (reroute_link _ _ _). }
  change (occ u (spread p [])) with 0. rewrite occ_nil. lia.
Qed.

Lemma reroute_queued_effect fw q :
  fw_ok fw → packet_fits (q_packet q) →
  ∃ fw' acts un, reroute_queued fw q = Some (fw', acts, un) ∧
    effect fw (units (q_packet q)) fw' acts (q_units un) ∧ Forall (like q) un.
Proof.
  intros Hok Hfit. unfold reroute_queued.
  destruct (packet_type (header (q_packet q))) eqn:Et.
  2: by apply reroute_multicast_effect.
  2,3: do 3 eexists; split; [reflexivity|]; split; [|done];
    by apply (effect_inert fw (FaDrop _ (q_packet q))).
  unfold reroute_unicast. case_decide.
  { do 3 eexists. split; [reflexivity|]. split; [|done]. rewrite (units_unicast _ Et).
    by apply (effect_inert fw (FaDeliverLocal _)). }
  destruct (reroute_link _ _ _) as [l|].
  - destruct (enqueue_effect fw l (q_packet q) (q_incoming q) Hok Hfit) as (fw' & a & -> & He).
    do 3 eexists. split; [reflexivity|]. by split.
  - do 3 eexists. split; [reflexivity|]. split; [|by repeat constructor].
    rewrite q_units_one. by apply effect_refl.
Qed.

Lemma reroute_all_effect fw l :
  fw_ok fw → Forall (λ q, packet_fits (q_packet q)) l →
  ∃ fw' rs, reroute_all fw l = Some (fw', rs) ∧
    effect fw (q_units l) fw' (rs ≫= fst) (q_units (rs ≫= snd)) ∧
    Forall (λ x, ∃ q, q ∈ l ∧ like q x) (rs ≫= snd).
Proof.
  revert fw. induction l as [|q l IH]; intros fw Hok HF.
  { exists fw, []. split; [done|]. split; [|by constructor]. by apply effect_refl. }
  apply Forall_cons in HF as [Hq HF]. cbn [reroute_all].
  destruct (reroute_queued_effect fw q Hok Hq) as (fw1 & a & un & -> & He & Hun).
  cbn [mbind option_bind].
  destruct (IH fw1 (eff_ok _ _ _ _ _ He) HF) as (fw2 & rs & -> & He2 & Hrs).
  cbn [mbind option_bind]. do 2 eexists. split; [reflexivity|]. split.
  - cbn [mbind list_bind fst snd]. rewrite q_units_cons, q_units_app.
    exact (effect_trans _ _ _ _ _ _ _ _ _ He He2).
  - cbn [mbind list_bind snd]. apply Forall_app. split.
    + eapply Forall_impl; [exact Hun|]. intros x Hx. exists q. split; [by left|done].
    + eapply Forall_impl; [exact Hrs|]. intros x (q' & Hq' & Hx). exists q'.
      split; [by right|done].
Qed.
End Effects.
