(* ===== verification/ForwardProps.v ===== *)
(** * What the forwarder guarantees

    The theorems about [Forwarder]: it never panics, loses nothing without a
    trace, stays within the granted credit, branches multicast exactly over the
    links of the routes, and keeps P0 packets for a new route. *)

From S2P Require Export Prelude Ord Bytes Types Wire WirePackets ControlTypes Forward ForwardSched ForwardInv ForwardRoute.

(** ** Generations *)

Lemma generation_busy pending n next next' :
  is_uint 64 next → Z.of_nat n ≤ 2 ^ 64 →
  loop_nat (generation_step pending) n next = inl next' →
  ∀ i, 0 ≤ i < Z.of_nat n → is_Some (pending !! wrap 64 (next + i)).
Proof.
  revert next. induction n as [|n IH]; intros next Hu Hn Hloop i Hi; [lia|].
  cbn in Hloop. unfold generation_step in Hloop.
  destruct (pending !! next) eqn:E; [|done].
  destruct (decide (i = 0)) as [->|Hne].
  - unfold wrap. rewrite Z.add_0_r, Z.mod_small by (unfold is_uint in Hu; lia). by eexists.
  - assert (Hw : wrap 64 (next + i) = wrap 64 (wrap 64 (next + 1) + (i - 1))).
    { unfold wrap. rewrite Zplus_mod_idemp_l. f_equal. lia. }
    rewrite Hw. apply IH; [by apply is_uint_wrap|lia|done|lia].
Qed.

Lemma next_generation_total fw :
  is_uint 64 (next_pending fw) → Z.of_nat (size (pending_p0 fw)) < 2 ^ 64 →
  ∃ g n, next_pending_generation fw = Some (g, set_pending_p0 fw (pending_p0 fw) n) ∧
    pending_p0 fw !! g = None ∧ is_uint 64 g ∧ is_uint 64 n.
Proof.
  intros Hu Hsz. unfold next_pending_generation.
  destruct (run_loop _ _ _) as [[g n]|] eqn:Hrun; cbn.
  - exists g, n. split; [done|].
    apply (run_loop_partial (generation_step (pending_p0 fw)) (is_uint 64)
      (λ r, pending_p0 fw !! r.1 = None ∧ is_uint 64 r.1 ∧ is_uint 64 r.2)
      _ _ (g, n) Hu) in Hrun; [done|..].
    + intros s s' Hs. unfold generation_step. destruct (pending_p0 fw !! s); [|done].
      intros [= <-]. by apply is_uint_wrap.
    + intros s r Hs. unfold generation_step. destruct (pending_p0 fw !! s) eqn:E; [done|].
      intros [= <-]. split; [done|]. split; [done|]. by apply is_uint_wrap.
  - exfalso. unfold run_loop in Hrun. rewrite loop_pos_nat, SuccNat2Pos.id_succ in Hrun.
    destruct (loop_nat _ _ _) as [next'|] eqn:Hl; [|done]. clear Hrun.
    assert (Hb : Z.of_nat (S (size (pending_p0 fw))) ≤ 2 ^ 64) by lia.
    pose proof (generation_busy _ _ _ _ Hu Hb Hl) as Hbusy.
    set (m := size (pending_p0 fw)) in *.
    set (l := (λ i : nat, wrap 64 (next_pending fw + Z.of_nat i)) <$> seq 0 (S m)).
    assert (Hnd : NoDup l).
    { apply NoDup_fmap_2_strong; [|apply NoDup_seq]. intros i j Hi%elem_of_seq Hj%elem_of_seq E.
      unfold wrap in E. Z.to_euclidean_division_equations. lia. }
    assert (size (list_to_set l : gset Z) ≤ size (dom (pending_p0 fw)))%nat as Hle.
    { apply subseteq_size. intros g (i & -> & Hi%elem_of_seq)%elem_of_list_to_set%list_elem_of_fmap.
      apply elem_of_dom, Hbusy. lia. }
    rewrite size_list_to_set, size_dom in Hle by done. unfold l in Hle.
    rewrite length_fmap, length_seq in Hle. fold m in Hle. lia.
Qed.

(** ** Steps that also change what is pending *)

Record flow (fw : Forwarder) (input : list unit_of) (fw' : Forwarder)
    (acts : list ForwardAction) : Prop := {
  fl_ok : fw_ok fw';
  fl_me : fw_me fw' = fw_me fw;
  fl_down : down_links fw' = down_links fw;
  fl_units : ∃ lost, Forall conflatable lost ∧ ∀ u,
    occ u (fw_units fw) + occ u input =
    occ u (fw_units fw') + occ u (acts_units acts) + occ u (lost ≫= units);
  fl_credit l : credit fw' l + sent_bytes l acts = credit fw l;
  fl_permits l : permits fw' l + sent_count l acts = permits fw l;
  fl_actions : Forall (action_ok fw) acts;
}.

Lemma effect_flow fw i fw' acts : effect fw i fw' acts [] → flow fw i fw' acts.
Proof.
  intros [? (? & ? & ? & _) (lost & Hl & Hu) ? ? ?]. constructor; try done.
  exists lost. split; [done|]. intros u. specialize (Hu u). rewrite occ_nil in Hu. lia.
Qed.
Lemma flow_trans fw i1 fw1 a1 i2 fw2 a2 :
  flow fw i1 fw1 a1 → flow fw1 i2 fw2 a2 → flow fw (i1 ++ i2) fw2 (a1 ++ a2).
Proof.
  intros [_ Hm1 Hd1 (l1 & Hl1 & Hu1) Hc1 Hp1 Ha1] [Hok2 Hm2 Hd2 (l2 & Hl2 & Hu2) Hc2 Hp2 Ha2].
  constructor.
  - done.
  - congruence.
  - congruence.
  - exists (l1 ++ l2). split; [by apply Forall_app|]. intros u.
    specialize (Hu1 u). specialize (Hu2 u). rewrite acts_units_app, bind_app, !occ_app. lia.
  - intros l. specialize (Hc1 l). specialize (Hc2 l). rewrite sent_bytes_app. lia.
  - intros l. specialize (Hp1 l). specialize (Hp2 l). rewrite sent_count_app. lia.
  - apply Forall_app. split; [done|]. by rewrite (action_ok_down fw fw1) in Ha2.
Qed.
Lemma flow_perm fw i i' fw' acts acts' :
  flow fw i fw' acts → (∀ u, occ u i = occ u i') → acts ≡ₚ acts' → flow fw i' fw' acts'.
Proof.
  intros [? ? ? (l & Hl & Hu) Hc Hp Ha] Hi Hacts. constructor; try done.
  - exists l. split; [done|]. intros u. specialize (Hu u). rewrite <-Hi.
    assert (occ u (acts_units acts') = occ u (acts_units acts)) as ->; [|done].
    apply occ_perm. unfold acts_units. by rewrite Hacts.
  - intros k. rewrite <-Hc. f_equal. apply zsum_perm. by rewrite Hacts.
  - intros k. rewrite <-Hp. f_equal. apply zsum_perm. by rewrite Hacts.
  - by rewrite <-Hacts.
Qed.

(** Dropping packets that are no longer held. *)
Lemma flow_drops fw l r :
  fw_ok fw → (∀ p, r ≠ QueueFull p) → flow fw (q_units l) fw (drop_queued_packets l r).
Proof.
  intros Hok Hr. induction l as [|q l IH].
  - by apply effect_flow, effect_refl.
  - apply (flow_trans fw (units (q_packet q)) fw [FaDrop r (q_packet q)]); [|done].
    by apply effect_flow, (effect_inert fw (FaDrop r (q_packet q))).
Qed.

(** Units handed back by [reroute_all] are dropped or kept by its callers. *)
Lemma effect_out_flow fw i fw' acts o a :
  effect fw i fw' acts o → flow fw' o fw' a → flow fw i fw' (acts ++ a).
Proof.
  intros [Hok (Hm & _ & Hd & _) (l1 & Hl1 & Hu1) Hc1 Hp1 Ha1] [_ _ _ (l2 & Hl2 & Hu2) Hc2 Hp2 Ha2].
  constructor; try done.
  - exists (l1 ++ l2). split; [by apply Forall_app|]. intros u.
    specialize (Hu1 u). specialize (Hu2 u). rewrite acts_units_app, bind_app, !occ_app. lia.
  - intros l. specialize (Hc1 l). specialize (Hc2 l). rewrite sent_bytes_app. lia.
  - intros l. specialize (Hp1 l). specialize (Hp2 l). rewrite sent_count_app. lia.
  - apply Forall_app. split; [done|]. by rewrite (action_ok_down fw fw') in Ha2.
Qed.

Lemma reroute_or_drop fw l :
  fw_ok fw → Forall (λ q, packet_fits (q_packet q)) l →
  ∃ fw' rs, reroute_all fw l = Some (fw', rs) ∧
    flow fw (q_units l) fw' (rs ≫= λ '(routed, unresolved),
      routed ++ drop_queued_packets unresolved DrLinkDown).
Proof.
  intros Hok HF. destruct (reroute_all_effect fw l Hok HF) as (fw' & rs & Hr & He & _).
  exists fw', rs. split; [done|].
  eapply flow_perm; [eapply effect_out_flow; [exact He|]|done|].
  - apply (flow_drops fw' _ DrLinkDown); [apply (eff_ok _ _ _ _ _ He)|done].
  - clear. induction rs as [|[r u] rs IH]; [done|]. cbn. rewrite <-IH. unfold drop_queued_packets.
    rewrite fmap_app. rewrite <-!app_assoc. f_equiv. rewrite !app_assoc. f_equiv.
    apply Permutation_app_comm.
Qed.

(** Storing a batch under a fresh generation. *)
Definition put_batch (fw : Forwarder) (g : Z) (b : PendingP0Batch) (n : Z) : Forwarder :=
  set_pending_p0 fw (<[g := b]> (pending_p0 fw)) n.
Lemma put_batch_ok fw g b n :
  fw_ok fw → batch_ok g b → is_uint 64 n → fw_ok (put_batch fw g b n).
Proof. intros [? ? ? ?] Hb Hn. constructor; try done. by apply map_Forall_insert_2. Qed.
Lemma flow_put_batch fw g b n t at_ :
  fw_ok fw → batch_ok g b → is_uint 64 n → pending_p0 fw !! g = None →
  flow fw (batch_units b) (put_batch fw g b n) [FaSetTimer t at_] ∧
  flow fw (batch_units b) (put_batch fw g b n) [].
Proof.
  intros Hok Hb Hn Hg.
  assert (Hu : ∀ u, occ u (fw_units fw) + occ u (batch_units b) =
    occ u (fw_units (put_batch fw g b n))).
  { intros u. unfold put_batch. rewrite occ_set_pending, Hg. cbn. lia. }
  split; constructor; try done; try (by apply put_batch_ok); try (by repeat constructor).
  all: try (intros l; unfold credit, permits, sent_bytes, sent_count, link_state; cbn; lia).
  all: exists []; split; [done|]; intros u; rewrite ?acts_units_one, ?acts_units_nil;
    cbn [mbind list_bind action_units]; rewrite !occ_nil, Hu; lia.
Qed.

(** ** Pending P0 packets *)

Lemma like_waiting q x : waiting_ok q → like q x → waiting_ok x.
Proof. intros [Hp _] [E Hf]. split; [congruence|done]. Qed.

(** One batch of [retry_pending_p0]. *)
Lemma retry_batch_flow fw now g b :
  fw_ok fw → batch_ok g b → pending_p0 fw !! g = None →
  ∃ fw' acts, retry_batch fw now g b = Some (fw', acts) ∧
    flow fw (batch_units b) fw' acts ∧
    (∀ k, k ≠ g → pending_p0 fw' !! k = pending_p0 fw !! k).
Proof.
  intros Hok Hb Hg. pose proof Hb as (Hu & Hne & HF). unfold retry_batch.
  destruct (Z.leb_spec (batch_expires_at b) now).
  { do 2 eexists. split; [reflexivity|]. split; [|done]. by apply flow_drops. }
  destruct (reroute_all_effect fw (batch_packets b) Hok) as (fw1 & rs & -> & He & Hun).
  { eapply Forall_impl; [exact HF|]. by intros q [_ ?]. }
  cbn [mbind option_bind]. do 2 eexists. split; [reflexivity|].
  pose proof (eff_env _ _ _ _ _ He) as (Hme & _ & Hdown & Hpend & Hnext).
  pose proof (eff_ok _ _ _ _ _ He) as Hok1.
  destruct (rs ≫= snd) as [|q rest] eqn:Erem.
  { split; [by apply effect_flow|]. intros k _. by rewrite Hpend. }
  rewrite <-Erem in *.
  set (b' := {| batch_expires_at := batch_expires_at b; batch_packets := rs ≫= snd |}).
  assert (Hb' : batch_ok g b').
  { split; [done|]. split; [cbn; congruence|]. cbn. eapply Forall_impl; [exact Hun|].
    intros x (q' & Hq' & Hlike). eapply like_waiting; [|exact Hlike].
    rewrite Forall_forall in HF. by apply HF. }
  destruct (flow_put_batch fw1 g b' (next_pending fw1) (PendingP0 g) 0 Hok1 Hb') as [_ Hfl];
    [apply (fo_next _ Hok1)|by rewrite Hpend|].
  change (set_pending_p0 fw1 _ _) with (put_batch fw1 g b' (next_pending fw1)). split.
  - destruct He as [_ _ (l1 & Hl1 & Hu1) Hc1 Hp1 Ha1].
    destruct Hfl as [Hok2 _ Hd2 (l2 & Hl2 & Hu2) Hc2 Hp2 _]. constructor; try done.
    exists (l1 ++ l2). split; [by apply Forall_app|]. intros u. specialize (Hu1 u).
    specialize (Hu2 u). rewrite acts_units_nil, occ_nil in Hu2. rewrite bind_app, occ_app.
    unfold batch_units in *. cbn [batch_packets b'] in Hu2. lia.
  - intros k Hk. cbn. rewrite lookup_insert_ne by done. by rewrite Hpend.
Qed.

Lemma retry_batches_flow fw now l :
  fw_ok fw → NoDup l.*1 → Forall (λ p, batch_ok p.1 p.2) l →
  (∀ g, g ∈ l.*1 → pending_p0 fw !! g = None) →
  ∃ fw' acts, retry_batches fw now l = Some (fw', acts) ∧
    flow fw (l.*2 ≫= batch_units) fw' acts ∧
    (∀ k, k ∉ l.*1 → pending_p0 fw' !! k = pending_p0 fw !! k).
Proof.
  revert fw. induction l as [|[g b] l IH]; intros fw Hok Hnd HF Hfresh.
  { do 2 eexists. split; [reflexivity|]. split; [by apply effect_flow, effect_refl|done]. }
  apply NoDup_cons in Hnd as [Hg Hnd]. apply Forall_cons in HF as [Hb HF].
  cbn [retry_batches].
  destruct (retry_batch_flow fw now g b Hok Hb) as (fw1 & a1 & -> & Hfl & Hkeep).
  { apply Hfresh. by left. }
  cbn [mbind option_bind].
  destruct (IH fw1 (fl_ok _ _ _ _ Hfl) Hnd HF) as (fw2 & a2 & -> & Hfl2 & Hkeep2).
  { intros k Hk. rewrite Hkeep; [apply Hfresh; by right|]. by intros ->. }
  cbn [mbind option_bind]. do 2 eexists. split; [reflexivity|]. split.
  - cbn [fmap list_fmap snd mbind list_bind]. by eapply flow_trans.
  - intros k Hk. rewrite fmap_cons, not_elem_of_cons in Hk. destruct Hk as [Hk1 Hk2].
    rewrite Hkeep2 by done. by apply Hkeep.
Qed.

(** ** One event *)

(** What Rust's types and the memory of the machine say of an event. *)
Definition packet_ok (p : ForwardPacket) : Prop := is_uint 8 (ttl (header p)) ∧ packet_fits p.
Definition event_ok (e : ForwardEvent) : Prop :=
  match e with
  | FeOutbound p | FeInbound _ p | FeOutboundMulticast _ p => packet_ok p
  | FeLinkCredit _ n => is_uint 64 n
  | _ => True
  end.

(** The units an event brings in; an invalid destination list is refused and
    the packet handed back as it came. *)
Definition event_units (e : ForwardEvent) : list unit_of :=
  match e with
  | FeOutbound p | FeInbound _ p => units p
  | FeOutboundMulticast ds p =>
      match MulticastPayload_new ds (payload p) with
      | Ok _ => spread p ds
      | Err _ => units (set_header p Multicast NodeId_default (ttl (header p)))
      end
  | _ => []
  end.
Definition granted_bytes (l : LinkId) (e : ForwardEvent) : Z :=
  match e with FeLinkCredit l' n => if decide (l' = l) then n else 0 | _ => 0 end.
Definition granted_writes (l : LinkId) (e : ForwardEvent) : Z :=
  match e with FeLinkWritable l' => if decide (l' = l) then 1 else 0 | _ => 0 end.

Record step_spec (fw : Forwarder) (e : ForwardEvent) (fw' : Forwarder)
    (acts : list ForwardAction) : Prop := {
  ss_ok : fw_ok fw';
  ss_me : fw_me fw' = fw_me fw;
  ss_units : ∃ lost, Forall conflatable lost ∧
    fw_units fw ++ event_units e ≡ₚ fw_units fw' ++ acts_units acts ++ (lost ≫= units);
  ss_credit l : credit fw' l + sent_bytes l acts ≤ credit fw l + granted_bytes l e;
  ss_permits l : permits fw' l + sent_count l acts ≤ permits fw l + granted_writes l e;
  ss_actions : Forall (action_ok fw') acts;
}.

(** A step made of a change [fw ~> fw1] outside the links' traffic and a flow. *)
Lemma flow_step fw fw1 i e fw' acts :
  flow fw1 i fw' acts → fw_me fw1 = fw_me fw →
  (∀ u, occ u (fw_units fw1) + occ u i = occ u (fw_units fw) + occ u (event_units e)) →
  (∀ l, credit fw1 l ≤ credit fw l + granted_bytes l e) →
  (∀ l, permits fw1 l ≤ permits fw l + granted_writes l e) →
  step_spec fw e fw' acts.
Proof.
  intros [Hok Hm Hd (lost & Hl & Hu) Hc Hp Ha] Hm1 Hio Hcr Hpe. constructor.
  - done.
  - congruence.
  - exists lost. split; [done|]. apply perm_of_occ. intros u. specialize (Hu u). specialize (Hio u).
    rewrite !occ_app. lia.
  - intros l. specialize (Hc l). specialize (Hcr l). lia.
  - intros l. specialize (Hp l). specialize (Hpe l). lia.
  - by rewrite (action_ok_down fw1 fw').
Qed.
Lemma effect_step fw e fw' acts :
  effect fw (event_units e) fw' acts [] →
  (∀ l, 0 ≤ granted_bytes l e) → step_spec fw e fw' acts.
Proof.
  intros He%effect_flow Hg. apply (flow_step fw fw _ e _ _ He).
  - done.
  - done.
  - intros l. specialize (Hg l). lia.
  - intros l. unfold granted_writes. destruct e; try lia. case_decide; lia.
Qed.

Lemma credit_nonneg fw l : fw_ok fw → 0 ≤ credit fw l.
Proof. intros Hok. destruct (lq_credit _ (link_state_ok fw l Hok)). done. Qed.
Lemma permits_nonneg fw l : 0 ≤ permits fw l.
Proof. unfold permits. destruct (writable _); lia. Qed.

(** *** Credit and write permission *)

Lemma step_refused fw e :
  fw_ok fw → event_units e = [] → (∀ l, 0 ≤ granted_bytes l e) → step_spec fw e fw [].
Proof. intros Hok E Hg. apply effect_step; [rewrite E; by apply effect_refl|done]. Qed.

(** The state of [l] is replaced by one with the same queues, then served. *)
Lemma step_try_send fw l s e :
  fw_ok fw → l ∉ down_links fw → lq_ok s → queues s = queues (link_state fw l) →
  event_units e = [] →
  (∀ l', (if decide (l = l') then available_credit_bytes s else credit fw l')
         ≤ credit fw l' + granted_bytes l' e) →
  (∀ l', (if decide (l = l') then (if writable s then 1 else 0) else permits fw l')
         ≤ permits fw l' + granted_writes l' e) →
  ∃ fw' acts, try_send_one (put_link fw l s) l = Some (fw', acts) ∧ step_spec fw e fw' acts.
Proof.
  intros Hok Hd Hs Hq He Hc Hp. rewrite try_send_one_put.
  destruct (try_send_effect fw l s Hok Hs Hd) as (s2 & r & -> & _ & _ & Heff).
  cbn [mbind option_bind]. do 2 eexists. split; [reflexivity|].
  eapply flow_step; [exact (effect_flow _ _ _ _ Heff)|reflexivity|..].
  - intros u. rewrite occ_put_link, He. unfold link_units. rewrite Hq, occ_nil. lia.
  - intros l'. rewrite credit_put. apply Hc.
  - intros l'. rewrite permits_put. apply Hp.
Qed.

Lemma grant_credit_step fw l n :
  fw_ok fw → is_uint 64 n →
  ∃ fw' acts, grant_credit fw l n = Some (fw', acts) ∧ step_spec fw (FeLinkCredit l n) fw' acts.
Proof.
  intros Hok Hn. assert (Hg : ∀ l', 0 ≤ granted_bytes l' (FeLinkCredit l n)).
  { intros l'. cbn. unfold is_uint in Hn. case_decide; lia. }
  unfold grant_credit. case_decide as Hd.
  { do 2 eexists. split; [reflexivity|]. by apply step_refused. }
  pose proof (link_state_ok fw l Hok) as [S1 S2 S3 S4 [S5 S6]].
  apply (step_try_send fw l); try done.
  - constructor; try done. cbn. unfold is_uint, sat_add, u_max in *. lia.
  - intros l'. cbn. case_decide; [subst; unfold credit, sat_add|]; lia.
  - intros l'. unfold permits. cbn. case_decide; [subst|]; lia.
Qed.
Lemma mark_writable_step fw l :
  fw_ok fw →
  ∃ fw' acts, mark_writable fw l = Some (fw', acts) ∧ step_spec fw (FeLinkWritable l) fw' acts.
Proof.
  intros Hok. unfold mark_writable. case_decide as Hd.
  { do 2 eexists. split; [reflexivity|]. by apply step_refused. }
  pose proof (link_state_ok fw l Hok) as [S1 S2 S3 S4 [S5 S6]].
  apply (step_try_send fw l); try done.
  - intros l'. cbn. case_decide; [subst; unfold credit|]; lia.
  - intros l'. cbn. pose proof (permits_nonneg fw l'). case_decide; lia.
Qed.

(** *** A link goes down *)

(** The forwarder with the link marked down and its state taken out. *)
Definition cut_link (fw : Forwarder) (l : LinkId) : Forwarder :=
  set_links (set_down_links fw ({[l]} ∪ down_links fw)) (delete l (links fw)).

Lemma cut_link_ok fw l : fw_ok fw → fw_ok (cut_link fw l).
Proof.
  intros [Hl Hu Hp Hn]. constructor; try done; cbn.
  - by apply map_Forall_delete.
  - intros l' [s [Hne Hs]%lookup_delete_Some].
    rewrite not_elem_of_union, not_elem_of_singleton. split; [done|]. apply Hu. by eexists.
Qed.
Lemma cut_link_missing fw l :
  links fw !! l = None → set_down_links fw ({[l]} ∪ down_links fw) = cut_link fw l.
Proof. intros E. unfold cut_link, set_links. cbn. by rewrite delete_id. Qed.
Lemma cut_link_units u fw l :
  occ u (fw_units fw) = occ u (fw_units (cut_link fw l)) + occ u (link_units (link_state fw l)).
Proof.
  rewrite !occ_fw_units. cbn [cut_link links set_links pending_p0 set_down_links].
  rewrite map_weight_delete. unfold link_state.
  destruct (links fw !! l); cbn [fmap option_fmap option_map default from_option id];
    [|rewrite link_units_default, occ_nil]; lia.
Qed.
Lemma cut_link_credit fw l l' :
  fw_ok fw → credit (cut_link fw l) l' ≤ credit fw l' ∧ permits (cut_link fw l) l' ≤ permits fw l'.
Proof.
  intros Hok. pose proof (credit_nonneg fw l' Hok). pose proof (permits_nonneg fw l').
  unfold credit, permits, link_state, cut_link in *. cbn.
  destruct (decide (l = l')) as [<-|Hne]; [rewrite lookup_delete_eq|rewrite lookup_delete_ne by done];
    cbn; [done|lia].
Qed.

(** P0 packets wait for a new route. *)
Lemma hold_p0_flow fw now p0 :
  fw_ok fw → Z.of_nat (size (pending_p0 fw)) < 2 ^ 64 → Forall waiting_ok p0 →
  ∃ fw' timers, hold_p0 fw now p0 = Some (fw', timers) ∧
    flow fw (q_units p0) fw' timers ∧
    (p0 ≠ [] → ∃ g, pending_p0 fw !! g = None ∧
       pending_p0 fw' = <[g := {| batch_expires_at := sat_add 64 now P0_ROUTE_WAIT_MS;
                                  batch_packets := p0 |}]> (pending_p0 fw) ∧
       timers = [FaSetTimer (PendingP0 g) (sat_add 64 now P0_ROUTE_WAIT_MS)]).
Proof.
  intros Hok Hsz Hp0. unfold hold_p0. destruct p0 as [|q p0].
  { do 2 eexists. split; [reflexivity|]. split; [|done]. by apply effect_flow, effect_refl. }
  destruct (next_generation_total fw (fo_next _ Hok) Hsz) as (g & n & -> & Hg & Hu & Hn).
  cbn [mbind option_bind]. do 2 eexists. split; [reflexivity|]. split.
  - set (b := {| batch_expires_at := sat_add 64 now P0_ROUTE_WAIT_MS;
                 batch_packets := q :: p0 |}).
    by apply (flow_put_batch fw g b n).
  - intros _. exists g. done.
Qed.

Lemma queues_four s :
  lq_ok s → ∃ p0 p1 p2 p3, queues s = [p0; p1; p2; p3] ∧
    Forall waiting_ok p0 ∧ Forall (λ q, packet_fits (q_packet q)) p2.
Proof.
  intros [Hsh Hq _ _ _]. destruct (queues s) as [|p0 [|p1 [|p2 [|p3 [|]]]]] eqn:E; try done.
  exists p0, p1, p2, p3. split; [done|].
  destruct (Hq 0%nat p0 eq_refl) as [_ Hp Hf _]. destruct (Hq 2%nat p2 eq_refl) as [_ _ Hf2 _].
  split; [|done]. rewrite !Forall_forall in *. intros q Hin. split; [|by apply Hf].
  specialize (Hp q Hin). cbn in Hp. by destruct (priority _).
Qed.

Lemma link_down_step fw now l :
  fw_ok fw → Z.of_nat (size (pending_p0 fw)) < 2 ^ 64 →
  ∃ fw' acts, handle_link_down fw now l = Some (fw', acts) ∧ step_spec fw (FeLinkDown l) fw' acts.
Proof.
  intros Hok Hsz. pose proof (cut_link_ok fw l Hok) as Hok1. unfold handle_link_down.
  cbn [links set_down_links]. destruct (links fw !! l) as [s|] eqn:El.
  2: { rewrite (cut_link_missing fw l El). do 2 eexists. split; [reflexivity|].
       eapply (flow_step fw (cut_link fw l) []); [by apply effect_flow, effect_refl|reflexivity|..].
       - intros u. rewrite (cut_link_units u fw l). unfold link_state. rewrite El.
         cbn [default from_option id event_units]. rewrite link_units_default, occ_nil. lia.
       - intros l'. destruct (cut_link_credit fw l l' Hok). cbn. lia.
       - intros l'. destruct (cut_link_credit fw l l' Hok). cbn. lia. }
  fold (cut_link fw l). destruct (queues_four s) as (p0 & p1 & p2 & p3 & Hq & Hp0 & Hp2).
  { apply (fo_links _ Hok l s El). }
  rewrite Hq. cbn [lookup list_lookup mbind option_bind].
  destruct (hold_p0_flow (cut_link fw l) now p0 Hok1 Hsz Hp0) as (fw2 & timers & -> & Hfl & _).
  cbn [mbind option_bind]. pose proof (fl_ok _ _ _ _ Hfl) as Hok2.
  destruct (reroute_or_drop fw2 p2 Hok2 Hp2) as (fw3 & rs & -> & Hfl2).
  cbn [mbind option_bind]. do 2 eexists. split; [reflexivity|].
  pose proof (fl_ok _ _ _ _ Hfl2) as Hok3.
  pose proof (flow_trans _ _ _ _ _ _ _ Hfl (flow_trans _ _ _ _ _ _ _
    (flow_drops fw2 p1 DrLinkDown Hok2 ltac:(done)) (flow_trans _ _ _ _ _ _ _ Hfl2
    (flow_drops fw3 p3 DrLinkDown Hok3 ltac:(done))))) as Hall.
  eapply flow_step; [exact Hall|reflexivity|..].
  - intros u. rewrite (cut_link_units u fw l). unfold link_state. rewrite El.
    cbn [default from_option id event_units]. unfold link_units. rewrite Hq.
    change (mjoin [p0; p1; p2; p3]) with (p0 ++ p1 ++ p2 ++ p3 ++ []).
    rewrite app_nil_r, !q_units_app, !occ_app, occ_nil. lia.
  - intros l'. destruct (cut_link_credit fw l l' Hok). cbn. lia.
  - intros l'. destruct (cut_link_credit fw l l' Hok). cbn. lia.
Qed.

(** *** Routes and timers *)

Lemma routes_updated_step fw now t :
  fw_ok fw →
  ∃ fw' acts, handle_routes_updated fw now t = Some (fw', acts) ∧
    step_spec fw (FeRoutesUpdated t) fw' acts.
Proof.
  intros [Hl Hu Hp Hn]. unfold handle_routes_updated, retry_pending_p0.
  set (fw1 := set_pending_p0 _ ∅ _).
  assert (Hok1 : fw_ok fw1).
  { constructor; cbn; try done. intros l Hl'%Hu Hin%elem_of_filter. by destruct Hin. }
  cbn [pending_p0 set_down_links set_fw_routes].
  destruct (retry_batches_flow fw1 now (btree_iter (pending_p0 fw)) Hok1) as (fw' & acts & -> & Hfl & _).
  - apply btree_keys_NoDup.
  - apply Forall_forall. intros [g b] Hin%elem_of_btree_iter. by apply Hp.
  - done.
  - do 2 eexists. split; [reflexivity|]. eapply flow_step; [exact Hfl|reflexivity|..].
    + intros u. rewrite !occ_fw_units. cbn [fw1 links set_pending_p0 pending_p0 set_down_links
        set_fw_routes event_units]. unfold btree_values at 2. rewrite btree_iter_empty, occ_bind, occ_nil.
      fold (btree_values (pending_p0 fw)). cbn. lia.
    + intros l. unfold credit, link_state. cbn. lia.
    + intros l. unfold permits, link_state. cbn. lia.
Qed.

Lemma timer_step fw now t :
  fw_ok fw →
  ∃ fw' acts, fw_handle_timer fw now t = (fw', acts) ∧ step_spec fw (FeTimer t) fw' acts.
Proof.
  intros Hok. destruct t as [g]. unfold fw_handle_timer.
  destruct (pending_p0 fw !! g) as [b|] eqn:Eb.
  2: { do 2 eexists. split; [reflexivity|]. by apply step_refused. }
  destruct (now <? batch_expires_at b).
  { do 2 eexists. split; [reflexivity|]. apply effect_step; [|done].
    by apply (effect_inert fw (FaSetTimer (PendingP0 g) (batch_expires_at b))). }
  do 2 eexists. split; [reflexivity|].
  set (fw1 := set_pending_p0 _ _ _).
  assert (Hok1 : fw_ok fw1).
  { destruct Hok as [Hl Hu Hp Hn]. constructor; try done. by apply map_Forall_delete. }
  eapply flow_step; [apply (flow_drops fw1 (batch_packets b) RouteWaitExpired Hok1); done|reflexivity|..].
  - intros u. rewrite !occ_fw_units. cbn [fw1 links set_pending_p0 pending_p0 event_units].
    rewrite map_weight_delete, Eb. cbn [fmap option_fmap option_map default from_option id].
    unfold batch_units. rewrite occ_nil. lia.
  - intros l. unfold credit, link_state. cbn. lia.
  - intros l. unfold permits, link_state. cbn. lia.
Qed.

Lemma outbound_multicast_step fw ds p :
  fw_ok fw → packet_ok p →
  ∃ fw' acts, process_outbound_multicast fw ds p = Some (fw', acts) ∧
    effect fw (event_units (FeOutboundMulticast ds p)) fw' acts [].
Proof.
  intros Hok [Httl Hfit]. unfold process_outbound_multicast. cbn [payload set_header event_units].
  destruct (MulticastPayload_new ds (payload p)) as [m|e] eqn:Enew.
  2: { do 2 eexists. split; [reflexivity|].
       by apply (effect_inert fw (FaDrop _ (set_header p Multicast NodeId_default _))). }
  apply multicast_new_Ok in Enew as [Hmok ->]. cbn [destinations body].
  assert (Hf : packet_fits (subset_packet p ds (ttl (header p)))) by by apply subset_packet_fits.
  destruct (process_packet_effect fw None (subset_packet p ds (ttl (header p))) Hok)
    as (fw' & acts & E & He); [cbn; unfold is_uint in Httl; lia|done|].
  exists fw', acts. split; [exact E|]. eapply effect_perm; [exact He|].
  intros u. by rewrite subset_packet_units.
Qed.

Lemma event_step fw now e :
  fw_ok fw → event_ok e → Z.of_nat (size (pending_p0 fw)) < 2 ^ 64 →
  ∃ fw' acts, fw_handle fw now e = Some (fw', acts) ∧ step_spec fw e fw' acts.
Proof.
  intros Hok He Hsz. destruct e as [p|ds p|l p|t|l n|l|l|t]; cbn [fw_handle event_ok] in *.
  - destruct He as [[Httl _] Hfit].
    destruct (process_packet_effect fw None p Hok Httl Hfit) as (fw' & acts & -> & Heff).
    do 2 eexists. split; [reflexivity|]. by apply effect_step.
  - destruct (outbound_multicast_step fw ds p Hok He) as (fw' & acts & -> & Heff).
    do 2 eexists. split; [reflexivity|]. by apply effect_step.
  - destruct He as [[Httl _] Hfit].
    destruct (process_packet_effect fw (Some l) p Hok Httl Hfit) as (fw' & acts & -> & Heff).
    do 2 eexists. split; [reflexivity|]. by apply effect_step.
  - by apply routes_updated_step.
  - by apply grant_credit_step.
  - by apply mark_writable_step.
  - by apply link_down_step.
  - destruct (timer_step fw now t Hok) as (fw' & acts & -> & Hs). by eexists _, _.
Qed.

(** *** Growth of the pending set *)

Lemma try_send_one_pending fw l fw' acts :
  try_send_one fw l = Some (fw', acts) → pending_p0 fw' = pending_p0 fw.
Proof.
  unfold try_send_one. destruct (links fw !! l); [|by intros [= <- _]].
  destruct (try_send _) as [[s r]|]; [|done]. by intros [= <- _].
Qed.
Lemma routes_updated_pending fw now t fw' acts :
  fw_ok fw → handle_routes_updated fw now t = Some (fw', acts) →
  dom (pending_p0 fw') ⊆ dom (pending_p0 fw).
Proof.
  intros [Hl Hu Hp Hn] H. unfold handle_routes_updated, retry_pending_p0 in H.
  set (fw1 := set_pending_p0 _ ∅ _) in H. cbn [pending_p0 set_down_links set_fw_routes] in H.
  destruct (retry_batches_flow fw1 now (btree_iter (pending_p0 fw))) as (fw2 & a2 & E & _ & Hkeep).
  - constructor; cbn; try done. intros l Hl'%Hu Hin%elem_of_filter. by destruct Hin.
  - apply btree_keys_NoDup.
  - apply Forall_forall. intros [g b] Hin%elem_of_btree_iter. by apply Hp.
  - done.
  - rewrite E in H. simplify_eq. intros k [b Hb]%elem_of_dom. apply elem_of_dom.
    apply elem_of_btree_keys. destruct (decide (k ∈ btree_keys (pending_p0 fw))) as [|Hk]; [done|].
    rewrite (Hkeep k Hk) in Hb. cbn in Hb. by rewrite lookup_empty in Hb.
Qed.
Lemma link_down_pending fw now l fw' acts :
  fw_ok fw → Z.of_nat (size (pending_p0 fw)) < 2 ^ 64 →
  handle_link_down fw now l = Some (fw', acts) →
  (size (pending_p0 fw') ≤ S (size (pending_p0 fw)))%nat.
Proof.
  intros Hok Hsz H. pose proof (cut_link_ok fw l Hok) as Hok1. unfold handle_link_down in H.
  cbn [links set_down_links] in H. destruct (links fw !! l) as [s|] eqn:El.
  2: { simplify_eq. cbn. lia. }
  fold (cut_link fw l) in H. destruct (queues_four s) as (p0 & p1 & p2 & p3 & Hq & Hp0 & Hp2).
  { apply (fo_links _ Hok l s El). }
  rewrite Hq in H. cbn [lookup list_lookup mbind option_bind] in H.
  destruct (hold_p0_flow (cut_link fw l) now p0 Hok1 Hsz Hp0) as (fw2 & timers & E & Hfl & Hp).
  rewrite E in H. cbn [mbind option_bind] in H.
  destruct (reroute_all_effect fw2 p2 (fl_ok _ _ _ _ Hfl) Hp2) as (fw3 & rs & E3 & He & _).
  rewrite E3 in H. cbn [mbind option_bind] in H. simplify_eq.
  destruct (eff_env _ _ _ _ _ He) as (_ & _ & _ & -> & _).
  destruct p0 as [|q p0].
  - cbn in E. simplify_eq. cbn. lia.
  - destruct (Hp ltac:(done)) as (g & Hg & -> & _). rewrite map_size_insert_None by done. cbn. lia.
Qed.

(** Only a link failure starts a batch. *)
Definition new_batches (e : ForwardEvent) : nat :=
  match e with FeLinkDown _ => 1 | _ => 0 end.
Lemma event_pending fw now e fw' acts :
  fw_ok fw → event_ok e → Z.of_nat (size (pending_p0 fw)) < 2 ^ 64 →
  fw_handle fw now e = Some (fw', acts) →
  (size (pending_p0 fw') ≤ new_batches e + size (pending_p0 fw))%nat.
Proof.
  intros Hok He Hsz H. destruct e as [p|ds p|l p|t|l n|l|l|t]; cbn [fw_handle event_ok] in *.
  - destruct He as [[Httl _] Hfit].
    destruct (process_packet_effect fw None p Hok Httl Hfit) as (f & a & E & Heff).
    rewrite E in H. simplify_eq. destruct (eff_env _ _ _ _ _ Heff) as (_ & _ & _ & -> & _). lia.
  - destruct (outbound_multicast_step fw ds p Hok He) as (f & a & E & Heff).
    rewrite E in H. simplify_eq. destruct (eff_env _ _ _ _ _ Heff) as (_ & _ & _ & -> & _). lia.
  - destruct He as [[Httl _] Hfit].
    destruct (process_packet_effect fw (Some l) p Hok Httl Hfit) as (f & a & E & Heff).
    rewrite E in H. simplify_eq. destruct (eff_env _ _ _ _ _ Heff) as (_ & _ & _ & -> & _). lia.
  - apply routes_updated_pending in H; [|done]. apply subseteq_size in H. rewrite !size_dom in H. lia.
  - unfold grant_credit in H. case_decide; [simplify_eq; lia|].
    apply try_send_one_pending in H as ->. cbn. lia.
  - unfold mark_writable in H. case_decide; [simplify_eq; lia|].
    apply try_send_one_pending in H as ->. cbn. lia.
  - by eapply link_down_pending.
  - injection H as H. destruct t as [g]. unfold fw_handle_timer in H.
    destruct (pending_p0 fw !! g) as [b|]; [|simplify_eq; lia].
    destruct (now <? _); simplify_eq; cbn; [lia|].
    assert (size (dom (delete g (pending_p0 fw))) ≤ size (dom (pending_p0 fw)))%nat as Hs
      by (apply subseteq_size; rewrite dom_delete_L; set_solver).
    rewrite !size_dom in Hs. lia.
Qed.
