(* ===== verification/ForwardTheorems.v ===== *)
(** * Theorems about the forwarder

    Runs of the forwarder: safety, accounting, scheduling, branching, the
    treatment of P0 packets and the timers of their deadlines. *)

From S2P Require Export Prelude Ord Bytes Types Wire WirePackets ControlTypes Forward ForwardSched ForwardInv ForwardRoute ForwardProps.

Abbreviation fw_trace := (list (MonoTime * ForwardEvent)) (only parsing).
Definition trace_ok (tr : fw_trace) : Prop := Forall (λ p, event_ok p.2) tr.
(** Grants of a trace. *)
Definition total_bytes (l : LinkId) (tr : fw_trace) : Z :=
  zsum ((λ p, granted_bytes l p.2) <$> tr).
Definition total_writes (l : LinkId) (tr : fw_trace) : Z :=
  zsum ((λ p, granted_writes l p.2) <$> tr).

Lemma Forwarder_new_ok me routes : fw_ok (Forwarder_new me routes).
Proof. constructor; cbn; [done|by intros l []|done|by unfold is_uint]. Qed.

Lemma Forwarder_new_pending me routes : size (pending_p0 (Forwarder_new me routes)) = 0%nat.
Proof. apply map_size_empty. Qed.

Lemma fw_run_spec fw tr :
  fw_ok fw → trace_ok tr → Z.of_nat (size (pending_p0 fw)) + zlen tr ≤ 2 ^ 64 →
  ∃ fw' acts, run fw tr = Some (fw', acts) ∧ fw_ok fw' ∧
    Z.of_nat (size (pending_p0 fw')) ≤ Z.of_nat (size (pending_p0 fw)) + zlen tr ∧
    ∀ l, credit fw' l + sent_bytes l acts ≤ credit fw l + total_bytes l tr ∧
         permits fw' l + sent_count l acts ≤ permits fw l + total_writes l tr.
Proof.
  revert fw. induction tr as [|[now e] tr IH]; intros fw Hok Htr Hsz.
  { exists fw, []. split; [done|]. split; [done|]. split; [rewrite zlen_nil; lia|]. intros l.
    unfold sent_bytes, sent_count, total_bytes, total_writes. cbn. lia. }
  apply Forall_cons in Htr as [He Htr]. rewrite zlen_cons in *. pose proof (zlen_nonneg tr).
  destruct (event_step fw now e Hok He ltac:(lia)) as (fw1 & a1 & E1 & Hs).
  pose proof (event_pending fw now e fw1 a1 Hok He ltac:(lia) E1) as Hp.
  assert (new_batches e ≤ 1)%nat by (destruct e; cbn; lia).
  destruct (IH fw1 (ss_ok _ _ _ _ Hs) Htr ltac:(lia)) as (fw2 & a2 & E2 & Hok2 & Hp2 & Hb).
  exists fw2, (a1 ++ a2). split; [|split; [done|split; [lia|]]].
  - cbn [run]. change (handle fw now e) with (fw_handle fw now e). rewrite E1.
    cbn [mbind option_bind]. by rewrite E2.
  - intros l. specialize (Hb l). pose proof (ss_credit _ _ _ _ Hs l).
    pose proof (ss_permits _ _ _ _ Hs l). rewrite sent_bytes_app, sent_count_app.
    unfold total_bytes, total_writes in *. rewrite !fmap_cons, !zsum_cons. cbn [snd]. lia.
Qed.

(** A state the forwarder can be in. *)
Definition fw_reachable (fw : Forwarder) : Prop :=
  ∃ me routes tr acts, trace_ok tr ∧ zlen tr < 2 ^ 64 ∧
    run (Forwarder_new me routes) tr = Some (fw, acts).
Lemma fw_reachable_ok fw :
  fw_reachable fw → fw_ok fw ∧ Z.of_nat (size (pending_p0 fw)) < 2 ^ 64.
Proof.
  intros (me & routes & tr & acts & Htr & Hlen & Hr).
  destruct (fw_run_spec _ tr (Forwarder_new_ok me routes) Htr) as (fw' & a & E & Hok & Hsz & _);
    [rewrite Forwarder_new_pending; lia|]. rewrite Hr in E. simplify_eq. split; [done|].
  rewrite Forwarder_new_pending in Hsz. lia.
Qed.

(** ** Safety *)

(** C8: The forwarder handles every sequence of (fewer than 2^64) well-typed
    events without a panic and without an endless loop: the round robin, the
    search for a free generation and the "validated multicast subset" always
    succeed.  Afterwards every queue is within its limit and holds only packets
    of its priority, no two queued packets have the same conflation key, the
    byte counters are exact, and no link is both up and down. *)
Theorem forwarder_run_safe me routes (tr : fw_trace) :
  trace_ok tr → zlen tr < 2 ^ 64 →
  ∃ fw acts, run (Forwarder_new me routes) tr = Some (fw, acts) ∧
    (∀ l s, links fw !! l = Some s →
       (l ∉ down_links fw) ∧ queued_bytes s = (queue_bytes <$> queues s) ∧
       length (queues s) = 4%nat ∧
       ∀ i q, queues s !! i = Some q →
         (∃ limit, QUEUE_LIMIT_PACKETS !! i = Some limit ∧ zlen q ≤ limit) ∧
         Forall (λ x, priority_index (priority (header (q_packet x))) = i) q ∧
         NoDup (queue_keys q)) ∧
    (∀ g b, pending_p0 fw !! g = Some b →
       batch_packets b ≠ [] ∧ Forall (λ x, priority (header (q_packet x)) = P0) (batch_packets b)).
Proof.
  intros Htr Hlen.
  destruct (fw_run_spec _ tr (Forwarder_new_ok me routes) Htr) as (fw & a & E & Hok & _); [rewrite Forwarder_new_pending; lia|].
  exists fw, a. split; [done|]. destruct Hok as [Hl Hu Hp _]. split.
  - intros l s Hs. destruct (Hl l s Hs) as [H1 H2 H3 _ _]. split; [apply Hu; by eexists|].
    split; [done|]. split; [done|]. intros i q Hq. by destruct (H2 i q Hq).
  - intros g b Hb. destruct (Hp g b Hb) as (_ & Hne & HF). split; [done|].
    eapply Forall_impl; [exact HF|]. by intros x [? _].
Qed.

(** C9: Flow control is respected on every run: on each link the forwarder
    never sends more bytes than the credit granted to it, nor more packets than
    the number of times it was told the link is writable. *)
Theorem forwarder_flow_control me routes (tr : fw_trace) fw acts :
  trace_ok tr → zlen tr < 2 ^ 64 → run (Forwarder_new me routes) tr = Some (fw, acts) →
  ∀ l, sent_bytes l acts ≤ total_bytes l tr ∧ sent_count l acts ≤ total_writes l tr.
Proof.
  intros Htr Hlen Hr l.
  destruct (fw_run_spec _ tr (Forwarder_new_ok me routes) Htr) as (fw' & a & E & Hok & _ & Hb);
    [rewrite Forwarder_new_pending; lia|]. rewrite Hr in E. simplify_eq. specialize (Hb l).
  pose proof (credit_nonneg fw' l Hok). pose proof (permits_nonneg fw' l).
  change (credit (Forwarder_new me routes) l) with 0 in Hb.
  change (permits (Forwarder_new me routes) l) with 0 in Hb. lia.
Qed.

(** C10: Nothing is lost without a trace.  Counting one unit per destination of
    a packet, every unit that was queued or pending or came with the event is
    afterwards sent, delivered, dropped with a reason, pushed back, still queued
    or still pending; the only units that disappear belong to conflatable P1
    packets, and nothing is duplicated or made up. *)
Theorem forwarder_conserves fw now e fw' acts :
  fw_reachable fw → event_ok e → fw_handle fw now e = Some (fw', acts) →
  ∃ lost, Forall (λ p, priority (header p) = P1 ∧
                       flags_contains (flags (header p)) CONFLATABLE = true) lost ∧
    fw_units fw ++ event_units e ≡ₚ fw_units fw' ++ acts_units acts ++ (lost ≫= units).
Proof.
  intros [Hok Hsz]%fw_reachable_ok He H.
  destruct (event_step fw now e Hok He Hsz) as (f & a & E & Hs). rewrite H in E. simplify_eq.
  destruct (ss_units _ _ _ _ Hs) as (lost & Hl & Hp). exists lost. split; [|done].
  eapply Forall_impl; [exact Hl|]. intros p [k Hk]. unfold ConflationKey_from_packet in Hk.
  destruct (_ && _) eqn:Ec; [|done]. by apply andb_true_iff in Ec as [Ec%bool_decide_eq_true ->].
Qed.

(** Admission respects priorities: no packet is ever sent on a link that is
    marked down, a P0 packet is never dropped for a full queue, and back
    pressure is exerted on P0 packets only. *)
Theorem forwarder_admission fw now e fw' acts :
  fw_reachable fw → event_ok e → fw_handle fw now e = Some (fw', acts) →
  (∀ l p, FaSend l p ∈ acts → l ∉ down_links fw') ∧
  (∀ pr p, FaDrop (QueueFull pr) p ∈ acts → pr = priority (header p) ∧ pr ≠ P0) ∧
  (∀ l p, FaBackpressure l p ∈ acts → priority (header p) = P0).
Proof.
  intros [Hok Hsz]%fw_reachable_ok He H.
  destruct (event_step fw now e Hok He Hsz) as (f & a & E & Hs). rewrite H in E. simplify_eq.
  pose proof (ss_actions _ _ _ _ Hs) as HF. rewrite Forall_forall in HF.
  split; [|split]; intros l p Hin; exact (HF _ Hin).
Qed.

(** ** Scheduling *)

(** The scheduler of a link sends at most one packet per write permission
    and is work conserving.  If it sends, the link was writable, the packet was
    at the front of its queue and is the only change to the queues, a packet of
    P1 to P3 is sent only while P0 is empty, exactly its encoded length is taken
    from the credit, which covered it, and the permission is used up.  If it
    does not send, the queues and the credit are unchanged and the link was not
    writable, or the credit does not cover the first P0 packet, or P0 is empty
    and the credit covers the first packet of no queue. *)
Theorem link_scheduling fw l s :
  fw_reachable fw → links fw !! l = Some s →
  ∃ s' acts, try_send_one fw l = Some (put_link fw l s', acts) ∧
    (acts = [] ∧ queues s' = queues s ∧
       available_credit_bytes s' = available_credit_bytes s ∧ writable s' = writable s ∧
       (writable s = false ∨
        (∃ x rest, queues s !! 0%nat = Some (x :: rest) ∧
                   available_credit_bytes s < queued_len x) ∨
        queues s !! 0%nat = Some [] ∧
          ∀ i x rest, queues s !! i = Some (x :: rest) →
                      available_credit_bytes s < queued_len x) ∨
     ∃ i x rest, acts = [FaSend l (q_packet x)] ∧
       writable s = true ∧ writable s' = false ∧
       queues s !! i = Some (x :: rest) ∧ queues s' = <[i := rest]> (queues s) ∧
       (i ≠ 0%nat → queues s !! 0%nat = Some []) ∧
       queued_len x ≤ available_credit_bytes s ∧
       available_credit_bytes s' = available_credit_bytes s - queued_len x).
Proof.
  intros [Hok _]%fw_reachable_ok Hl. pose proof (fo_links _ Hok l s Hl) as Hs.
  destruct (try_send_spec s Hs) as (s' & r & Hr & _ & Hspec).
  unfold try_send_one. rewrite Hl, Hr. cbn [mbind option_bind].
  exists s', (send_action l r). split; [done|]. destruct r as [p|]; cbn in Hspec |- *.
  - right. destruct Hspec as (Hw & i & x & -> & [(rest & Hf & Hq) _ Hfit Hc Hw' _] & H0).
    exists i, x, rest. by split_and!.
  - left. destruct Hspec as [[Hq _ Hc Hw _] Hb]. split_and!; try done.
    destruct Hb as [?|([|x rest] & H0 & Hb)]; [by left|..].
    + right. right. done.
    + right. left. by exists x, rest.
Qed.

(** Placing a packet on a link never fails and keeps the bounds: it is
    appended to the queue of its priority, or, when a packet with the same
    conflation key waits there, replaces that packet in its place without
    lengthening the queue; it is refused exactly when the queue is full and no
    packet can be replaced. *)
Theorem link_placement fw l p incoming :
  fw_reachable fw → packet_fits p →
  let s := link_state fw l in
  let i := priority_index (priority (header p)) in
  let new := {| q_incoming := incoming; q_packet := p |} in
  ∃ q limit r, queues s !! i = Some q ∧ QUEUE_LIMIT_PACKETS !! i = Some limit ∧
    place s p incoming = Some r ∧
    match r with
    | Placed s' =>
        (∃ q', queues s' = <[i := q']> (queues s) ∧ zlen q' ≤ limit ∧
           (q' = q ++ [new] ∨
            ∃ k old key, q !! k = Some old ∧ q' = <[k := new]> q ∧
              ConflationKey_from_packet p = Some key ∧
              ConflationKey_from_packet (q_packet old) = Some key)) ∧
        queued_bytes s' = (queue_bytes <$> queues s')
    | Refused =>
        zlen q = limit ∧ ∀ key, ConflationKey_from_packet p = Some key → key ∉ queue_keys q
    end.
Proof.
  intros [Hok _]%fw_reachable_ok Hfit s i new.
  pose proof (link_state_ok fw l Hok) as Hs. fold s in Hs.
  destruct (place_total s p incoming Hs Hfit) as (r & Hr & (q & limit & Hq & Hlim & Hcase) & Hs').
  exists q, limit, r. split; [done|]. split; [done|]. split; [done|].
  destruct r as [s'|]; [|done]. split; [|apply (lq_bytes _ Hs')].
  destruct (qo_limit _ _ (lq_queues _ Hs i q Hq)) as (n & Hn & Hle).
  assert (n = limit) as -> by (unfold i in Hn; congruence).
  destruct Hcase as (_ & _ & [(Hq' & Hlt & _)|(k & old & key & Hold & Hk & Hk' & Hq')]).
  - exists (q ++ [new]). split; [done|]. split; [|by left].
    rewrite zlen_app, zlen_cons, zlen_nil. lia.
  - exists (<[k := new]> q). split; [done|]. split.
    + unfold zlen in *. by rewrite length_insert.
    + right. by exists k, old, key.
Qed.

(** ** Routing *)

(** The routing decision of a unicast packet. *)
Lemma unicast_process fw incoming p :
  packet_type (header p) = Unicast → is_uint 8 (ttl (header p)) →
  process_packet fw incoming p =
  if decide (ttl (header p) = 0) then Some (fw, [FaDrop TtlExceeded p])
  else match classify fw incoming (destination (header p)) with
       | Local => Some (fw, [FaDeliverLocal p])
       | Unrouted => Some (fw, [FaDrop NoRoute p])
       | Looped => Some (fw, [FaDrop LoopDetected p])
       | Via link => enqueue fw link (set_ttl p (ttl (header p) - 1)) incoming
       end.
Proof.
  intros Ht Hu. unfold process_packet, forward_unicast, classify. rewrite Ht.
  destruct (Z.eqb_spec (ttl (header p)) 0) as [E|E]; [by rewrite decide_True|].
  rewrite (decide_False (P:=ttl (header p) = 0)) by done. case_decide; [done|].
  destruct (RouteTable_get _ _) as [r|]; [|done]. do 2 (case_decide; [done|]).
  unfold is_uint in Hu. unfold checked_sub. by rewrite (proj2 (Z.leb_le _ _)) by lia.
Qed.

(** Unicast packets obey the routing decision that multicast uses per
    destination: an expired packet is dropped, one for the node itself is
    delivered, one without a usable route is dropped, one whose route leads back
    over the incoming link is dropped as a loop, and any other is queued on the
    next hop of its route with its TTL lowered by exactly one. *)
Theorem unicast_forwarding fw incoming p :
  packet_type (header p) = Unicast → is_uint 8 (ttl (header p)) →
  process_packet fw incoming p =
  if decide (ttl (header p) = 0) then Some (fw, [FaDrop TtlExceeded p])
  else match classify fw incoming (destination (header p)) with
       | Local => Some (fw, [FaDeliverLocal p])
       | Unrouted => Some (fw, [FaDrop NoRoute p])
       | Looped => Some (fw, [FaDrop LoopDetected p])
       | Via link => enqueue fw link (set_ttl p (ttl (header p) - 1)) incoming
       end.
Proof. apply unicast_process. Qed.

(** The dropped part of a multicast packet. *)
Definition dropped_part (reason : DropReason) (p : ForwardPacket) (ds : list NodeId) :
  list ForwardAction :=
  match ds with [] => [] | _ => [FaDrop reason (subset_packet p ds (ttl (header p)))] end.
Lemma drop_subset_Some reason p ds :
  (ds ≠ [] → multicast_ok ds (payload p)) →
  drop_subset reason p ds (payload p) = Some (dropped_part reason p ds).
Proof.
  intros Hok. destruct ds as [|d ds]; [done|]. unfold drop_subset.
  by rewrite subset_packet_Some by auto.
Qed.

(** How a multicast packet is routed. *)
Lemma multicast_process fw incoming p :
  fw_ok fw → packet_type (header p) = Multicast → 0 < ttl (header p) →
  multicast_ok (multicast_destinations p) (payload p) →
  let ds := osort (multicast_destinations p) in
  ∃ branches fw' rest,
    process_packet fw incoming p =
      Some (fw', (if decide (fw_me fw ∈ ds)
                  then [FaDeliverLocal (local_copy fw p (payload p))] else []) ++
                 dropped_part NoRoute p (filter (λ d, classify fw incoming d = Unrouted) ds) ++
                 dropped_part LoopDetected p (filter (λ d, classify fw incoming d = Looped) ds) ++
                 rest) ∧
    enqueue_branches fw incoming p (payload p) (ttl (header p) - 1) branches = Some (fw', rest) ∧
    StronglySorted olt branches.*1 ∧
    (∀ l ds', (l, ds') ∈ branches ↔
      ds' ≠ [] ∧ ds' = filter (λ d, classify fw incoming d = Via l) ds) ∧
    ∀ u, occ u (spread p ds) =
      occ u (spread p (if decide (fw_me fw ∈ ds) then [fw_me fw] else [])) +
      occ u (spread p (filter (λ d, classify fw incoming d = Unrouted) ds)) +
      occ u (spread p (filter (λ d, classify fw incoming d = Looped) ds)) +
      occ u (spread p (mjoin branches.*2)).
Proof.
  intros Hok Hm Httl Hmok ds. pose proof (multicast_ok_osort _ _ Hmok) as Hds. fold ds in Hds.
  set (s := split_destinations (classify fw incoming) ds).
  destruct (split_branches_ok (classify fw incoming) ds _ Hds) as (Hb & Hn & Hl). fold s in Hb, Hn, Hl.
  destruct (split_filters (classify fw incoming) ds) as (En & El & Eb). fold s in En, El, Eb.
  pose proof (split_local (fw_me fw) _ (classify_local fw incoming) ds) as Hlocal. fold s in Hlocal.
  destruct (enqueue_branches_effect fw incoming p (ttl (header p) - 1) _ Hok Hb)
    as (fw' & rest & Hrun & _).
  exists (btree_iter (by_link s)), fw', rest. split; [|split; [done|split; [|split]]].
  - unfold process_packet. rewrite (proj2 (Z.eqb_neq _ _)), Hm by lia. unfold forward_multicast.
    rewrite (proj2 (multicast_new_Ok _ _ _) (conj Hmok eq_refl)). cbn [destinations body].
    fold ds s. rewrite !drop_subset_Some by done. cbn [mbind option_bind].
    rewrite (proj2 (checked_sub_Some (ttl (header p)) 1 _)) by (split; [reflexivity|lia]).
    cbn [mbind option_bind]. rewrite Hrun. cbn [mbind option_bind]. rewrite <-En, <-El, Hlocal.
    by case_decide; [rewrite bool_decide_eq_true_2|rewrite bool_decide_eq_false_2].
  - apply btree_keys_sorted.
  - intros l ds'. rewrite elem_of_btree_iter, Eb.
    destruct (filter (λ d, classify fw incoming d = Via l) ds) as [|d k]; naive_solver.
  - intros u. destruct Hds as (_ & _ & Hnd & _).
    rewrite (split_spread (fw_me fw) _ p _ u (classify_local fw incoming) Hnd). fold s.
    unfold local_part. rewrite Hlocal, En, El.
    by case_decide; [rewrite bool_decide_eq_true_2|rewrite bool_decide_eq_false_2].
Qed.

(** The packets of a list are enqueued one after the other. *)
Fixpoint enqueue_list (fw : Forwarder) (incoming : option LinkId)
    (branches : list (LinkId * ForwardPacket)) : option (Forwarder * list ForwardAction) :=
  match branches with
  | [] => Some (fw, [])
  | (l, q) :: rest =>
      '(fw, a) ← enqueue fw l q incoming;
      '(fw, a') ← enqueue_list fw incoming rest;
      Some (fw, a ++ a')
  end.
Lemma enqueue_branches_list fw incoming p t branches :
  Forall (λ b, multicast_ok b.2 (payload p)) branches →
  enqueue_branches fw incoming p (payload p) t branches =
  enqueue_list fw incoming ((λ b, (b.1, subset_packet p b.2 t)) <$> branches).
Proof.
  revert fw. induction branches as [|[l ds] branches IH]; intros fw Hall; [done|].
  apply Forall_cons in Hall as [Hds Hall]. cbn in Hds |- *.
  rewrite subset_packet_Some by done. cbn [mbind option_bind].
  destruct (enqueue _ _ _ _) as [[fw1 a]|]; [|done]. cbn [mbind option_bind]. by rewrite IH.
Qed.


(** *** The branches of a multicast packet

    What becomes of a destination [d] of a packet that came in over
    [incoming], in terms of the route table and of the links that are down. *)
Definition usable (fw : Forwarder) (d : NodeId) (l : LinkId) : Prop :=
  d ≠ fw_me fw ∧ l ∉ down_links fw ∧
  ∃ r, RouteTable_get (fw_routes fw) d = Some r ∧ next_hop r = l.
Definition goes_over (fw : Forwarder) (incoming : option LinkId) (l : LinkId) (d : NodeId) : Prop :=
  usable fw d l ∧ incoming ≠ Some l.
Definition loops_back (fw : Forwarder) (incoming : option LinkId) (d : NodeId) : Prop :=
  ∃ l, usable fw d l ∧ incoming = Some l.
Definition unreachable (fw : Forwarder) (d : NodeId) : Prop :=
  d ≠ fw_me fw ∧ ∀ l, ¬ usable fw d l.

(** [p] for the destinations [ds], with the TTL [t]. *)
Definition carrying (p : ForwardPacket) (ds : list NodeId) (t : Z) : ForwardPacket :=
  {| header := {| packet_type := Multicast; priority := priority (header p); ttl := t;
                  flags := flags (header p); destination := NodeId_default; source := source (header p);
                  flow_id := flow_id (header p); conflate_key := conflate_key (header p) |};
     multicast_destinations := ds; payload := payload p |}.
(** The copy of [p] that is delivered at the node [me]. *)
Definition delivered_copy (p : ForwardPacket) (me : NodeId) : ForwardPacket :=
  {| header := {| packet_type := Multicast; priority := priority (header p); ttl := ttl (header p);
                  flags := flags (header p); destination := me; source := source (header p);
                  flow_id := flow_id (header p); conflate_key := conflate_key (header p) |};
     multicast_destinations := []; payload := payload p |}.
(** [ds] are the destinations of [p] with [P], in ascending order. *)
Definition lists (p : ForwardPacket) (P : NodeId → Prop) (ds : list NodeId) : Prop :=
  StronglySorted olt ds ∧ ∀ d, d ∈ ds ↔ d ∈ multicast_destinations p ∧ P d.
(** The destinations of [p] with [P] are dropped together, if there are any. *)
Definition dropped_as (reason : DropReason) (p : ForwardPacket) (P : NodeId → Prop)
    (acts : list ForwardAction) : Prop :=
  ∃ ds, lists p P ds ∧
    acts = match ds with [] => [] | _ => [FaDrop reason (carrying p ds (ttl (header p)))] end.

Lemma classify_via fw incoming d l : classify fw incoming d = Via l ↔ goes_over fw incoming l d.
Proof.
  unfold classify, goes_over, usable. case_decide as E1; [naive_solver|].
  destruct (RouteTable_get _ d) as [r|]; [|naive_solver].
  case_decide as E2; [naive_solver|]. case_decide as E3; naive_solver.
Qed.
Lemma classify_looped fw incoming d : classify fw incoming d = Looped ↔ loops_back fw incoming d.
Proof.
  unfold classify, loops_back, usable. case_decide as E1; [naive_solver|].
  destruct (RouteTable_get _ d) as [r|]; [|naive_solver].
  case_decide as E2; [naive_solver|]. case_decide as E3; naive_solver.
Qed.
Lemma classify_unrouted fw incoming d : classify fw incoming d = Unrouted ↔ unreachable fw d.
Proof.
  unfold classify, unreachable, usable. case_decide as E1; [naive_solver|].
  destruct (RouteTable_get _ d) as [r|]; [|naive_solver].
  case_decide as E2; [naive_solver|]. case_decide as E3; naive_solver.
Qed.
Lemma filter_lists p (P Q : NodeId → Prop) `{∀ d, Decision (P d)} :
  NoDup (multicast_destinations p) → (∀ d, P d ↔ Q d) →
  lists p Q (filter P (osort (multicast_destinations p))).
Proof.
  intros Hnd HPQ. split.
  - apply ssorted_filter, ssorted_le_lt; [apply osort_sorted|]. by rewrite osort_perm.
  - intros d. rewrite list_elem_of_filter, osort_perm, HPQ. naive_solver.
Qed.
Lemma subset_carrying p ds t : StronglySorted olt ds → subset_packet p ds t = carrying p ds t.
Proof. intros Hs. unfold subset_packet. by rewrite osort_id by by apply ssorted_lt_le. Qed.
Lemma dropped_part_as reason p (P Q : NodeId → Prop) `{∀ d, Decision (P d)} :
  NoDup (multicast_destinations p) → (∀ d, P d ↔ Q d) →
  dropped_as reason p Q (dropped_part reason p (filter P (osort (multicast_destinations p)))).
Proof.
  intros Hnd HPQ. pose proof (filter_lists p P Q Hnd HPQ) as Hl. eexists. split; [exact Hl|].
  unfold dropped_part. destruct (filter _ _) eqn:E; [done|]. by rewrite subset_carrying by apply Hl.
Qed.

(** C33: A multicast packet with a valid destination list and a TTL above zero
    is split exactly over its destinations. The node delivers one copy,
    addressed to it, iff it is among them. One drop (NoRoute) lists exactly the
    destinations with no route or with a next hop that is down, and one
    (LoopDetected) exactly those whose usable next hop is the link the packet
    came in over. For every other link that is the next hop of some
    destination, in ascending order of links, one packet is enqueued on that
    link: a copy of the original with its TTL lowered by one that lists exactly
    the destinations routed over that link. *)
Theorem multicast_forwarding fw incoming p :
  fw_ok fw → packet_type (header p) = Multicast → 0 < ttl (header p) →
  multicast_ok (multicast_destinations p) (payload p) →
  ∃ nowhere back (branches : list (LinkId * ForwardPacket)) fw' rest,
    process_packet fw incoming p =
      Some (fw', (if decide (fw_me fw ∈ multicast_destinations p)
                  then [FaDeliverLocal (delivered_copy p (fw_me fw))] else []) ++
                 nowhere ++ back ++ rest) ∧
    dropped_as NoRoute p (unreachable fw) nowhere ∧
    dropped_as LoopDetected p (loops_back fw incoming) back ∧
    enqueue_list fw incoming branches = Some (fw', rest) ∧
    StronglySorted olt branches.*1 ∧
    (∀ l q, (l, q) ∈ branches → ∃ ds, ds ≠ [] ∧ lists p (goes_over fw incoming l) ds ∧
       q = carrying p ds (ttl (header p) - 1)) ∧
    (∀ l d, d ∈ multicast_destinations p → goes_over fw incoming l d → l ∈ branches.*1).
Proof.
  intros Hok Hm Httl Hmok. assert (Hnd : NoDup (multicast_destinations p)) by apply Hmok.
  destruct (multicast_process fw incoming p Hok Hm Httl Hmok) as (bs & fw' & rest & H1 & H2 & H3 & H4 & _).
  rewrite enqueue_branches_list in H2.
  2: { apply Forall_forall. intros [l ds] [Hne ->]%H4. cbn.
       eapply multicast_ok_sub; [by apply multicast_ok_osort|done|]. apply sublist_filter. }
  eexists _, _, ((λ b, (b.1, subset_packet p b.2 (ttl (header p) - 1))) <$> bs), fw', rest. split_and!.
  - rewrite H1. unfold local_copy, set_header. rewrite Hm. do 3 f_equal.
    pose proof (elem_of_osort (fw_me fw) (multicast_destinations p)). by do 2 case_decide; try tauto.
  - by apply dropped_part_as; [|apply classify_unrouted].
  - by apply dropped_part_as; [|apply classify_looped].
  - done.
  - by rewrite <-list_fmap_compose.
  - intros l q ([l' ds] & [= -> ->] & [Hne ->]%H4)%list_elem_of_fmap. eexists. split; [exact Hne|].
    pose proof (filter_lists p _ _ Hnd (λ d, classify_via fw incoming d l')) as Hl. split; [exact Hl|].
    apply subset_carrying, Hl.
  - intros l d Hd Hg. rewrite <-list_fmap_compose. apply list_elem_of_fmap.
    exists (l, filter (λ d, classify fw incoming d = Via l) (osort (multicast_destinations p))).
    split; [done|]. apply H4. split; [|done].
    apply (elem_of_not_nil d), list_elem_of_filter. by rewrite classify_via, osort_perm.
Qed.

(** ** P0 packets survive the loss of their link *)

(** What routing a packet drops: the packet itself or a part of it, and never
    for having waited too long. *)
Definition drops_like (p : ForwardPacket) (acts : list ForwardAction) : Prop :=
  ∀ r q, FaDrop r q ∈ acts →
    r ≠ RouteWaitExpired ∧ priority (header q) = priority (header p).

Lemma drops_like_nil p : drops_like p [].
Proof. intros r q Hin%not_elem_of_nil. done. Qed.
Lemma drops_like_app p a b : drops_like p a → drops_like p b → drops_like p (a ++ b).
Proof. intros Ha Hb r q [Hin|Hin]%elem_of_app; eauto. Qed.
Lemma drops_like_drop p r : r ≠ RouteWaitExpired → drops_like p [FaDrop r p].
Proof. intros Hr r' q Hin%list_elem_of_singleton. simplify_eq. done. Qed.
Lemma drops_like_other p a : (∀ r q, a ≠ FaDrop r q) → drops_like p [a].
Proof. intros Ha r q Hin%list_elem_of_singleton. by destruct (Ha r q). Qed.

Lemma try_send_one_drops fw l fw' acts p :
  try_send_one fw l = Some (fw', acts) → drops_like p acts.
Proof.
  unfold try_send_one. destruct (links fw !! l); [|intros [= <- <-]; apply drops_like_nil].
  destruct (try_send _) as [[s' [x|]]|]; cbn [mbind option_bind]; intros [= <- <-];
    [by apply drops_like_other|apply drops_like_nil].
Qed.
Lemma enqueue_drops fw l p incoming fw' acts :
  enqueue fw l p incoming = Some (fw', acts) → drops_like p acts.
Proof.
  unfold enqueue. case_decide; [intros [= <- <-]; by apply drops_like_drop|].
  destruct (place _ _ _) as [[s|]|]; cbn [mbind option_bind]; [|case_decide; intros [= <- <-]|done].
  - apply try_send_one_drops.
  - by apply drops_like_other.
  - by apply drops_like_drop.
Qed.
Lemma branches_drops fw incoming p b n bs fw' acts :
  enqueue_branches fw incoming p b n bs = Some (fw', acts) → drops_like p acts.
Proof.
  revert fw acts. induction bs as [|[l ds] bs IH]; intros fw acts H; cbn in H.
  { simplify_eq. apply drops_like_nil. }
  destruct (multicast_subset_packet _ _ _ _) as [x|] eqn:Ex; cbn in H; [|done].
  destruct (enqueue fw l x incoming) as [[fw1 a1]|] eqn:E1; cbn in H; [|done].
  destruct (enqueue_branches fw1 _ _ _ _ bs) as [[fw2 a2]|] eqn:E2; simplify_eq/=.
  apply drops_like_app; [|by eapply IH]. intros r q Hin.
  destruct (enqueue_drops _ _ _ _ _ _ E1 r q Hin) as [? ->]. split; [done|].
  unfold multicast_subset_packet in Ex. by destruct (MulticastPayload_new _ _); simplify_eq/=.
Qed.
Lemma reroute_drops fw x fw' acts un :
  reroute_queued fw x = Some (fw', acts, un) → drops_like (q_packet x) acts.
Proof.
  unfold reroute_queued, reroute_unicast, reroute_multicast.
  destruct (packet_type _); [| |intros [= <- <- <-]; by apply drops_like_drop..].
  - case_decide; [intros [= <- <- <-]; by apply drops_like_other|].
    destruct (reroute_link _ _ _); [|intros [= <- <- <-]; apply drops_like_nil].
    destruct (enqueue _ _ _ _) as [[fw1 a1]|] eqn:E; cbn; [|done]. intros [= <- <- <-].
    by eapply enqueue_drops.
  - destruct (MulticastPayload_new _ _); [|intros [= <- <- <-]; by apply drops_like_drop].
    destruct (enqueue_branches _ _ _ _ _ _) as [[fw1 a1]|] eqn:E; cbn [mbind option_bind]; [|done].
    apply branches_drops in E.
    destruct (match no_route _ with [] => _ | _ => _ end); cbn [mbind option_bind]; [|done].
    intros [= <- <- <-]. apply drops_like_app; [|done].
    destruct (deliver_local _); [by apply drops_like_other|apply drops_like_nil].
Qed.
Lemma reroute_all_drops fw l fw' rs :
  reroute_all fw l = Some (fw', rs) →
  ∀ r q, FaDrop r q ∈ (rs ≫= fst) → r ≠ RouteWaitExpired ∧
    ∃ x, x ∈ l ∧ priority (header q) = priority (header (q_packet x)).
Proof.
  revert fw rs. induction l as [|x l IH]; intros fw rs H r q Hin; cbn in H.
  { simplify_eq. by apply not_elem_of_nil in Hin. }
  destruct (reroute_queued fw x) as [[[fw1 a] un]|] eqn:E1; cbn in H; [|done].
  destruct (reroute_all fw1 l) as [[fw2 rs2]|] eqn:E2; simplify_eq/=.
  apply elem_of_app in Hin as [Hin|Hin].
  - destruct (reroute_drops _ _ _ _ _ E1 r q Hin) as [? ?]. split; [done|]. exists x. set_solver.
  - destruct (IH _ _ E2 r q Hin) as (? & y & ? & ?). split; [done|]. exists y. set_solver.
Qed.

(** When a link goes down, all its queued P0 packets are kept, in order, as
    one batch that waits until [now + 2000] ms for a new route, with its timer
    set; no P0 packet is dropped, no earlier batch is disturbed, and nothing is
    queued on the link any more. *)
Theorem link_down_holds_p0 fw now l s p0 :
  fw_reachable fw → links fw !! l = Some s → queues s !! 0%nat = Some p0 → p0 ≠ [] →
  ∃ fw' acts g, fw_handle fw now (FeLinkDown l) = Some (fw', acts) ∧
    pending_p0 fw !! g = None ∧
    pending_p0 fw' = <[g := {| batch_expires_at := sat_add 64 now P0_ROUTE_WAIT_MS;
                               batch_packets := p0 |}]> (pending_p0 fw) ∧
    FaSetTimer (PendingP0 g) (sat_add 64 now P0_ROUTE_WAIT_MS) ∈ acts ∧
    l ∈ down_links fw' ∧ links fw' !! l = None ∧
    (∀ r p, FaDrop r p ∈ acts → priority (header p) ≠ P0).
Proof.
  intros [Hok Hsz]%fw_reachable_ok El Hq0 Hne. pose proof (cut_link_ok fw l Hok) as Hok1.
  pose proof (fo_links _ Hok l s El) as Hs.
  destruct (queues_four s Hs) as (q0 & p1 & p2 & p3 & Hq & Hp0 & Hp2).
  assert (q0 = p0) as -> by (rewrite Hq in Hq0; by injection Hq0).
  assert (Hprio : ∀ i q x, queues s !! i = Some q → x ∈ q → i ≠ 0%nat →
    priority (header (q_packet x)) ≠ P0).
  { intros i q x Hi Hx Hne0. destruct (lq_queues _ Hs i q Hi) as [_ Hp _ _].
    rewrite Forall_forall in Hp. specialize (Hp x Hx). intros E. rewrite E in Hp. cbn in Hp. lia. }
  cbn [fw_handle]. unfold handle_link_down. cbn [links set_down_links]. rewrite El.
  fold (cut_link fw l). rewrite Hq. cbn [lookup list_lookup mbind option_bind].
  destruct (hold_p0_flow (cut_link fw l) now p0 Hok1 Hsz Hp0) as (fw2 & timers & -> & Hfl & Hg).
  destruct (Hg Hne) as (g & Hg1 & Hg2 & ->). cbn [mbind option_bind].
  destruct (reroute_all_effect fw2 p2 (fl_ok _ _ _ _ Hfl) Hp2) as (fw3 & rs & Hr & He & Hun).
  rewrite Hr. cbn [mbind option_bind]. eexists fw3, _, g. split; [reflexivity|].
  destruct (eff_env _ _ _ _ _ He) as (_ & _ & Hd & Hpend & _).
  split; [done|]. split; [by rewrite Hpend, Hg2|]. split; [by apply list_elem_of_here|].
  assert (Hdown : l ∈ down_links fw3).
  { rewrite Hd, (fl_down _ _ _ _ Hfl). cbn. set_solver. }
  split; [done|]. split.
  { destruct (links fw3 !! l) eqn:E3; [|done].
    by destruct (fo_up _ (eff_ok _ _ _ _ _ He) l ltac:(by eexists)). }
  intros r p Hin. rewrite !elem_of_app in Hin. destruct Hin as [Hin|[Hin|[Hin|Hin]]].
  - by apply list_elem_of_singleton in Hin.
  - apply list_elem_of_fmap in Hin as (x & [= -> ->] & Hx). by apply (Hprio 1%nat p1); [rewrite Hq|..].
  - apply list_elem_of_bind in Hin as ([routed un] & Hin & Hrs).
    apply elem_of_app in Hin as [Hin|Hin].
    + destruct (reroute_all_drops _ _ _ _ Hr r p) as (_ & x & Hx & ->).
      { apply list_elem_of_bind. by exists (routed, un). }
      by apply (Hprio 2%nat p2); [rewrite Hq|..].
    + apply list_elem_of_fmap in Hin as (x & [= -> ->] & Hx).
      rewrite Forall_forall in Hun. destruct (Hun x) as (y & Hy & [-> _]).
      { apply list_elem_of_bind. by exists (routed, un). }
      by apply (Hprio 2%nat p2); [rewrite Hq|..].
  - apply list_elem_of_fmap in Hin as (x & [= -> ->] & Hx). by apply (Hprio 3%nat p3); [rewrite Hq|..].
Qed.

Lemma retry_batch_drops fw now g b fw' acts r p :
  retry_batch fw now g b = Some (fw', acts) → FaDrop r p ∈ acts → r = RouteWaitExpired →
  batch_expires_at b ≤ now ∧ ∃ x, x ∈ batch_packets b ∧ q_packet x = p.
Proof.
  unfold retry_batch. destruct (Z.leb_spec (batch_expires_at b) now) as [Hle|Hlt].
  - intros [= <- <-] (x & [= _ ->] & Hx)%list_elem_of_fmap _. split; [done|]. by exists x.
  - destruct (reroute_all _ _) as [[fw1 rs]|] eqn:E; cbn; [|done]. intros [= <- <-] Hin ->.
    by destruct (reroute_all_drops _ _ _ _ E _ _ Hin) as [[] _].
Qed.
Lemma retry_batches_drops fw now l fw' acts p :
  retry_batches fw now l = Some (fw', acts) → FaDrop RouteWaitExpired p ∈ acts →
  ∃ g b x, (g, b) ∈ l ∧ batch_expires_at b ≤ now ∧ x ∈ batch_packets b ∧ q_packet x = p.
Proof.
  revert fw acts. induction l as [|[g b] l IH]; intros fw acts H Hin; cbn in H.
  { simplify_eq. by apply not_elem_of_nil in Hin. }
  destruct (retry_batch fw now g b) as [[fw1 a1]|] eqn:E1; cbn in H; [|done].
  destruct (retry_batches fw1 now l) as [[fw2 a2]|] eqn:E2; simplify_eq/=.
  apply elem_of_app in Hin as [Hin|Hin].
  - destruct (retry_batch_drops _ _ _ _ _ _ _ _ E1 Hin eq_refl) as (? & x & ? & ?).
    exists g, b, x. set_solver.
  - destruct (IH _ _ E2 Hin) as (g' & b' & x & ? & ? & ? & ?). exists g', b', x. set_solver.
Qed.

Lemma drop_subset_reason reason p ds b a r q :
  drop_subset reason p ds b = Some a → FaDrop r q ∈ a → r = reason.
Proof.
  unfold drop_subset. destruct ds; [intros [= <-] Hin; by apply not_elem_of_nil in Hin|].
  destruct (multicast_subset_packet _ _ _ _); cbn; [|done]. intros [= <-] Hin.
  apply list_elem_of_singleton in Hin. by simplify_eq.
Qed.
Lemma process_drops fw incoming p fw' acts r q :
  process_packet fw incoming p = Some (fw', acts) → FaDrop r q ∈ acts → r ≠ RouteWaitExpired.
Proof.
  unfold process_packet, forward_unicast, forward_multicast. intros H Hin.
  assert (Hone : ∀ r0 q0, r0 ≠ RouteWaitExpired → [FaDrop r0 q0] = acts → r ≠ RouteWaitExpired).
  { intros r0 q0 Hr <-. apply list_elem_of_singleton in Hin. by simplify_eq. }
  destruct (_ =? 0); [injection H as _ H; by eapply Hone; [|exact H]|].
  destruct (packet_type _); [| |injection H as _ H; by eapply Hone; [|exact H]..].
  - case_decide; cbn in H; [simplify_eq; by apply list_elem_of_singleton in Hin|].
    destruct (RouteTable_get _ _); [|injection H as _ H; by eapply Hone; [|exact H]].
    case_decide; cbn in H; [injection H as _ H; by eapply Hone; [|exact H]|].
    case_decide; cbn in H; [injection H as _ H; by eapply Hone; [|exact H]|].
    destruct (checked_sub _ _); cbn in H; [|done]. by apply (enqueue_drops _ _ _ _ _ _ H _ _ Hin).
  - destruct (MulticastPayload_new _ _); [|injection H as _ H; by eapply Hone; [|exact H]].
    destruct (drop_subset NoRoute _ _ _) as [a1|] eqn:E1; cbn in H; [|done].
    destruct (drop_subset LoopDetected _ _ _) as [a2|] eqn:E2; cbn in H; [|done].
    destruct (checked_sub _ _); cbn in H; [|done].
    destruct (enqueue_branches _ _ _ _ _ _) as [[fw1 a3]|] eqn:E3; simplify_eq/=.
    rewrite !elem_of_app in Hin. destruct Hin as [Hin|[Hin|[Hin|Hin]]].
    + destruct (deliver_local _); set_solver.
    + by rewrite (drop_subset_reason _ _ _ _ _ _ _ E1 Hin).
    + by rewrite (drop_subset_reason _ _ _ _ _ _ _ E2 Hin).
    + by apply (branches_drops _ _ _ _ _ _ _ _ E3 _ _ Hin).
Qed.

Lemma hold_p0_drops fw now p0 fw' acts r p :
  hold_p0 fw now p0 = Some (fw', acts) → FaDrop r p ∉ acts.
Proof.
  unfold hold_p0. destruct p0; [intros [= _ <-]; set_solver|].
  destruct (next_pending_generation fw) as [[g f]|]; cbn; [|done]. intros [= _ <-]. set_solver.
Qed.
Lemma link_down_drops fw now l fw' acts r p :
  handle_link_down fw now l = Some (fw', acts) → FaDrop r p ∈ acts → r ≠ RouteWaitExpired.
Proof.
  unfold handle_link_down. intros H Hin.
  destruct (links _ !! l) as [s|]; [|simplify_eq; by apply not_elem_of_nil in Hin].
  destruct (queues s !! 0%nat) as [p0|]; cbn [mbind option_bind] in H; [|done].
  destruct (queues s !! 1%nat) as [p1|]; cbn [mbind option_bind] in H; [|done].
  destruct (queues s !! 2%nat) as [p2|]; cbn [mbind option_bind] in H; [|done].
  destruct (queues s !! 3%nat) as [p3|]; cbn [mbind option_bind] in H; [|done].
  destruct (hold_p0 _ _ _) as [[fw1 timers]|] eqn:Eh; cbn [mbind option_bind] in H; [|done].
  destruct (reroute_all _ _) as [[fw2 rs]|] eqn:Er; simplify_eq/=.
  rewrite !elem_of_app in Hin. destruct Hin as [Hin|[Hin|[Hin|Hin]]].
  - by destruct (hold_p0_drops _ _ _ _ _ _ _ Eh Hin).
  - by apply list_elem_of_fmap in Hin as (x & [= -> ->] & _).
  - apply list_elem_of_bind in Hin as ([routed un] & Hin & Hrs).
    apply elem_of_app in Hin as [Hin|Hin].
    + apply (reroute_all_drops _ _ _ _ Er r p). apply list_elem_of_bind. by exists (routed, un).
    + by apply list_elem_of_fmap in Hin as (x & [= -> ->] & _).
  - by apply list_elem_of_fmap in Hin as (x & [= -> ->] & _).
Qed.

(** A packet is given up for having waited too long only when its batch's
    deadline has passed, and only batches that were pending are given up. *)
Theorem p0_waits_until_deadline fw now e fw' acts p :
  fw_handle fw now e = Some (fw', acts) → FaDrop RouteWaitExpired p ∈ acts →
  ∃ g b x, pending_p0 fw !! g = Some b ∧ batch_expires_at b ≤ now ∧
    x ∈ batch_packets b ∧ q_packet x = p.
Proof.
  intros H Hin. destruct e as [q|ds q|l q|t|l n|l|l|[g]]; cbn [fw_handle] in H.
  - by destruct (process_drops _ _ _ _ _ _ _ H Hin).
  - unfold process_outbound_multicast in H. destruct (MulticastPayload_new _ _).
    + by destruct (process_drops _ _ _ _ _ _ _ H Hin).
    + simplify_eq. by apply list_elem_of_singleton in Hin.
  - by destruct (process_drops _ _ _ _ _ _ _ H Hin).
  - destruct (retry_batches_drops _ _ _ _ _ _ H Hin) as (g & b & x & Hb & ? & ? & ?).
    apply elem_of_btree_iter in Hb. by exists g, b, x.
  - unfold grant_credit in H. case_decide; [simplify_eq; by apply not_elem_of_nil in Hin|].
    by destruct (try_send_one_drops _ _ _ _ p H _ _ Hin).
  - unfold mark_writable in H. case_decide; [simplify_eq; by apply not_elem_of_nil in Hin|].
    by destruct (try_send_one_drops _ _ _ _ p H _ _ Hin).
  - by destruct (link_down_drops _ _ _ _ _ _ _ H Hin).
  - unfold fw_handle_timer in H. destruct (pending_p0 fw !! g) as [b|] eqn:Eb; cbn in H;
      [|simplify_eq; by apply not_elem_of_nil in Hin].
    destruct (Z.ltb_spec now (batch_expires_at b)); simplify_eq.
    + by apply list_elem_of_singleton in Hin.
    + apply list_elem_of_fmap in Hin as (x & [= ->] & Hx). by exists g, b, x.
Qed.

(** ** Timers

    Every pending batch of P0 packets has a timer for its deadline. *)

(** ** What leaves the pending batches alone *)

Lemma enqueue_pending fw l p incoming fw' acts :
  enqueue fw l p incoming = Some (fw', acts) → pending_p0 fw' = pending_p0 fw.
Proof.
  unfold enqueue. case_decide; [by intros [= <- _]|].
  destruct (place _ _ _) as [[s|]|]; cbn [mbind option_bind]; [|by intros [= <- _]|done].
  intros Hp%try_send_one_pending. exact Hp.
Qed.
Lemma branches_pending bs : ∀ fw incoming p b n fw' acts,
  enqueue_branches fw incoming p b n bs = Some (fw', acts) → pending_p0 fw' = pending_p0 fw.
Proof.
  induction bs as [|[l ds] bs IH]; intros fw incoming p b n fw' acts; cbn [enqueue_branches].
  { by intros [= <- _]. }
  destruct (multicast_subset_packet _ _ _ _); cbn [mbind option_bind]; [|done].
  destruct (enqueue _ _ _ _) as [[fw1 a]|] eqn:E1; cbn [mbind option_bind]; [|done].
  destruct (enqueue_branches fw1 _ _ _ _ _) as [[fw2 a']|] eqn:E2; cbn [mbind option_bind]; [|done].
  intros [= <- _]. apply IH in E2. apply enqueue_pending in E1. congruence.
Qed.
Lemma process_pending fw incoming p fw' acts :
  process_packet fw incoming p = Some (fw', acts) → pending_p0 fw' = pending_p0 fw.
Proof.
  unfold process_packet. destruct (_ =? 0); [by intros [= <- _]|].
  destruct (packet_type _); [| |by intros [= <- _]..].
  - destruct (forward_unicast _ _ _) as [a|]; cbn [mbind option_bind]; [|done].
    destruct a; try by intros [= <- _]. apply enqueue_pending.
  - unfold forward_multicast. destruct (MulticastPayload_new _ _); [|by intros [= <- _]].
    destruct (drop_subset NoRoute _ _ _); cbn [mbind option_bind]; [|done].
    destruct (drop_subset LoopDetected _ _ _); cbn [mbind option_bind]; [|done].
    destruct (checked_sub _ _); cbn [mbind option_bind]; [|done].
    destruct (enqueue_branches _ _ _ _ _ _) as [[fw1 x]|] eqn:E; cbn [mbind option_bind]; [|done].
    intros [= <- _]. by eapply branches_pending.
Qed.
Lemma reroute_pending fw q fw' a u :
  reroute_queued fw q = Some (fw', a, u) → pending_p0 fw' = pending_p0 fw.
Proof.
  unfold reroute_queued. destruct (packet_type _); [| |by intros [= <- _]..].
  - unfold reroute_unicast. case_decide; [by intros [= <- _]|].
    destruct (reroute_link _ _ _); [|by intros [= <- _]].
    destruct (enqueue _ _ _ _) as [[fw1 x]|] eqn:E; cbn [mbind option_bind]; [|done].
    intros [= <- _]. by eapply enqueue_pending.
  - unfold reroute_multicast. destruct (MulticastPayload_new _ _); [|by intros [= <- _]].
    destruct (enqueue_branches _ _ _ _ _ _) as [[fw1 x]|] eqn:E; cbn [mbind option_bind]; [|done].
    destruct (match no_route _ with [] => _ | _ => _ end); cbn [mbind option_bind]; [|done].
    intros [= <- _]. by eapply branches_pending.
Qed.
Lemma reroute_all_pending l : ∀ fw fw' rs,
  reroute_all fw l = Some (fw', rs) → pending_p0 fw' = pending_p0 fw.
Proof.
  induction l as [|q l IH]; intros fw fw' rs; cbn [reroute_all]; [by intros [= <- _]|].
  destruct (reroute_queued fw q) as [[[fw1 a] u]|] eqn:E1; cbn [mbind option_bind]; [|done].
  destruct (reroute_all fw1 l) as [[fw2 r]|] eqn:E2; cbn [mbind option_bind]; [|done].
  intros [= <- _]. apply IH in E2. apply reroute_pending in E1. congruence.
Qed.

(** ** Deadlines *)

(** The deadline of a pending batch. *)
Definition batch_deadline (fw : Forwarder) (g : Z) : option MonoTime :=
  batch_expires_at <$> pending_p0 fw !! g.

(** A batch that survives an update of the routes keeps its deadline. *)
Lemma retry_batch_deadline fw now g b fw' acts k :
  retry_batch fw now g b = Some (fw', acts) →
  batch_deadline fw' k = batch_deadline fw k ∨
  k = g ∧ batch_deadline fw' k = Some (batch_expires_at b).
Proof.
  unfold retry_batch. destruct (_ <=? now); [intros [= <- _]; by left|].
  destruct (reroute_all _ _) as [[fw1 rs]|] eqn:E; cbn [mbind option_bind]; [|done].
  intros [= <- _]. apply reroute_all_pending in E. unfold batch_deadline.
  destruct (rs ≫= snd); cbn; rewrite E; [by left|].
  destruct (decide (k = g)) as [->|Hk].
  - right. split; [done|]. by rewrite lookup_insert_eq.
  - left. by rewrite lookup_insert_ne.
Qed.
Lemma retry_batches_deadline l : ∀ fw now fw' acts k d,
  retry_batches fw now l = Some (fw', acts) → batch_deadline fw' k = Some d →
  batch_deadline fw k = Some d ∨ ∃ b, (k, b) ∈ l ∧ batch_expires_at b = d.
Proof.
  induction l as [|[g b] l IH]; intros fw now fw' acts k d; cbn [retry_batches].
  { intros [= <- _]. by left. }
  destruct (retry_batch _ _ _ _) as [[fw1 a]|] eqn:E1; cbn [mbind option_bind]; [|done].
  destruct (retry_batches fw1 now l) as [[fw2 a']|] eqn:E2; cbn [mbind option_bind]; [|done].
  intros [= <- _] Hd. destruct (IH _ _ _ _ _ _ E2 Hd) as [H1|(b' & Hin & Hb)].
  - destruct (retry_batch_deadline _ _ _ _ _ _ k E1) as [E|[-> E]]; rewrite E in H1; [by left|].
    right. exists b. split; [by left|]. congruence.
  - right. exists b'. split; [by right|done].
Qed.

Lemma hold_p0_deadline fw now p0 fw' acts g d :
  hold_p0 fw now p0 = Some (fw', acts) → batch_deadline fw' g = Some d →
  batch_deadline fw g = Some d ∨ FaSetTimer (PendingP0 g) d ∈ acts.
Proof.
  unfold hold_p0. destruct p0; [intros [= <- _]; by left|].
  unfold next_pending_generation. destruct (run_loop _ _ _) as [[g0 n]|]; cbn [mbind option_bind]; [|done].
  intros [= <- <-]. unfold batch_deadline. cbn. destruct (decide (g = g0)) as [->|Hg].
  - rewrite lookup_insert_eq. intros [= <-]. right. by left.
  - rewrite lookup_insert_ne by done. by left.
Qed.

(** A pending batch after an event was pending before with the same deadline
    and its timer was not used up, or the event sets its timer. *)
Lemma batch_armed fw now e fw' acts g d :
  fw_handle fw now e = Some (fw', acts) → batch_deadline fw' g = Some d →
  batch_deadline fw g = Some d ∧ e ≠ FeTimer (PendingP0 g) ∨ FaSetTimer (PendingP0 g) d ∈ acts.
Proof.
  intros He Hd.
  assert (Hkeep : pending_p0 fw' = pending_p0 fw → batch_deadline fw g = Some d).
  { intros E. unfold batch_deadline in *. by rewrite <-E. }
  destruct e as [p|ds p|l p|t|l n|l|l|[k]]; cbn [fw_handle] in He.
  - left. split; [|done]. by eapply Hkeep, process_pending.
  - left. split; [|done]. unfold process_outbound_multicast in He.
    destruct (MulticastPayload_new _ _); [|injection He as <- _; by apply Hkeep].
    by eapply Hkeep, process_pending.
  - left. split; [|done]. by eapply Hkeep, process_pending.
  - left. split; [|done]. unfold handle_routes_updated, retry_pending_p0 in He.
    destruct (retry_batches_deadline _ _ _ _ _ _ _ He Hd) as [H|(b & Hin & Hb)]; [done|].
    apply elem_of_btree_iter in Hin. unfold batch_deadline. cbn in Hin. by rewrite Hin; cbn; rewrite Hb.
  - left. split; [|done]. apply Hkeep. unfold grant_credit in He. case_decide; [by injection He as <- _|].
    by apply try_send_one_pending in He.
  - left. split; [|done]. apply Hkeep. unfold mark_writable in He. case_decide; [by injection He as <- _|].
    by apply try_send_one_pending in He.
  - unfold handle_link_down in He. cbn [links set_down_links] in He.
    destruct (links fw !! l) as [s|]; [|injection He as <- _; left; split; [by apply Hkeep|done]].
    destruct (queues s !! 0%nat) as [p0|]; cbn [mbind option_bind] in He; [|done].
    destruct (queues s !! 1%nat) as [p1|]; cbn [mbind option_bind] in He; [|done].
    destruct (queues s !! 2%nat) as [p2|]; cbn [mbind option_bind] in He; [|done].
    destruct (queues s !! 3%nat) as [p3|]; cbn [mbind option_bind] in He; [|done].
    destruct (hold_p0 _ _ _) as [[fw1 a]|] eqn:E1; cbn [mbind option_bind] in He; [|done].
    destruct (reroute_all _ _) as [[fw2 rs]|] eqn:E2; cbn [mbind option_bind] in He; [|done].
    injection He as <- <-. apply reroute_all_pending in E2.
    destruct (hold_p0_deadline _ _ _ _ _ g d E1) as [H|H].
    + unfold batch_deadline in *. by rewrite <-E2.
    + left. split; [exact H|done].
    + right. apply elem_of_app. by left.
  - injection He as He. unfold fw_handle_timer in He.
    destruct (pending_p0 fw !! k) as [b|] eqn:Ek.
    2: { injection He as <- _. left. split; [by apply Hkeep|]. intros [= ->].
         unfold batch_deadline in Hd. by rewrite Ek in Hd. }
    destruct (now <? batch_expires_at b); injection He as <- <-.
    + destruct (decide (k = g)) as [->|Hk].
      * right. unfold batch_deadline in Hd. rewrite Ek in Hd. injection Hd as <-. by left.
      * left. split; [done|]. by intros [= ->].
    + unfold batch_deadline in Hd. cbn in Hd. destruct (decide (k = g)) as [->|Hk].
      * by rewrite lookup_delete_eq in Hd.
      * left. rewrite lookup_delete_ne in Hd by done. split; [done|]. by intros [= ->].
Qed.
