(* ===== verification/MeshForward.v ===== *)
(** * Packets across a synchronised mesh

    Control planes and forwarders of several nodes together: a packet handed to
    one forwarder is carried from link end to link end until a forwarder
    delivers or drops it.  Between two synchronised nodes it takes the cheapest
    way, never circles, and arrives unless its TTL is too small. *)

From S2P Require Export Prelude Ord Bytes Types Wire Forward ForwardSched ForwardInv ForwardRoute ForwardProps ForwardTheorems ControlTypes Control ControlRouting MeshRoutes.

(** ** Nodes and links *)

(** A node: its control plane, its forwarder, and for each of its links the
    identifier of that link at the peer. *)
Record MeshNode := {
  mn_control : ControlPlane;
  mn_forward : Forwarder;
  mn_far : gmap LinkId LinkId;
}.
Definition set_forward (x : MeshNode) (fw : Forwarder) : MeshNode :=
  {| mn_control := mn_control x; mn_forward := fw; mn_far := mn_far x |}.
Definition planes (net : gmap NodeId MeshNode) : gmap NodeId ControlPlane := mn_control <$> net.

(** What becomes of a packet. *)
Inductive Fate :=
| Delivered (at_ : NodeId) (packet : ForwardPacket)
| Lost (at_ : NodeId) (reason : DropReason) (packet : ForwardPacket).

Definition arrival (incoming : option LinkId) (p : ForwardPacket) : ForwardEvent :=
  match incoming with None => FeOutbound p | Some l => FeInbound l p end.

(** The forwarder of [u] handles the packet; what it sends over a link is the
    inbound packet of the peer.  [None]: fuel, or the packet has to wait. *)
Fixpoint relay (fuel : nat) (now : MonoTime) (net : gmap NodeId MeshNode) (u : NodeId)
    (incoming : option LinkId) (p : ForwardPacket) : option (gmap NodeId MeshNode * Fate) :=
  match fuel with
  | O => None
  | S fuel =>
      x ← net !! u;
      '(fw, acts) ← handle (mn_forward x) now (arrival incoming p);
      let net := <[u := set_forward x fw]> net in
      match acts with
      | [FaSend l q] =>
          a ← local_adjacencies (mn_control x) !! l;
          far ← mn_far x !! l;
          relay fuel now net (la_peer a) (Some far) q
      | [FaDeliverLocal q] => Some (net, Delivered u q)
      | [FaDrop reason q] => Some (net, Lost u reason q)
      | _ => None
      end
  end.

(** ** Idle links *)

(** Nothing waits for the link, and it may be written up to [n] bytes. *)
Definition idle (fw : Forwarder) (l : LinkId) (n : Z) : Prop :=
  l ∉ down_links fw ∧ Forall (λ q, q = []) (queues (link_state fw l)) ∧
  writable (link_state fw l) = true ∧ n ≤ credit fw l.

(** The only packet of a link that may write is sent. *)
Lemma send_only s i x :
  lq_ok s → writable s = true → queued_len x ≤ available_credit_bytes s →
  (∀ j q, queues s !! j = Some q → q = if decide (j = i) then [x] else []) → (i < 4)%nat →
  ∃ s', try_send s = Some (s', Some (q_packet x)).
Proof.
  intros Hok Hw Hc Hq Hi. destruct (try_send_spec s Hok) as (s' & r & -> & _ & Hspec).
  exists s'. do 2 f_equal. pose proof (lq_shape _ Hok) as Hsh.
  destruct (lookup_lt_is_Some_2 (queues s) i) as [qi Hqi]; [lia|].
  pose proof (Hq i qi Hqi) as ->. rewrite decide_True in Hqi by done.
  destruct r as [p|]; cbn [send_spec] in Hspec.
  - destruct Hspec as (_ & j & y & -> & [(rest & Hf & _) _ _ _ _ _] & _).
    apply Hq in Hf. case_decide; [by injection Hf as -> _|done].
  - destruct Hspec as (_ & [Hb|(p0 & H0 & Hb)]); [congruence|].
    destruct p0 as [|y p0]; [specialize (Hb i x [] Hqi); lia|].
    apply Hq in H0. case_decide; [|done]. injection H0 as -> _. lia.
Qed.

Lemma idle_enqueue fw l p incoming :
  fw_ok fw → packet_fits p → idle fw l (ForwardPacket_encoded_len p) →
  ∃ fw', enqueue fw l p incoming = Some (fw', [FaSend l p]).
Proof.
  intros Hok Hfit (Hd & He & Hw & Hc). unfold enqueue. rewrite decide_False by done.
  set (i := priority_index (priority (header p))).
  destruct (place_total (link_state fw l) p incoming (link_state_ok fw l Hok) Hfit)
    as (r & Hr & (q & limit & Hq & Hlim & Hcase) & Hs').
  assert (q = []) as -> by (rewrite Forall_lookup in He; by eapply He).
  rewrite Hr. cbn [mbind option_bind]. destruct r as [s'|].
  2: { destruct Hcase as [Hz _]. rewrite zlen_nil in Hz. subst limit.
       destruct (priority (header p)); discriminate Hlim. }
  destruct Hcase as (Hc' & Hw' & [(Hq' & _)|(k & old & _ & Hold & _)]); [|by destruct k].
  destruct (send_only s' i {| q_incoming := incoming; q_packet := p |}) as [s2 Hs2].
  - done.
  - congruence.
  - rewrite Hc'. exact Hc.
  - intros j qj. rewrite Hq'. intros [[<- ->]|[Hne Hj]]%lookup_insert_queue.
    + by rewrite decide_True.
    + rewrite decide_False by done. rewrite Forall_lookup in He. by eapply He.
    + apply (link_state_ok fw l Hok).
    + apply priority_index_lt.
  - apply priority_index_lt.
  - exists (put_link fw l s2). fold (put_link fw l s'). rewrite try_send_one_put, Hs2. done.
Qed.

(** ** The way of a packet *)

(** The nodes are synchronised and forward by the routes of their databases; a
    link joins a link of each end; every link is idle for packets of [n] bytes. *)
Record mesh_ready (net : gmap NodeId MeshNode) (n : Z) : Prop := {
  mr_synced : mesh_synced (planes net);
  mr_forward u x : net !! u = Some x →
    fw_ok (mn_forward x) ∧ fw_me (mn_forward x) = u ∧
    shortest_paths (mn_control x) = Some (table_routes (fw_routes (mn_forward x)));
  mr_link u x l a : net !! u = Some x → local_adjacencies (mn_control x) !! l = Some a →
    idle (mn_forward x) l n ∧
    ∃ far y b, mn_far x !! l = Some far ∧ net !! la_peer a = Some y ∧
      local_adjacencies (mn_control y) !! far = Some b ∧ la_peer b = u;
}.

Lemma lookup_planes net u cp :
  planes net !! u = Some cp ↔ ∃ x, net !! u = Some x ∧ mn_control x = cp.
Proof. unfold planes. rewrite lookup_fmap, fmap_Some. naive_solver. Qed.

Lemma set_ttl_id p : set_ttl p (ttl (header p)) = p.
Proof. by destruct p as [[] ? ?]. Qed.
Lemma set_ttl_fits p n : packet_fits p → packet_fits (set_ttl p n).
Proof. done. Qed.

Section Relay.
Context (net : gmap NodeId MeshNode) (size_ : Z) (Hnet : mesh_ready net size_).
Context (now : MonoTime) (d : NodeId).

(** The packet is delivered at the end of the way, or dropped at the node where
    its TTL is used up. *)
Definition outcome (u : NodeId) (path : list NodeId) (p : ForwardPacket) : Fate :=
  if decide (Z.of_nat (length path) < ttl (header p))
  then Delivered d (set_ttl p (ttl (header p) - Z.of_nat (length path)))
  else Lost (default u ((u :: path) !! Z.to_nat (ttl (header p)))) TtlExceeded (set_ttl p 0).

Lemma outcome_expired u path p :
  ttl (header p) = 0 → outcome u path p = Lost u TtlExceeded p.
Proof.
  intros Hz. unfold outcome. rewrite decide_False by lia.
  rewrite Hz. f_equal. by rewrite <-(set_ttl_id p) at 2; rewrite Hz.
Qed.
(** A hop uses up one of the TTL. *)
Lemma outcome_hop u v path p :
  0 < ttl (header p) →
  outcome v path (set_ttl p (ttl (header p) - 1)) = outcome u (v :: path) p.
Proof.
  intros Hpos. unfold outcome. cbn [header ttl set_ttl set_header length].
  destruct (decide (Z.of_nat (length path) < ttl (header p) - 1)) as [E|E].
  - rewrite decide_True by lia.
    replace (ttl (header p) - Z.of_nat (S (length path)))
      with (ttl (header p) - 1 - Z.of_nat (length path)) by lia. done.
  - rewrite decide_False by lia.
    replace (Z.to_nat (ttl (header p))) with (S (Z.to_nat (ttl (header p) - 1))) by lia.
    change ((u :: v :: path) !! S ?n) with ((v :: path) !! n).
    destruct (lookup_lt_is_Some_2 (v :: path) (Z.to_nat (ttl (header p) - 1))) as [w ->]; [cbn; lia|].
    done.
Qed.

(** The packet came over a link from a node farther away. *)
Definition from_farther (u : NodeId) (c : Z) (incoming : option LinkId) : Prop :=
  ∀ l x a, incoming = Some l → net !! u = Some x →
    local_adjacencies (mn_control x) !! l = Some a →
    ∃ c', remaining (planes net) d (la_peer a) c' ∧ c < c'.

(** A packet on its way is sent over the next hop of the node's route. *)
Lemma forward_hop u x r a p incoming :
  net !! u = Some x → u ≠ d → table_routes (fw_routes (mn_forward x)) !! d = Some r →
  local_adjacencies (mn_control x) !! next_hop r = Some a → incoming ≠ Some (next_hop r) →
  packet_type (header p) = Unicast → destination (header p) = d → packet_ok p →
  ForwardPacket_encoded_len p = size_ → ttl (header p) ≠ 0 →
  ∃ fw, process_packet (mn_forward x) incoming p =
        Some (fw, [FaSend (next_hop r) (set_ttl p (ttl (header p) - 1))]).
Proof.
  intros Hx Hne Hr Ha Hloop Htype Hdst [Httl Hfit] Hlen Hz.
  destruct (mr_forward _ _ Hnet _ x Hx) as (Hok & Hme & _).
  destruct (mr_link _ _ Hnet u x _ a Hx Ha) as ((Hup & Hidle) & _).
  rewrite unicast_process, decide_False by done. unfold classify.
  rewrite Hdst, decide_False by congruence. unfold RouteTable_get. rewrite Hr.
  rewrite (decide_False (P := next_hop r ∈ _)) by done.
  rewrite (decide_False (P := incoming = _)) by done.
  apply idle_enqueue; [done|done|]. by rewrite <-Hlen in Hidle.
Qed.

Lemma relay_trip u path c :
  trip (planes net) d u path c →
  ∀ net' incoming p fuel,
    is_Some (net !! u) → NoDup (u :: path) → (∀ w, w ∈ u :: path → net' !! w = net !! w) →
    from_farther u c incoming →
    packet_type (header p) = Unicast → destination (header p) = d → packet_ok p →
    ForwardPacket_encoded_len p = size_ → (length path < fuel)%nat →
    ∃ net'', relay fuel now net' u incoming p = Some (net'', outcome u path p).
Proof.
  pose proof (mr_synced _ _ Hnet) as Hsync.
  induction 1 as [|u cp routes r a path c Hu Hne Hr Hd Ha Ht IH];
    intros net' incoming p fuel [x Hx] Hnd Hsame Hfar Htype Hdst Hp Hlen Hfuel;
    (destruct fuel as [|fuel]; [cbn in Hfuel; lia|]); cbn [relay];
    rewrite Hsame, Hx by set_solver; cbn [mbind option_bind];
    destruct (mr_forward _ _ Hnet _ x Hx) as (_ & Hme & Hroutes);
    pose proof Hp as [Httl _]; unfold is_uint in Httl;
    (assert (handle (mn_forward x) now (arrival incoming p)
             = process_packet (mn_forward x) incoming p) as -> by by destruct incoming);
    (destruct (decide (ttl (header p) = 0)) as [Hz|Hz];
      [rewrite unicast_process, decide_True, outcome_expired by done; by eexists|]).
  - rewrite unicast_process, decide_False by done. unfold classify.
    rewrite Hdst, decide_True by done. eexists. cbn. unfold outcome. cbn [length].
    by rewrite decide_True, Z.sub_0_r, set_ttl_id by lia.
  - pose proof Hu as (x' & Hx' & <-)%lookup_planes. rewrite Hx in Hx'. injection Hx' as <-.
    rewrite Hr in Hroutes. injection Hroutes as ->. pose proof (cost_range (la_cost a)) as Hcost.
    destruct (mr_link _ _ Hnet u x _ a Hx Ha) as (_ & far & y & b & Hf & Hy & Hb & Hpb).
    destruct (forward_hop u x r a p incoming) as [fw' Hq]; try done.
    { intros E. destruct (Hfar _ x a E Hx Ha) as (c' & Hc' & Hlt).
      pose proof (remaining_unique _ _ _ _ _ (trip_remaining _ Hsync d _ _ _ Ht) Hc'). lia. }
    rewrite Hq. cbn [mbind option_bind]. rewrite Ha. cbn [mbind option_bind].
    rewrite Hf. cbn [mbind option_bind]. apply NoDup_cons in Hnd as [Hnot Hnd].
    rewrite <-(outcome_hop u (la_peer a)) by lia. apply IH; try done.
    + intros w Hw. rewrite lookup_insert_ne by (intros ->; done). apply Hsame. set_solver.
    + intros l y' b' [= <-] Hy' Hb'. rewrite Hy in Hy'. injection Hy' as <-. rewrite Hb in Hb'.
      injection Hb' as <-. rewrite Hpb. exists (cost_get (la_cost a) + c). split; [|lia].
      apply (trip_remaining _ Hsync d u (la_peer a :: path)). by econstructor.
    + destruct Hp. split; [|done]. cbn. unfold is_uint. lia.
    + cbn in Hfuel. lia.
Qed.
End Relay.

(** C3: A unicast packet crosses a synchronised mesh whose links are idle.  When
    the mesh has any path from its node to the destination, the forwarders hand
    it on along a cheapest path, from the route of one node to the route of the
    next, and never visit a node twice; it is delivered at the destination with
    its TTL lowered by the number of links and otherwise unchanged when that
    number is below its TTL, and dropped at the node where the TTL is used up
    otherwise.  No more steps are needed than the mesh has nodes. *)
Theorem unicast_crosses_mesh net now u x p q c n :
  mesh_ready net (ForwardPacket_encoded_len p) → net !! u = Some x →
  packet_type (header p) = Unicast → packet_ok p → destination (header p) ≠ u →
  mesh_path (mn_control x) (destination (header p)) q c n →
  ∃ path best net',
    trip (planes net) (destination (header p)) u path best ∧ NoDup (u :: path) ∧
    (∀ q' c' n', mesh_path (mn_control x) (destination (header p)) q' c' n' → best ≤ c') ∧
    relay (size net) now net u None p =
      Some (net', outcome (destination (header p)) u path p).
Proof.
  intros Hnet Hx Htype Hp Hne Hw. pose proof (mr_synced _ _ Hnet) as Hsync.
  assert (Hu : planes net !! u = Some (mn_control x)) by (apply lookup_planes; eauto).
  destruct (mr_forward _ _ Hnet _ x Hx) as (_ & _ & Hroutes).
  pose proof (route_of _ Hsync u _ _ _ Hu Hroutes (not_eq_sym Hne)) as Hr.
  destruct (_ !! destination (header p)) as [r|] eqn:Ed; [|by apply Hr in Hw].
  assert (Hrem : remaining (planes net) (destination (header p)) u (route_cost r))
    by (right; split; [done|]; by exists (mn_control x), (table_routes (fw_routes (mn_forward x))), r).
  destruct (trip_exists _ Hsync _ _ _ Hrem) as (path & Ht & _ & Hnd).
  destruct (relay_trip net _ Hnet now _ u path _ Ht net None p (size net)) as [net' Hrel]; try done.
  - assert (length path < size (planes net))%nat by (eapply trip_short; [done|by eexists|done..]).
    unfold planes in *. by rewrite map_size_fmap in *.
  - exists path, (route_cost r), net'. split_and!; [done..| |done].
    destruct Hr as (p1 & n1 & a1 & _ & _ & Hopt & _). intros q' c' n' Hw'. by apply Hopt in Hw' as [].
Qed.
