(* ===== verification/MeshTraffic.v ===== *)
(** * Traffic of a mesh

    Several packets at once on the links of a mesh of forwarders.  A station is
    a node with the frames its transport is still writing; moves hand in a
    packet, let a frame arrive, or report a written frame to the forwarder the
    way the runtime does (credit, then write permission).  Here are the model
    and what one station does to the packets it holds. *)

From S2P Require Export Prelude Ord Bytes Types Wire WirePackets Forward ForwardSched ForwardInv ForwardRoute ForwardProps ForwardTheorems ControlTypes Control ControlRouting MeshRoutes MeshForward.

(** ** Stations *)

(** [st_written]: the length of the frame under way on a link, until the
    transport reports it as sent. *)
Record Station := { st_node : MeshNode; st_written : gmap LinkId Z }.
Definition st_forward (s : Station) : Forwarder := mn_forward (st_node s).

(** A frame is written only to a link whose last frame was reported. *)
Fixpoint note_sends (written : gmap LinkId Z) (acts : list ForwardAction) : option (gmap LinkId Z) :=
  match acts with
  | [] => Some written
  | FaSend l q :: acts =>
      match written !! l with
      | Some _ => None
      | None => note_sends (<[l := ForwardPacket_encoded_len q]> written) acts
      end
  | _ :: acts => note_sends written acts
  end.
Definition station_handle (now : MonoTime) (s : Station) (e : ForwardEvent) :
  option (Station * list ForwardAction) :=
  '(fw, acts) ← handle (st_forward s) now e;
  written ← note_sends (st_written s) acts;
  Some ({| st_node := set_forward (st_node s) fw; st_written := written |}, acts).
(** The transport reports the frame on [l] as sent. *)
Definition station_sent (now : MonoTime) (s : Station) (l : LinkId) :
  option (Station * list ForwardAction) :=
  n ← st_written s !! l;
  let s := {| st_node := st_node s; st_written := delete l (st_written s) |} in
  '(s, a) ← station_handle now s (FeLinkCredit l n);
  '(s, a') ← station_handle now s (FeLinkWritable l);
  Some (s, a ++ a').

(** ** Moves *)

Record Flight := { f_at : NodeId; f_link : LinkId; f_packet : ForwardPacket }.
Record Traffic := {
  t_stations : gmap NodeId Station;
  t_flying : list Flight;
  t_fates : list Fate;
}.
Definition traffic_start (net : gmap NodeId MeshNode) : Traffic :=
  {| t_stations := (λ x, {| st_node := x; st_written := ∅ |}) <$> net;
     t_flying := []; t_fates := [] |}.

(** What the actions of [u] put on its links and what becomes of packets;
    [None]: a packet is handed back or has to wait for a route. *)
Fixpoint carry (u : NodeId) (x : MeshNode) (acts : list ForwardAction) :
  option (list Flight * list Fate) :=
  match acts with
  | [] => Some ([], [])
  | a :: acts =>
      '(flights, fates) ← carry u x acts;
      match a with
      | FaSend l q =>
          b ← local_adjacencies (mn_control x) !! l;
          far ← mn_far x !! l;
          Some ({| f_at := la_peer b; f_link := far; f_packet := q |} :: flights, fates)
      | FaDeliverLocal q => Some (flights, Delivered u q :: fates)
      | FaDrop reason q => Some (flights, Lost u reason q :: fates)
      | _ => None
      end
  end.

Inductive Move :=
| Submit (u : NodeId) (p : ForwardPacket)
| SubmitMulticast (u : NodeId) (ds : list NodeId) (p : ForwardPacket)
| Arrive (i : nat)
| Sent (u : NodeId) (l : LinkId).

Definition at_station (t : Traffic) (u : NodeId)
    (f : Station → option (Station * list ForwardAction)) : option Traffic :=
  s ← t_stations t !! u;
  '(s, acts) ← f s;
  '(flights, fates) ← carry u (st_node s) acts;
  Some {| t_stations := <[u := s]> (t_stations t);
          t_flying := t_flying t ++ flights; t_fates := t_fates t ++ fates |}.
Definition take_off (t : Traffic) (i : nat) : Traffic :=
  {| t_stations := t_stations t; t_flying := delete i (t_flying t); t_fates := t_fates t |}.

Definition traffic_step (now : MonoTime) (t : Traffic) (m : Move) : option Traffic :=
  match m with
  | Submit u p => at_station t u (λ s, station_handle now s (FeOutbound p))
  | SubmitMulticast u ds p => at_station t u (λ s, station_handle now s (FeOutboundMulticast ds p))
  | Arrive i =>
      f ← t_flying t !! i;
      at_station (take_off t i) (f_at f)
        (λ s, station_handle now s (FeInbound (f_link f) (f_packet f)))
  | Sent u l => at_station t u (λ s, station_sent now s l)
  end.
Fixpoint traffic_run (t : Traffic) (ms : list (MonoTime * Move)) : option Traffic :=
  match ms with
  | [] => Some t
  | (now, m) :: ms => t ← traffic_step now t m; traffic_run t ms
  end.

(** ** What a forwarder holds *)

(** Permutations by counting. *)
Ltac by_count :=
  apply perm_of_occ; intros ?u;
  repeat match goal with H : @Permutation ?T _ _, u : ?T |- _ => apply (occ_perm u) in H end;
  rewrite ?fmap_app, ?fmap_cons, ?fmap_nil, ?occ_app, ?occ_cons, ?occ_nil in *; lia.

Definition link_packets (l : LinkId) (s : LinkQueues) : list (LinkId * ForwardPacket) :=
  (λ x, (l, q_packet x)) <$> mjoin (queues s).
Definition held_packets (fw : Forwarder) : list (LinkId * ForwardPacket) :=
  map_to_list (links fw) ≫= λ '(l, s), link_packets l s.
Definition sends (acts : list ForwardAction) : list (LinkId * ForwardPacket) :=
  omap (λ a, match a with FaSend l q => Some (l, q) | _ => None end) acts.

Lemma sends_app a b : sends (a ++ b) = sends a ++ sends b.
Proof. apply omap_app. Qed.
Lemma sends_action l r : sends (send_action l r) = match r with Some q => [(l, q)] | None => [] end.
Proof. by destruct r. Qed.
Lemma link_packets_default l : link_packets l LinkQueues_default = [].
Proof. done. Qed.
Lemma link_packets_insert l s i x y s' :
  queues s !! i = Some x → queues s' = <[i := y]> (queues s) →
  link_packets l s' ++ ((λ q, (l, q_packet q)) <$> x) ≡ₚ
  link_packets l s ++ ((λ q, (l, q_packet q)) <$> y).
Proof.
  intros Hi Hq. unfold link_packets. rewrite Hq, <-!fmap_app.
  by rewrite (mjoin_insert_perm _ _ _ y Hi).
Qed.
Lemma held_put fw l s :
  held_packets (put_link fw l s) ++ link_packets l (link_state fw l) ≡ₚ held_packets fw ++ link_packets l s.
Proof.
  unfold held_packets, put_link, link_state. cbn [links set_links].
  destruct (links fw !! l) as [s0|] eqn:E; cbn [default from_option id].
  - rewrite <-(insert_delete_eq (links fw) l s). rewrite <-(insert_delete_id (links fw) l s0 E) at 2.
    rewrite !map_to_list_insert by apply lookup_delete_eq. cbn [mbind list_bind].
    rewrite (Permutation_app_comm (link_packets l s)), (Permutation_app_comm (link_packets l s0)).
    rewrite <-!app_assoc. by apply Permutation_app_head, Permutation_app_comm.
  - rewrite map_to_list_insert by done. cbn [mbind list_bind]. rewrite link_packets_default, app_nil_r.
    apply Permutation_app_comm.
Qed.
Lemma held_link fw l x :
  x ∈ mjoin (queues (link_state fw l)) → (l, q_packet x) ∈ held_packets fw.
Proof.
  unfold link_state. destruct (links fw !! l) as [s|] eqn:E; cbn.
  - intros Hx. unfold held_packets. apply list_elem_of_bind. exists (l, s). split.
    + apply list_elem_of_fmap. by exists x.
    + by apply elem_of_map_to_list.
  - by intros ?%not_elem_of_nil.
Qed.
Lemma queue_held fw l i q x : queues (link_state fw l) !! i = Some q → x ∈ q → (l, q_packet x) ∈ held_packets fw.
Proof.
  intros Hi Hx. apply held_link. apply list_elem_of_join. exists q.
  split; [done|]. by eapply list_elem_of_lookup_2.
Qed.
Lemma queue_le_held fw l i q : queues (link_state fw l) !! i = Some q → zlen q ≤ zlen (held_packets fw).
Proof.
  intros Hi. pose proof (held_put fw l LinkQueues_default) as E%zlen_perm.
  rewrite link_packets_default, app_nil_r, zlen_app in E.
  assert (zlen q ≤ zlen (link_packets l (link_state fw l))).
  { unfold link_packets, zlen at 2. rewrite length_fmap. fold (zlen (mjoin (queues (link_state fw l)))).
    rewrite zlen_mjoin. apply zlen_le_zsum. by eapply list_elem_of_lookup_2. }
  pose proof (zlen_nonneg (held_packets (put_link fw l LinkQueues_default))). lia.
Qed.

(** ** Links of a station *)

(** Between frames nothing waits and the link may be written up to [n] bytes;
    while a frame is written, reporting it restores that. *)
Definition open_link (n : Z) (written : option Z) (s : LinkQueues) : Prop :=
  match written with
  | None => writable s = true ∧ Forall (λ q, q = []) (queues s) ∧ n ≤ available_credit_bytes s
  | Some k => writable s = false ∧ n ≤ available_credit_bytes s + k ∧ is_uint 64 k
  end.

Lemma drained s q : queues s !! 0%nat = Some q → blocked s → writable s = true →
  (∀ i x rest, queues s !! i = Some (x :: rest) → queued_len x ≤ available_credit_bytes s) →
  Forall (λ q, q = []) (queues s).
Proof.
  intros H0 [Hb|(p0 & Hp0 & Hb)] Hw Hfit; [congruence|].
  destruct p0 as [|x rest]; [|specialize (Hfit 0%nat x rest Hp0); lia].
  apply Forall_lookup. intros i [|x rest] Hi; [done|].
  specialize (Hfit i x rest Hi). specialize (Hb i x rest Hi). lia.
Qed.

Section Enqueue.
Context (n : Z) (fw : Forwarder) (l : LinkId) (p : ForwardPacket) (incoming : option LinkId).
Context (Hok : fw_ok fw) (Hup : l ∉ down_links fw).

Lemma put_link_frame s :
  fw_me (put_link fw l s) = fw_me fw ∧ fw_routes (put_link fw l s) = fw_routes fw ∧
  down_links (put_link fw l s) = down_links fw ∧ pending_p0 (put_link fw l s) = pending_p0 fw ∧
  ∀ l', l' ≠ l → link_state (put_link fw l s) l' = link_state fw l'.
Proof. split_and!; [done..|]. intros l' Hne. rewrite link_state_put. by rewrite decide_False. Qed.

(** A packet that cannot be conflated joins its queue, and is sent at once
    exactly when the link is free. *)
Lemma enqueue_open w :
  packet_fits p → ¬ conflatable p → zlen (held_packets fw) < 256 → ForwardPacket_encoded_len p ≤ n →
  open_link n w (link_state fw l) →
  ∃ s, let acts := match w with None => [FaSend l p] | Some _ => [] end in
    enqueue fw l p incoming = Some (put_link fw l s, acts) ∧ lq_ok s ∧
    open_link n (Some (default (ForwardPacket_encoded_len p) w)) s ∧
    held_packets (put_link fw l s) ++ sends acts ≡ₚ (l, p) :: held_packets fw.
Proof.
  intros Hfit Hncon Hroom Hlen Hw. unfold enqueue. rewrite decide_False by done.
  set (s0 := link_state fw l) in *. set (i := priority_index (priority (header p))).
  set (new := {| q_incoming := incoming; q_packet := p |}).
  destruct (place_total s0 p incoming (link_state_ok fw l Hok) Hfit)
    as (r & Hr & (q & limit & Hq & Hlim & Hcase) & Hs').
  rewrite Hr. cbn [mbind option_bind]. fold i in Hq, Hlim, Hcase.
  pose proof (queue_le_held fw l i q Hq) as Hql.
  assert (256 ≤ limit) as H256 by (unfold i in Hlim; destruct (priority (header p)); injection Hlim as <-; lia).
  destruct r as [s'|]; [|destruct Hcase; lia].
  destruct Hcase as (Hc' & Hw' & [(Hq' & _)|(k & old & key & _ & Hkey & _)]);
    [|destruct Hncon; by eexists].
  assert (Hheld : held_packets (put_link fw l s') ≡ₚ (l, p) :: held_packets fw).
  { pose proof (held_put fw l s') as E0. fold s0 in E0.
    pose proof (link_packets_insert l s0 i q (q ++ [new]) s' Hq Hq') as E.
    rewrite fmap_app, fmap_cons in E. change (q_packet new) with p in E. by_count. }
  fold (put_link fw l s'). rewrite try_send_one_put.
  destruct w as [k|]; cbn [open_link] in Hw |- *.
  - destruct Hw as (Hwr & Hcr & Hk). exists s'. unfold try_send. rewrite Hw', Hwr.
    split; [done|]. split; [done|]. cbn [sends omap list_omap send_action app].
    rewrite app_nil_r. split; [|done]. by rewrite Hc'.
  - destruct Hw as (Hwr & He & Hcr). rewrite Forall_lookup in He.
    pose proof (He i q Hq) as ->.
    destruct (send_only s' i new) as [s2 Hs2]; [done|congruence|rewrite Hc'; unfold queued_len; cbn; lia| |apply priority_index_lt|].
    { intros j qj. rewrite Hq'. intros [[<- ->]|[Hne Hj]]%lookup_insert_queue.
      - by rewrite decide_True.
      - rewrite decide_False by done. by eapply He.
      - apply (link_state_ok fw l Hok).
      - apply priority_index_lt. }
    destruct (try_send_spec s' Hs') as (s2' & r & Hs2' & Hok2 & Hspec).
    rewrite Hs2 in Hs2'. injection Hs2' as <- <-. exists s2. rewrite Hs2.
    split; [done|]. split; [done|]. cbn [send_spec] in Hspec.
    destruct Hspec as (_ & j & y & Hy & [(rest & Hf & Hq2) _ _ Hc2 Hw2 _] & _). split.
    + cbn. rewrite Hw2, Hc2, Hc'. split; [done|]. cbn in Hy. subst p. 
      unfold queued_len. pose proof (encoded_len_range (q_packet y)). unfold is_uint, u_max in *. lia.
    + pose proof (held_put fw l s2) as E0. fold s0 in E0. pose proof (held_put fw l s') as E1. fold s0 in E1.
      pose proof (link_packets_insert l s' j _ rest s2 Hf Hq2) as E.
      cbn [sends omap list_omap]. cbn in Hy. subst p. clear Hr Hlim Hfit Hncon Hlen Hs2.  by_count.
Qed.
End Enqueue.

(** A written frame is reported: the link is free again, or the next packet
    that waits for it is sent. *)
Lemma sent_open n fw l k :
  fw_ok fw → l ∉ down_links fw → n ≤ u_max 64 → open_link n (Some k) (link_state fw l) →
  (∀ q, (l, q) ∈ held_packets fw → ForwardPacket_encoded_len q ≤ n) →
  ∃ s1 s2 r, grant_credit fw l k = Some (put_link fw l s1, []) ∧ lq_ok s1 ∧
    mark_writable (put_link fw l s1) l = Some (put_link fw l s2, send_action l r) ∧ lq_ok s2 ∧
    open_link n (ForwardPacket_encoded_len <$> r) s2 ∧
    held_packets (put_link fw l s2) ++ sends (send_action l r) ≡ₚ held_packets fw.
Proof.
  intros Hok Hup Hn (Hwr & Hcr & Hk) Hfit. set (s0 := link_state fw l) in *.
  pose proof (link_state_ok fw l Hok) as Hs0. fold s0 in Hs0.
  set (s1 := set_credit s0 (sat_add usize_bits (available_credit_bytes s0) k)).
  assert (Hs1 : lq_ok s1).
  { destruct Hs0 as [H1 H2 H3 H4 [H5 H6]]. constructor; try done. cbn.
    unfold is_uint, sat_add, u_max in *. lia. }
  assert (Hs1' : lq_ok (set_writable s1 true)) by by destruct Hs1 as [H1 H2 H3 H4 [H5 H6]]; constructor.
  assert (Hc1 : n ≤ available_credit_bytes s1)
    by (cbn; unfold sat_add, u_max in *; lia).
  destruct (try_send_spec (set_writable s1 true) Hs1') as (s2 & r & Hs2 & Hok2 & Hspec).
  exists s1, s2, r. unfold grant_credit, mark_writable. rewrite !decide_False by done.
  fold s0. fold s1. fold (put_link fw l s1). rewrite try_send_one_put.
  unfold try_send at 1. cbn [writable set_credit s1]. rewrite Hwr. cbn [negb mbind option_bind].
  split; [done|]. split; [done|]. fold s1. rewrite link_state_put, decide_True by done.
  assert (put_link (put_link fw l s1) l (set_writable s1 true) = put_link fw l (set_writable s1 true)) as E1.
  { unfold put_link, set_links. cbn. by rewrite insert_insert_eq. }
  unfold put_link at 1 in E1. rewrite E1, try_send_one_put, Hs2. cbn [mbind option_bind].
  split; [done|]. split; [done|].
  pose proof (held_put fw l s2) as E2. fold s0 in E2. destruct r as [q|]; cbn [send_spec] in Hspec.
  - destruct Hspec as (_ & j & y & -> & [(rest & Hf & Hq2) _ Hfy Hc2 Hw2 _] & _). cbn in Hf, Hq2.
    pose proof (link_packets_insert l s0 j _ rest s2 Hf Hq2) as E. split.
    + cbn. rewrite Hw2, Hc2. cbn [available_credit_bytes set_writable]. unfold queued_len.
      pose proof (encoded_len_range (q_packet y)). unfold is_uint, u_max in *. split; [done|]. lia.
    + cbn [send_action sends omap list_omap]. clear Hs2. by_count.
  - destruct Hspec as [[Hq2 _ Hc2 Hw2 _] Hb]. cbn in Hq2. split.
    + cbn. rewrite Hw2, Hc2, Hq2. split; [done|]. split; [|exact Hc1].
      destruct (lookup_lt_is_Some_2 (queues s0) 0) as [q0 Hq0]; [rewrite (lq_shape _ Hs0); lia|].
      apply (drained (set_writable s1 true) q0 Hq0 Hb eq_refl). intros i x rest Hi. cbn in Hi.
      assert (queued_len x ≤ n); [|cbn in *; lia]. apply Hfit. eapply queue_held; [exact Hi|by left].
    + cbn [send_action sends omap list_omap]. rewrite app_nil_r.
      assert (link_packets l s2 = link_packets l s0) as E3 by (unfold link_packets; by rewrite Hq2).
      rewrite E3 in E2. by apply (Permutation_app_inv_r (link_packets l s0)).
Qed.

(** ** One station *)

(** The links in [Up] are up; what the station holds waits for one of them and
    cannot be conflated. *)
Record node_ok (Up : LinkId → Prop) (n : Z) (fw : Forwarder) (W : gmap LinkId Z) : Prop := {
  no_fw : fw_ok fw;
  no_up l : Up l → l ∉ down_links fw ∧ n ≤ u_max 64 ∧ open_link n (W !! l) (link_state fw l);
  no_written l : is_Some (W !! l) → Up l;
  no_held l q : (l, q) ∈ held_packets fw → Up l ∧ ¬ conflatable q ∧ ForwardPacket_encoded_len q ≤ n;
}.
(** What does not change while packets come and go. *)
Definition same_env (fw fw' : Forwarder) : Prop :=
  fw_me fw' = fw_me fw ∧ fw_routes fw' = fw_routes fw ∧ down_links fw' = down_links fw.

Lemma note_sends_app W a b :
  note_sends W (a ++ b) = (W' ← note_sends W a; note_sends W' b).
Proof.
  revert W. induction a as [|x a IH]; intros W; [done|].
  destruct x as [l q| | | |]; cbn; try apply IH. destruct (W !! l); [done|apply IH].
Qed.

Lemma node_put Up n fw W W' l s acts input :
  node_ok Up n fw W → Up l → lq_ok s → open_link n (W' !! l) s →
  (∀ l', l' ≠ l → W' !! l' = W !! l') →
  held_packets (put_link fw l s) ++ sends acts ≡ₚ input ++ held_packets fw →
  (∀ l' q, (l', q) ∈ input → Up l' ∧ ¬ conflatable q ∧ ForwardPacket_encoded_len q ≤ n) →
  node_ok Up n (put_link fw l s) W'.
Proof.
  intros [H1 H2 H3 H4] Hl Hs Ho HW Hheld Hin. destruct (H2 l Hl) as (Hd & Hn & _). constructor.
  - by apply fw_ok_put_link.
  - intros l' Hl'. destruct (H2 l' Hl') as (Hd' & _ & Ho'). split; [done|]. split; [done|].
    rewrite link_state_put. case_decide as E; [by subst l'|]. by rewrite HW.
  - intros l' Hs'. destruct (decide (l' = l)) as [->|Hne]; [done|]. apply H3. by rewrite <-HW.
  - intros l' q Hq. assert ((l', q) ∈ input ++ held_packets fw) as [Hq'|Hq']%elem_of_app; [|by auto..].
    rewrite <-Hheld. apply elem_of_app. by left.
Qed.

Definition is_send (a : ForwardAction) : Prop := match a with FaSend _ _ => True | _ => False end.

Lemma node_enqueue Up n fw W incoming branches :
  node_ok Up n fw W → zlen (held_packets fw) + zlen branches ≤ 256 →
  (∀ l q, (l, q) ∈ branches →
     Up l ∧ packet_fits q ∧ ¬ conflatable q ∧ ForwardPacket_encoded_len q ≤ n) →
  ∃ fw' acts W', enqueue_list fw incoming branches = Some (fw', acts) ∧
    note_sends W acts = Some W' ∧ Z.of_nat (size W') = Z.of_nat (size W) + zlen (sends acts) ∧
    node_ok Up n fw' W' ∧ same_env fw fw' ∧
    held_packets fw' ++ sends acts ≡ₚ branches ++ held_packets fw ∧ Forall is_send acts.
Proof.
  revert fw W. induction branches as [|[l q] branches IH]; intros fw W Hok Hroom Hbr.
  { exists fw, [], W. cbn. rewrite app_nil_r, zlen_nil. split_and!; [done..|lia|done|done|done|done]. }
  destruct (Hbr l q) as (Hl & Hfit & Hc & Hlen); [by left|].
  destruct (no_up _ _ _ _ Hok l Hl) as (Hd & Hn & Ho). rewrite zlen_cons in Hroom.
  pose proof (zlen_nonneg branches).
  destruct (enqueue_open n fw l q incoming (no_fw _ _ _ _ Hok) Hd (W !! l)) as (s & He & Hs & Ho' & Hheld);
    [done|done|lia|done|done|]. cbn [enqueue_list]. rewrite He. cbn [mbind option_bind].
  set (a := match W !! l with None => [FaSend l q] | Some _ => [] end) in *.
  set (W1 := <[l := default (ForwardPacket_encoded_len q) (W !! l)]> W).
  assert (Hnote : note_sends W a = Some W1 ∧ Z.of_nat (size W1) = Z.of_nat (size W) + zlen (sends a)).
  { unfold a, W1. destruct (W !! l) as [k|] eqn:E; cbn.
    - rewrite insert_id by done. rewrite zlen_nil. split; [done|lia].
    - rewrite E, map_size_insert_None by done. split; [done|]. unfold zlen. cbn. lia. }
  destruct Hnote as [Hnote Hsize].
  assert (Hok1 : node_ok Up n (put_link fw l s) W1).
  { apply (node_put Up n fw W W1 l s a [(l, q)]); try done.
    - unfold W1. by rewrite lookup_insert_eq.
    - intros l' Hne. unfold W1. by rewrite lookup_insert_ne.
    - intros l' q' [= -> ->]%list_elem_of_singleton. done. }
  pose proof (zlen_perm _ _ Hheld) as Hz. rewrite zlen_app, zlen_cons in Hz.
  pose proof (zlen_nonneg (sends a)).
  destruct (IH (put_link fw l s) W1 Hok1) as (fw' & a' & W' & -> & Hnote' & Hsize' & Hok' & Henv & Hheld' & Hall);
    [lia|intros l' q' Hin; apply Hbr; by right|].
  cbn [mbind option_bind]. exists fw', (a ++ a'), W'. split; [done|].
  rewrite note_sends_app, Hnote, sends_app, zlen_app. split; [done|]. split; [lia|].
  split; [done|]. split; [done|]. split; [clear He; by_count|].
  apply Forall_app. split; [|done]. unfold a. destruct (W !! l); by repeat constructor.
Qed.

(** A report lets the next packet of the link go, or leaves the link free. *)
Lemma node_sent Up n now s l k :
  node_ok Up n (st_forward s) (st_written s) → st_written s !! l = Some k →
  ∃ fw' acts W',
    station_sent now s l =
      Some ({| st_node := set_forward (st_node s) fw'; st_written := W' |}, acts) ∧
    Z.of_nat (size W') = Z.of_nat (size (st_written s)) - 1 + zlen (sends acts) ∧
    node_ok Up n fw' W' ∧ same_env (st_forward s) fw' ∧
    held_packets fw' ++ sends acts ≡ₚ held_packets (st_forward s) ∧ Forall is_send acts.
Proof.
  destruct s as [x W]. cbn [st_forward st_node st_written]. set (fw := mn_forward x).
  intros Hok Hk. pose proof (no_written _ _ _ _ Hok l (mk_is_Some _ _ Hk)) as Hl.
  destruct (no_up _ _ _ _ Hok l Hl) as (Hd & Hn & Ho). rewrite Hk in Ho.
  destruct (sent_open n fw l k (no_fw _ _ _ _ Hok) Hd Hn Ho) as (s1 & s2 & r & Hg & Hs1 & Hm & Hs2 & Ho2 & Hheld).
  { intros q Hq. by destruct (no_held _ _ _ _ Hok l q Hq) as (_ & _ & ?). }
  set (W2 := match r with Some q => <[l := ForwardPacket_encoded_len q]> (delete l W) | None => delete l W end).
  exists (put_link fw l s2), (send_action l r), W2. split.
  { unfold station_sent. cbn [st_written st_node]. rewrite Hk. cbn [mbind option_bind].
    unfold station_handle, st_forward. cbn [st_written st_node handle Forwarder_component fw_handle].
    fold fw. rewrite Hg. cbn [mbind option_bind note_sends st_node set_forward mn_forward st_written].
    rewrite Hm. cbn [mbind option_bind]. unfold W2.
    destruct r; cbn [send_action note_sends app]; rewrite ?lookup_delete_eq; done. }
  split.
  { assert (size (delete l W) = pred (size W)) as Hsz by (by apply map_size_delete_Some; eexists).
    assert (size W ≠ 0)%nat by (intros Hz%map_size_empty_iff; by rewrite Hz, lookup_empty in Hk).
    unfold W2. rewrite sends_action. destruct r; rewrite ?map_size_insert_None by apply lookup_delete_eq;
      unfold zlen; cbn; lia. }
  split; [|split; [done|split; [done|destruct r; by repeat constructor]]].
  apply (node_put Up n fw W W2 l s2 (send_action l r) []); try done.
  - unfold W2. destruct r; cbn in Ho2 |- *; by rewrite ?lookup_insert_eq, ?lookup_delete_eq.
  - intros l' Hne. unfold W2. destruct r; by rewrite ?lookup_insert_ne, ?lookup_delete_ne by done.
  - intros l' q []%not_elem_of_nil.
Qed.
