(* ===== verification/MeshDelivery.v ===== *)
(** * Delivery across a mesh

    The packets under way in a synchronised mesh: every one is on a cheapest
    way to each of its destinations, none is lost, and every destination of
    every packet is reached exactly once, whatever the order of arrivals and of
    the reports of the transport. *)

From S2P Require Export Prelude Ord Bytes Types Wire WirePackets Forward ForwardSched ForwardInv ForwardRoute ForwardProps ForwardTheorems ControlTypes Control ControlRouting MeshRoutes MeshForward MeshTraffic.

Definition dests (p : ForwardPacket) : list NodeId :=
  if decide (packet_type (header p) = Multicast) then multicast_destinations p
  else [destination (header p)].
Lemma units_dests p : units p = spread p (dests p).
Proof. unfold units, dests, spread. by case_decide. Qed.

(** ** Accounting *)

Definition fate_units (f : Fate) : list unit_of :=
  match f with Delivered v q => [(v, tag q)] | Lost _ _ _ => [] end.
Definition station_units (s : Station) : list unit_of := (held_packets (st_forward s)).*2 ≫= units.
(** One unit for every destination of every packet on a link or in a queue, and
    for every delivery. *)
Definition under_way (t : Traffic) : list unit_of :=
  ((f_packet <$> t_flying t) ≫= units) ++ (btree_values (t_stations t) ≫= station_units).
Definition delivered (t : Traffic) : list unit_of := t_fates t ≫= fate_units.
Definition accounted (t : Traffic) : list unit_of := under_way t ++ delivered t.

(** A measure that every arrival and every report lowers. *)
Definition flying_weight (p : ForwardPacket) : Z := zlen (dests p) * (3 * ttl (header p) + 1).
Definition queued_weight (p : ForwardPacket) : Z := zlen (dests p) * (3 * ttl (header p) + 3).
Definition station_weight (s : Station) : Z :=
  zsum (queued_weight <$> (held_packets (st_forward s)).*2) + Z.of_nat (size (st_written s)).
Definition traffic_weight (t : Traffic) : Z :=
  zsum (flying_weight <$> (f_packet <$> t_flying t)) +
  zsum (station_weight <$> btree_values (t_stations t)).

Lemma occ_accounted v t :
  occ v (accounted t) =
  occ v ((f_packet <$> t_flying t) ≫= units) +
  zsum ((λ s, occ v (station_units s)) <$> btree_values (t_stations t)) + occ v (delivered t).
Proof. unfold accounted, under_way. by rewrite !occ_app, (occ_bind v station_units). Qed.

(** A flight is taken off the list. *)
Lemma delete_perm {A} (l : list A) i x : l !! i = Some x → l ≡ₚ x :: delete i l.
Proof. apply delete_Permutation. Qed.
Lemma take_off_units t i f :
  t_flying t !! i = Some f → accounted t ≡ₚ units (f_packet f) ++ accounted (take_off t i).
Proof.
  intros Hi. unfold accounted, under_way. cbn [t_flying t_stations t_fates take_off].
  rewrite (delete_perm (t_flying t) i f Hi) at 1. rewrite fmap_cons. cbn [mbind list_bind].
  by rewrite <-!app_assoc.
Qed.
Lemma take_off_weight t i f :
  t_flying t !! i = Some f → traffic_weight t = flying_weight (f_packet f) + traffic_weight (take_off t i).
Proof.
  intros Hi. unfold traffic_weight. cbn [t_flying t_stations take_off].
  rewrite (zsum_perm _ (flying_weight <$> (f_packet <$> (f :: delete i (t_flying t))))).
  - rewrite !fmap_cons, zsum_cons. lia.
  - by rewrite (delete_perm (t_flying t) i f Hi) at 1.
Qed.
Lemma zsum_le {A} (f g : A → Z) l : (∀ x, x ∈ l → f x ≤ g x) → zsum (f <$> l) ≤ zsum (g <$> l).
Proof.
  induction l as [|x l IH]; intros Hle; [done|]. rewrite !fmap_cons, !zsum_cons.
  pose proof (Hle x ltac:(by left)). specialize (IH (λ y Hy, Hle y ltac:(by right))). lia.
Qed.

(** ** The way of a packet *)

Section Way.
Context (net : gmap NodeId MeshNode) (n : Z) (Hnet : mesh_ready net n).

(** [d] can be reached from [v] with the TTL [t], and the link over which the
    packet came leads away from it. *)
Definition on_way (v : NodeId) (incoming : option LinkId) (d : NodeId) (t : Z) : Prop :=
  ∃ path c, trip (planes net) d v path c ∧ Z.of_nat (length path) < t ∧
    from_farther net d v c incoming.

(** A packet that is about to be handled at [v]. *)
Record flight_ok (v : NodeId) (incoming : option LinkId) (p : ForwardPacket) : Prop := {
  fk_at : is_Some (net !! v);
  fk_type : packet_type (header p) = Unicast ∨
            packet_type (header p) = Multicast ∧ multicast_ok (multicast_destinations p) (payload p);
  fk_conflate : ¬ conflatable p;
  fk_ok : packet_ok p;
  fk_len : ForwardPacket_encoded_len p ≤ n;
  fk_way d : d ∈ dests p → on_way v incoming d (ttl (header p));
}.
(** A packet for the link [l] of [u]. *)
Definition over (u : NodeId) (l : LinkId) (q : ForwardPacket) : Prop :=
  ∃ x a far, net !! u = Some x ∧ local_adjacencies (mn_control x) !! l = Some a ∧
    mn_far x !! l = Some far ∧ flight_ok (la_peer a) (Some far) q.

Lemma on_way_hop u x fw incoming d t :
  net !! u = Some x → same_env (mn_forward x) fw → on_way u incoming d t → d ≠ u →
  ∃ l a far, classify fw incoming d = Via l ∧ local_adjacencies (mn_control x) !! l = Some a ∧
    mn_far x !! l = Some far ∧ is_Some (net !! la_peer a) ∧
    on_way (la_peer a) (Some far) d (t - 1).
Proof.
  intros Hx (Hme' & Hroutes' & Hdown') (path & c & Ht & Hlen & Hfar) Hne.
  pose proof (mr_synced _ _ Hnet) as Hsync.
  destruct (mr_forward _ _ Hnet _ x Hx) as (_ & Hme & Hroutes).
  pose proof Ht as Htrip. destruct Ht as [|u cp routes r a path' c' Hu _ Hr Hd Ha Ht']; [done|].
  apply lookup_planes in Hu as (x' & Hx' & <-). rewrite Hx in Hx'. injection Hx' as <-.
  rewrite Hr in Hroutes. injection Hroutes as ->.
  destruct (mr_link _ _ Hnet u x _ a Hx Ha) as ((Hup & _) & far & y & b & Hf & Hy & Hb & Hpb).
  pose proof (cost_range (la_cost a)) as Hcost.
  exists (next_hop r), a, far. split; [|split; [done|split; [done|split; [by eexists|]]]].
  - unfold classify. rewrite Hme', Hroutes', Hdown', decide_False by congruence.
    unfold RouteTable_get. rewrite Hd. rewrite decide_False by done.
    rewrite decide_False; [done|]. intros E.
    destruct (Hfar _ x a E Hx Ha) as (c2 & Hc2 & Hlt).
    pose proof (remaining_unique _ _ _ _ _ (trip_remaining _ Hsync d _ _ _ Ht') Hc2). lia.
  - exists path', c'. split; [done|]. cbn in Hlen. split; [lia|].
    intros l y' b' [= <-] Hy' Hb'. rewrite Hy in Hy'. injection Hy' as <-. rewrite Hb in Hb'.
    injection Hb' as <-. rewrite Hpb. exists (cost_get (la_cost a) + c'). split; [|lia].
    by apply (trip_remaining _ Hsync d u (la_peer a :: path')).
Qed.
(** A packet is split into what is delivered here and packets for links, each on
    its way, with the TTL lowered by one. *)
Lemma subset_len p ds t :
  multicast_ok (multicast_destinations p) (payload p) → packet_type (header p) = Multicast →
  zlen ds ≤ zlen (multicast_destinations p) →
  ForwardPacket_encoded_len (subset_packet p ds t) ≤ ForwardPacket_encoded_len p.
Proof.
  intros (_ & Hl & _) Hm Hle. unfold ForwardPacket_encoded_len. rewrite Hm, !decide_True by done.
  unfold subset_packet. cbn [multicast_destinations set_parts payload]. rewrite zlen_osort.
  pose proof (zlen_nonneg ds). rewrite !multicast_prefix_len_small by lia.
  unfold sat_add. lia.
Qed.
Lemma subset_conflatable p ds t : conflatable (subset_packet p ds t) ↔ conflatable p.
Proof. done. Qed.

Lemma no_verdict u x fw incoming p v :
  net !! u = Some x → same_env (mn_forward x) fw → flight_ok u incoming p →
  (v = Unrouted ∨ v = Looped) →
  filter (λ d, classify fw incoming d = v) (osort (dests p)) = [].
Proof.
  intros Hx Henv Hf Hv. destruct (filter _ _) as [|d k] eqn:E; [done|]. exfalso.
  assert (Hd : d ∈ d :: k) by by left. rewrite <-E in Hd.
  apply list_elem_of_filter in Hd as [Hc Hd]. rewrite elem_of_osort in Hd.
  destruct (decide (d = u)) as [->|Hne].
  - destruct (mr_forward _ _ Hnet _ x Hx) as (_ & Hme & _). destruct Henv as (Hme' & _).
    unfold classify in Hc. rewrite decide_True in Hc by congruence. destruct Hv; congruence.
  - destruct (on_way_hop u x fw incoming d _ Hx Henv (fk_way _ _ _ Hf d Hd) Hne)
      as (l & a & far & Hc' & _). destruct Hv; congruence.
Qed.

(** What the branches of a multicast carry. *)
Lemma branch_units p bs m v :
  occ v (((λ b : LinkId * list NodeId, (b.1, subset_packet p b.2 m)) <$> bs).*2 ≫= units) =
  occ v (spread p (mjoin bs.*2)).
Proof.
  induction bs as [|[l ds] bs IH]; [done|]. rewrite !fmap_cons.
  change (mjoin (_ :: ?k)) with (ds ++ mjoin k). cbn [snd mbind list_bind].
  rewrite spread_app, !occ_app, subset_packet_units. fold (spread p ds). lia.
Qed.
(** A branch is on its way over its link. *)
Lemma branch_over u x fw incoming p l :
  net !! u = Some x → same_env (mn_forward x) fw → flight_ok u incoming p →
  packet_type (header p) = Multicast → 0 < ttl (header p) →
  let ds := filter (λ d, classify fw incoming d = Via l) (osort (dests p)) in
  ds ≠ [] → multicast_ok ds (payload p) → over u l (subset_packet p ds (ttl (header p) - 1)).
Proof.
  intros Hx Henv Hf Hm Httl ds Hne Hok'.
  pose proof (fk_type _ _ _ Hf) as [Hm'|[_ Hmok]]; [congruence|].
  assert (Hdd : dests p = multicast_destinations p) by (unfold dests; by rewrite decide_True).
  destruct (mr_forward _ _ Hnet _ x Hx) as (_ & Hme & _). pose proof Henv as (Hme' & _).
  assert (Hway : ∀ d, d ∈ ds →
    ∃ a far, local_adjacencies (mn_control x) !! l = Some a ∧ mn_far x !! l = Some far ∧
      is_Some (net !! la_peer a) ∧ on_way (la_peer a) (Some far) d (ttl (header p) - 1)).
  { intros d [Hc Hd]%list_elem_of_filter. rewrite elem_of_osort in Hd.
    assert (d ≠ u).
    { intros ->. unfold classify in Hc. by rewrite decide_True in Hc by congruence. }
    destruct (on_way_hop u x fw incoming d _ Hx Henv (fk_way _ _ _ Hf d Hd)) as (l2 & a & far & Hc' & H');
      [done|]. rewrite Hc in Hc'. injection Hc' as <-. by exists a, far. }
  destruct ds as [|d0 k] eqn:Ek; [done|]. rewrite <-Ek in *.
  destruct (Hway d0) as (a & far & Ha & Hfar & Hat & _); [rewrite Ek; by left|].
  exists x, a, far. split; [done|]. split; [done|]. split; [done|].
  assert (Hsub : zlen ds ≤ zlen (multicast_destinations p)).
  { pose proof (sublist_length _ _ (sublist_filter (λ d, classify fw incoming d = Via l) (osort (dests p)))) as Hl.
    rewrite <-Hdd, <-(zlen_osort (dests p)). unfold ds, zlen. lia. }
  pose proof (fk_ok _ _ _ Hf) as [Hu _]. unfold is_uint in Hu. constructor.
  - done.
  - right. split; [done|]. cbn. by apply multicast_ok_osort.
  - rewrite subset_conflatable. apply (fk_conflate _ _ _ Hf).
  - split; [cbn; unfold is_uint; lia|]. by apply subset_packet_fits.
  - etrans; [by apply subset_len|]. apply (fk_len _ _ _ Hf).
  - intros d Hd. unfold dests in Hd. rewrite decide_True in Hd by done. cbn in Hd.
    rewrite elem_of_osort in Hd. destruct (Hway d Hd) as (a' & far' & Ha' & Hfar' & _ & Hw).
    rewrite Ha in Ha'. rewrite Hfar in Hfar'. by simplify_eq.
Qed.

Lemma route_multicast u x fw incoming p :
  net !! u = Some x → same_env (mn_forward x) fw → fw_ok fw → flight_ok u incoming p →
  packet_type (header p) = Multicast →
  ∃ local branches,
    process_packet fw incoming p =
      ('(fw', a) ← enqueue_list fw incoming branches; Some (fw', local ++ a)) ∧
    (local = [] ∨ ∃ q, local = [FaDeliverLocal q] ∧ destination (header q) = u) ∧
    (∀ l q, (l, q) ∈ branches → over u l q ∧ ttl (header q) = ttl (header p) - 1) ∧
    units p ≡ₚ acts_units local ++ (branches.*2 ≫= units).
Proof.
  intros Hx Henv Hok Hf Hm. pose proof (fk_type _ _ _ Hf) as [Hm'|[_ Hmok]]; [congruence|].
  assert (Hdd : dests p = multicast_destinations p) by (unfold dests; by rewrite decide_True).
  destruct (mr_forward _ _ Hnet _ x Hx) as (_ & Hme & _). pose proof Henv as (Hme' & _).
  assert (Httl : 0 < ttl (header p)).
  { destruct Hmok as (Hne & _). destruct (multicast_destinations p) as [|d k] eqn:Ed; [done|].
    destruct (fk_way _ _ _ Hf d) as (path & c & _ & Hlt & _); [rewrite Hdd; by left|lia]. }
  destruct (multicast_process fw incoming p Hok Hm Httl Hmok)
    as (bs & fw' & rest & Hproc & Hbs & _ & Hbr & Hocc).
  rewrite <-Hdd in Hproc, Hocc, Hbr. set (ds := osort (dests p)) in *.
  unfold ds in Hproc at 2 3. unfold ds in Hocc at 4 5.
  rewrite !(no_verdict u x fw incoming p) in Hproc, Hocc by auto.
  assert (Hall : Forall (λ b, multicast_ok b.2 (payload p)) bs).
  { apply Forall_forall. intros [l ds'] [Hne ->]%Hbr. cbn.
    eapply multicast_ok_sub; [by apply multicast_ok_osort|done|]. rewrite <-Hdd. apply sublist_filter. }
  rewrite enqueue_branches_list in Hbs by done.
  eexists _, _. split; [|split; [|split]].
  - rewrite Hproc, Hbs. cbn [mbind option_bind dropped_part app]. reflexivity.
  - destruct (decide (fw_me fw ∈ ds)); [right|by left]. eexists. split; [reflexivity|]. cbn. congruence.
  - intros l q ((l' & ds') & [= -> ->] & Hin)%list_elem_of_fmap. cbn [fst snd]. split; [|done].
    rewrite Forall_forall in Hall. pose proof (Hall _ Hin) as Hok'. cbn in Hok'.
    apply Hbr in Hin as [Hne ->]. by apply (branch_over u x fw incoming p l').
  - apply perm_of_occ. intros v. specialize (Hocc v). rewrite units_dests.
    rewrite (occ_perm v (spread p (dests p)) (spread p ds))
      by (unfold spread, ds; by rewrite osort_perm).
    rewrite Hocc, !occ_app. change (occ v (spread p [])) with 0.
    rewrite branch_units. destruct (decide (fw_me fw ∈ ds)).
    + rewrite acts_units_one.
      change (action_units (FaDeliverLocal (local_copy fw p (payload p)))) with (spread p [fw_me fw]). lia.
    + change (occ v (spread p [])) with 0. change (occ v (acts_units [])) with 0. lia.
Qed.

Lemma route_packet u x fw incoming p :
  net !! u = Some x → same_env (mn_forward x) fw → fw_ok fw → flight_ok u incoming p →
  ∃ local branches,
    process_packet fw incoming p =
      ('(fw', a) ← enqueue_list fw incoming branches; Some (fw', local ++ a)) ∧
    (local = [] ∨ ∃ q, local = [FaDeliverLocal q] ∧ destination (header q) = u) ∧
    (∀ l q, (l, q) ∈ branches → over u l q ∧ ttl (header q) = ttl (header p) - 1) ∧
    units p ≡ₚ acts_units local ++ (branches.*2 ≫= units).
Proof.
  intros Hx Henv Hok Hf. pose proof (fk_type _ _ _ Hf) as [Hm|[Hm _]]; [|by eapply route_multicast].
  pose proof (fk_ok _ _ _ Hf) as [Hu Hfit]. set (d := destination (header p)).
  assert (Hdd : dests p = [d]) by (unfold dests; rewrite decide_False by (rewrite Hm; done); done).
  assert (Hun : units p = [(d, tag p)]) by by rewrite units_dests, Hdd.
  destruct (mr_forward _ _ Hnet _ x Hx) as (_ & Hme & _). pose proof Henv as (Hme' & _).
  assert (Hway : on_way u incoming d (ttl (header p))) by (apply (fk_way _ _ _ Hf); rewrite Hdd; by left).
  assert (Httl : 0 < ttl (header p)) by (destruct Hway as (path & c & _ & Hlt & _); lia).
  rewrite unicast_process, decide_False by (done || lia).
  destruct (decide (d = u)) as [E|E].
  - exists [FaDeliverLocal p], []. unfold classify. fold d. rewrite decide_True by congruence.
    split; [done|]. split; [right; by exists p|]. split; [intros l q []%not_elem_of_nil|].
    by rewrite Hun.
  - destruct (on_way_hop u x fw incoming d _ Hx Henv Hway E) as (l & a & far & Hc & Ha & Hfar & Hat & Hw).
    fold d. rewrite Hc. exists [], [(l, set_ttl p (ttl (header p) - 1))]. split.
    { cbn [enqueue_list]. destruct (enqueue _ _ _ _) as [[fw' acts]|]; [|done].
      cbn. by rewrite app_nil_r. }
    split; [by left|]. split; [|cbn; by rewrite units_set_ttl, app_nil_r].
    intros l' q [= -> ->]%list_elem_of_singleton. split; [|done].
    exists x, a, far. split; [done|]. split; [done|]. split; [done|].
    unfold is_uint in Hu. constructor; try done.
    + by left.
    + apply (fk_conflate _ _ _ Hf).
    + split; [cbn; unfold is_uint; lia|done].
    + apply (fk_len _ _ _ Hf).
    + intros d' Hd'. change (dests (set_ttl p (ttl (header p) - 1))) with (dests p) in Hd'.
      rewrite Hdd in Hd'. by apply list_elem_of_singleton in Hd' as ->.
Qed.

(** ** The state of the traffic *)

Definition Up_of (x : MeshNode) (l : LinkId) : Prop := is_Some (local_adjacencies (mn_control x) !! l).
Record station_ok (u : NodeId) (x : MeshNode) (s : Station) : Prop := {
  so_static : mn_control (st_node s) = mn_control x ∧ mn_far (st_node s) = mn_far x;
  so_env : same_env (mn_forward x) (st_forward s);
  so_node : node_ok (Up_of x) n (st_forward s) (st_written s);
  so_held l q : (l, q) ∈ held_packets (st_forward s) → over u l q;
}.
Record traffic_ok (t : Traffic) : Prop := {
  to_station u x : net !! u = Some x → ∃ s, t_stations t !! u = Some s ∧ station_ok u x s;
  to_dom u : is_Some (t_stations t !! u) → is_Some (net !! u);
  to_flying f : f ∈ t_flying t → flight_ok (f_at f) (Some (f_link f)) (f_packet f);
  to_fates f : f ∈ t_fates t → ∃ u q, f = Delivered u q;
}.

Lemma over_up u x l q : net !! u = Some x → over u l q → Up_of x l.
Proof. intros Hx (x' & a & far & Hx' & Ha & _). rewrite Hx in Hx'. injection Hx' as <-. by eexists. Qed.
Lemma over_flight u x l q :
  net !! u = Some x → over u l q →
  Up_of x l ∧ packet_fits q ∧ ¬ conflatable q ∧ ForwardPacket_encoded_len q ≤ n.
Proof.
  intros Hx Ho. split; [by eapply over_up|]. destruct Ho as (_ & a & far & _ & _ & _ & [_ _ Hc [_ Hf] Hl _]).
  done.
Qed.
Lemma flight_dests v incoming p : flight_ok v incoming p → 1 ≤ zlen (dests p).
Proof.
  intros [_ Ht _ _ _ _]. unfold dests. case_decide as E; [|by rewrite zlen_cons, zlen_nil].
  destruct Ht as [Ht|[_ (Hne & _)]]; [congruence|].
  destruct (multicast_destinations p); [done|]. rewrite zlen_cons. pose proof (zlen_nonneg l). lia.
Qed.
Lemma over_dests u l q : over u l q → 1 ≤ zlen (dests q).
Proof. intros (_ & a & far & _ & _ & _ & Hf). by eapply flight_dests. Qed.
Lemma zlen_units p : zlen (units p) = zlen (dests p).
Proof. rewrite units_dests. unfold spread, zlen. by rewrite length_fmap. Qed.

(** What the sends of a station become. *)
Lemma carry_sends u x y acts :
  net !! u = Some x → mn_control y = mn_control x → mn_far y = mn_far x →
  Forall is_send acts → (∀ l q, (l, q) ∈ sends acts → over u l q) →
  ∃ flights, carry u y acts = Some (flights, []) ∧ f_packet <$> flights = (sends acts).*2 ∧
    ∀ f, f ∈ flights → flight_ok (f_at f) (Some (f_link f)) (f_packet f).
Proof.
  intros Hx Hc Hf. induction 1 as [|a acts Ha Hacts IH]; intros Hover.
  { exists []. split; [done|]. split; [done|]. by intros f []%not_elem_of_nil. }
  destruct a as [l q| | | |]; try done. cbn [sends omap list_omap] in Hover.
  destruct IH as (flights & Hcarry & Hp & Hall); [intros l' q' Hin; apply Hover; by right|].
  destruct (Hover l q) as (x' & b & far & Hx' & Hb & Hfar & Hok); [by left|].
  rewrite Hx in Hx'. injection Hx' as <-. cbn [carry]. rewrite Hcarry. cbn [mbind option_bind].
  rewrite Hc, Hf, Hb, Hfar. cbn [mbind option_bind]. eexists. split; [reflexivity|]. split.
  - rewrite fmap_cons. cbn [f_packet]. by rewrite Hp.
  - intros f [->|Hin]%elem_of_cons; [done|by apply Hall].
Qed.
Lemma carry_local u y local acts flights :
  (local = [] ∨ ∃ q, local = [FaDeliverLocal q] ∧ destination (header q) = u) →
  carry u y acts = Some (flights, []) →
  ∃ fates, carry u y (local ++ acts) = Some (flights, fates) ∧
    (∀ f, f ∈ fates → ∃ q, f = Delivered u q) ∧
    acts_units local = (fates ≫= fate_units).
Proof.
  intros [->|(q & -> & Hd)] Hc; cbn [app carry]; rewrite Hc.
  - exists []. split; [done|]. split; [by intros f []%not_elem_of_nil|done].
  - cbn [mbind option_bind]. eexists. split; [reflexivity|]. split.
    + intros f ->%list_elem_of_singleton. by eexists.
    + cbn. by rewrite Hd.
Qed.

(** A packet is lighter on the link than it was in the queue. *)
Lemma sends_weight u k :
  (∀ l q, (l, q) ∈ k → over u l q) →
  zsum (flying_weight <$> k.*2) + zlen k ≤ zsum (queued_weight <$> k.*2).
Proof.
  induction k as [|[l q] k IH]; intros Ho; [done|]. rewrite !fmap_cons, !zsum_cons, zlen_cons. cbn [snd].
  pose proof (over_dests u l q (Ho l q ltac:(by left))).
  specialize (IH (λ l' q' Hin, Ho l' q' ltac:(by right))). unfold queued_weight, flying_weight in *. lia.
Qed.
(** A station takes in packets for its links and hands on what they let go. *)
Lemma at_station_ok t u x s f fw' W' local acts branches (back : Z) :
  traffic_ok t → net !! u = Some x → t_stations t !! u = Some s → station_ok u x s →
  f s = Some ({| st_node := set_forward (st_node s) fw'; st_written := W' |}, local ++ acts) →
  (local = [] ∨ ∃ q, local = [FaDeliverLocal q] ∧ destination (header q) = u) →
  Forall is_send acts → node_ok (Up_of x) n fw' W' → same_env (st_forward s) fw' →
  held_packets fw' ++ sends acts ≡ₚ branches ++ held_packets (st_forward s) →
  Z.of_nat (size W') = Z.of_nat (size (st_written s)) - back + zlen (sends acts) →
  (∀ l q, (l, q) ∈ branches → over u l q) →
  ∃ t', at_station t u f = Some t' ∧ traffic_ok t' ∧
    accounted t' ≡ₚ accounted t ++ acts_units local ++ (branches.*2 ≫= units) ∧
    traffic_weight t' ≤ traffic_weight t + zsum (queued_weight <$> branches.*2) - back.
Proof.
  intros Hok Hx Hs Hst Hf Hlocal Hsend Hnode Henv Hheld Hsize Hbr.
  pose proof (so_static _ _ _ Hst) as [Hc Hfar].
  assert (Hover : ∀ l q, (l, q) ∈ held_packets fw' ++ sends acts → over u l q).
  { intros l q Hin. rewrite Hheld in Hin. apply elem_of_app in Hin as [Hin|Hin]; [by apply Hbr|].
    by apply (so_held _ _ _ Hst). }
  destruct (carry_sends u x (set_forward (st_node s) fw') acts Hx Hc Hfar Hsend) as (flights & Hcarry & Hfp & Hfl).
  { intros l q Hin. apply Hover, elem_of_app. by right. }
  destruct (carry_local u _ local acts flights Hlocal Hcarry) as (fates & Hcarry' & Hfates & Hunits).
  set (s' := {| st_node := set_forward (st_node s) fw'; st_written := W' |}).
  unfold at_station. rewrite Hs. cbn [mbind option_bind]. rewrite Hf. cbn [mbind option_bind st_node].
  rewrite Hcarry'. cbn [mbind option_bind]. eexists. split; [reflexivity|]. split; [|split].
  - destruct Hok as [H1 H2 H3 H4]. constructor; cbn [t_stations t_flying t_fates].
    + intros v y Hy. destruct (decide (u = v)) as [<-|Hne].
      * rewrite Hx in Hy. injection Hy as <-. exists s'. rewrite lookup_insert_eq. split; [done|].
        constructor; [done| |done|].
        -- destruct (so_env _ _ _ Hst) as (E1 & E2 & E3), Henv as (F1 & F2 & F3).
           unfold same_env. cbn. rewrite F1, F2, F3. done.
        -- intros l q Hin. apply Hover, elem_of_app. by left.
      * destruct (H1 v y Hy) as (s0 & Hs0 & Hst0). exists s0. by rewrite lookup_insert_ne.
    + intros v Hv. destruct (decide (u = v)) as [<-|Hne]; [by eexists|]. apply H2.
      by rewrite lookup_insert_ne in Hv.
    + intros g [Hg|Hg]%elem_of_app; auto.
    + intros g [Hg|Hg]%elem_of_app; [by auto|]. destruct (Hfates g Hg) as [q ->]. by eexists _, _.
  - assert (E : station_units s' ++ ((sends acts).*2 ≫= units) ≡ₚ (branches.*2 ≫= units) ++ station_units s).
    { unfold station_units. cbn [st_forward st_node mn_forward set_forward s'].
      rewrite <-!bind_app, <-!fmap_app. by rewrite Hheld. }
    apply perm_of_occ. intros v. rewrite !occ_app, !occ_accounted.
    unfold delivered. cbn [t_stations t_flying t_fates].
    rewrite fmap_app, !bind_app, !occ_app, Hfp, <-Hunits, map_weight_insert, Hs.
    cbn [fmap option_fmap option_map default from_option id].
    fold s'. apply (occ_perm v) in E. rewrite !occ_app in E. lia.
  - unfold traffic_weight. cbn [t_stations t_flying].
    rewrite !fmap_app, zsum_app, Hfp, map_weight_insert, Hs.
    cbn [fmap option_fmap option_map default from_option id].
    assert (E : zsum (queued_weight <$> (held_packets fw').*2) + zsum (queued_weight <$> (sends acts).*2) =
      zsum (queued_weight <$> branches.*2) + zsum (queued_weight <$> (held_packets (st_forward s)).*2)).
    { rewrite <-!zsum_app, <-!fmap_app. apply zsum_perm. by rewrite Hheld. }
    unfold station_weight. cbn [st_forward st_node mn_forward set_forward st_written s'].
    change (mn_forward (set_forward (st_node s) fw')) with fw'.
    pose proof (sends_weight u (sends acts)
      (λ l q Hin, Hover l q (proj2 (elem_of_app _ _ _) (or_intror Hin)))).
    lia.
Qed.

(** What a station holds is part of what is accounted for. *)
Lemma held_accounted t u s :
  traffic_ok t → t_stations t !! u = Some s → zlen (held_packets (st_forward s)) ≤ zlen (accounted t).
Proof.
  intros Hok Hs. destruct (to_dom _ Hok u) as [x Hx]; [by eexists|].
  destruct (to_station _ Hok u x Hx) as (s' & Hs' & Hst). rewrite Hs in Hs'. injection Hs' as <-.
  assert (Hle : zlen (held_packets (st_forward s)) ≤ zlen (station_units s)).
  { pose proof (so_held _ _ _ Hst) as Ho. unfold station_units.
    induction (held_packets (st_forward s)) as [|[l q] k IH]; [done|].
    rewrite fmap_cons. rewrite bind_cons. cbn [snd]. rewrite zlen_cons, zlen_app, zlen_units.
    pose proof (over_dests u l q (Ho l q ltac:(by left))).
    specialize (IH (λ l' q' Hin, Ho l' q' ltac:(by right))). lia. }
  assert (zlen (station_units s) ≤ zlen (btree_values (t_stations t) ≫= station_units)).
  { assert (Hin : s ∈ btree_values (t_stations t)) by (apply elem_of_btree_values; by exists u).
    apply list_elem_of_split in Hin as (l1 & l2 & ->). rewrite bind_app, bind_cons, !zlen_app.
    pose proof (zlen_nonneg (l1 ≫= station_units)).
    pose proof (zlen_nonneg (l2 ≫= station_units)). lia. }
  unfold accounted, under_way. rewrite !zlen_app.
  pose proof (zlen_nonneg ((f_packet <$> t_flying t) ≫= units)). pose proof (zlen_nonneg (delivered t)). lia.
Qed.
Lemma branches_units u branches :
  (∀ l q, (l, q) ∈ branches → over u l q) → zlen branches ≤ zlen (branches.*2 ≫= units).
Proof.
  intros Ho. induction branches as [|[l q] k IH]; [done|].
  rewrite fmap_cons. rewrite bind_cons. cbn [snd]. rewrite zlen_cons, zlen_app, zlen_units.
  pose proof (over_dests u l q (Ho l q ltac:(by left))).
  specialize (IH (λ l' q' Hin, Ho l' q' ltac:(by right))). lia.
Qed.
Lemma branches_weight (branches : list (LinkId * ForwardPacket)) t :
  (∀ l q, (l, q) ∈ branches → ttl (header q) = t - 1) →
  zsum (queued_weight <$> branches.*2) = 3 * t * zlen (branches.*2 ≫= units).
Proof.
  intros Ht. induction branches as [|[l q] k IH]; [change (0 = 3 * t * 0); lia|].
  rewrite !fmap_cons, zsum_cons. rewrite bind_cons. cbn [snd]. rewrite zlen_app, zlen_units.
  rewrite IH by (intros l' q' Hin; apply (Ht l'); by right). unfold queued_weight.
  rewrite (Ht l q) by by left. lia.
Qed.

(** A packet is handled at a node of the mesh. *)
Lemma handle_flight now t u incoming p e :
  traffic_ok t → flight_ok u incoming p → zlen (accounted t) + zlen (dests p) ≤ 256 →
  (∀ fw, fw_handle fw now e = process_packet fw incoming p) →
  ∃ t', at_station t u (λ s, station_handle now s e) = Some t' ∧ traffic_ok t' ∧
    accounted t' ≡ₚ accounted t ++ units p ∧
    traffic_weight t' ≤ traffic_weight t + 3 * ttl (header p) * zlen (dests p).
Proof.
  intros Hok Hf Hroom He. destruct (fk_at _ _ _ Hf) as [x Hx].
  destruct (to_station _ Hok u x Hx) as (s & Hs & Hst).
  destruct (route_packet u x (st_forward s) incoming p Hx (so_env _ _ _ Hst)
              (no_fw _ _ _ _ (so_node _ _ _ Hst)) Hf) as (local & branches & Hproc & Hlocal & Hbr & Hunits).
  assert (Hover : ∀ l q, (l, q) ∈ branches → over u l q) by (intros l q Hin; by apply Hbr).
  pose proof (held_accounted t u s Hok Hs). pose proof (branches_units u branches Hover).
  pose proof (zlen_perm _ _ Hunits) as Hz. rewrite zlen_app, zlen_units in Hz.
  pose proof (zlen_nonneg (acts_units local)).
  destruct (node_enqueue (Up_of x) n (st_forward s) (st_written s) incoming branches (so_node _ _ _ Hst))
    as (fw' & acts & W' & Henq & Hnote & Hsize & Hnode & Henv & Hheld & Hsend); [lia| |].
  { intros l q Hin. by apply (over_flight u), Hover. }
  destruct (at_station_ok t u x s (λ s, station_handle now s e) fw' W' local acts branches 0) as (t' & Ht' & Hok' & Hacc & Hw);
    try done; [|lia|].
  { unfold station_handle. cbn [handle Forwarder_component]. rewrite He, Hproc, Henq. cbn [mbind option_bind].
    assert (note_sends (st_written s) (local ++ acts) = Some W') as ->; [|done].
    destruct Hlocal as [->|(q & -> & _)]; done. }
  exists t'. split; [done|]. split; [done|]. split; [by rewrite Hacc, Hunits|].
  rewrite (branches_weight branches (ttl (header p))) in Hw by (intros l q Hin; by destruct (Hbr l q Hin)).
  pose proof (fk_ok _ _ _ Hf) as [Hu _]. unfold is_uint in Hu. nia.
Qed.

(** A written frame is reported. *)
Lemma handle_sent now t u s l :
  traffic_ok t → t_stations t !! u = Some s → is_Some (st_written s !! l) →
  ∃ t', at_station t u (λ s, station_sent now s l) = Some t' ∧ traffic_ok t' ∧
    accounted t' ≡ₚ accounted t ∧ traffic_weight t' ≤ traffic_weight t - 1.
Proof.
  intros Hok Hs [k Hk]. destruct (to_dom _ Hok u) as [x Hx]; [by eexists|].
  destruct (to_station _ Hok u x Hx) as (s' & Hs' & Hst). rewrite Hs in Hs'. injection Hs' as <-.
  destruct (node_sent (Up_of x) n now s l k (so_node _ _ _ Hst) Hk)
    as (fw' & acts & W' & Hsent & Hsize & Hnode & Henv & Hheld & Hsend).
  destruct (at_station_ok t u x s (λ s, station_sent now s l) fw' W' [] acts [] 1) as (t' & Ht' & Hok' & Hacc & Hw);
    try done; [by left|intros ?? []%not_elem_of_nil|].
  exists t'. split; [done|]. split; [done|]. split; [by rewrite Hacc, app_nil_r|].
  cbn in Hw. lia.
Qed.

(** ** Moves *)

(** A packet the node [u] can send: valid, not to be conflated, within the
    credit of the links, each destination connected with [u], and a TTL no
    smaller than the number of nodes. *)
Record deliverable (u : NodeId) (p : ForwardPacket) : Prop := {
  sd_type : packet_type (header p) = Unicast ∨
            packet_type (header p) = Multicast ∧ multicast_ok (multicast_destinations p) (payload p);
  sd_conflate : ¬ conflatable p;
  sd_ok : packet_ok p;
  sd_len : ForwardPacket_encoded_len p ≤ n;
  sd_ttl : Z.of_nat (size net) ≤ ttl (header p);
  sd_way d : d ∈ dests p →
    ∃ x, net !! u = Some x ∧ (d = u ∨ ∃ q c k, mesh_path (mn_control x) d q c k);
}.
Lemma deliverable_flight u p : deliverable u p → flight_ok u None p.
Proof.
  intros [Ht Hc Hok Hlen Httl Hway]. pose proof (mr_synced _ _ Hnet) as Hsync.
  assert (Hd : ∃ d, d ∈ dests p).
  { unfold dests. case_decide; [|by eexists; left]. destruct Ht as [Ht|[_ (Hne & _)]]; [congruence|].
    destruct (multicast_destinations p) as [|d k]; [done|]. exists d. by left. }
  destruct Hd as [d0 Hd0]. destruct (Hway d0 Hd0) as (x0 & Hx0 & _). constructor; [by eexists|done..|].
  intros d Hd. destruct (Hway d Hd) as (x & Hx & Hcase).
  assert (Hrem : ∃ c, remaining (planes net) d u c).
  { destruct (decide (u = d)) as [->|Hne]; [by exists 0; left|].
    destruct Hcase as [->|(q & c & k & Hw)]; [done|].
    assert (Hu : planes net !! u = Some (mn_control x)) by (apply lookup_planes; eauto).
    destruct (mr_forward _ _ Hnet _ x Hx) as (_ & _ & Hroutes).
    pose proof (route_of _ Hsync u _ _ _ Hu Hroutes Hne) as Hr.
    destruct (_ !! d) as [r|] eqn:Ed; [|by apply Hr in Hw]. exists (route_cost r). right.
    split; [done|]. by eexists _, _, r. }
  destruct Hrem as [c Hrem]. destruct (trip_exists _ Hsync d u c Hrem) as (path & Htrip & _ & Hnd).
  exists path, c. split; [done|]. split; [|done].
  assert (length path < size (planes net))%nat.
  { eapply trip_short; [done| |done|done]. exists (mn_control x). apply lookup_planes. eauto. }
  unfold planes in *. rewrite map_size_fmap in *. lia.
Qed.

(** The packet a move brings in. *)
Definition submission (m : Move) : option (NodeId * ForwardPacket) :=
  match m with
  | Submit u p => Some (u, p)
  | SubmitMulticast u ds p => Some (u, subset_packet p ds (ttl (header p)))
  | _ => None
  end.
Definition submitted (ms : list Move) : list unit_of := (omap submission ms).*2 ≫= units.
Definition advances (m : Move) : Prop := submission m = None.
#[global] Instance advances_dec m : Decision (advances m).
Proof. unfold advances. apply _. Defined.
(** How often packets can arrive and be reported. *)
Definition budget (ms : list Move) : Z :=
  zsum ((λ p, 3 * ttl (header p) * zlen (dests p)) <$> (omap submission ms).*2).

Definition move_ok (m : Move) : Prop :=
  match m with
  | Submit u p => deliverable u p
  | SubmitMulticast u ds p =>
      multicast_ok ds (payload p) ∧ deliverable u (subset_packet p ds (ttl (header p)))
  | _ => True
  end.
(** A frame that is under way arrives; a frame that was written is reported. *)
Definition can_happen (t : Traffic) (m : Move) : Prop :=
  match m with
  | Submit _ _ | SubmitMulticast _ _ _ => True
  | Arrive i => (i < length (t_flying t))%nat
  | Sent u l => ∃ s, t_stations t !! u = Some s ∧ is_Some (st_written s !! l)
  end.

Lemma outbound_multicast fw ds p :
  multicast_ok ds (payload p) →
  process_outbound_multicast fw ds p = process_packet fw None (subset_packet p ds (ttl (header p))).
Proof.
  intros Hok. unfold process_outbound_multicast. cbn [payload set_header].
  by rewrite (proj2 (multicast_new_Ok _ _ _) (conj Hok eq_refl)).
Qed.

Lemma traffic_step_ok now t m :
  traffic_ok t → move_ok m → can_happen t m → zlen (accounted t) + zlen (submitted [m]) ≤ 256 →
  ∃ t', traffic_step now t m = Some t' ∧ traffic_ok t' ∧
    accounted t' ≡ₚ accounted t ++ submitted [m] ∧
    traffic_weight t' + (if decide (advances m) then 1 else 0) ≤ traffic_weight t + budget [m].
Proof.
  intros Hok Hm Hcan Hroom.
  assert (Hsub : ∀ u p e, submission m = Some (u, p) → deliverable u p →
    (∀ fw, fw_handle fw now e = process_packet fw None p) →
    ∃ t', at_station t u (λ s, station_handle now s e) = Some t' ∧ traffic_ok t' ∧
      accounted t' ≡ₚ accounted t ++ submitted [m] ∧
      traffic_weight t' + (if decide (advances m) then 1 else 0) ≤ traffic_weight t + budget [m]).
  { intros u p e Hs Hsd He. unfold submitted, budget in *. cbn [omap list_omap] in *. rewrite Hs in *.
    cbn [fmap list_fmap snd mbind list_bind] in *. rewrite app_nil_r in *. rewrite zlen_units in Hroom.
    destruct (handle_flight now t u None p e Hok (deliverable_flight u p Hsd) Hroom He) as (t' & -> & Hok' & Hacc & Hw).
    exists t'. split; [done|]. split; [done|]. split; [done|]. unfold advances.
    rewrite decide_False by by rewrite Hs. cbn. lia. }
  destruct m as [u p|u ds p|i|u l]; cbn [move_ok can_happen traffic_step] in *.
  - by apply (Hsub u p).
  - destruct Hm as [Hds Hsd]. apply (Hsub u _ _ eq_refl Hsd). intros fw. by apply outbound_multicast.
  - destruct (lookup_lt_is_Some_2 _ _ Hcan) as [f Hf]. rewrite Hf. cbn [mbind option_bind].
    pose proof (to_flying _ Hok f (list_elem_of_lookup_2 _ _ _ Hf)) as Hfo.
    pose proof (take_off_units t i f Hf) as Hu. pose proof (take_off_weight t i f Hf) as Hwt.
    pose proof (zlen_perm _ _ Hu) as Hz. rewrite zlen_app, zlen_units in Hz.
    change (zlen (submitted [Arrive i])) with 0 in Hroom.
    assert (Hok1 : traffic_ok (take_off t i)).
    { destruct Hok as [H1 H2 H3 H4]. constructor; try done. cbn. intros g Hg. apply H3.
      rewrite (delete_perm (t_flying t) i f Hf). by right. }
    destruct (handle_flight now (take_off t i) (f_at f) (Some (f_link f)) (f_packet f)
      (FeInbound (f_link f) (f_packet f)) Hok1 Hfo) as (t' & -> & Hok' & Hacc & Hw); [lia|done|].
    exists t'. split; [done|]. split; [done|]. split.
    + change (submitted [Arrive i]) with (@nil unit_of). rewrite app_nil_r, Hacc, Hu.
      apply Permutation_app_comm.
    + rewrite decide_True by done. change (budget [Arrive i]) with 0.
      pose proof (flight_dests _ _ _ Hfo). unfold flying_weight in Hwt. lia.
  - destruct Hcan as (s & Hs & Hw). destruct (handle_sent now t u s l Hok Hs Hw) as (t' & -> & Hok' & Hacc & Hwt).
    exists t'. split; [done|]. split; [done|]. split.
    + change (submitted [Sent u l]) with (@nil unit_of). by rewrite app_nil_r.
    + rewrite decide_True by done. change (budget [Sent u l]) with 0. lia.
Qed.
Lemma step_can_happen now t m t' : traffic_step now t m = Some t' → can_happen t m.
Proof.
  destruct m as [| |i|u l]; cbn; [done|done| |].
  - destruct (t_flying t !! i) eqn:E; [|done]. intros _. by eapply lookup_lt_Some.
  - unfold at_station. destruct (t_stations t !! u) as [s|]; [|done]. cbn [mbind option_bind].
    unfold station_sent. destruct (st_written s !! l) eqn:E; [|done]. intros _. exists s. by rewrite E.
Qed.

Lemma submitted_cons m ms : submitted (m :: ms) = submitted [m] ++ submitted ms.
Proof.
  unfold submitted. cbn [omap list_omap]. destruct (submission m); [|done]. cbn. by rewrite app_nil_r.
Qed.
Lemma budget_cons m ms : budget (m :: ms) = budget [m] + budget ms.
Proof.
  unfold budget. cbn [omap list_omap]. destruct (submission m); cbn [fmap list_fmap]; rewrite ?zsum_cons; cbn [zsum foldr]; lia.
Qed.

Lemma traffic_run_ok ms t t' :
  traffic_ok t → Forall move_ok ms.*2 → zlen (accounted t) + zlen (submitted ms.*2) ≤ 256 →
  traffic_run t ms = Some t' →
  traffic_ok t' ∧ accounted t' ≡ₚ accounted t ++ submitted ms.*2 ∧
  traffic_weight t' + zlen (filter advances ms.*2) ≤ traffic_weight t + budget ms.*2.
Proof.
  revert t. induction ms as [|[now m] ms IH]; intros t Hok Hall Hroom Hrun; cbn [traffic_run] in Hrun.
  { injection Hrun as <-. split; [done|]. split; [by rewrite app_nil_r|]. cbn. unfold zlen. cbn. lia. }
  rewrite fmap_cons in *. cbn [snd] in *. rewrite submitted_cons, budget_cons in *. rewrite zlen_app in Hroom.
  apply Forall_cons in Hall as [Hm Hall]. pose proof (zlen_nonneg (submitted ms.*2)).
  destruct (traffic_step now t m) as [t1|] eqn:E; [|done]. cbn [mbind option_bind] in Hrun.
  destruct (traffic_step_ok now t m Hok Hm (step_can_happen _ _ _ _ E)) as (t1' & E' & Hok1 & Hacc & Hw); [lia|].
  rewrite E in E'. injection E' as <-. pose proof (zlen_perm _ _ Hacc) as Hz. rewrite zlen_app in Hz.
  destruct (IH t1 Hok1 Hall) as (Hok' & Hacc' & Hw'); [lia|done|].
  split; [done|]. split; [by rewrite Hacc', Hacc, <-app_assoc|].
  rewrite filter_cons. destruct (decide (advances m)); rewrite ?zlen_cons; lia.
Qed.

Lemma traffic_weight_nonneg t : traffic_ok t → 0 ≤ traffic_weight t.
Proof.
  intros Hok. unfold traffic_weight.
  assert (Hf : 0 ≤ zsum (flying_weight <$> (f_packet <$> t_flying t))).
  { apply zsum_nonneg, Forall_fmap, Forall_fmap, Forall_forall. intros f Hf.
    destruct (to_flying _ Hok f Hf) as [_ _ _ [Hu _] _ _]. unfold is_uint in Hu.
    pose proof (zlen_nonneg (dests (f_packet f))). cbn. unfold flying_weight. nia. }
  assert (Hs : 0 ≤ zsum (station_weight <$> btree_values (t_stations t))); [|lia].
  apply zsum_nonneg, Forall_fmap, Forall_forall. intros s [u Hs]%elem_of_btree_values. cbn.
  destruct (to_dom _ Hok u) as [x Hx]; [by eexists|].
  destruct (to_station _ Hok u x Hx) as (s' & Hs' & Hst). rewrite Hs in Hs'. injection Hs' as <-.
  unfold station_weight. assert (0 ≤ zsum (queued_weight <$> (held_packets (st_forward s)).*2)); [|lia].
  apply zsum_nonneg, Forall_fmap, Forall_fmap, Forall_forall. intros [l q] Hq. cbn.
  destruct (so_held _ _ _ Hst l q Hq) as (_ & a & far & _ & _ & _ & [_ _ _ [Hu _] _ _]).
  unfold is_uint in Hu. pose proof (zlen_nonneg (dests q)). unfold queued_weight. nia.
Qed.

(** While something is under way, something can happen. *)
Lemma advance_possible t : traffic_ok t → under_way t ≠ [] → ∃ m, advances m ∧ can_happen t m.
Proof.
  intros Hok Hne. destruct (t_flying t) as [|f fs] eqn:Ef.
  2: { exists (Arrive 0). split; [done|]. cbn. rewrite Ef. cbn. lia. }
  unfold under_way in Hne. rewrite Ef in Hne. cbn [fmap list_fmap mbind list_bind app] in Hne.
  destruct (btree_values (t_stations t) ≫= station_units) as [|v vs] eqn:Eb; [done|].
  assert (Hin : v ∈ btree_values (t_stations t) ≫= station_units) by (rewrite Eb; by left).
  apply list_elem_of_bind in Hin as (s & Hv & Hs). apply elem_of_btree_values in Hs as [u Hs].
  unfold station_units in Hv. apply list_elem_of_bind in Hv as (q & _ & Hq).
  apply list_elem_of_fmap in Hq as ([l q'] & -> & Hq).
  destruct (to_dom _ Hok u) as [x Hx]; [by eexists|].
  destruct (to_station _ Hok u x Hx) as (s' & Hs' & Hst). rewrite Hs in Hs'. injection Hs' as <-.
  destruct (no_held _ _ _ _ (so_node _ _ _ Hst) l q' Hq) as (Hl & _).
  destruct (no_up _ _ _ _ (so_node _ _ _ Hst) l Hl) as (_ & _ & Ho).
  exists (Sent u l). split; [done|]. exists s. split; [done|].
  destruct (st_written s !! l); [done|]. destruct Ho as (_ & He & _). exfalso.
  unfold held_packets in Hq. apply list_elem_of_bind in Hq as ([l' sl] & Hq & Hin).
  apply elem_of_map_to_list in Hin. apply list_elem_of_fmap in Hq as (y & [= -> ->] & Hy).
  unfold link_state in He. rewrite Hin in He. cbn in He.
  apply list_elem_of_join in Hy as (k & Hy & Hk). rewrite Forall_forall in He.
  rewrite (He k Hk) in Hy. by apply not_elem_of_nil in Hy.
Qed.

(** Nothing waits anywhere. *)
Definition at_rest : Prop :=
  map_Forall (λ _ x, map_Forall (λ _ s, Forall (λ q, q = []) (queues s)) (links (mn_forward x))) net.
Lemma rest_held u x : at_rest → net !! u = Some x → held_packets (mn_forward x) = [].
Proof.
  intros Hrest Hx. specialize (Hrest u x Hx). destruct (held_packets (mn_forward x)) as [|[l q] k] eqn:E; [done|].
  exfalso. assert (Hin : (l, q) ∈ held_packets (mn_forward x)) by (rewrite E; by left).
  unfold held_packets in Hin. apply list_elem_of_bind in Hin as ([l' s] & Hq & Hs%elem_of_map_to_list).
  apply list_elem_of_fmap in Hq as (y & _ & Hy). apply list_elem_of_join in Hy as (c & Hy & Hc).
  specialize (Hrest l' s Hs). cbn in Hrest. rewrite Forall_forall in Hrest.
  rewrite (Hrest c Hc) in Hy. by apply not_elem_of_nil in Hy.
Qed.
Lemma start_ok : at_rest → traffic_ok (traffic_start net).
Proof.
  intros Hrest. constructor; cbn [t_stations t_flying t_fates traffic_start].
  - intros u x Hx. eexists. rewrite lookup_fmap, Hx. split; [reflexivity|].
    destruct (mr_forward _ _ Hnet u x Hx) as (Hok & _). pose proof (rest_held u x Hrest Hx) as Hh.
    constructor; [done|done| |unfold st_forward; cbn [st_node]; rewrite Hh; by intros ?? []%not_elem_of_nil].
    unfold st_forward. constructor; cbn [st_node st_written].
    + done.
    + intros l [a Ha]. destruct (mr_link _ _ Hnet u x l a Hx Ha) as ((Hd & He & Hw & Hc) & _).
      split; [done|]. rewrite lookup_empty. split; [|done].
      destruct (lq_credit _ (link_state_ok _ l Hok)). unfold credit, u_max in *. lia.
    + intros l [k Hk]. by rewrite lookup_empty in Hk.
    + rewrite Hh. by intros ?? []%not_elem_of_nil.
  - intros u [s Hs]. rewrite lookup_fmap in Hs. by destruct (net !! u).
  - by intros f []%not_elem_of_nil.
  - by intros f []%not_elem_of_nil.
Qed.
Lemma start_accounted : at_rest → accounted (traffic_start net) = [] ∧ traffic_weight (traffic_start net) = 0.
Proof.
  intros Hrest.
  assert (Hs : ∀ s, s ∈ btree_values (t_stations (traffic_start net)) →
    held_packets (st_forward s) = [] ∧ st_written s = ∅).
  { intros s [u Hu]%elem_of_btree_values. cbn in Hu. rewrite lookup_fmap in Hu.
    destruct (net !! u) as [x|] eqn:Hx; [|done]. injection Hu as <-. split; [|done]. by eapply rest_held. }
  unfold accounted, under_way, traffic_weight. cbn [t_flying traffic_start t_fates].
  change (delivered (traffic_start net)) with (@nil unit_of). rewrite app_nil_r.
  induction (btree_values (t_stations (traffic_start net))) as [|s k IH]; [done|].
  destruct IH as [IH1 IH2]; [intros s' Hs'; apply Hs; by right|].
  destruct (Hs s) as [Hh Hw]; [by left|]. cbn in IH1, IH2 |- *.
  unfold station_units at 1, station_weight at 1. rewrite Hh, Hw. cbn. split; [done|].
  rewrite map_size_empty. fold (zsum (station_weight <$> k)). lia.
Qed.
End Way.

(** C2: Everything that is sent across a synchronised mesh at rest arrives.
    Packets, unicast or multicast, are handed in at any nodes and any times;
    frames arrive, and the transport reports them as written, in any order, and
    packets queue up behind the frame that is being written.  It is assumed that
    routes are computed and links idle at the start, that all destinations of
    all packets together are at most 256 (what the smallest queue holds) and each
    is connected with the sender, that no packet is to be conflated, and that
    every TTL is at least the number of nodes and every packet within the credit
    of the links.  Then nothing is dropped, every destination of every packet is
    either under way or was delivered, with everything but the TTL and the
    destination list unchanged, exactly once; a frame that arrives or is reported
    is always handled; while anything is under way such a move is possible; and
    their number is bounded, so that in the end exactly what was submitted has
    been delivered. *)
Theorem mesh_delivers net n ms t :
  mesh_ready net n → at_rest net → Forall (move_ok net n) ms.*2 →
  zlen (submitted ms.*2) ≤ 256 → traffic_run (traffic_start net) ms = Some t →
  (∀ f, f ∈ t_fates t → ∃ u q, f = Delivered u q) ∧
  under_way t ++ delivered t ≡ₚ submitted ms.*2 ∧
  (∀ now m, advances m → can_happen t m → is_Some (traffic_step now t m)) ∧
  (under_way t ≠ [] → ∃ m, advances m ∧ can_happen t m) ∧
  zlen (filter advances ms.*2) ≤ budget ms.*2.
Proof.
  intros Hnet Hrest Hall Hroom Hrun. destruct (start_accounted net Hrest) as [Ha Hw0].
  destruct (traffic_run_ok net n Hnet ms _ t (start_ok net n Hnet Hrest) Hall) as (Hok & Hacc & Hw); [|done|].
  { rewrite Ha, zlen_nil. lia. }
  rewrite Ha in Hacc. cbn [app] in Hacc. split; [by apply (to_fates _ _ _ Hok)|]. split; [done|]. split.
  { intros now m Hp Hcan. destruct (traffic_step_ok net n Hnet now t m Hok) as (t' & -> & _); [by destruct m|done| |by eexists].
    pose proof (zlen_perm _ _ Hacc). assert (submitted [m] = []) as -> by (by destruct m).
    rewrite zlen_nil. lia. }
  split; [by apply (advance_possible net n)|].
  pose proof (traffic_weight_nonneg net n t Hok). lia.
Qed.
