(* ===== verification/PubSub.v ===== *)
(** * Live publish/subscribe (crates/mb-pubsub)

    Topics, selectors, discovery, the envelope codec, the receive window and
    the [PubSub] component. *)

From Stdlib Require Import Strings.Byte.
From S2P Require Export Prelude Ord Bytes Types Proto Wire.

Definition ENVELOPE_MAGIC : bytes := [x4d; x42; x50; x53]. (* MBPS *)
Definition PS_MAX_TOPIC_NAME_LEN : Z := 1024.
Definition MAX_PARTITION_LEN : Z := 64 * 1024.
Definition MAX_LIVE_ENVELOPE_LEN : Z :=
  MAX_FORWARD_PAYLOAD_LEN - MULTICAST_COUNT_LEN - NODE_ID_LEN.

(** ** Topics *)

Inductive TopicError := EmptyName | NameTooLong (n : Z) | PartitionTooLong (n : Z).
#[global] Instance TopicError_eq_dec : EqDecision TopicError.
Proof. solve_decision. Defined.

Definition validate_topic (name : rstring) (partition : bytes) : result unit TopicError :=
  if zlen name =? 0 then Err EmptyName
  else if PS_MAX_TOPIC_NAME_LEN <? zlen name then Err (NameTooLong (zlen name))
  else if MAX_PARTITION_LEN <? zlen partition then Err (PartitionTooLong (zlen partition))
  else Ok tt.
(** The fields are private and [new] validates them. *)
Record TopicKey := mk_topic_key {
  tk_name : rstring;
  tk_partition : bytes;
  tk_valid : validate_topic tk_name tk_partition = Ok tt;
}.
Definition topic_key_if (name : rstring) (partition : bytes) (r : result unit TopicError) :
  validate_topic name partition = r → result TopicKey TopicError :=
  match r with
  | Ok tt => λ H, Ok (mk_topic_key name partition H)
  | Err e => λ _, Err e
  end.
Definition TopicKey_new (name : rstring) (partition : bytes) : result TopicKey TopicError :=
  topic_key_if name partition (validate_topic name partition) eq_refl.

Definition TopicKey_pair (t : TopicKey) : rstring * bytes := (tk_name t, tk_partition t).
#[global] Instance result_unit_eq_dec : EqDecision (result unit TopicError).
Proof. solve_decision. Defined.
Lemma TopicKey_eq t u : TopicKey_pair t = TopicKey_pair u → t = u.
Proof.
  destruct t as [n p Ht], u as [m q Hu]; cbn. intros [= -> ->]. f_equal.
  apply Eqdep_dec.UIP_dec, result_unit_eq_dec.
Qed.
#[global] Instance TopicKey_eq_dec : EqDecision TopicKey.
Proof.
  intros t u. destruct (decide (TopicKey_pair t = TopicKey_pair u)) as [E|E];
    [left; by apply TopicKey_eq|right; congruence].
Defined.
Definition TopicKey_of_pair (p : rstring * bytes) : option TopicKey :=
  match TopicKey_new p.1 p.2 with Ok t => Some t | Err _ => None end.

Lemma topic_key_if_Ok name partition r E t :
  topic_key_if name partition r E = Ok t ↔ TopicKey_pair t = (name, partition).
Proof.
  destruct r as [[]|e]; cbn.
  - split; [by intros [= <-]|]. intros Ht. f_equal. by apply TopicKey_eq.
  - split; [done|]. destruct t as [n p H]. intros [= -> ->]. congruence.
Qed.
Lemma TopicKey_new_Ok name partition t :
  TopicKey_new name partition = Ok t ↔ TopicKey_pair t = (name, partition).
Proof. apply topic_key_if_Ok. Qed.
Lemma TopicKey_of_pair_pair t : TopicKey_of_pair (TopicKey_pair t) = Some t.
Proof.
  unfold TopicKey_of_pair, TopicKey_pair. cbn [fst snd].
  by rewrite (proj2 (TopicKey_new_Ok (tk_name t) (tk_partition t) t) eq_refl).
Qed.
#[global] Instance TopicKey_countable : Countable TopicKey.
Proof. refine (inj_countable TopicKey_pair TopicKey_of_pair TopicKey_of_pair_pair). Defined.
#[global] Instance TopicKey_ord : TotalOrd TopicKey := ord_inj TopicKey_pair TopicKey_eq.

Inductive TopicMode := Log | Latest.
#[global] Instance TopicMode_eq_dec : EqDecision TopicMode.
Proof. solve_decision. Defined.
Record TopicPolicy := { tp_priority : Priority; tp_mode : TopicMode }.

Abbreviation TopicPolicies := (gmap rstring TopicPolicy) (only parsing).
Fixpoint collect_policies (l : list (rstring * TopicPolicy)) (m : gmap rstring TopicPolicy) :
  result (gmap rstring TopicPolicy) TopicError :=
  match l with
  | [] => Ok m
  | (name, policy) :: l => _ ←? validate_topic name []; collect_policies l (<[name := policy]> m)
  end.
Definition TopicPolicies_new (l : list (rstring * TopicPolicy)) :
  result (gmap rstring TopicPolicy) TopicError := collect_policies l ∅.

(** ** Selectors and discovery *)

Abbreviation SubId := Z (only parsing).
Record TopicSelector := { sel_name : rstring; sel_partition : option bytes }.
Definition TopicSelector_pair (s : TopicSelector) := (sel_name s, sel_partition s).
Lemma TopicSelector_inj s t : TopicSelector_pair s = TopicSelector_pair t → s = t.
Proof. destruct s, t. by intros [= -> ->]. Qed.
#[global] Instance TopicSelector_eq_dec : EqDecision TopicSelector.
Proof. solve_decision. Defined.
#[global] Instance TopicSelector_countable : Countable TopicSelector.
Proof.
  refine (inj_countable' TopicSelector_pair
            (λ p, {| sel_name := p.1; sel_partition := p.2 |}) _). by intros [].
Defined.
#[global] Instance TopicSelector_ord : TotalOrd TopicSelector :=
  ord_inj TopicSelector_pair TopicSelector_inj.

Definition exact_selector (t : TopicKey) : TopicSelector :=
  {| sel_name := tk_name t; sel_partition := Some (tk_partition t) |}.
Definition all_partitions (name : rstring) : result TopicSelector TopicError :=
  _ ←? validate_topic name [];
  Ok {| sel_name := name; sel_partition := None |}.
Definition matches (s : TopicSelector) (t : TopicKey) : bool :=
  bool_decide (sel_name s = tk_name t) &&
  match sel_partition s with Some p => bool_decide (p = tk_partition t) | None => true end.

Abbreviation DiscoveryIndex := (gmap TopicSelector (gset NodeId)) (only parsing).
Definition set_subscribers (d : gmap TopicSelector (gset NodeId)) (s : TopicSelector)
    (l : list NodeId) : gmap TopicSelector (gset NodeId) := <[s := list_to_set l]> d.
Definition subscribers (d : gmap TopicSelector (gset NodeId)) (t : TopicKey) : gset NodeId :=
  list_to_set (filter (λ p, matches p.1 t) (btree_iter d) ≫= λ p, bset_iter p.2).

(** ** Envelopes *)

Record Envelope := {
  env_origin : NodeId;
  env_topic : TopicKey;
  env_seq : Z;
  env_ts_ms : Z;
  env_payload : bytes;
}.
(** The protobuf message; its encoder and decoder are generated by [prost]. *)
Record WireEnvelope := {
  we_origin : bytes;
  we_topic : rstring;
  we_partition : bytes;
  we_seq : Z;
  we_ts_ms : Z;
  we_payload : bytes;
}.
#[global] Instance Envelope_eq_dec : EqDecision Envelope.
Proof. solve_decision. Defined.
#[global] Instance WireEnvelope_eq_dec : EqDecision WireEnvelope.
Proof. solve_decision. Defined.

(** The Rust types of the fields. *)
Definition wire_typed (m : WireEnvelope) : Prop :=
  utf8_valid (we_topic m) = true ∧ is_uint 64 (we_seq m) ∧ is_uint 64 (we_ts_ms m).

Inductive EnvelopeError :=
| NotPubSub
| EeProtobuf (error : rstring)
| InvalidOriginLength (n : Z)
| InvalidSequence
| InvalidTopic (e : TopicError).
#[global] Instance EnvelopeError_eq_dec : EqDecision EnvelopeError.
Proof. solve_decision. Defined.

Definition is_envelope (encoded : bytes) : bool :=
  bool_decide (take (length ENVELOPE_MAGIC) encoded = ENVELOPE_MAGIC).

Section Codec.
Context `{Prost WireEnvelope}.

Definition wire_of (e : Envelope) : WireEnvelope :=
  {| we_origin := as_bytes (env_origin e); we_topic := tk_name (env_topic e);
     we_partition := tk_partition (env_topic e); we_seq := env_seq e;
     we_ts_ms := env_ts_ms e; we_payload := env_payload e |}.

Definition Envelope_encode (e : Envelope) : result bytes EnvelopeError :=
  _ ←? map_err InvalidTopic
         (validate_topic (tk_name (env_topic e)) (tk_partition (env_topic e)));
  if env_seq e =? 0 then Err InvalidSequence
  else Ok (ENVELOPE_MAGIC ++ prost_encode (wire_of e)).

(** [None] would be the panic of [slice(4..)] on a shorter buffer. *)
Definition Envelope_decode (encoded : bytes) : option (result Envelope EnvelopeError) :=
  if negb (is_envelope encoded) then Some (Err NotPubSub)
  else
    raw ← slice_from (length ENVELOPE_MAGIC) encoded;
    wire ←?! map_err EeProtobuf (prost_decode raw);
    origin ←?! match from_bytes (we_origin wire) with
               | Some o => Ok o
               | None => Err (InvalidOriginLength (zlen (we_origin wire)))
               end;
    if we_seq wire =? 0 then Some (Err InvalidSequence)
    else
      topic ←?! map_err InvalidTopic (TopicKey_new (we_topic wire) (we_partition wire));
      Some (Ok {| env_origin := origin; env_topic := topic; env_seq := we_seq wire;
                  env_ts_ms := we_ts_ms wire; env_payload := we_payload wire |}).
End Codec.

(** ** The receive window *)

Record ReceiveWindow := { highest : Z; bitmap : Z }.
#[global] Instance ReceiveWindow_eq_dec : EqDecision ReceiveWindow.
Proof. solve_decision. Defined.
Definition window_first (seq : Z) : ReceiveWindow := {| highest := seq; bitmap := 1 |}.
Definition window_accept (w : ReceiveWindow) (seq : Z) : ReceiveWindow * bool :=
  if highest w <? seq then
    let shift := seq - highest w in
    ({| highest := seq;
        bitmap := if 64 <=? shift then 1
                  else Z.lor (wrap 64 (Z.shiftl (bitmap w) shift)) 1 |}, true)
  else
    let age := highest w - seq in
    if 64 <=? age then (w, false)
    else
      let bit := Z.shiftl 1 age in
      if negb (Z.land (bitmap w) bit =? 0) then (w, false)
      else ({| highest := highest w; bitmap := Z.lor (bitmap w) bit |}, true).

(** ** Hashing *)

Definition FNV_OFFSET_BASIS : Z := 0xcbf29ce484222325.
Definition FNV_PRIME : Z := 0x00000100000001b3.
Definition hash_byte (h : Z) (b : Z) : Z := wrap 64 (Z.lxor h b * FNV_PRIME).
Definition stable_hash (parts : list bytes) : Z :=
  foldl (λ h part, hash_byte (foldl (λ h b, hash_byte h (Z_of_byte b)) h part) 0xff)
    FNV_OFFSET_BASIS parts.

(** ** The component *)

Record DeliveredMessage := { dm_envelope : Envelope; is_backfill : bool }.

Inductive PubSubEvent :=
| PeLocalPublish (topic : TopicKey) (payload : bytes)
| PeLocalSubscribe (sub_id : SubId) (selector : TopicSelector)
| PeLocalUnsubscribe (sub_id : SubId)
| PeInbound (source : NodeId) (payload : bytes)
| PeDiscoveryUpdated (d : gmap TopicSelector (gset NodeId)).

Inductive PubSubRejectReason :=
| UnknownTopic (name : rstring)
| SequenceExhausted (t : TopicKey)
| EnvelopeTooLarge (encoded_len max : Z)
| InvalidEnvelope (e : EnvelopeError)
| SourceMismatch (header envelope : NodeId).
Inductive PubSubDropReason := DuplicateOrTooOld (origin : NodeId) (t : TopicKey) (seq : Z).

Inductive PubSubAction :=
| PaSendMulticast (destinations : list NodeId) (p : Priority) (flow_id conflate_key : Z)
    (conflatable : bool) (payload : bytes)
| PaDeliverToApp (sub_id : SubId) (m : DeliveredMessage)
| PaLocalSubscriptionsChanged (l : list TopicSelector)
| PaPublished (t : TopicKey) (seq : Z)
| PaRejected (r : PubSubRejectReason)
| PaDropped (r : PubSubDropReason).

Record PubSub := {
  ps_me : NodeId;
  policies : gmap rstring TopicPolicy;
  local_subscriptions : gmap SubId TopicSelector;
  discovery : gmap TopicSelector (gset NodeId);
  next_sequences : gmap TopicKey Z;
  received : gmap (NodeId * TopicKey) ReceiveWindow;
}.
Definition PubSub_new (me : NodeId) (p : gmap rstring TopicPolicy) : PubSub :=
  {| ps_me := me; policies := p; local_subscriptions := ∅; discovery := ∅;
     next_sequences := ∅; received := ∅ |}.

Definition set_subscriptions (ps : PubSub) (m : gmap SubId TopicSelector) : PubSub :=
  {| ps_me := ps_me ps; policies := policies ps; local_subscriptions := m;
     discovery := discovery ps; next_sequences := next_sequences ps; received := received ps |}.
Definition set_discovery (ps : PubSub) (d : gmap TopicSelector (gset NodeId)) : PubSub :=
  {| ps_me := ps_me ps; policies := policies ps; local_subscriptions := local_subscriptions ps;
     discovery := d; next_sequences := next_sequences ps; received := received ps |}.
Definition set_sequence (ps : PubSub) (t : TopicKey) (n : Z) : PubSub :=
  {| ps_me := ps_me ps; policies := policies ps; local_subscriptions := local_subscriptions ps;
     discovery := discovery ps; next_sequences := <[t := n]> (next_sequences ps);
     received := received ps |}.
Definition set_window (ps : PubSub) (k : NodeId * TopicKey) (w : ReceiveWindow) : PubSub :=
  {| ps_me := ps_me ps; policies := policies ps; local_subscriptions := local_subscriptions ps;
     discovery := discovery ps; next_sequences := next_sequences ps;
     received := <[k := w]> (received ps) |}.

Definition effective_subscriptions (ps : PubSub) : gset TopicSelector :=
  list_to_set (btree_values (local_subscriptions ps)).
Definition subscription_change (ps : PubSub) (previous : gset TopicSelector) :
  list PubSubAction :=
  let current := effective_subscriptions ps in
  if decide (current = previous) then []
  else [PaLocalSubscriptionsChanged (bset_iter current)].

(** [slice.chunks(n)]: panics for [n = 0]. *)
Fixpoint chunks_fuel {A} (fuel n : nat) (l : list A) : list (list A) :=
  match fuel, l with
  | _, [] | O, _ => []
  | S fuel, _ => take n l :: chunks_fuel fuel n (drop n l)
  end.
Definition chunks {A} (n : Z) (l : list A) : option (list (list A)) :=
  if n <=? 0 then None else Some (chunks_fuel (length l) (Z.to_nat n) l).

(** Offer a sequence number to the window of a key, creating it if missing. *)
Definition offer (ps : PubSub) (k : NodeId * TopicKey) (seq : Z) : PubSub * bool :=
  match received ps !! k with
  | Some w => let '(w, accepted) := window_accept w seq in (set_window ps k w, accepted)
  | None => (set_window ps k (window_first seq), true)
  end.

Section Component.
Context `{Prost WireEnvelope}.

Definition publish (ps : PubSub) (now : MonoTime) (t : TopicKey) (p : bytes) :
  option (PubSub * list PubSubAction) :=
  match policies ps !! tk_name t with
  | None => Some (ps, [PaRejected (UnknownTopic (tk_name t))])
  | Some policy =>
      let sequence := default 0 (next_sequences ps !! t) in
      let ps := set_sequence ps t sequence in
      match checked_add 64 sequence 1 with
      | None => Some (ps, [PaRejected (SequenceExhausted t)])
      | Some seq =>
          let envelope := {| env_origin := ps_me ps; env_topic := t; env_seq := seq;
                             env_ts_ms := now; env_payload := p |} in
          match Envelope_encode envelope with
          | Err _ => None
          | Ok encoded =>
              if MAX_LIVE_ENVELOPE_LEN <? zlen encoded then
                Some (ps, [PaRejected (EnvelopeTooLarge (zlen encoded) MAX_LIVE_ENVELOPE_LEN)])
              else
                let ps := set_sequence ps t seq in
                let '(ps, accepted) := offer ps (ps_me ps, t) seq in
                (* [debug_assert!(accepted)] *)
                if negb accepted then None
                else
                  let dests := subscribers (discovery ps) t ∖ {[ps_me ps]} in
                  let flow_id := stable_hash [tk_name t; tk_partition t] in
                  let conflate_key := stable_hash [as_bytes (ps_me ps); tk_partition t] in
                  room ← checked_sub MAX_FORWARD_PAYLOAD_LEN (zlen encoded);
                  room ← checked_sub room MULTICAST_COUNT_LEN;
                  let limit := Z.min MAX_MULTICAST_DESTINATIONS (room / NODE_ID_LEN) in
                  groups ← chunks limit (bset_iter dests);
                  Some (ps,
                    ((λ chunk, PaSendMulticast chunk (tp_priority policy) flow_id conflate_key
                        (bool_decide (tp_mode policy = Latest) &&
                         bool_decide (tp_priority policy = P1)) encoded) <$> groups)
                    ++ [PaPublished t seq])
          end
      end
  end.

Definition local_deliveries (ps : PubSub) (e : Envelope) : list PubSubAction :=
  (λ p, PaDeliverToApp p.1 {| dm_envelope := e; is_backfill := false |}) <$>
    filter (λ p, matches p.2 (env_topic e)) (btree_iter (local_subscriptions ps)).

Definition receive (ps : PubSub) (source : NodeId) (p : bytes) :
  option (PubSub * list PubSubAction) :=
  r ← Envelope_decode p;
  match r with
  | Err e => Some (ps, [PaRejected (InvalidEnvelope e)])
  | Ok e =>
      if decide (env_origin e ≠ source) then
        Some (ps, [PaRejected (SourceMismatch source (env_origin e))])
      else
        match policies ps !! tk_name (env_topic e) with
        | None => Some (ps, [PaRejected (UnknownTopic (tk_name (env_topic e)))])
        | Some _ =>
            let '(ps, accepted) := offer ps (env_origin e, env_topic e) (env_seq e) in
            if negb accepted then
              Some (ps, [PaDropped (DuplicateOrTooOld (env_origin e) (env_topic e) (env_seq e))])
            else Some (ps, local_deliveries ps e)
        end
  end.

Definition ps_handle (ps : PubSub) (now : MonoTime) (event : PubSubEvent) :
  option (PubSub * list PubSubAction) :=
  match event with
  | PeLocalPublish t p => publish ps now t p
  | PeLocalSubscribe id s =>
      let previous := effective_subscriptions ps in
      let ps := set_subscriptions ps (<[id := s]> (local_subscriptions ps)) in
      Some (ps, subscription_change ps previous)
  | PeLocalUnsubscribe id =>
      let previous := effective_subscriptions ps in
      let ps := set_subscriptions ps (delete id (local_subscriptions ps)) in
      Some (ps, subscription_change ps previous)
  | PeInbound source p => receive ps source p
  | PeDiscoveryUpdated d => Some (set_discovery ps d, [])
  end.

#[global] Instance PubSub_component : Component PubSub PubSubEvent PubSubAction :=
  {| handle := ps_handle |}.
End Component.
