(* ===== verification/Protobuf.v ===== *)
(** * The protobuf wire format of the messages

    The codecs of the messages are generated by [prost] and are the parameter
    [Prost] of the development.  This file gives the encoding that the schema
    proto/control.proto and the attributes of [WireEnvelope] describe: numbered
    fields, as variable-length integers or as bytes with their length, default
    values left out, unknown fields skipped.  It satisfies the laws the
    theorems assume, and the examples and tests run on it.

    Lengths have no bound here, like the buffers of the model; groups, which no
    message of the schema uses, are refused. *)

From Stdlib Require Import Strings.Byte.
From S2P Require Export Prelude Ord Bytes Types Proto Wire PubSub.

(** ** Variable-length integers *)

(** Seven bits a byte, the least significant first. *)
Fixpoint varint_fuel (n : nat) (z : Z) : bytes :=
  match n with
  | O => []
  | S n => if z <? 128 then [byte_of_Z z]
           else byte_of_Z (128 + z mod 128) :: varint_fuel n (z / 128)
  end.
Definition varint_len (z : Z) : nat := S (Z.to_nat (Z.log2 z / 7)).
Definition varint (z : Z) : bytes := varint_fuel (varint_len z) z.
Fixpoint read_varint (n : nat) (l : bytes) : option (Z * bytes) :=
  match n, l with
  | S n, b :: l =>
      if Z_of_byte b <? 128 then Some (Z_of_byte b, l)
      else '(z, l) ← read_varint n l; Some (Z_of_byte b - 128 + 128 * z, l)
  | _, _ => None
  end.

Lemma read_varint_fuel n : ∀ m z l,
  0 ≤ z < 2 ^ (7 * Z.of_nat n) → (n ≤ m)%nat → (0 < n)%nat →
  read_varint m (varint_fuel n z ++ l) = Some (z, l).
Proof.
  induction n as [|n IH]; intros m z l Hz Hm Hn; [lia|].
  destruct m as [|m]; [lia|]. cbn [varint_fuel].
  pose proof (Z.mod_pos_bound z 128 ltac:(lia)). pose proof (Z.div_mod z 128 ltac:(lia)) as E.
  destruct (Z.ltb_spec z 128) as [Hs|Hs]; cbn [app read_varint].
  { rewrite Z_of_byte_of_Z, Z.mod_small by lia. by destruct (Z.ltb_spec z 128); [|lia]. }
  rewrite Z_of_byte_of_Z, (Z.mod_small (128 + _)) by lia.
  destruct (Z.ltb_spec (128 + z mod 128) 128); [lia|].
  assert (Hd : z / 128 < 2 ^ (7 * Z.of_nat n)).
  { apply Z.div_lt_upper_bound; [lia|].
    replace (128 * 2 ^ (7 * Z.of_nat n)) with (2 ^ (7 * Z.of_nat (S n))); [lia|].
    replace (7 * Z.of_nat (S n)) with (7 + 7 * Z.of_nat n) by lia.
    rewrite Z.pow_add_r by lia. done. }
  assert (0 < n)%nat.
  { destruct n; [|lia]. cbn in Hd. assert (1 ≤ z / 128) by (apply Z.div_le_lower_bound; lia). lia. }
  rewrite IH by (first [lia|split; [apply Z.div_pos; lia|lia]]). cbn [mbind option_bind]. do 2 f_equal. lia.
Qed.
Lemma varint_len_bound z : 0 ≤ z → z < 2 ^ (7 * Z.of_nat (varint_len z)).
Proof.
  intros Hz. unfold varint_len. destruct (decide (z = 0)) as [->|]; [done|].
  pose proof (Z.log2_spec z ltac:(lia)) as [_ H]. pose proof (Z.log2_nonneg z).
  eapply Z.lt_le_trans; [exact H|]. apply Z.pow_le_mono_r; [lia|].
  pose proof (Z.div_pos (Z.log2 z) 7 ltac:(lia) ltac:(lia)).
  pose proof (Z.div_mod (Z.log2 z) 7 ltac:(lia)). pose proof (Z.mod_pos_bound (Z.log2 z) 7 ltac:(lia)).
  rewrite Nat2Z.inj_succ, Z2Nat.id by lia. lia.
Qed.
Lemma varint_len_value z : is_uint 64 z → (varint_len z ≤ 10)%nat.
Proof.
  intros Hz. unfold varint_len. destruct (decide (z = 0)) as [->|]; [vm_compute; lia|].
  assert (Z.log2 z < 64) by (apply Z.log2_lt_pow2; unfold is_uint in Hz; lia).
  assert (Z.log2 z / 7 < 10) by (apply Z.div_lt_upper_bound; lia). lia.
Qed.
Lemma length_varint_fuel n z : (0 < n)%nat → (0 < length (varint_fuel n z))%nat.
Proof. destruct n; [lia|]. intros _. cbn. destruct (z <? 128); cbn; lia. Qed.

(** A 64-bit value takes at most ten bytes; more, or a larger value, is an
    error. *)
Definition read_value (l : bytes) : option (Z * bytes) :=
  '(z, l) ← read_varint 10 l;
  if z <? 2 ^ 64 then Some (z, l) else None.
Lemma read_value_varint z l : is_uint 64 z → read_value (varint z ++ l) = Some (z, l).
Proof.
  intros Hz. unfold read_value, varint.
  rewrite read_varint_fuel by first [apply varint_len_value; done | unfold varint_len; lia |
    split; [apply Hz|apply varint_len_bound, Hz]].
  cbn [mbind option_bind]. unfold is_uint in Hz. by destruct (Z.ltb_spec z (2 ^ 64)); [|lia].
Qed.
(** The length in front of a field of bytes. *)
Fixpoint read_length (l : bytes) : option (Z * bytes) :=
  match l with
  | [] => None
  | b :: l =>
      if Z_of_byte b <? 128 then Some (Z_of_byte b, l)
      else '(z, l) ← read_length l; Some (Z_of_byte b - 128 + 128 * z, l)
  end.
Lemma read_varint_length n : ∀ l r, read_varint n l = Some r → read_length l = Some r.
Proof.
  induction n as [|n IH]; intros [|b l] r; cbn [read_varint read_length]; try done.
  destruct (Z_of_byte b <? 128); [done|].
  destruct (read_varint n l) as [[z l']|] eqn:E; cbn [mbind option_bind]; [|done].
  by rewrite (IH _ _ E).
Qed.
Lemma read_length_varint z l : 0 ≤ z → read_length (varint z ++ l) = Some (z, l).
Proof.
  intros Hz. apply (read_varint_length (varint_len z)), read_varint_fuel; [|done|unfold varint_len; lia].
  split; [done|]. by apply varint_len_bound.
Qed.

(** ** Fields *)

Inductive PbValue :=
| PvVarint (z : Z)
| PvFixed64 (b : bytes)
| PvBytes (b : bytes)
| PvFixed32 (b : bytes).
Record PbField := { pf_number : Z; pf_value : PbValue }.

Definition wire_type (v : PbValue) : Z :=
  match v with PvVarint _ => 0 | PvFixed64 _ => 1 | PvBytes _ => 2 | PvFixed32 _ => 5 end.
Definition encode_value (v : PbValue) : bytes :=
  match v with
  | PvVarint z => varint z
  | PvBytes b => varint (zlen b) ++ b
  | PvFixed64 b | PvFixed32 b => b
  end.
Definition encode_field (f : PbField) : bytes :=
  varint (pf_number f * 8 + wire_type (pf_value f)) ++ encode_value (pf_value f).

(** [n] bytes off the front of a buffer. *)
Fixpoint read_bytes (n : Z) (l : bytes) : option (bytes * bytes) :=
  if n =? 0 then Some ([], l)
  else match l with
       | [] => None
       | x :: l => '(b, l) ← read_bytes (n - 1) l; Some (x :: b, l)
       end.
Definition decode_value (t : Z) (l : bytes) : option (PbValue * bytes) :=
  match t with
  | 0 => '(z, l) ← read_value l; Some (PvVarint z, l)
  | 1 => '(b, l) ← read_bytes 8 l; Some (PvFixed64 b, l)
  | 2 => '(n, l) ← read_length l; '(b, l) ← read_bytes n l; Some (PvBytes b, l)
  | 5 => '(b, l) ← read_bytes 4 l; Some (PvFixed32 b, l)
  | _ => None
  end.
(** The key is the number of the field, which is not zero, and the wire type;
    it has 32 bits. *)
Definition decode_field (l : bytes) : option (PbField * bytes) :=
  '(key, l) ← read_value l;
  if (key <? 2 ^ 32) && (0 <? key / 8) then
    '(v, l) ← decode_value (key mod 8) l;
    Some ({| pf_number := key / 8; pf_value := v |}, l)
  else None.
Fixpoint decode_fields (fuel : nat) (l : bytes) : option (list PbField) :=
  match fuel, l with
  | _, [] => Some []
  | O, _ => None
  | S fuel, _ => '(f, l) ← decode_field l; fs ← decode_fields fuel l; Some (f :: fs)
  end.
(** Each field takes a byte or more, so that there are at most as many fields as
    bytes. *)
Definition message_fields (l : bytes) : option (list PbField) := decode_fields (length l) l.
Definition encode_message (fs : list PbField) : bytes := fs ≫= encode_field.

Definition value_typed (v : PbValue) : Prop :=
  match v with
  | PvVarint z => is_uint 64 z
  | PvFixed64 b => length b = 8%nat
  | PvBytes b => True
  | PvFixed32 b => length b = 4%nat
  end.
Definition field_typed (f : PbField) : Prop := 0 < pf_number f < 2 ^ 29 ∧ value_typed (pf_value f).

Lemma read_bytes_app b l : read_bytes (zlen b) (b ++ l) = Some (b, l).
Proof.
  induction b as [|x b IH]; [by destruct l|]. cbn [app read_bytes].
  destruct (Z.eqb_spec (zlen (x :: b)) 0) as [E|_]; [unfold zlen in E; cbn in E; lia|].
  replace (zlen (x :: b) - 1) with (zlen b) by (unfold zlen; cbn [length]; lia). by rewrite IH.
Qed.
Lemma decode_value_encode v l :
  value_typed v → decode_value (wire_type v) (encode_value v ++ l) = Some (v, l).
Proof.
  destruct v as [z|b|b|b]; cbn [value_typed wire_type encode_value decode_value]; intros Hv.
  - by rewrite read_value_varint.
  - replace 8 with (zlen b) by (unfold zlen; lia). by rewrite read_bytes_app.
  - rewrite <-(assoc_L (++)), read_length_varint by (unfold zlen; lia). cbn [mbind option_bind].
    by rewrite read_bytes_app.
  - replace 4 with (zlen b) by (unfold zlen; lia). by rewrite read_bytes_app.
Qed.
Lemma decode_field_encode f l : field_typed f → decode_field (encode_field f ++ l) = Some (f, l).
Proof.
  destruct f as [n v]. intros [Hn Hv]. cbn [pf_number pf_value] in *.
  unfold decode_field, encode_field. cbn [pf_number pf_value].
  assert (Ht : 0 ≤ wire_type v < 8) by (destruct v; cbn; lia).
  rewrite <-(assoc_L (++)), read_value_varint by (unfold is_uint; lia). cbn [mbind option_bind].
  rewrite Z.div_add_l, (Z.div_small (wire_type v)), Z.add_0_r by lia.
  rewrite Z.add_comm, Z.mod_add, (Z.mod_small (wire_type v)) by lia.
  destruct (Z.ltb_spec (wire_type v + n * 8) (2 ^ 32)); [|lia].
  destruct (Z.ltb_spec 0 n); [|lia]. cbn [andb].
  by rewrite decode_value_encode.
Qed.
Lemma length_encode_field f : (0 < length (encode_field f))%nat.
Proof.
  unfold encode_field. rewrite length_app.
  pose proof (length_varint_fuel (varint_len (pf_number f * 8 + wire_type (pf_value f)))
                (pf_number f * 8 + wire_type (pf_value f)) ltac:(unfold varint_len; lia)).
  unfold varint. lia.
Qed.
(** Fields survive the wire. *)
Lemma message_fields_encode fs : Forall field_typed fs → message_fields (encode_message fs) = Some fs.
Proof.
  unfold message_fields. intros Hfs.
  enough (∀ n, (length fs ≤ n)%nat → decode_fields n (encode_message fs) = Some fs) as H.
  { apply H. clear. induction fs as [|f fs IH]; [done|]. unfold encode_message in *.
    rewrite bind_cons, length_app. pose proof (length_encode_field f). cbn [length]. lia. }
  induction Hfs as [|f fs Hf Hfs IH]; intros n Hn; [by destruct n|].
  destruct n as [|n]; cbn [length] in Hn; [lia|].
  unfold encode_message. rewrite bind_cons.
  pose proof (length_encode_field f) as Hlen.
  destruct (encode_field f ++ (fs ≫= encode_field)) as [|x r] eqn:E.
  { apply (f_equal length) in E. rewrite length_app in E. cbn [length] in E. lia. }
  cbn [decode_fields]. rewrite <-E, decode_field_encode by done. cbn [mbind option_bind].
  unfold encode_message in IH. by rewrite IH by lia.
Qed.

(** ** Fields of a message *)

(** A scalar field with its default value is left out. *)
Definition uint_field (n z : Z) : list PbField :=
  if z =? 0 then [] else [{| pf_number := n; pf_value := PvVarint z |}].
Definition bytes_field (n : Z) (b : bytes) : list PbField :=
  match b with [] => [] | _ => [{| pf_number := n; pf_value := PvBytes b |}] end.
Definition repeated_field (n : Z) (l : list bytes) : list PbField :=
  (λ b, {| pf_number := n; pf_value := PvBytes b |}) <$> l.

(** The values of field [n]; others are unknown to whoever asks. *)
Definition field_values (n : Z) (fs : list PbField) : list PbValue :=
  omap (λ f, if pf_number f =? n then Some (pf_value f) else None) fs.

(** The last value of a scalar counts; a value of another wire type is an
    error. *)
Definition decode_error : rstring := [].
Definition get_scalar {A} (read : PbValue → result A rstring) (default : A) (vs : list PbValue) :
  result A rstring :=
  foldl (λ r v, _ ←? r; read v) (Ok default) vs.
Definition read_uint (w : Z) (v : PbValue) : result Z rstring :=
  match v with PvVarint z => Ok (wrap w z) | _ => Err decode_error end.
Definition read_pb_bytes (v : PbValue) : result bytes rstring :=
  match v with PvBytes b => Ok b | _ => Err decode_error end.
Definition read_string (v : PbValue) : result rstring rstring :=
  b ←? read_pb_bytes v;
  if utf8_valid b then Ok b else Err decode_error.
Definition get_uint (w n : Z) (fs : list PbField) : result Z rstring :=
  get_scalar (read_uint w) 0 (field_values n fs).
Definition get_bytes (n : Z) (fs : list PbField) : result bytes rstring :=
  get_scalar read_pb_bytes [] (field_values n fs).
Definition get_string (n : Z) (fs : list PbField) : result rstring rstring :=
  get_scalar read_string [] (field_values n fs).
Definition get_repeated {A} (decode : bytes → result A rstring) (n : Z) (fs : list PbField) :
  result (list A) rstring :=
  collect_results (λ v, b ←? read_pb_bytes v; decode b) (field_values n fs).

Lemma field_values_app n fs gs : field_values n (fs ++ gs) = field_values n fs ++ field_values n gs.
Proof. unfold field_values. apply omap_app. Qed.
Lemma field_values_uint n k z :
  field_values n (uint_field k z) = if k =? n then (if z =? 0 then [] else [PvVarint z]) else [].
Proof. unfold uint_field. destruct (z =? 0); cbn; by destruct (k =? n). Qed.
Lemma field_values_bytes n k b :
  field_values n (bytes_field k b) =
    if k =? n then match b with [] => [] | _ => [PvBytes b] end else [].
Proof. destruct b; cbn; by destruct (k =? n). Qed.
Lemma field_values_repeated n k l :
  field_values n (repeated_field k l) = if k =? n then PvBytes <$> l else [].
Proof.
  unfold field_values, repeated_field. induction l as [|b l IH]; cbn; [by destruct (k =? n)|].
  rewrite IH. by destruct (k =? n).
Qed.
Lemma get_scalar_uint w z :
  is_uint w z → get_scalar (read_uint w) 0 (if z =? 0 then [] else [PvVarint z]) = Ok z.
Proof.
  intros Hz. unfold get_scalar. destruct (Z.eqb_spec z 0) as [->|]; cbn; [done|].
  unfold wrap. rewrite Z.mod_small; [done|exact Hz].
Qed.
Lemma get_scalar_bytes b :
  get_scalar read_pb_bytes [] (match b with [] => [] | _ => [PvBytes b] end) = Ok b.
Proof. by destruct b. Qed.
Lemma get_scalar_string b :
  utf8_valid b = true → get_scalar read_string [] (match b with [] => [] | _ => [PvBytes b] end) = Ok b.
Proof. intros Hb. destruct b; [done|]. unfold get_scalar. cbn [foldl read_string read_pb_bytes]. by rewrite Hb. Qed.
Lemma collect_repeated {A} (encode : A → bytes) (decode : bytes → result A rstring) l :
  Forall (λ a, decode (encode a) = Ok a) l →
  collect_results (λ v, b ←? read_pb_bytes v; decode b) (PvBytes <$> (encode <$> l)) = Ok l.
Proof.
  intros H. apply collect_results_ok. induction H as [|a l Ha H IH]; cbn; constructor; done.
Qed.

(** ** Messages *)

Class PbMessage (M : Type) := {
  pb_fields : M → list PbField;
  pb_of_fields : list PbField → result M rstring;
}.
#[export] Instance pb_prost `{PbMessage M} : Prost M := {|
  prost_encode m := encode_message (pb_fields m);
  prost_decode l := match message_fields l with
                    | Some fs => pb_of_fields fs
                    | None => Err decode_error
                    end;
|}.
Lemma pb_roundtrip `{PbMessage M} (wf : M → Prop) :
  (∀ m, wf m → Forall field_typed (pb_fields m) ∧ pb_of_fields (pb_fields m) = Ok m) →
  ProstLaws M wf.
Proof.
  intros Hm. constructor. intros m [Ht Hr]%Hm. cbn [prost_encode prost_decode pb_prost].
  by rewrite message_fields_encode.
Qed.

#[export] Instance LinkHello_message : PbMessage PbLinkHello := {|
  pb_fields m := bytes_field 1 (pb_node_id m) ++ uint_field 2 (pb_protocol_version m);
  pb_of_fields fs :=
    a ←? get_bytes 1 fs; b ←? get_uint 32 2 fs;
    Ok {| pb_node_id := a; pb_protocol_version := b |};
|}.
#[export] Instance Adjacency_message : PbMessage PbAdjacency := {|
  pb_fields m := bytes_field 1 (pb_peer m) ++ uint_field 2 (pb_cost m);
  pb_of_fields fs :=
    a ←? get_bytes 1 fs; b ←? get_uint 32 2 fs; Ok {| pb_peer := a; pb_cost := b |};
|}.
#[export] Instance TopicAd_message : PbMessage PbTopicAd := {|
  pb_fields m :=
    bytes_field 1 (pb_topic m) ++ bytes_field 2 (pb_partition m) ++ uint_field 3 (pb_role m) ++
    uint_field 4 (pb_head_seq m) ++ uint_field 5 (pb_tail_seq m);
  pb_of_fields fs :=
    a ←? get_string 1 fs; b ←? get_bytes 2 fs; c ←? get_uint 32 3 fs; d ←? get_uint 64 4 fs;
    e ←? get_uint 64 5 fs;
    Ok {| pb_topic := a; pb_partition := b; pb_role := c; pb_head_seq := d; pb_tail_seq := e |};
|}.
#[export] Instance Lsa_message : PbMessage PbLsa := {|
  pb_fields m :=
    bytes_field 1 (pb_origin m) ++ uint_field 2 (pb_seq m) ++ uint_field 4 (pb_ttl_sec m) ++
    repeated_field 10 (prost_encode <$> pb_adjacencies m) ++
    repeated_field 13 (prost_encode <$> pb_topics m) ++ uint_field 20 (pb_epoch m);
  pb_of_fields fs :=
    a ←? get_bytes 1 fs; b ←? get_uint 64 2 fs; c ←? get_uint 32 4 fs;
    d ←? get_repeated prost_decode 10 fs; e ←? get_repeated prost_decode 13 fs;
    f ←? get_uint 32 20 fs;
    Ok {| pb_origin := a; pb_seq := b; pb_ttl_sec := c; pb_adjacencies := d; pb_topics := e;
          pb_epoch := f |};
|}.
#[export] Instance SignedLsa_message : PbMessage PbSignedLsa := {|
  pb_fields m := bytes_field 1 (pb_lsa_bytes m) ++ bytes_field 2 (pb_signature m);
  pb_of_fields fs :=
    a ←? get_bytes 1 fs; b ←? get_bytes 2 fs; Ok {| pb_lsa_bytes := a; pb_signature := b |};
|}.
#[export] Instance DigestEntry_message : PbMessage PbDigestEntry := {|
  pb_fields m := bytes_field 1 (pde_origin m) ++ uint_field 2 (pde_epoch m) ++ uint_field 3 (pde_seq m);
  pb_of_fields fs :=
    a ←? get_bytes 1 fs; b ←? get_uint 32 2 fs; c ←? get_uint 64 3 fs;
    Ok {| pde_origin := a; pde_epoch := b; pde_seq := c |};
|}.
#[export] Instance Digest_message : PbMessage PbDigest := {|
  pb_fields m := repeated_field 1 (prost_encode <$> pb_entries m);
  pb_of_fields fs := a ←? get_repeated prost_decode 1 fs; Ok {| pb_entries := a |};
|}.
#[export] Instance DigestReq_message : PbMessage PbDigestReq := {|
  pb_fields m := repeated_field 1 (pb_origins m);
  pb_of_fields fs := a ←? get_repeated Ok 1 fs; Ok {| pb_origins := a |};
|}.
(** [struct WireEnvelope] of mb-pubsub *)
#[export] Instance Envelope_message : PbMessage WireEnvelope := {|
  pb_fields m :=
    bytes_field 1 (we_origin m) ++ bytes_field 2 (we_topic m) ++ bytes_field 3 (we_partition m) ++
    uint_field 4 (we_seq m) ++ uint_field 5 (we_ts_ms m) ++ bytes_field 6 (we_payload m);
  pb_of_fields fs :=
    a ←? get_bytes 1 fs; b ←? get_string 2 fs; c ←? get_bytes 3 fs; d ←? get_uint 64 4 fs;
    e ←? get_uint 64 5 fs; f ←? get_bytes 6 fs;
    Ok {| we_origin := a; we_topic := b; we_partition := c; we_seq := d; we_ts_ms := e;
          we_payload := f |};
|}.

(** ** The laws *)

Lemma uint_field_typed n w z :
  0 < n < 2 ^ 29 → w ≤ 64 → is_uint w z → Forall field_typed (uint_field n z).
Proof.
  intros Hn Hw Hz. unfold uint_field. destruct (z =? 0); [done|]. apply Forall_singleton.
  split; [done|]. destruct Hz as [? Hz]. split; [done|]. eapply Z.lt_le_trans; [exact Hz|].
  by apply Z.pow_le_mono_r.
Qed.
Lemma bytes_field_typed n b : 0 < n < 2 ^ 29 → Forall field_typed (bytes_field n b).
Proof. intros Hn. destruct b; [done|]. by apply Forall_singleton. Qed.
Lemma repeated_field_typed n l : 0 < n < 2 ^ 29 → Forall field_typed (repeated_field n l).
Proof. intros Hn. unfold repeated_field. apply Forall_fmap, Forall_true. done. Qed.

Create HintDb protobuf.
#[export] Hint Resolve bytes_field_typed repeated_field_typed : protobuf.
#[export] Hint Extern 1 (Forall field_typed (uint_field _ _)) =>
  eapply uint_field_typed; [| |eassumption] : protobuf.
#[export] Hint Extern 2 (_ < _ < _) => lia : protobuf.
#[export] Hint Extern 2 (_ <= _) => lia : protobuf.
(** A message from its fields: pick the values of each number, then read them. *)
Ltac pb_fields_typed := repeat apply Forall_app_2; eauto with protobuf.
Ltac pb_read :=
  cbn [pb_of_fields pb_fields LinkHello_message Adjacency_message TopicAd_message Lsa_message
       SignedLsa_message DigestEntry_message Digest_message DigestReq_message Envelope_message
       pb_node_id pb_protocol_version pb_peer pb_cost pb_topic pb_partition pb_role pb_head_seq
       pb_tail_seq pb_origin pb_seq pb_ttl_sec pb_adjacencies pb_topics pb_epoch pb_lsa_bytes
       pb_signature pde_origin pde_epoch pde_seq pb_entries pb_origins we_origin we_topic
       we_partition we_seq we_ts_ms we_payload];
  unfold get_uint, get_bytes, get_string, get_repeated;
  rewrite ?field_values_app, ?field_values_uint, ?field_values_bytes, ?field_values_repeated;
  cbn [Z.eqb Pos.eqb app]; rewrite ?app_nil_r;
  rewrite ?get_scalar_bytes, ?get_scalar_uint, ?get_scalar_string by assumption.

#[export] Instance hello_laws : ProstLaws PbLinkHello PbLinkHello_typed.
Proof.
  apply pb_roundtrip. intros [a b] Hb. unfold PbLinkHello_typed in Hb. cbn [pb_protocol_version] in Hb.
  split; [pb_fields_typed|]. by pb_read.
Qed.
#[export] Instance adjacency_laws : ProstLaws PbAdjacency (λ a, is_uint 32 (pb_cost a)).
Proof.
  apply pb_roundtrip. intros [a b] Hb. cbn [pb_cost] in Hb. split; [pb_fields_typed|]. by pb_read.
Qed.
#[export] Instance topic_ad_laws : ProstLaws PbTopicAd PbTopicAd_typed.
Proof.
  apply pb_roundtrip. intros [a b c d e] (H1 & H2 & H3 & H4). cbn in H1, H2, H3, H4.
  split; [pb_fields_typed|]. by pb_read.
Qed.
#[export] Instance lsa_laws : ProstLaws PbLsa PbLsa_typed.
Proof.
  apply pb_roundtrip. intros [a b c d e f] (H1 & H2 & H3 & H4 & H5).
  cbn [pb_seq pb_ttl_sec pb_epoch pb_adjacencies pb_topics] in *.
  split; [pb_fields_typed|]. pb_read.
  rewrite !collect_repeated; [done|..]; eapply Forall_impl; [exact H5| |exact H4|];
    intros x Hx; by apply prost_roundtrip.
Qed.
#[export] Instance signed_laws : ProstLaws PbSignedLsa (λ _, True).
Proof. apply pb_roundtrip. intros [a b] _. split; [pb_fields_typed|]. by pb_read. Qed.
#[export] Instance digest_entry_laws :
  ProstLaws PbDigestEntry (λ e, is_uint 32 (pde_epoch e) ∧ is_uint 64 (pde_seq e)).
Proof.
  apply pb_roundtrip. intros [a b c] [H1 H2]. cbn [pde_epoch pde_seq] in *.
  split; [pb_fields_typed|]. by pb_read.
Qed.
#[export] Instance digest_laws : ProstLaws PbDigest PbDigest_typed.
Proof.
  apply pb_roundtrip. intros [l] Hl. unfold PbDigest_typed in Hl. cbn [pb_entries] in Hl.
  split; [cbn [pb_fields Digest_message]; pb_fields_typed|]. pb_read.
  rewrite collect_repeated; [done|]. eapply Forall_impl; [exact Hl|].
  intros x Hx. by apply prost_roundtrip.
Qed.
#[export] Instance digest_req_laws : ProstLaws PbDigestReq (λ _, True).
Proof.
  apply pb_roundtrip. intros [l] _. split; [cbn [pb_fields DigestReq_message]; pb_fields_typed|]. pb_read.
  assert (collect_results (λ v, b ←? read_pb_bytes v; Ok b) (PvBytes <$> l) = Ok l) as ->; [|done].
  rewrite <-(list_fmap_id l) at 1. by apply (collect_repeated id), Forall_true.
Qed.
#[export] Instance envelope_laws : ProstLaws WireEnvelope wire_typed.
Proof.
  apply pb_roundtrip. intros [a b c d e f] (H1 & H2 & H3). cbn [we_topic we_seq we_ts_ms] in *.
  split; [pb_fields_typed|]. by pb_read.
Qed.
