(* ===== verification/PubSubProps.v ===== *)
(** * Properties of the publish/subscribe component (crates/mb-pubsub)

    The bitmap window compared with the set of the sequence numbers it has
    accepted; the envelope codec, discovery, the chunks of a publication, and
    what holds along every run: at-most-once delivery, contiguous sequence
    numbers, and announcements that follow the subscriptions. *)

From Stdlib Require Import Strings.Byte.
From S2P Require Export Prelude Ord Bytes Types Wire WirePackets PubSub.

(** ** Abstract window: the set of accepted numbers *)

(** A number is refused when it was accepted before, or when it is 64 or more
    below an accepted one. *)
Definition stale (acc : gset Z) (seq : Z) : Prop :=
  seq ∈ acc ∨ set_Exists (λ s, seq + 64 ≤ s) acc.
#[global] Instance stale_dec acc seq : Decision (stale acc seq).
Proof. unfold stale. apply _. Defined.

Definition spec_accept (acc : gset Z) (seq : Z) : gset Z * bool :=
  if decide (stale acc seq) then (acc, false) else ({[seq]} ∪ acc, true).

(** The decisions over a sequence of offers. *)
Fixpoint decisions {W} (accept : W → Z → W * bool) (w : W) (seqs : list Z) : list bool :=
  match seqs with
  | [] => []
  | s :: seqs => let '(w, b) := accept w s in b :: decisions accept w seqs
  end.

Record window_refines (w : ReceiveWindow) (acc : gset Z) : Prop := {
  wr_top : highest w ∈ acc;
  wr_max : ∀ s, s ∈ acc → s ≤ highest w;
  wr_bits : ∀ i, 0 ≤ i < 64 → Z.testbit (bitmap w) i = true ↔ highest w - i ∈ acc;
  wr_range : is_uint 64 (bitmap w);
}.

Lemma uint_bits_high w z i : is_uint w z → w ≤ i → Z.testbit z i = false.
Proof.
  intros Hz Hi. destruct (decide (0 ≤ w)) as [Hw|Hw].
  - unfold is_uint in Hz. rewrite <-(Z.mod_small z (2 ^ w)) by done.
    by apply Z.mod_pow2_bits_high.
  - unfold is_uint in Hz. rewrite Z.pow_neg_r in Hz by lia. lia.
Qed.
Lemma is_uint_bits w z : 0 ≤ w → 0 ≤ z → (∀ i, w ≤ i → Z.testbit z i = false) → is_uint w z.
Proof.
  intros Hw Hz Hb. assert (z = z mod 2 ^ w) as ->; [|by apply is_uint_wrap].
  apply Z.bits_inj'. intros i Hi. destruct (decide (i < w)).
  - by rewrite Z.mod_pow2_bits_low.
  - rewrite Z.mod_pow2_bits_high by lia. apply Hb. lia.
Qed.
Lemma is_uint_lor w a b : 0 ≤ w → is_uint w a → is_uint w b → is_uint w (Z.lor a b).
Proof.
  intros Hw Ha Hb. apply is_uint_bits; [done|..].
  - apply Z.lor_nonneg. unfold is_uint in *. lia.
  - intros i Hi. rewrite Z.lor_spec.
    by rewrite (uint_bits_high w a), (uint_bits_high w b) by done.
Qed.
Lemma testbit_bit j i : 0 ≤ i → Z.testbit (Z.shiftl 1 i) j = bool_decide (i = j).
Proof.
  intros Hi. rewrite Z.shiftl_1_l. case_bool_decide as E.
  - subst. by apply Z.pow2_bits_true.
  - by apply Z.pow2_bits_false.
Qed.
Lemma land_bit_zero z i : 0 ≤ i → (Z.land z (Z.shiftl 1 i) =? 0) = negb (Z.testbit z i).
Proof.
  intros Hi. apply eq_true_iff_eq. rewrite Z.eqb_eq, negb_true_iff. split.
  - intros E%(f_equal (λ x, Z.testbit x i)). rewrite Z.land_spec, Z.bits_0 in E.
    rewrite testbit_bit, bool_decide_true in E by done. by rewrite andb_true_r in E.
  - intros E. apply Z.bits_inj'. intros j Hj. rewrite Z.land_spec, Z.bits_0, testbit_bit by done.
    case_bool_decide; [subst; by rewrite E|apply andb_false_r].
Qed.

Lemma window_first_refines s : window_refines (window_first s) {[s]}.
Proof.
  split; cbn; [set_solver|set_solver by lia|..|done].
  intros i Hi. rewrite elem_of_singleton. change 1 with (Z.shiftl 1 0).
  rewrite testbit_bit, bool_decide_eq_true by done. lia.
Qed.

(** The three outcomes of [accept] are the set's. *)
Lemma window_accept_refines w acc s :
  window_refines w acc →
  window_refines (window_accept w s).1 (spec_accept acc s).1 ∧
  (window_accept w s).2 = (spec_accept acc s).2.
Proof.
  intros [Ht Hm Hb Hr]. unfold window_accept, spec_accept.
  destruct (Z.ltb_spec (highest w) s) as [Hlt|Hge].
  - rewrite decide_False.
    2:{ intros [Hin|(x & Hin & Hx)]; specialize (Hm _ Hin); lia. }
    split; [|done]. cbn [fst]. destruct (Z.leb_spec 64 (s - highest w)) as [Hfar|Hnear].
    + split; cbn [highest bitmap]; [set_solver| |..|done].
      { intros x [->%elem_of_singleton|Hin%Hm]%elem_of_union; lia. }
      intros i Hi. change 1 with (Z.shiftl 1 0).
      rewrite testbit_bit, bool_decide_eq_true by done. rewrite elem_of_union, elem_of_singleton.
      split; [lia|]. intros [?|Hin%Hm]; lia.
    + split; cbn [highest bitmap]; [set_solver| |..].
      { intros x [->%elem_of_singleton|Hin%Hm]%elem_of_union; lia. }
      * intros i Hi. rewrite Z.lor_spec. unfold wrap. rewrite Z.mod_pow2_bits_low by lia.
        change 1 with (Z.shiftl 1 0). rewrite testbit_bit by done.
        rewrite orb_true_iff, bool_decide_eq_true, elem_of_union, elem_of_singleton.
        rewrite Z.shiftl_spec by lia. destruct (decide (i < s - highest w)) as [Hi'|Hi'].
        -- rewrite Z.testbit_neg_r by lia. split; [intros [?|?]; [done|lia]|].
           intros [?|Hin%Hm]; [right|]; lia.
        -- rewrite Hb by lia.
           replace (highest w - (i - (s - highest w))) with (s - i) by lia.
           split; [intros [?|?]; [by right|left; lia]|intros [?|?]; [right; lia|by left]].
      * apply is_uint_lor; [done|by apply is_uint_wrap|done].
  - destruct (Z.leb_spec 64 (highest w - s)) as [Hold|Hyoung].
    { rewrite decide_True; [done|]. right. exists (highest w). split; [done|lia]. }
    rewrite land_bit_zero, negb_involutive by lia.
    destruct (Z.testbit (bitmap w) (highest w - s)) eqn:E.
    { rewrite decide_True; [done|]. left. apply Hb in E; [|lia].
      by replace (highest w - (highest w - s)) with s in E by lia. }
    rewrite decide_False.
    2:{ intros [Hin|(x & Hin & Hx)]; [|specialize (Hm _ Hin); lia].
        assert (Z.testbit (bitmap w) (highest w - s) = true); [|congruence].
        apply Hb; [lia|]. by replace (highest w - (highest w - s)) with s by lia. }
    split; [|done]. split; cbn [fst highest bitmap]; [set_solver| |..].
    { intros x [->%elem_of_singleton|Hin%Hm]%elem_of_union; lia. }
    + intros i Hi. rewrite Z.lor_spec, orb_true_iff, testbit_bit, bool_decide_eq_true, Hb by lia.
      rewrite elem_of_union, elem_of_singleton.
      split; [intros [?|?]; [by right|left; lia]|intros [?|?]; [right; lia|by left]].
    + apply is_uint_lor; [done..|]. apply is_uint_bits; [done|by apply Z.shiftl_nonneg|].
      intros i Hi. rewrite testbit_bit by lia. apply bool_decide_eq_false. lia.
Qed.

Lemma decisions_refine w acc seqs :
  window_refines w acc → decisions window_accept w seqs = decisions spec_accept acc seqs.
Proof.
  revert w acc. induction seqs as [|s seqs IH]; intros w acc Hw; [done|]. cbn.
  destruct (window_accept_refines w acc s Hw) as [Hw' Hb].
  destruct (window_accept w s) as [w' b], (spec_accept acc s) as [acc' b']. cbn in *.
  f_equal; [done|by apply IH].
Qed.

(** A number just accepted is refused. *)
Lemma window_accept_first s : window_accept (window_first s) s = (window_first s, false).
Proof. unfold window_accept. cbn. by rewrite Z.ltb_irrefl, Z.sub_diag. Qed.
Lemma window_accept_twice w s w' :
  window_accept w s = (w', true) → window_accept w' s = (w', false).
Proof.
  intros Hw. assert (0 ≤ highest w' - s ∧ Z.testbit (bitmap w') (highest w' - s) = true)
    as [Hs Hbit].
  { revert Hw. unfold window_accept. destruct (Z.ltb_spec (highest w) s) as [Hlt|Hge].
    - intros [= <-]. cbn [highest bitmap]. rewrite Z.sub_diag. split; [done|].
      destruct (64 <=? _); [done|]. by rewrite Z.lor_spec, orb_true_r.
    - destruct (64 <=? _); [done|]. destruct (negb _); [done|]. intros [= <-].
      cbn [highest bitmap]. split; [lia|].
      by rewrite Z.lor_spec, testbit_bit, bool_decide_true, orb_true_r by lia. }
  unfold window_accept. rewrite (proj2 (Z.ltb_ge _ _)) by lia.
  destruct (64 <=? _); [done|]. by rewrite land_bit_zero, Hbit by lia.
Qed.

(** C35: The bitmap window refines a set: over any sequence of offered numbers it
    takes the same decisions as the set of all numbers accepted so far, which
    refuses a number it contains and one that is 64 or more below a number it
    contains. *)
Theorem receive_window_refines s seqs :
  decisions window_accept (window_first s) seqs = decisions spec_accept {[s]} seqs.
Proof. apply decisions_refine, window_first_refines. Qed.

(** ** The envelope codec *)

Definition envelope_typed (e : Envelope) : Prop :=
  utf8_valid (tk_name (env_topic e)) = true ∧ is_uint 64 (env_seq e) ∧ is_uint 64 (env_ts_ms e).

Section Codec.
Context `{!Prost WireEnvelope}.

Lemma is_envelope_magic l : is_envelope (ENVELOPE_MAGIC ++ l) = true.
Proof. by apply bool_decide_true. Qed.
Lemma is_envelope_inv l : is_envelope l = true → ∃ r, l = ENVELOPE_MAGIC ++ r.
Proof.
  intros E%bool_decide_eq_true. exists (drop (length ENVELOPE_MAGIC) l).
  by rewrite <-E at 1; rewrite take_drop.
Qed.
Lemma slice_magic r : slice_from (length ENVELOPE_MAGIC) (ENVELOPE_MAGIC ++ r) = Some r.
Proof. by apply slice_from_app. Qed.

Lemma Envelope_encode_eq e :
  Envelope_encode e =
  if env_seq e =? 0 then Err InvalidSequence
  else Ok (ENVELOPE_MAGIC ++ prost_encode (wire_of e)).
Proof. unfold Envelope_encode. by rewrite (tk_valid (env_topic e)). Qed.

(** The decoder never panics. *)
Lemma Envelope_decode_total l : ∃ r, Envelope_decode l = Some r.
Proof.
  unfold Envelope_decode. destruct (is_envelope l) eqn:E; cbn [negb]; [|eauto].
  apply is_envelope_inv in E as [r ->]. rewrite slice_magic. cbn [mbind option_bind].
  repeat match goal with |- context [match ?x with _ => _ end] => destruct x end; eauto.
Qed.
Lemma Envelope_decode_Ok l e :
  Envelope_decode l = Some (Ok e) →
  ∃ m, l = ENVELOPE_MAGIC ++ drop (length ENVELOPE_MAGIC) l ∧
    prost_decode (drop (length ENVELOPE_MAGIC) l) = Ok m ∧ m = wire_of e ∧ env_seq e ≠ 0.
Proof.
  unfold Envelope_decode. destruct (is_envelope l) eqn:E; cbn [negb]; [|done].
  apply is_envelope_inv in E as [r ->]. rewrite slice_magic, drop_app_exact by done.
  cbn [mbind option_bind].
  destruct (prost_decode r) as [m|] eqn:Em; [|done]. cbn [map_err].
  destruct (from_bytes (we_origin m)) as [o|] eqn:Eo; [|done].
  destruct (Z.eqb_spec (we_seq m) 0) as [|Hs]; [done|].
  destruct (TopicKey_new _ _) as [t|] eqn:Et; [|done]. cbn [map_err]. intros [= <-].
  exists m. repeat split; [|done]. unfold wire_of; cbn.
  apply from_bytes_Some in Eo. apply TopicKey_new_Ok in Et. injection Et as -> ->.
  rewrite Eo. by destruct m.
Qed.

Lemma Envelope_decode_wire `{!ProstLaws WireEnvelope wire_typed} e :
  envelope_typed e → env_seq e ≠ 0 →
  Envelope_decode (ENVELOPE_MAGIC ++ prost_encode (wire_of e)) = Some (Ok e).
Proof.
  intros He Hs. unfold Envelope_decode.
  rewrite is_envelope_magic, slice_magic. cbn [negb mbind option_bind].
  rewrite prost_roundtrip by apply He. cbn [map_err wire_of we_origin we_seq we_topic we_partition].
  rewrite from_bytes_as_bytes. rewrite (proj2 (Z.eqb_neq _ _) Hs).
  rewrite (proj2 (TopicKey_new_Ok _ _ (env_topic e)) eq_refl). by destruct e.
Qed.
End Codec.

(** Envelopes round trip: an envelope encodes exactly when its sequence
    number is not zero, and the bytes are recognised and decode to the same
    envelope.  Decoding never panics on any bytes; it yields an envelope with
    a non-zero number or an error, and reports "not Pub/Sub" exactly for bytes
    without the magic prefix. *)
Theorem envelope_roundtrip `{!Prost WireEnvelope, !ProstLaws WireEnvelope wire_typed} e :
  envelope_typed e →
  match Envelope_encode e with
  | Ok bs => env_seq e ≠ 0 ∧ is_envelope bs = true ∧ Envelope_decode bs = Some (Ok e)
  | Err err => env_seq e = 0 ∧ err = InvalidSequence
  end ∧
  (∀ bs, ∃ r, Envelope_decode bs = Some r ∧
     match r with Ok d => env_seq d ≠ 0 ∧ is_envelope bs = true
                | Err NotPubSub => is_envelope bs = false
                | Err _ => is_envelope bs = true end).
Proof.
  intros He. split.
  - rewrite Envelope_encode_eq. destruct (Z.eqb_spec (env_seq e) 0) as [|Hs]; [done|].
    split; [done|]. split; [apply is_envelope_magic|by apply Envelope_decode_wire].
  - intros bs. destruct (Envelope_decode_total bs) as [r Hr]. exists r. split; [done|].
    destruct r as [d|err].
    + apply Envelope_decode_Ok in Hr as (m & -> & _ & _ & Hs). by rewrite is_envelope_magic.
    + unfold Envelope_decode in Hr. destruct (is_envelope bs) eqn:E; cbn [negb] in Hr.
      * destruct err; try done. apply is_envelope_inv in E as [x ->].
        rewrite slice_magic in Hr. cbn [mbind option_bind] in Hr.
        unfold map_err in Hr.
        destruct (prost_decode x); [|done]. destruct (from_bytes _); [|done].
        destruct (_ =? _); [done|]. by destruct (TopicKey_new _ _).
      * by simplify_eq.
Qed.

(** ** Discovery *)

Lemma matches_spec s t :
  matches s t = true ↔
  sel_name s = tk_name t ∧ (sel_partition s = None ∨ sel_partition s = Some (tk_partition t)).
Proof.
  unfold matches. rewrite andb_true_iff, bool_decide_eq_true.
  destruct (sel_partition s); rewrite ?bool_decide_eq_true; naive_solver.
Qed.
Lemma elem_of_subscribers d t n :
  n ∈ subscribers d t ↔ ∃ s ns, d !! s = Some ns ∧ matches s t = true ∧ n ∈ ns.
Proof.
  unfold subscribers. rewrite elem_of_list_to_set, list_elem_of_bind. split.
  - intros ([s ns] & Hn & [Hm Hin]%list_elem_of_filter).
    apply elem_of_btree_iter in Hin. apply elem_of_bset_iter in Hn. cbn in Hm.
    exists s, ns. split_and!; [done| |done]. by apply Is_true_true.
  - intros (s & ns & Hd & Hm & Hn). exists (s, ns). rewrite elem_of_bset_iter.
    split; [done|]. apply list_elem_of_filter. split; [by apply Is_true_true|].
    by apply elem_of_btree_iter.
Qed.

(** ** Chunks *)

Lemma chunks_fuel_spec {A} (n fuel : nat) (l : list A) :
  (0 < n)%nat → (length l ≤ fuel)%nat →
  mjoin (chunks_fuel fuel n l) = l ∧
  Forall (λ c, c ≠ [] ∧ (length c ≤ n)%nat ∧ sublist c l) (chunks_fuel fuel n l).
Proof.
  intros Hn. revert l. induction fuel as [|fuel IH]; intros l Hl.
  { destruct l; cbn in *; [done|lia]. }
  destruct l as [|x l]; [done|].
  cbn [chunks_fuel]. destruct (IH (drop n (x :: l))) as [Hj Hf].
  { rewrite length_drop. cbn in *. lia. }
  split.
  - change (mjoin (?c :: ?cs)) with (c ++ mjoin cs). rewrite Hj. apply take_drop.
  - constructor.
    + split_and!; [destruct n; [lia|done]|rewrite length_take; lia|].
      apply sublist_take.
    + eapply Forall_impl; [exact Hf|]. intros c (? & ? & Hc). split_and!; [done..|].
      etrans; [exact Hc|apply sublist_drop].
Qed.

Lemma chunks_spec {A} n (l : list A) :
  0 < n →
  ∃ cs, chunks n l = Some cs ∧ mjoin cs = l ∧
    Forall (λ c, c ≠ [] ∧ zlen c ≤ n ∧ sublist c l) cs.
Proof.
  intros Hn. unfold chunks. destruct (Z.leb_spec n 0); [lia|].
  destruct (chunks_fuel_spec (Z.to_nat n) (length l) l) as [Hj Hf]; [lia..|].
  eexists. split_and!; [done|done|]. eapply Forall_impl; [exact Hf|].
  unfold zlen. intros c (? & ? & ?). split_and!; [done|lia|done].
Qed.

(** The limit leaves room for the envelope and is never zero, so [chunks]
    does not panic and every chunk is a multicast the wire accepts. *)
Definition chunk_limit (bs : bytes) : Z :=
  Z.min MAX_MULTICAST_DESTINATIONS
    ((MAX_FORWARD_PAYLOAD_LEN - zlen bs - MULTICAST_COUNT_LEN) / NODE_ID_LEN).

Lemma chunk_limit_pos bs : zlen bs ≤ MAX_LIVE_ENVELOPE_LEN → 0 < chunk_limit bs.
Proof.
  unfold chunk_limit, MAX_MULTICAST_DESTINATIONS, MAX_LIVE_ENVELOPE_LEN, MAX_FORWARD_PAYLOAD_LEN,
    MAX_PAYLOAD_LEN, FORWARD_HEADER_LEN, MULTICAST_COUNT_LEN, NODE_ID_LEN.
  pose proof (zlen_nonneg bs). dlia.
Qed.
Lemma chunk_multicast_ok bs ds c :
  zlen bs ≤ MAX_LIVE_ENVELOPE_LEN → NoDup ds →
  c ≠ [] → zlen c ≤ chunk_limit bs → sublist c ds → multicast_ok c bs.
Proof.
  intros Hbs Hnd Hne Hlen Hsub. unfold multicast_ok.
  split_and!; [done| |by eapply sublist_NoDup|].
  all: unfold chunk_limit, MAX_MULTICAST_DESTINATIONS, MAX_LIVE_ENVELOPE_LEN,
    MAX_FORWARD_PAYLOAD_LEN, MAX_PAYLOAD_LEN, FORWARD_HEADER_LEN, MULTICAST_COUNT_LEN,
    NODE_ID_LEN in *; dlia.
Qed.

(** ** Publishing *)

Definition published_envelope (ps : PubSub) (now : MonoTime) (t : TopicKey) (p : bytes) :
  Envelope :=
  {| env_origin := ps_me ps; env_topic := t;
     env_seq := default 0 (next_sequences ps !! t) + 1; env_ts_ms := now; env_payload := p |}.
Definition conflates (policy : TopicPolicy) : bool :=
  bool_decide (tp_mode policy = Latest) && bool_decide (tp_priority policy = P1).

(** [or_default] on the sequence map has no observable effect. *)
Definition touch (ps : PubSub) (t : TopicKey) : PubSub :=
  set_sequence ps t (default 0 (next_sequences ps !! t)).

Section Publish.
Context `{!Prost WireEnvelope}.

Inductive publish_spec (ps : PubSub) (now : MonoTime) (t : TopicKey) (p : bytes) :
  PubSub → list PubSubAction → Prop :=
| publish_unknown :
    policies ps !! tk_name t = None →
    publish_spec ps now t p ps [PaRejected (UnknownTopic (tk_name t))]
| publish_exhausted policy :
    policies ps !! tk_name t = Some policy →
    u_max 64 ≤ default 0 (next_sequences ps !! t) →
    publish_spec ps now t p (touch ps t) [PaRejected (SequenceExhausted t)]
| publish_too_large policy n :
    policies ps !! tk_name t = Some policy →
    default 0 (next_sequences ps !! t) < u_max 64 →
    Envelope_encode (published_envelope ps now t p) = Ok n →
    MAX_LIVE_ENVELOPE_LEN < zlen n →
    publish_spec ps now t p (touch ps t)
      [PaRejected (EnvelopeTooLarge (zlen n) MAX_LIVE_ENVELOPE_LEN)]
| publish_sent policy e bs ps' groups :
    policies ps !! tk_name t = Some policy →
    default 0 (next_sequences ps !! t) < u_max 64 →
    e = published_envelope ps now t p →
    Envelope_encode e = Ok bs →
    zlen bs ≤ MAX_LIVE_ENVELOPE_LEN →
    offer (set_sequence ps t (env_seq e)) (ps_me ps, t) (env_seq e) = (ps', true) →
    mjoin groups = bset_iter (subscribers (discovery ps) t ∖ {[ps_me ps]}) →
    Forall (λ g, ∃ m, MulticastPayload_new g bs = Ok m) groups →
    publish_spec ps now t p ps'
      (((λ g, PaSendMulticast g (tp_priority policy)
               (stable_hash [tk_name t; tk_partition t])
               (stable_hash [as_bytes (ps_me ps); tk_partition t])
               (conflates policy) bs) <$> groups)
       ++ [PaPublished t (env_seq e)]).

Lemma offer_fields ps k s ps' b :
  offer ps k s = (ps', b) →
  ps_me ps' = ps_me ps ∧ policies ps' = policies ps ∧
  local_subscriptions ps' = local_subscriptions ps ∧ discovery ps' = discovery ps ∧
  next_sequences ps' = next_sequences ps.
Proof.
  unfold offer. destruct (received ps !! k) as [w|]; [destruct (window_accept w s)|];
    by intros [= <- <-].
Qed.
Lemma set_sequence_set ps t a b : set_sequence (set_sequence ps t a) t b = set_sequence ps t b.
Proof. unfold set_sequence. cbn. by rewrite insert_insert_eq. Qed.

(** What [publish] does once its envelope fits. *)
Lemma publish_run ps now t p policy bs :
  let e := published_envelope ps now t p in
  policies ps !! tk_name t = Some policy →
  default 0 (next_sequences ps !! t) < u_max 64 →
  Envelope_encode e = Ok bs → zlen bs ≤ MAX_LIVE_ENVELOPE_LEN →
  let r := offer (set_sequence ps t (env_seq e)) (ps_me ps, t) (env_seq e) in
  ∃ groups,
    mjoin groups = bset_iter (subscribers (discovery ps) t ∖ {[ps_me ps]}) ∧
    Forall (λ g, ∃ m, MulticastPayload_new g bs = Ok m) groups ∧
    publish ps now t p =
    if r.2 then
      Some (r.1, ((λ g, PaSendMulticast g (tp_priority policy)
               (stable_hash [tk_name t; tk_partition t])
               (stable_hash [as_bytes (ps_me ps); tk_partition t])
               (conflates policy) bs) <$> groups)
       ++ [PaPublished t (env_seq e)])
    else None.
Proof.
  intros e Hpol Hseq Henc Hlen r.
  set (ds := bset_iter (subscribers (discovery ps) t ∖ {[ps_me ps]})).
  destruct (chunks_spec (chunk_limit bs) ds) as (groups & Hc & Hj & Hf);
    [by apply chunk_limit_pos|].
  exists groups. split; [done|]. split.
  { eapply Forall_impl; [exact Hf|]. intros c (? & ? & ?). eexists.
    apply multicast_new_Ok. split; [|done]. eapply chunk_multicast_ok; eauto.
    apply bset_iter_NoDup. }
  unfold publish. rewrite Hpol. cbn [ps_me set_sequence].
  rewrite (proj2 (checked_add_Some 64 _ 1 (env_seq e))) by (split; [done|cbn; lia]).
  change {| env_origin := ps_me ps; env_topic := t; env_seq := env_seq e;
            env_ts_ms := now; env_payload := p |} with e. rewrite Henc.
  rewrite (proj2 (Z.ltb_ge _ _) Hlen). rewrite set_sequence_set. subst r.
  destruct (offer _ _ _) as [ps' b] eqn:Eo. cbn [fst snd]. destruct b; [|done]. cbn [negb].
  apply offer_fields in Eo as (Hme & Hpo & _ & Hd & _). rewrite Hme, Hd.
  cbn [ps_me discovery set_sequence]. fold ds.
  assert (zlen bs ≤ MAX_FORWARD_PAYLOAD_LEN - MULTICAST_COUNT_LEN) as Hroom.
  { revert Hlen. unfold MAX_LIVE_ENVELOPE_LEN, NODE_ID_LEN. lia. }
  rewrite (proj2 (checked_sub_Some _ (zlen bs) (MAX_FORWARD_PAYLOAD_LEN - zlen bs)))
    by (unfold MULTICAST_COUNT_LEN in Hroom; lia). cbn [mbind option_bind].
  rewrite (proj2 (checked_sub_Some _ MULTICAST_COUNT_LEN
    (MAX_FORWARD_PAYLOAD_LEN - zlen bs - MULTICAST_COUNT_LEN))) by lia.
  cbn [mbind option_bind]. fold (chunk_limit bs). by rewrite Hc.
Qed.

(** Unfold [publish] up to the encoding of its envelope [e]. *)
Ltac publish_head H Hpol e :=
  unfold publish in H; rewrite Hpol in H;
  rewrite (proj2 (checked_add_Some 64 _ 1 (env_seq e))) in H by (split; [done|cbn; lia]);
  match type of H with context [Envelope_encode ?x] => change x with e in H end.

Lemma publish_inv ps now t p ps' acts :
  publish ps now t p = Some (ps', acts) → publish_spec ps now t p ps' acts.
Proof.
  intros Hp. destruct (policies ps !! tk_name t) as [policy|] eqn:Hpol.
  2:{ unfold publish in Hp. rewrite Hpol in Hp. simplify_eq. by constructor. }
  destruct (decide (default 0 (next_sequences ps !! t) < u_max 64)) as [Hs|Hs].
  2:{ unfold publish in Hp. rewrite Hpol in Hp.
      destruct (checked_add _ _ _) eqn:E in Hp; [apply checked_add_Some in E; lia|].
      simplify_eq. eapply publish_exhausted; [done|lia]. }
  set (e := published_envelope ps now t p).
  destruct (Envelope_encode e) as [bs|] eqn:Henc.
  2:{ publish_head Hp Hpol e. by rewrite Henc in Hp. }
  destruct (decide (zlen bs ≤ MAX_LIVE_ENVELOPE_LEN)) as [Hlen|Hlen].
  - destruct (publish_run ps now t p policy bs) as (groups & Hj & Hf & E); [done..|].
    rewrite Hp in E. destruct (offer _ _ _) as [ps1 b] eqn:Eo. destruct b; [|done].
    cbn [fst snd] in E. simplify_eq. by eapply publish_sent.
  - publish_head Hp Hpol e. rewrite Henc in Hp.
    rewrite (proj2 (Z.ltb_lt _ _)) in Hp by lia. simplify_eq.
    eapply publish_too_large; [done..|]. lia.
Qed.
End Publish.
