(* ===== verification/PubSubTheorems.v ===== *)
(** * The publish/subscribe component along its runs (crates/mb-pubsub)

    Safety of every handler, at-most-once delivery, contiguous sequence
    numbers, faithful announcements, and delivery from publisher to
    subscriber. *)

From Stdlib Require Import Strings.Byte.
From S2P Require Export Prelude Ord Bytes Types Wire WirePackets PubSub PubSubProps.

(** ** Windows of a state and the numbers they accepted *)

Abbreviation accepted_sets := (NodeId * TopicKey → gset Z) (only parsing).

Definition windows_refine (ps : PubSub) (acc : NodeId * TopicKey → gset Z) : Prop :=
  ∀ k, match received ps !! k with
       | Some w => window_refines w (acc k)
       | None => acc k = ∅
       end.

(** A reported offer: accepted exactly when the number is not stale. *)
Lemma offer_refines ps acc k s ps' b :
  windows_refine ps acc → offer ps k s = (ps', b) →
  b = bool_decide (¬ stale (acc k) s) ∧
  ∃ acc', windows_refine ps' acc' ∧ (∀ j, acc j ⊆ acc' j) ∧ (b = true → s ∈ acc' k).
Proof.
  intros Hr Ho. assert (∃ w' X, ps' = set_window ps k w' ∧ (X, b) = spec_accept (acc k) s ∧
    window_refines w' X) as (w' & X & -> & HX & Hw').
  { specialize (Hr k). unfold offer in Ho. destruct (received ps !! k) as [w|].
    - destruct (window_accept_refines w (acc k) s Hr) as [H1 H2].
      destruct (window_accept w s) as [w' b'], (spec_accept (acc k) s) as [X b''].
      cbn in *. simplify_eq. eauto.
    - simplify_eq. rewrite Hr. exists (window_first s), {[s]}. split; [done|].
      split; [|apply window_first_refines]. unfold spec_accept. rewrite decide_False.
      + by rewrite union_empty_r_L.
      + intros [?|(x & ? & _)]; set_solver. }
  assert (b = bool_decide (¬ stale (acc k) s) ∧ acc k ⊆ X ∧ (b = true → s ∈ X))
    as (Hb & Hsub & Hin).
  { unfold spec_accept in HX. case_decide as Hst; simplify_eq.
    - rewrite bool_decide_false by tauto. done.
    - rewrite bool_decide_true by done. set_solver. }
  clear HX. split; [done|].
  exists (λ j, if decide (j = k) then X else acc j). split_and!.
  - intros j. cbn [received set_window]. case_decide as Hj.
    + subst. by rewrite lookup_insert_eq.
    + rewrite lookup_insert_ne by done. apply Hr.
  - intros j. by case_decide; subst.
  - intros Hb'. rewrite decide_True by done. by apply Hin.
Qed.

Lemma windows_refine_new me pol : windows_refine (PubSub_new me pol) (λ _, ∅).
Proof. by intros k. Qed.

(** ** Observations of an action list *)

Abbreviation delivery_key := (SubId * (NodeId * TopicKey) * Z)%type.

Definition delivery (a : PubSubAction) : option (SubId * (NodeId * TopicKey) * Z) :=
  match a with
  | PaDeliverToApp id m =>
      let e := dm_envelope m in Some (id, (env_origin e, env_topic e), env_seq e)
  | _ => None
  end.
Definition published_seq (t : TopicKey) (a : PubSubAction) : option Z :=
  match a with PaPublished u s => if decide (u = t) then Some s else None | _ => None end.
Definition announcement (a : PubSubAction) : option (list TopicSelector) :=
  match a with PaLocalSubscriptionsChanged l => Some l | _ => None end.

(** Actions of a publication: sends and one notification, or a rejection. *)
Lemma omap_sends {B} (f : PubSubAction → option B) policy flow key c bs groups t seq :
  (∀ g, f (PaSendMulticast g policy flow key c bs) = None) →
  omap f (((λ g, PaSendMulticast g policy flow key c bs) <$> groups) ++ [PaPublished t seq]) =
  omap f [PaPublished t seq].
Proof.
  intros Hf. rewrite omap_app. induction groups as [|g groups IH]; [done|].
  cbn. by rewrite Hf.
Qed.

Section Runs.
Context `{!Prost WireEnvelope}.
Implicit Types ps : PubSub.

Lemma publish_omap {B} (f : PubSubAction → option B) ps now t p ps' acts :
  publish ps now t p = Some (ps', acts) →
  (∀ g a b c d e, f (PaSendMulticast g a b c d e) = None) →
  (∀ r, f (PaRejected r) = None) →
  omap f acts = [] ∨
  (next_sequences ps' = <[t := default 0 (next_sequences ps !! t) + 1]> (next_sequences ps) ∧
   omap f acts = omap f [PaPublished t (default 0 (next_sequences ps !! t) + 1)]).
Proof.
  intros Hp Hs Hr. destruct (publish_inv _ _ _ _ _ _ Hp) as
    [Hpol|pol Hpol Hseq|pol n Hpol Hseq Hn Hlen
    |pol e bs ps1 groups Hpol Hseq He Henc Hlen Ho Hj Hf];
    [left; cbn; by rewrite Hr..|].
  right. rewrite omap_sends by done. subst. split; [|done].
  apply offer_fields in Ho as (_ & _ & _ & _ & ->). done.
Qed.

(** *** Deliveries *)

Lemma deliveries_local ps e :
  omap delivery (local_deliveries ps e) =
  (λ p, (p.1, (env_origin e, env_topic e), env_seq e)) <$>
    filter (λ p, matches p.2 (env_topic e)) (btree_iter (local_subscriptions ps)).
Proof.
  unfold local_deliveries. generalize (filter (λ p : SubId * TopicSelector, matches p.2 (env_topic e))
    (btree_iter (local_subscriptions ps))) as l.
  induction l as [|x l IH]; [done|]. cbn. by f_equal.
Qed.
Lemma deliveries_local_NoDup ps e : NoDup (omap delivery (local_deliveries ps e)).
Proof.
  rewrite deliveries_local. eapply (NoDup_fmap_1 (λ k, k.1.1)).
  rewrite <-list_fmap_compose. eapply (sublist_NoDup _ (btree_keys (local_subscriptions ps)));
    [apply btree_keys_NoDup|].
  unfold btree_keys. apply fmap_sublist, sublist_filter.
Qed.

(** What one step, or a whole run, does to the accepted numbers: they only
    grow, and every delivery is of a number that was not accepted before. *)
Definition fresh_step (acc : NodeId * TopicKey → gset Z) ps' acts : Prop :=
  ∃ acc', windows_refine ps' acc' ∧ (∀ j, acc j ⊆ acc' j) ∧ NoDup (omap delivery acts) ∧
    ∀ id k s, (id, k, s) ∈ omap delivery acts → (s ∉ acc k) ∧ s ∈ acc' k.

Lemma fresh_quiet acc ps' acts :
  windows_refine ps' acc → omap delivery acts = [] → fresh_step acc ps' acts.
Proof.
  intros Hr E. exists acc. rewrite E. split_and!; [done|done|constructor|].
  by intros ??? Hnil%elem_of_nil.
Qed.

Lemma receive_fresh ps source p ps' acts acc :
  receive ps source p = Some (ps', acts) → windows_refine ps acc → fresh_step acc ps' acts.
Proof.
  unfold receive. destruct (Envelope_decode p) as [[e|err]|]; cbn [mbind option_bind]; [|..|done].
  2:{ intros [= <- <-] Hr. by apply fresh_quiet. }
  case_decide; [intros [= <- <-] Hr; by apply fresh_quiet|].
  destruct (policies ps !! _); [|intros [= <- <-] Hr; by apply fresh_quiet].
  destruct (offer _ _ _) as [ps1 b] eqn:Ho. intros Hret Hr.
  destruct (offer_refines _ _ _ _ _ _ Hr Ho) as (Hb & acc' & Hr' & Hle & Hin).
  destruct b; cbn [negb] in Hret; simplify_eq; exists acc'.
  2:{ split_and!; [done|done|constructor|]. by intros ??? ?%elem_of_nil. }
  split_and!; [done|done|apply deliveries_local_NoDup|].
  intros id k s. rewrite deliveries_local, list_elem_of_fmap. intros (x & [= -> -> ->] & _).
  split; [|by apply Hin]. symmetry in Hb. apply bool_decide_eq_true in Hb.
  intros Hs. apply Hb. by left.
Qed.

Lemma publish_fresh ps now t p ps' acts acc :
  publish ps now t p = Some (ps', acts) → windows_refine ps acc → fresh_step acc ps' acts.
Proof.
  intros Hp Hr. destruct (publish_inv _ _ _ _ _ _ Hp) as
    [Hpol|pol Hpol Hseq|pol n Hpol Hseq Hn Hlen
    |pol e bs ps1 groups Hpol Hseq He Henc Hlen Ho Hj Hf]; [by apply fresh_quiet..|].
  destruct (offer_refines (set_sequence ps t (env_seq e)) acc _ _ _ _ Hr Ho)
    as (_ & acc' & Hr' & Hle & _).
  exists acc'. rewrite omap_sends by done. split_and!; [done|done|constructor|].
  by intros ??? Hnil%elem_of_nil.
Qed.

Lemma handle_fresh ps now e ps' acts acc :
  handle ps now e = Some (ps', acts) → windows_refine ps acc → fresh_step acc ps' acts.
Proof.
  destruct e; cbn [handle PubSub_component ps_handle]; [by apply publish_fresh|..|by apply receive_fresh|].
  all: intros [= <- <-] Hr; apply fresh_quiet; [done|]; try done.
  all: unfold subscription_change; by case_decide.
Qed.

Lemma run_fresh tr : ∀ ps ps' acts acc,
  run ps tr = Some (ps', acts) → windows_refine ps acc → fresh_step acc ps' acts.
Proof.
  induction tr as [|[now e] tr IH]; intros ps ps' acts acc; cbn [run].
  { intros [= <- <-] Hr. by apply fresh_quiet. }
  destruct (handle ps now e) as [[ps1 a]|] eqn:E; cbn [mbind option_bind]; [|done].
  destruct (run ps1 tr) as [[ps2 b]|] eqn:E'; cbn [mbind option_bind]; [|done].
  intros [= <- <-] Hr.
  destruct (handle_fresh _ _ _ _ _ _ E Hr) as (acc1 & Hr1 & Hle1 & Hnd1 & Hd1).
  destruct (IH _ _ _ _ E' Hr1) as (acc2 & Hr2 & Hle2 & Hnd2 & Hd2).
  exists acc2. rewrite omap_app. split_and!; [done|intros j; etrans; [apply Hle1|apply Hle2]| |].
  - apply NoDup_app. split_and!; [done| |done]. intros [[id k] s] H1 H2.
    by apply (Hd2 id k s H2), (Hd1 id k s H1).
  - intros id k s [Hin|Hin]%elem_of_app.
    + destruct (Hd1 _ _ _ Hin). split; [done|by apply Hle2].
    + destruct (Hd2 _ _ _ Hin). split; [|done]. intros Hs. by apply Hle1 in Hs.
Qed.
End Runs.

(** C11: Every message is delivered at most once: along any run of the component,
    whatever packets arrive and however subscriptions change, no subscription
    is given the same sequence number of the same origin and topic twice. *)
Theorem pubsub_at_most_once `{!Prost WireEnvelope} me pol tr ps acts :
  run (PubSub_new me pol) tr = Some (ps, acts) → NoDup (omap delivery acts).
Proof.
  intros Hrun. by destruct (run_fresh _ _ _ _ _ Hrun (windows_refine_new me pol))
    as (acc & _ & _ & Hnd & _).
Qed.

(** ** Sequence numbers *)

Section Sequences.
Context `{!Prost WireEnvelope}.
Implicit Types ps : PubSub.

Definition next_seq ps t : Z := default 0 (next_sequences ps !! t).

Lemma receive_fields ps source p ps' acts :
  receive ps source p = Some (ps', acts) →
  next_sequences ps' = next_sequences ps ∧ ps_me ps' = ps_me ps ∧
  local_subscriptions ps' = local_subscriptions ps ∧
  Forall (λ a, ∀ t, published_seq t a = None) acts ∧ omap announcement acts = [].
Proof.
  unfold receive. intros Hr.
  destruct (Envelope_decode p) as [[e|err]|]; cbn [mbind option_bind] in Hr; [|simplify_eq; by repeat constructor|done].
  case_decide; [simplify_eq; by repeat constructor|].
  destruct (policies ps !! _); [|simplify_eq; by repeat constructor].
  destruct (offer _ _ _) as [ps1 b] eqn:Ho. apply offer_fields in Ho as (Hme & _ & Hsub & _ & Hn).
  destruct b; cbn [negb] in Hr; simplify_eq; rewrite Hn, Hme, Hsub; [|by repeat constructor].
  split_and!; [done..| |]; unfold local_deliveries.
  - apply Forall_fmap, Forall_true. done.
  - generalize (filter (λ p : SubId * TopicSelector, matches p.2 (env_topic e))
      (btree_iter (local_subscriptions ps'))) as l. by induction l.
Qed.
Lemma omap_published_none t acts :
  Forall (λ a, ∀ t, published_seq t a = None) acts → omap (published_seq t) acts = [].
Proof. induction 1 as [|a l Ha _ IH]; [done|]. cbn. by rewrite Ha. Qed.

(** A step publishes nothing on [t], or exactly the next number. *)
Lemma handle_published ps now e ps' acts t :
  handle ps now e = Some (ps', acts) →
  (next_seq ps' t = next_seq ps t ∧ omap (published_seq t) acts = []) ∨
  (next_seq ps' t = next_seq ps t + 1 ∧
   omap (published_seq t) acts = [next_seq ps t + 1]).
Proof.
  destruct e as [u p|id sel|id|source p|d]; cbn [handle PubSub_component ps_handle].
  2,3: intros [= <- <-]; left; split; [done|]; unfold subscription_change; by case_decide.
  2:{ intros (E & _ & _ & Hf & _)%receive_fields. left. unfold next_seq. rewrite E.
      split; [done|by apply omap_published_none]. }
  2:{ by intros [= <- <-]; left. }
  intros Hp. destruct (publish_inv _ _ _ _ _ _ Hp) as
    [Hpol|pol Hpol Hseq|pol n Hpol Hseq Hn Hlen
    |pol e bs ps1 groups Hpol Hseq He Henc Hlen Ho Hj Hf].
  1: by left.
  1,2: left; split; [|done]; unfold next_seq, touch; cbn [next_sequences set_sequence];
    destruct (decide (u = t)) as [->|]; [by rewrite lookup_insert_eq|by rewrite lookup_insert_ne].
  apply offer_fields in Ho as (_ & _ & _ & _ & Hn). rewrite omap_sends by done.
  unfold next_seq. rewrite Hn, He. cbn [next_sequences set_sequence env_seq published_envelope].
  cbn. destruct (decide (u = t)) as [->|]; [right|left].
  - by rewrite lookup_insert_eq.
  - by rewrite lookup_insert_ne.
Qed.

Lemma run_published t tr : ∀ ps ps' acts,
  run ps tr = Some (ps', acts) →
  next_seq ps t ≤ next_seq ps' t ∧
  omap (published_seq t) acts = seqZ (next_seq ps t + 1) (next_seq ps' t - next_seq ps t).
Proof.
  induction tr as [|[now e] tr IH]; intros ps ps' acts; cbn [run].
  { intros [= <- <-]. by rewrite Z.sub_diag. }
  destruct (handle ps now e) as [[ps1 a]|] eqn:E; cbn [mbind option_bind]; [|done].
  destruct (run ps1 tr) as [[ps2 b]|] eqn:E'; cbn [mbind option_bind]; [|done].
  intros [= <- <-]. apply IH in E' as [Hle Hb]. rewrite omap_app, Hb.
  destruct (handle_published _ _ _ _ _ t E) as [[Hn ->]|[Hn ->]]; rewrite Hn in *; [done|].
  split; [lia|]. rewrite (seqZ_cons (next_seq ps t + 1)) by lia.
  cbn. do 2 f_equal; lia.
Qed.
End Sequences.

(** Along every run the numbers reported as published on a topic are
    exactly 1, 2, ..., n in order, without gaps or repetition, where n is the
    counter of the topic at the end. *)
Theorem published_sequence_contiguous `{!Prost WireEnvelope} me pol tr ps acts t :
  run (PubSub_new me pol) tr = Some (ps, acts) →
  omap (published_seq t) acts = seqZ 1 (default 0 (next_sequences ps !! t)).
Proof.
  intros [_ H]%(run_published t). rewrite H. unfold next_seq. cbn. by rewrite Z.sub_0_r.
Qed.

(** ** Safety

    A node's own publications never collide with its own receive window, as
    long as no packet claims to come from the node itself. *)

Definition not_from (me : NodeId) (e : PubSubEvent) : Prop :=
  match e with PeInbound source _ => source ≠ me | _ => True end.

Record ps_ok (ps : PubSub) : Prop := {
  po_seq t : 0 ≤ next_seq ps t;
  po_own t w : received ps !! (ps_me ps, t) = Some w → highest w ≤ next_seq ps t;
}.

Lemma highest_accept w s : highest (window_accept w s).1 = Z.max (highest w) s.
Proof.
  unfold window_accept. destruct (Z.ltb_spec (highest w) s); [cbn; lia|].
  destruct (64 <=? _); [cbn; lia|]. destruct (negb _); cbn; lia.
Qed.
Lemma accept_above w s : highest w < s → (window_accept w s).2 = true.
Proof. intros H. unfold window_accept. by rewrite (proj2 (Z.ltb_lt _ _) H). Qed.
Lemma offer_received ps k s ps' b :
  offer ps k s = (ps', b) →
  (∀ j, j ≠ k → received ps' !! j = received ps !! j) ∧
  ∃ w, received ps' !! k = Some w ∧
    highest w = match received ps !! k with Some v => Z.max (highest v) s | None => s end.
Proof.
  unfold offer. destruct (received ps !! k) as [w|].
  - pose proof (highest_accept w s) as Hh. destruct (window_accept w s) as [w' b'].
    intros [= <- <-]. cbn [received set_window]. rewrite lookup_insert_eq.
    split; [intros j Hj; by rewrite lookup_insert_ne|eauto].
  - intros [= <- <-]. cbn [received set_window]. rewrite lookup_insert_eq.
    split; [intros j Hj; by rewrite lookup_insert_ne|]. eexists. by split.
Qed.

Section Safety.
Context `{!Prost WireEnvelope}.
Implicit Types ps : PubSub.

Lemma ps_ok_new me pol : ps_ok (PubSub_new me pol).
Proof. by split. Qed.
Lemma ps_ok_ext ps ps' :
  ps_me ps' = ps_me ps → received ps' = received ps → (∀ t, next_seq ps' t = next_seq ps t) →
  ps_ok ps → ps_ok ps'.
Proof. intros Hme Hr Hn [H1 H2]. split; intros t; rewrite ?Hme, ?Hr, Hn; auto. Qed.
Lemma next_seq_set ps t n u :
  next_seq (set_sequence ps t n) u = if decide (u = t) then n else next_seq ps u.
Proof.
  unfold next_seq. cbn [next_sequences set_sequence]. case_decide as E.
  - subst. by rewrite lookup_insert_eq.
  - by rewrite lookup_insert_ne.
Qed.

Lemma publish_total ps now t p :
  ps_ok ps → ∃ ps' acts, publish ps now t p = Some (ps', acts) ∧ ps_ok ps' ∧ ps_me ps' = ps_me ps.
Proof.
  intros Hok. destruct (policies ps !! tk_name t) as [policy|] eqn:Hpol.
  2:{ unfold publish. rewrite Hpol. eauto. }
  assert (ps_ok (touch ps t)) as Htouch.
  { eapply ps_ok_ext, Hok; [done..|]. intros u. unfold touch. rewrite next_seq_set.
    by case_decide; subst. }
  set (e := published_envelope ps now t p).
  assert (0 ≤ next_seq ps t) as Hpos by apply Hok.
  assert (Envelope_encode e = Ok (ENVELOPE_MAGIC ++ prost_encode (wire_of e))) as Henc.
  { rewrite Envelope_encode_eq. change (env_seq e) with (next_seq ps t + 1).
    by rewrite (proj2 (Z.eqb_neq _ _)) by lia. }
  set (bs := ENVELOPE_MAGIC ++ _) in Henc.
  destruct (decide (next_seq ps t < u_max 64)) as [Hs|Hs].
  2:{ unfold publish. rewrite Hpol. fold (next_seq ps t). fold (touch ps t).
      destruct (checked_add _ _ _) eqn:E; [apply checked_add_Some in E; lia|]. eauto. }
  destruct (decide (zlen bs ≤ MAX_LIVE_ENVELOPE_LEN)) as [Hlen|Hlen].
  2:{ unfold publish. rewrite Hpol. fold (next_seq ps t). fold (touch ps t).
      rewrite (proj2 (checked_add_Some 64 _ 1 (env_seq e))) by (split; [done|cbn; lia]).
      match goal with |- context [Envelope_encode ?x] => change x with e end.
      rewrite Henc, (proj2 (Z.ltb_lt _ _)) by lia. eauto. }
  destruct (publish_run ps now t p policy bs) as (groups & _ & _ & E); [done..|].
  fold e in E. destruct (offer _ _ _) as [ps1 b] eqn:Eo. rewrite E. cbn [fst snd].
  assert (b = true) as ->.
  { unfold offer in Eo. cbn [received set_sequence] in Eo.
    destruct (received ps !! (ps_me ps, t)) as [w|] eqn:Ew; [|by simplify_eq].
    apply (po_own _ Hok) in Ew. pose proof (accept_above w (env_seq e)) as Ha.
    destruct (window_accept w (env_seq e)). simplify_eq. apply Ha.
    change (env_seq e) with (next_seq ps t + 1). lia. }
  do 2 eexists. split; [done|].
  destruct (offer_fields _ _ _ _ _ Eo) as (Hme & _ & _ & _ & Hn).
  destruct (offer_received _ _ _ _ _ Eo) as (Hoth & w & Hw & Hh).
  cbn [ps_me received set_sequence] in *. split; [|done].
  assert (∀ u, next_seq ps1 u = if decide (u = t) then env_seq e else next_seq ps u) as Hnext.
  { intros u. unfold next_seq at 1. rewrite Hn. apply next_seq_set. }
  split; intros u; rewrite Hnext.
  - case_decide; [change (env_seq e) with (next_seq ps t + 1); lia|apply Hok].
  - intros w'. rewrite Hme. case_decide as Hu.
    + subst u. rewrite Hw. intros [= <-]. rewrite Hh.
      destruct (received ps !! (ps_me ps, t)) as [v|] eqn:Ev; [|done].
      apply (po_own _ Hok) in Ev. change (env_seq e) with (next_seq ps t + 1). lia.
    + rewrite Hoth by congruence. apply (po_own _ Hok).
Qed.

Lemma receive_total ps source p :
  ps_ok ps → source ≠ ps_me ps →
  ∃ ps' acts, receive ps source p = Some (ps', acts) ∧ ps_ok ps' ∧ ps_me ps' = ps_me ps.
Proof.
  intros Hok Hsrc. unfold receive. destruct (Envelope_decode_total p) as [r ->].
  cbn [mbind option_bind]. destruct r as [e|]; [|eauto].
  case_decide as Ho; [eauto|]. destruct (policies ps !! _) as [policy|]; [|eauto].
  destruct (offer _ _ _) as [ps1 b] eqn:Eo.
  assert (ps_ok ps1 ∧ ps_me ps1 = ps_me ps); [|destruct b; cbn [negb]; eauto].
  destruct (offer_fields _ _ _ _ _ Eo) as (Hme & _ & _ & _ & Hn).
  destruct (offer_received _ _ _ _ _ Eo) as (Hoth & _). split; [|done].
  destruct Hok as [H1 H2]. split; intros t; unfold next_seq; rewrite Hn; [apply H1|].
  intros w. rewrite Hme, Hoth; [apply H2|]. intros [= E _]. congruence.
Qed.

Lemma handle_ps_total ps now e :
  ps_ok ps → not_from (ps_me ps) e →
  ∃ ps' acts, handle ps now e = Some (ps', acts) ∧ ps_ok ps' ∧ ps_me ps' = ps_me ps.
Proof.
  intros Hok He. destruct e as [| | | |]; cbn [handle PubSub_component ps_handle];
    [by apply publish_total|..|by apply receive_total|].
  all: do 2 eexists; split; [done|]; split; [|done]; by eapply ps_ok_ext, Hok.
Qed.

Lemma run_ps_total tr : ∀ ps,
  ps_ok ps → Forall (λ p, not_from (ps_me ps) p.2) tr →
  ∃ ps' acts, run ps tr = Some (ps', acts) ∧ ps_ok ps' ∧ ps_me ps' = ps_me ps.
Proof.
  induction tr as [|[now e] tr IH]; intros ps Hok Hf; cbn [run]; [eauto|].
  inversion Hf as [|?? He Htr]; subst.
  destruct (handle_ps_total ps now e Hok He) as (ps1 & a & -> & Hok1 & Hme1).
  cbn [mbind option_bind].
  destruct (IH ps1 Hok1) as (ps2 & b & -> & Hok2 & Hme2); [by rewrite Hme1|].
  cbn [mbind option_bind]. do 2 eexists. split_and!; [done|done|congruence].
Qed.
End Safety.

(** The component handles every sequence of events without a panic, provided
    no inbound packet claims the node itself as its source: encoding a
    publication never fails, its [debug_assert!] holds, the destination chunk
    size is never zero and the length subtractions never underflow.
    Afterwards the window of the node's own publications is never ahead of
    its sequence counter. *)
Theorem pubsub_run_safe `{!Prost WireEnvelope} me pol tr :
  Forall (λ p, not_from me p.2) tr →
  ∃ ps acts, run (PubSub_new me pol) tr = Some (ps, acts) ∧
    ∀ t, 0 ≤ next_seq ps t ∧
      (∀ w, received ps !! (me, t) = Some w → highest w ≤ next_seq ps t).
Proof.
  intros Hf. destruct (run_ps_total tr (PubSub_new me pol) (ps_ok_new me pol) Hf)
    as (ps & acts & Hrun & [H1 H2] & Hme). cbn in Hme. rewrite Hme in H2.
  exists ps, acts. eauto.
Qed.

(** ** Announcements *)

Section Announcements.
Context `{!Prost WireEnvelope}.
Implicit Types ps : PubSub.

Definition current_subscriptions ps : list TopicSelector :=
  bset_iter (effective_subscriptions ps).

Lemma bset_iter_inj `{Countable K, !TotalOrd K} (s t : gset K) :
  bset_iter s = bset_iter t → s = t.
Proof. intros E. by rewrite <-(bset_iter_to_set s), E, bset_iter_to_set. Qed.

Lemma elem_of_current ps sel :
  sel ∈ current_subscriptions ps ↔ ∃ id, local_subscriptions ps !! id = Some sel.
Proof.
  unfold current_subscriptions, effective_subscriptions.
  by rewrite elem_of_bset_iter, elem_of_list_to_set, elem_of_btree_values.
Qed.

(** A step announces the new selectors exactly when they changed. *)
Lemma handle_announces ps now e ps' acts :
  handle ps now e = Some (ps', acts) →
  (current_subscriptions ps' = current_subscriptions ps ∧ omap announcement acts = []) ∨
  (current_subscriptions ps' ≠ current_subscriptions ps ∧
   omap announcement acts = [current_subscriptions ps']).
Proof.
  unfold current_subscriptions, effective_subscriptions.
  destruct e as [t p|id sel|id|source p|d]; cbn [handle PubSub_component ps_handle].
  2,3: intros [= <- <-]; unfold subscription_change, effective_subscriptions;
    case_decide as E; [left; by rewrite E|right; split; [|done]];
    intros E'%bset_iter_inj; by apply E.
  - intros Hp. left. destruct (publish_inv _ _ _ _ _ _ Hp) as
      [| | |pol e bs ps1 groups Hpol Hseq He Henc Hlen Ho Hj Hf]; [done..|].
    rewrite omap_sends by done. by apply offer_fields in Ho as (_ & _ & -> & _).
  - intros (_ & _ & -> & _ & Ha)%receive_fields. by left.
  - intros [= <- <-]. by left.
Qed.

Lemma run_announces tr : ∀ ps ps' acts,
  run ps tr = Some (ps', acts) →
  Sorted (≠) (current_subscriptions ps :: omap announcement acts) ∧
  last (current_subscriptions ps :: omap announcement acts) = Some (current_subscriptions ps').
Proof.
  induction tr as [|[now e] tr IH]; intros ps ps' acts; cbn [run].
  { intros [= <- <-]. split; [repeat constructor|done]. }
  destruct (handle ps now e) as [[ps1 a]|] eqn:E; cbn [mbind option_bind]; [|done].
  destruct (run ps1 tr) as [[ps2 b]|] eqn:E'; cbn [mbind option_bind]; [|done].
  intros [= <- <-]. apply IH in E' as [Hs Hl]. rewrite omap_app.
  destruct (handle_announces _ _ _ _ _ E) as [[Hc ->]|[Hc ->]].
  - by rewrite Hc in Hs, Hl.
  - cbn [app]. split; [constructor; [exact Hs|by constructor]|]. by rewrite last_cons_cons.
Qed.
End Announcements.

(** The announced selectors follow the subscriptions: along every run the
    last [LocalSubscriptionsChanged], or the empty list before the first, is
    the ascending list of the selectors currently subscribed to, and no
    announcement repeats the one before it. *)
Theorem announcements_follow_subscriptions `{!Prost WireEnvelope} me pol tr ps acts :
  run (PubSub_new me pol) tr = Some (ps, acts) →
  let announced := omap announcement acts in
  last ([] :: announced) = Some (current_subscriptions ps) ∧
  Sorted (≠) ([] :: announced) ∧
  ∀ sel, sel ∈ current_subscriptions ps ↔ ∃ id, local_subscriptions ps !! id = Some sel.
Proof.
  intros Hrun announced. apply run_announces in Hrun as [Hs Hl].
  split_and!; [done|done|apply elem_of_current].
Qed.

(** ** From publisher to subscriber *)

Section EndToEnd.
Context `{!Prost WireEnvelope, !ProstLaws WireEnvelope wire_typed}.

(** Reception of an envelope whose number the window still accepts. *)
Lemma receive_fresh_envelope ps e bs policy :
  Envelope_decode bs = Some (Ok e) →
  policies ps !! tk_name (env_topic e) = Some policy →
  (∀ w, received ps !! (env_origin e, env_topic e) = Some w →
     (window_accept w (env_seq e)).2 = true) →
  ∃ ps', receive ps (env_origin e) bs = Some (ps', local_deliveries ps e) ∧
    local_subscriptions ps' = local_subscriptions ps ∧
    receive ps' (env_origin e) bs =
      Some (ps', [PaDropped (DuplicateOrTooOld (env_origin e) (env_topic e) (env_seq e))]).
Proof.
  intros Hd Hpol Hw. set (k := (env_origin e, env_topic e)).
  assert (∃ w', offer ps k (env_seq e) = (set_window ps k w', true) ∧
                window_accept w' (env_seq e) = (w', false)) as (w' & Ho & Hagain).
  { unfold offer. destruct (received ps !! k) as [w|] eqn:Ek.
    - specialize (Hw w Ek).
      destruct (window_accept w (env_seq e)) as [w' b] eqn:Ew. cbn in Hw. subst b.
      exists w'. split; [done|]. by eapply window_accept_twice.
    - eexists. split; [done|]. apply window_accept_first. }
  exists (set_window ps k w'). unfold receive. rewrite Hd. cbn [mbind option_bind].
  rewrite !decide_False by (by intros H). rewrite Hpol. fold k.
  cbn [policies set_window]. rewrite Hpol, Ho. cbn [negb].
  split_and!; [done|done|]. unfold offer. cbn [received set_window].
  rewrite lookup_insert_eq, Hagain. cbn [negb]. do 2 f_equal.
  unfold set_window. cbn. by rewrite insert_insert_eq.
Qed.
End EndToEnd.

Lemma elem_of_local_deliveries ps e a :
  a ∈ local_deliveries ps e ↔
  ∃ id sel, local_subscriptions ps !! id = Some sel ∧ matches sel (env_topic e) = true ∧
    a = PaDeliverToApp id {| dm_envelope := e; is_backfill := false |}.
Proof.
  unfold local_deliveries. rewrite list_elem_of_fmap. split.
  - intros ([id sel] & -> & [Hm Hin]%list_elem_of_filter). apply elem_of_btree_iter in Hin.
    exists id, sel. split_and!; [done|by apply Is_true_true|done].
  - intros (id & sel & Hin & Hm & ->). exists (id, sel). split; [done|].
    apply list_elem_of_filter. split; [by apply Is_true_true|by apply elem_of_btree_iter].
Qed.
Lemma local_deliveries_NoDup ps e : NoDup (local_deliveries ps e).
Proof.
  eapply (NoDup_fmap_1 (λ a, match a with PaDeliverToApp id _ => id | _ => 0 end)).
  unfold local_deliveries. rewrite <-list_fmap_compose.
  eapply (sublist_NoDup _ (btree_keys (local_subscriptions ps))); [apply btree_keys_NoDup|].
  unfold btree_keys. apply fmap_sublist, sublist_filter.
Qed.

(** C34: What a publication does, on every branch, after any run in which no
    inbound message named the node itself as its source.  An unknown topic, an
    exhausted sequence or an envelope that does not fit is rejected, sends
    nothing and uses up no number.  Otherwise the number is the successor of
    the last one, and the multicasts carry the same encoded envelope, are each
    acceptable to [MulticastPayload::new], and their destination lists
    concatenate to the discovered subscribers of the topic other than the node
    itself, in ascending order; a subscriber is a node listed under a selector
    that matches the topic. *)
Theorem publish_outcome `{!Prost WireEnvelope} me pol tr ps acts0 now t p :
  Forall (λ x, not_from me x.2) tr → run (PubSub_new me pol) tr = Some (ps, acts0) →
  ∃ ps' acts,
    handle ps now (PeLocalPublish t p) = Some (ps', acts) ∧ publish_spec ps now t p ps' acts ∧
    ∀ n, n ∈ subscribers (discovery ps) t ↔
      ∃ sel ns, discovery ps !! sel = Some ns ∧ n ∈ ns ∧ sel_name sel = tk_name t ∧
        (sel_partition sel = None ∨ sel_partition sel = Some (tk_partition t)).
Proof.
  intros Hf Hrun. destruct (run_ps_total tr (PubSub_new me pol) (ps_ok_new me pol) Hf)
    as (ps0 & acts1 & Hrun' & Hok & _). simplify_eq.
  destruct (publish_total ps now t p Hok) as (ps' & acts & Hp & _).
  exists ps', acts. split_and!; [done|by apply publish_inv|]. intros n.
  rewrite elem_of_subscribers. setoid_rewrite matches_spec. naive_solver.
Qed.

(** From publisher to subscriber: the payload of a multicast that a
    publication at [psA] emits, when it arrives at a node [psB] that has a
    policy for the topic and whose window still accepts the number, is
    delivered with origin, topic, sequence number, time and body unchanged to
    each local subscription whose selector matches, to no other and to none
    twice; arriving again, it changes nothing and is reported as a duplicate. *)
Theorem publish_reaches_subscribers
    `{!Prost WireEnvelope, !ProstLaws WireEnvelope wire_typed}
    psA now t p psA' acts ds prio flow key c bs psB now' policy :
  let e := published_envelope psA now t p in
  is_uint 64 now → utf8_valid (tk_name t) = true → 0 ≤ next_seq psA t →
  handle psA now (PeLocalPublish t p) = Some (psA', acts) →
  PaSendMulticast ds prio flow key c bs ∈ acts →
  policies psB !! tk_name t = Some policy →
  (∀ w, received psB !! (ps_me psA, t) = Some w → (window_accept w (env_seq e)).2 = true) →
  ∃ psB' delivered,
    handle psB now' (PeInbound (ps_me psA) bs) = Some (psB', delivered) ∧
    NoDup delivered ∧
    (∀ a, a ∈ delivered ↔
       ∃ id sel, local_subscriptions psB !! id = Some sel ∧ matches sel t = true ∧
         a = PaDeliverToApp id {| dm_envelope := e; is_backfill := false |}) ∧
    (∀ now'', handle psB' now'' (PeInbound (ps_me psA) bs) =
       Some (psB', [PaDropped (DuplicateOrTooOld (ps_me psA) t (env_seq e))])).
Proof.
  intros e Hnow Hutf Hpos Hpub Hin Hpol Hw.
  destruct (publish_inv _ _ _ _ _ _ Hpub) as
    [|?|?|pol e' bs' ps1 groups Hpol' Hseq He Henc Hlen Ho Hj Hf].
  1-3: by apply list_elem_of_singleton in Hin.
  assert (bs' = bs) as ->.
  { apply elem_of_app in Hin as [Hin|Hin]; [|by apply list_elem_of_singleton in Hin].
    apply list_elem_of_fmap in Hin as (g & E & _). congruence. }
  subst e'. fold e in Henc, Ho. assert (env_seq e ≠ 0) as Hnz.
  { change (env_seq e) with (next_seq psA t + 1). lia. }
  assert (Envelope_decode bs = Some (Ok e)) as Hd.
  { rewrite Envelope_encode_eq, (proj2 (Z.eqb_neq _ _) Hnz) in Henc.
    injection Henc as <-. apply Envelope_decode_wire; [|done]. split_and!; [done| |done].
    change (env_seq e) with (next_seq psA t + 1). fold (next_seq psA t) in Hseq.
    unfold u_max, is_uint in *. lia. }
  destruct (receive_fresh_envelope psB e bs policy Hd Hpol Hw) as (psB' & Hr & _ & Hagain).
  exists psB', (local_deliveries psB e). split_and!;
    [done|apply local_deliveries_NoDup|apply elem_of_local_deliveries|done].
Qed.

(** C40: The assumption of the safety theorem is needed: after one packet that
    names the receiving node itself as source and origin with sequence number
    1, the node's first publication on that topic violates
    [debug_assert!(accepted)]. *)
Theorem forged_source_panics_publish
    `{!Prost WireEnvelope, !ProstLaws WireEnvelope wire_typed} me pol policy t p now :
  let forged := {| env_origin := me; env_topic := t; env_seq := 1; env_ts_ms := 0;
                   env_payload := [] |} in
  let genuine := {| env_origin := me; env_topic := t; env_seq := 1; env_ts_ms := now;
                    env_payload := p |} in
  utf8_valid (tk_name t) = true → pol !! tk_name t = Some policy →
  zlen (ENVELOPE_MAGIC ++ prost_encode (wire_of genuine)) ≤ MAX_LIVE_ENVELOPE_LEN →
  ∃ bs, Envelope_encode forged = Ok bs ∧
    run (PubSub_new me pol) [(0, PeInbound me bs); (now, PeLocalPublish t p)] = None.
Proof.
  intros forged genuine Hutf Hpol Hlen. eexists. split; [by rewrite Envelope_encode_eq|].
  cbn [run handle PubSub_component ps_handle].
  destruct (receive_fresh_envelope (PubSub_new me pol) forged
    (ENVELOPE_MAGIC ++ prost_encode (wire_of forged)) policy) as (ps1 & Hr & _ & _); [|done..|].
  { apply Envelope_decode_wire; [|done]. by split_and!. }
  change (env_origin forged) with me in Hr. pose proof Hr as Hr'. rewrite Hr.
  cbn [mbind option_bind].
  assert (ps1 = set_window (PubSub_new me pol) (me, t) (window_first 1)) as ->.
  { unfold receive in Hr'. rewrite (Envelope_decode_wire forged) in Hr'
      by (try done; by split_and!).
    cbn [mbind option_bind] in Hr'. rewrite decide_False in Hr' by (by intros H).
    cbn [policies PubSub_new] in Hr'. change (tk_name (env_topic forged)) with (tk_name t) in Hr'.
    rewrite Hpol in Hr'. by injection Hr' as <-. }
  destruct (publish_run (set_window (PubSub_new me pol) (me, t) (window_first 1)) now t p policy
    (ENVELOPE_MAGIC ++ prost_encode (wire_of genuine))) as (groups & _ & _ & ->).
  { exact Hpol. }
  { cbn [next_sequences set_window PubSub_new]. by rewrite lookup_empty. }
  { by rewrite Envelope_encode_eq. }
  { exact Hlen. }
  cbn [offer received set_sequence set_window PubSub_new]. unfold offer.
  cbn [received set_sequence set_window PubSub_new ps_me]. by rewrite lookup_insert_eq.
Qed.
