(* ===== verification/SeqStore.v ===== *)
(** * Sequence stores (crates/mb-runtime, [SeqStore])

    The store of the last LSA sequence number: the trait as an interface with
    its contract, the in-memory store, and the file store over a model of the
    files it touches, in which any call can fail and the process can stop
    between any two of them. *)

From Stdlib Require Import Strings.Byte Strings.String.
From S2P Require Export Prelude Ord Bytes Text.
Open Scope Z_scope.

(** [struct SeqStoreError(String)] *)
Record SeqStoreError := { error_message : bytes }.
#[global] Instance SeqStoreError_eq_dec : EqDecision SeqStoreError.
Proof. solve_decision. Defined.

(** [trait SeqStore]; the interior state is threaded. *)
Class SeqStore (St : Type) := {
  store_load : St → St * result Z SeqStoreError;
  store_persist : St → Z → St * result unit SeqStoreError;
}.

(** What a store promises: [stored] is the number that would be read back
    after a restart. *)
Class SeqStoreLaws (St : Type) `{SeqStore St} := {
  store_ok : St → Prop;
  stored : St → option Z;
  store_load_law s s' r :
    store_ok s → store_load s = (s', r) →
    store_ok s' ∧ stored s' = stored s ∧ ∀ n, r = Ok n → stored s = Some n ∧ is_uint 64 n;
  store_persist_law s n s' r :
    store_ok s → is_uint 64 n → store_persist s n = (s', r) →
    store_ok s' ∧
    match r with
    | Ok _ => stored s' = Some n ∧ ∃ m, stored s = Some m ∧ m ≤ n
    | Err _ => stored s' = stored s
    end;
}.

Definition backward_error (from to : Z) : SeqStoreError :=
  {| error_message := str "refusing to move persisted sequence backward from " ++ decimal from ++
                      str " to " ++ decimal to |}.

(** ** [MemorySeqStore] *)

(** [Mutex<u64>]: the value and whether a panic has poisoned the lock. *)
Record MemorySeqStore := { mem_seq : Z; poisoned : bool }.
Definition MemorySeqStore_default : MemorySeqStore := {| mem_seq := 0; poisoned := false |}.
Definition with_seq (n : Z) : MemorySeqStore := {| mem_seq := n; poisoned := false |}.

Definition poison_error : SeqStoreError :=
  {| error_message := str "in-memory sequence store lock is poisoned" |}.
Definition memory_load (s : MemorySeqStore) : result Z SeqStoreError :=
  if poisoned s then Err poison_error else Ok (mem_seq s).
Definition memory_persist (s : MemorySeqStore) (n : Z) :
  MemorySeqStore * result unit SeqStoreError :=
  if poisoned s then (s, Err poison_error)
  else if n <? mem_seq s then (s, Err (backward_error (mem_seq s) n))
  else ({| mem_seq := n; poisoned := false |}, Ok tt).
#[global] Instance MemorySeqStore_store : SeqStore MemorySeqStore :=
  {| store_load s := (s, memory_load s); store_persist := memory_persist |}.

#[global] Program Instance MemorySeqStore_laws : SeqStoreLaws MemorySeqStore :=
  {| store_ok s := is_uint 64 (mem_seq s); stored s := Some (mem_seq s) |}.
Next Obligation.
  intros s s' r Hs [= <- <-]. split_and!; [done|done|]. unfold memory_load.
  intros n. case_match; [done|]. by intros [= <-].
Qed.
Next Obligation.
  intros s n s' r Hs Hn. cbn. unfold memory_persist. case_match; [intros [= <- <-]; done|].
  destruct (Z.ltb_spec n (mem_seq s)); intros [= <- <-]; [done|]. cbn. eauto.
Qed.

(** ** The file system, as far as [FileSeqStore] uses it *)

(** A path with a file name: its directory (empty for the current one) and
    the name. *)
Record Path := { dir : bytes; file_name : bytes }.
#[global] Instance Path_eq_dec : EqDecision Path.
Proof. solve_decision. Defined.
#[global] Instance Path_countable : Countable Path.
Proof.
  refine (inj_countable (λ p, (dir p, file_name p))
    (λ q, Some {| dir := q.1; file_name := q.2 |}) _). by intros [].
Defined.
Definition display (p : Path) : bytes :=
  if decide (dir p = []) then file_name p else dir p ++ str "/" ++ file_name p.
(** [Path::file_stem]: up to the last dot, unless nothing is before it. *)
Definition file_stem (name : bytes) : bytes :=
  match list_find (λ b, b = x2e) (reverse name) with
  | Some (i, _) =>
      let before := take (length name - i - 1) name in
      if decide (before = []) then name else before
  | None => name
  end.
(** [Path::with_extension] *)
Definition with_extension (p : Path) (ext : bytes) : Path :=
  {| dir := dir p; file_name := file_stem (file_name p) ++ str "." ++ ext |}.

(** The contents of the files. *)
Abbreviation Files := (gmap Path bytes) (only parsing).

(** The outcome of the system calls of one call of the store: [Some e] is a
    failure with the text [e]; a write fails after some of its bytes. *)
Record IoFaults := {
  read_fault : option bytes;
  create_dir_fault : option bytes;
  open_fault : option bytes;
  write_fault : option (nat * bytes);
  sync_fault : option bytes;
  rename_fault : option bytes;
}.
Definition no_faults : IoFaults :=
  {| read_fault := None; create_dir_fault := None; open_fault := None; write_fault := None;
     sync_fault := None; rename_fault := None |}.

Definition io_error (what : string) (p : Path) (e : bytes) : SeqStoreError :=
  {| error_message := str what ++ display p ++ str ": " ++ e |}.

(** A computation on the files: every state of the files it passes through,
    the last one, and its result. *)
Definition FileM (A : Type) : Type := Files → list Files * Files * result A SeqStoreError.
Definition file_ret {A} (r : result A SeqStoreError) : FileM A := λ fs, ([], fs, r).
Definition file_bind {A B} (m : FileM A) (k : A → FileM B) : FileM B := λ fs,
  let '(v, fs, r) := m fs in
  match r with
  | Ok a => let '(v', fs', r') := k a fs in (v ++ v', fs', r')
  | Err e => (v, fs, Err e)
  end.
Notation "x ←f m ; k" := (file_bind m (λ x, k))
  (at level 20, m at level 100, k at level 200, right associativity) : mesh_scope.


(** ** [FileSeqStore] *)

(** [fs::read_to_string], [trim] and [parse] of [load]. *)
Definition load_file (f : IoFaults) (p : Path) (fs : Files) : result Z SeqStoreError :=
  match read_fault f with
  | Some e => Err (io_error "failed to read " p e)
  | None =>
      match fs !! p with
      | None => Ok 0
      | Some contents =>
          if negb (utf8_valid contents) then
            Err (io_error "failed to read " p (str "stream did not contain valid UTF-8"))
          else map_err (λ e, io_error "invalid sequence in " p (ParseIntError_display e))
                 (parse_u64 (trim contents))
      end
  end.

Definition create_parent (f : IoFaults) (p : Path) : FileM unit := λ fs,
  if decide (dir p = []) then ([], fs, Ok tt)
  else match create_dir_fault f with
       | Some e => ([], fs, Err {| error_message :=
                      str "failed to create " ++ dir p ++ str ": " ++ e |})
       | None => ([], fs, Ok tt)
       end.
(** [OpenOptions::new().create(true).truncate(true).write(true).open(..)] *)
Definition open_truncated (f : IoFaults) (p : Path) : FileM unit := λ fs,
  match open_fault f with
  | Some e => ([], fs, Err (io_error "failed to open " p e))
  | None => ([<[p := []]> fs], <[p := []]> fs, Ok tt)
  end.
(** [writeln!] to an empty file: the file holds every prefix of the text on
    the way, as far as the failure if there is one. *)
Definition write_text (f : IoFaults) (p : Path) (text : bytes) : FileM unit := λ fs,
  let state n := <[p := take n text]> fs in
  match write_fault f with
  | Some (n, e) => (state <$> seq 0 (S n), state n, Err (io_error "failed to write " p e))
  | None => (state <$> seq 0 (S (length text)), state (length text), Ok tt)
  end.
(** [file.sync_all()]: it can fail, but changes nothing a process sees; that it
    guards against a loss of power is outside this model. *)
Definition sync_all (f : IoFaults) (p : Path) : FileM unit := λ fs,
  match sync_fault f with
  | Some e => ([], fs, Err (io_error "failed to sync " p e))
  | None => ([], fs, Ok tt)
  end.
(** [fs::rename] replaces the target in one step. *)
Definition rename (f : IoFaults) (from to : Path) : FileM unit := λ fs,
  match rename_fault f, fs !! from with
  | Some e, _ => ([], fs, Err (io_error "failed to replace " to e))
  | None, None => ([], fs, Err (io_error "failed to replace " to (str "No such file or directory")))
  | None, Some c => ([<[to := c]> (delete from fs)], <[to := c]> (delete from fs), Ok tt)
  end.

Definition persist_file (f : IoFaults) (p : Path) (n : Z) : FileM unit :=
  previous ←f (λ fs, ([], fs, load_file f p fs));
  if n <? previous then file_ret (Err (backward_error previous n))
  else
    _ ←f create_parent f p;
    let temporary := with_extension p (str "tmp") in
    _ ←f open_truncated f temporary;
    _ ←f write_text f temporary (decimal n ++ [x0a]);
    _ ←f sync_all f temporary;
    rename f temporary p.

(** The store with the files it works on and the outcomes of the calls to
    come; a call uses the first of them. *)
Record FileSeqStore := { store_path : Path; store_files : gmap Path bytes; io : list IoFaults }.
Definition FileSeqStore_new (p : Path) (fs : Files) (io : list IoFaults) : FileSeqStore :=
  {| store_path := p; store_files := fs; io := io |}.
Definition next_io (s : FileSeqStore) : IoFaults := default no_faults (head (io s)).
Definition with_files (s : FileSeqStore) (fs : Files) : FileSeqStore :=
  {| store_path := store_path s; store_files := fs; io := tail (io s) |}.
Definition file_load (s : FileSeqStore) : FileSeqStore * result Z SeqStoreError :=
  (with_files s (store_files s), load_file (next_io s) (store_path s) (store_files s)).
Definition file_persist (s : FileSeqStore) (n : Z) : FileSeqStore * result unit SeqStoreError :=
  let '(_, fs, r) := persist_file (next_io s) (store_path s) n (store_files s) in
  (with_files s fs, r).
#[global] Instance FileSeqStore_store : SeqStore FileSeqStore :=
  {| store_load := file_load; store_persist := file_persist |}.

(** ** Properties of the file store *)

Lemma load_file_ext f p fs g : g !! p = fs !! p → load_file f p g = load_file f p fs.
Proof. intros E. unfold load_file. by rewrite E. Qed.
Lemma load_file_fault f p fs n : load_file f p fs = Ok n → load_file no_faults p fs = Ok n.
Proof. unfold load_file. by destruct (read_fault f). Qed.

Lemma load_file_uint f p fs n : load_file f p fs = Ok n → is_uint 64 n.
Proof.
  unfold load_file. case_match; [done|]. case_match; [|by intros [= <-]].
  case_match; [done|]. destruct (parse_u64 _) eqn:E; intros [= <-]. by eapply parse_u64_uint.
Qed.

Lemma utf8_digits l : Forall is_digit l → utf8_valid (l ++ [x0a]) = true.
Proof.
  induction 1 as [|b l Hb _ IH]; [done|]. cbn [app utf8_valid].
  apply is_digit_value in Hb. unfold in_range at 1.
  destruct (Z.leb_spec 0 (Z_of_byte b)), (Z.leb_spec (Z_of_byte b) 127); cbn; (done || lia).
Qed.
(** What is written is read back. *)
Lemma load_line p fs n :
  is_uint 64 n → load_file no_faults p (<[p := decimal n ++ [x0a]]> fs) = Ok n.
Proof.
  intros Hn. unfold load_file. cbn [read_fault no_faults]. rewrite lookup_insert_eq.
  rewrite utf8_digits by apply decimal_digits_digits. cbn [negb].
  by rewrite trim_line, parse_u64_decimal.
Qed.

(** Everything but the temporary file is as before. *)
Definition intact (tmp : Path) (fs g : Files) : Prop := ∀ q, q ≠ tmp → g !! q = fs !! q.
Lemma intact_refl tmp fs : intact tmp fs fs.
Proof. done. Qed.
Lemma intact_insert tmp fs g c : intact tmp fs g → intact tmp fs (<[tmp := c]> g).
Proof. intros Hg q Hq. rewrite lookup_insert_ne by done. by apply Hg. Qed.
Lemma intact_writes tmp fs g text n :
  intact tmp fs g →
  Forall (intact tmp fs) ((λ k, <[tmp := take k text]> g) <$> seq 0 n).
Proof. intros Hg. apply Forall_fmap, Forall_true. intros k. by apply intact_insert. Qed.

(** [persist] as one atomic step: files other than the temporary one change
    only by the final rename. *)
Lemma persist_file_spec f p n fs v fs' r :
  let tmp := with_extension p (str "tmp") in
  tmp ≠ p → persist_file f p n fs = (v, fs', r) →
  (∃ m, load_file f p fs = Ok m ∧ m ≤ n ∧ r = Ok tt ∧
     fs' = <[p := decimal n ++ [x0a]]> (delete tmp fs) ∧
     Forall (λ g, g = fs' ∨ intact tmp fs g) v) ∨
  (∃ e, r = Err e) ∧ Forall (intact tmp fs) (fs' :: v).
Proof.
  intros tmp Hne. unfold persist_file, file_bind, file_ret. fold tmp.
  pose proof (intact_refl tmp fs) as H0. pose proof (intact_insert _ _ _ [] H0) as H1.
  destruct (load_file f p fs) as [m|e] eqn:El; [|intros [= <- <- <-]; right; eauto].
  destruct (Z.ltb_spec n m); [intros [= <- <- <-]; right; eauto|].
  destruct (create_parent f p fs) as [[v1 fs1] r1] eqn:E1.
  assert (v1 = [] ∧ fs1 = fs) as [-> ->] by (unfold create_parent in E1; repeat case_match; by simplify_eq).
  destruct r1; [|intros [= <- <- <-]; right; eauto].
  unfold open_truncated. destruct (open_fault f); [intros [= <- <- <-]; right; eauto|].
  unfold write_text. destruct (write_fault f) as [[k e]|].
  { intros [= <- <- <-]. right. split; [eauto|].
    constructor; [by apply intact_insert|]. constructor; [done|]. exact (intact_writes tmp fs _ _ (S k) H1). }
  set (text := decimal n ++ [x0a]). pose proof (intact_writes tmp fs _ text (S (length text)) H1) as Hw.
  pose proof (intact_insert _ _ _ (take (length text) text) H1) as H2.
  set (ws := _ <$> seq 0 (S (length text))) in *. clearbody ws.
  unfold sync_all. destruct (sync_fault f).
  { intros [= <- <- <-]. right. split; [eauto|]. constructor; [done|]. rewrite app_nil_r. by constructor. }
  unfold rename. destruct (rename_fault f).
  { intros [= <- <- <-]. right. split; [eauto|]. constructor; [done|]. rewrite app_nil_r. by constructor. }
  rewrite lookup_insert_eq, firstn_all. intros [= <- <- <-]. left. exists m.
  rewrite delete_insert_eq, delete_insert_eq. split_and!; try done.
  constructor; [by right|]. apply Forall_app. split; [|by repeat constructor; left].
  eapply Forall_impl; [exact Hw|]. auto.
Qed.

Definition file_stored (s : FileSeqStore) : option Z :=
  match load_file no_faults (store_path s) (store_files s) with Ok n => Some n | Err _ => None end.
#[global] Instance FileSeqStore_laws : SeqStoreLaws FileSeqStore.
Proof.
  refine {| store_ok s := with_extension (store_path s) (str "tmp") ≠ store_path s;
            stored := file_stored |}.
  - intros s s' r Hs [= <- <-]. split_and!; [done|done|]. intros n Hn. split.
    + unfold file_stored. by rewrite (load_file_fault _ _ _ _ Hn).
    + by eapply load_file_uint.
  - intros s n s' r Hs Hn E. cbn [store_persist FileSeqStore_store] in E. unfold file_persist in E.
    destruct (persist_file _ _ _ _) as [[v fs'] r'] eqn:E'. injection E as <- <-. split; [done|].
    unfold file_stored. cbn [store_path store_files with_files].
    destruct (persist_file_spec _ _ _ _ _ _ _ Hs E') as [(m & Hm & Hle & -> & -> & _)|[[e ->] Hf]].
    + rewrite load_line by done. split; [done|]. exists m. by rewrite (load_file_fault _ _ _ _ Hm).
    + inversion Hf as [|?? Hi _]. by rewrite (load_file_ext _ _ _ _ (Hi _ (not_eq_sym Hs))).
Defined.

(** C22: Persisting a sequence number is atomic.  The store's path must not itself
    be the temporary file's.  Whatever call fails, and wherever the process
    stops, a restarted node reads either the number from before or the new one,
    and no other file than the store and its temporary is touched.  On success
    the store holds the new number, which did not go back; on failure the file
    still holds what it held; and without a failing call, every number that does
    not go back is accepted.  A stop is one of the process: what a loss of power
    does to writes that were not synced is not modelled. *)
Theorem seq_store_atomic f p n fs v fs' r :
  let tmp := with_extension p (str "tmp") in
  tmp ≠ p → is_uint 64 n → persist_file f p n fs = (v, fs', r) →
  (∀ g, g ∈ v → load_file no_faults p g = load_file no_faults p fs ∨
                load_file no_faults p g = Ok n ∧ r = Ok tt) ∧
  (∀ g q, g ∈ fs' :: v → q ≠ p → q ≠ tmp → g !! q = fs !! q) ∧
  match r with
  | Ok _ => load_file no_faults p fs' = Ok n ∧ ∃ m, load_file no_faults p fs = Ok m ∧ m ≤ n
  | Err _ => fs' !! p = fs !! p
  end ∧
  (∀ m, f = no_faults → load_file f p fs = Ok m → m ≤ n → r = Ok tt).
Proof.
  intros tmp Hne Hn E. pose proof (persist_file_spec _ _ _ _ _ _ _ Hne E) as Hspec. fold tmp in Hspec.
  split_and!.
  - intros g Hg. destruct Hspec as [(m & _ & _ & -> & Hfs & Hv)|[_ Hv]].
    + rewrite Forall_forall in Hv. destruct (Hv g Hg) as [->|Hi].
      * right. subst fs'. by rewrite load_line.
      * left. by apply load_file_ext, Hi.
    + inversion_clear Hv as [|?? _ Hv']. rewrite Forall_forall in Hv'. left. by apply load_file_ext, Hv'.
  - intros g q Hg Hqp Hqt. destruct Hspec as [(m & _ & _ & _ & Hfs & Hv)|[_ Hv]].
    + assert (fs' !! q = fs !! q) as Hq.
      { subst fs'. by rewrite lookup_insert_ne, lookup_delete_ne. }
      apply elem_of_cons in Hg as [->|Hg]; [done|]. rewrite Forall_forall in Hv.
      destruct (Hv g Hg) as [->|Hi]; [done|by apply Hi].
    + rewrite Forall_forall in Hv. by apply Hv.
  - destruct Hspec as [(m & Hm & Hle & -> & -> & _)|[[e ->] Hv]].
    + split; [by apply load_line|]. exists m. by rewrite (load_file_fault _ _ _ _ Hm).
    + inversion_clear Hv as [|?? Hi _]. by apply Hi.
  - intros m -> Hm Hle. revert E. unfold persist_file, file_bind. rewrite Hm.
    destruct (Z.ltb_spec n m); [lia|]. unfold create_parent, open_truncated, write_text, sync_all, rename.
    cbn [create_dir_fault open_fault write_fault sync_fault rename_fault no_faults].
    destruct (decide _); rewrite lookup_insert_eq; by intros [= _ _ <-].
Qed.
