(* ===== verification/RuntimeCodec.v ===== *)
(** * Runtime frame codecs (crates/mb-runtime, frames and discovery)

    The control frames and forward frames a runtime puts on its links, and the
    two translations between topic advertisements and Pub/Sub selectors. *)

From Stdlib Require Import Strings.Byte Strings.String.
From S2P Require Export Prelude Ord Bytes Text SeqStore Types Proto Wire WireFrames Transport WirePackets PubSub Forward ControlTypes Control.
Open Scope Z_scope.

(** ** Errors *)

Inductive RuntimeError :=
| EndpointNodeMismatch (endpoint configured : NodeId)
| UnexpectedFrame (t : FrameType) (c : Channel)
| ReProtobuf (error : rstring)
| InvalidNodeIdLength (n : Z)
| ReInvalidLinkCost (cost : Z)
| InvalidLsaTtl (ttl : Z)
| InvalidTopicName
| InvalidTopicRole (role : Z)
| TopicNameTooLong (n : Z)
| TopicPartitionTooLong (n : Z)
| DuplicateTopicAd
| TooManyElements (field : string) (count limit : Z)
| ReSequenceExhausted
| ReForwardPacket (e : ForwardPacketError)
| RuntimeStopped
| ReSeqStore (error : SeqStoreError)
| ReTransport (error : TransportError).
#[global] Instance RuntimeError_eq_dec : EqDecision RuntimeError.
Proof. solve_decision. Defined.

Definition ensure_limit (field : string) (count limit : Z) : result unit RuntimeError :=
  if limit <? count then Err (TooManyElements field count limit) else Ok tt.
Definition decode_node_id (b : bytes) : result NodeId RuntimeError :=
  match from_bytes b with Some n => Ok n | None => Err (InvalidNodeIdLength (zlen b)) end.

(** ** Forward frames *)

Definition channel_for_priority (p : Priority) : Channel :=
  match p with P0 => PubSubP0 | P1 => PubSubP1 | P2 => PubSubP2 | P3 => PubSubP3 end.

(** The frame [execute_forward_actions] builds for a [Send]; a packet that
    does not encode is skipped. *)
Definition forward_frame (p : ForwardPacket) : result WireFrame ForwardPacketError :=
  encoded ←? ForwardPacket_encode p;
  Ok {| frame_type := FtForward; channel := channel_for_priority (priority (header p));
        frame_payload := encoded |}.

Definition decode_forward_frame (f : WireFrame) : option (result ForwardPacket RuntimeError) :=
  if negb (bool_decide (frame_type f = FtForward)) then
    Some (Err (UnexpectedFrame (frame_type f) (channel f)))
  else
    r ← ForwardPacket_decode (frame_payload f);
    p ←?! map_err ReForwardPacket r;
    if negb (bool_decide (channel f = channel_for_priority (priority (header p)))) then
      Some (Err (UnexpectedFrame FtForward (channel f)))
    else Some (Ok p).

(** ** Topic advertisements *)

Definition validate_topic_ad (topic : rstring) (partition : bytes) (raw_roles : Z) :
  result Z RuntimeError :=
  if zlen topic =? 0 then Err InvalidTopicName
  else if MAX_TOPIC_NAME_LEN <? zlen topic then Err (TopicNameTooLong (zlen topic))
  else if MAX_TOPIC_PARTITION_LEN <? zlen partition then
    Err (TopicPartitionTooLong (zlen partition))
  else if u_max 8 <? raw_roles then Err (InvalidTopicRole raw_roles)
  else match TopicRoles_from_bits raw_roles with
       | Some r => Ok r
       | None => Err (InvalidTopicRole raw_roles)
       end.

(** The validation loop of [encode_control_frame]. *)
Fixpoint check_topics (unique : gset (rstring * bytes)) (ads : list TopicAd) :
  result unit RuntimeError :=
  match ads with
  | [] => Ok tt
  | ad :: ads =>
      _ ←? validate_topic_ad (topic ad) (partition ad) (roles ad);
      if decide ((topic ad, partition ad) ∈ unique) then Err DuplicateTopicAd
      else check_topics ({[(topic ad, partition ad)]} ∪ unique) ads
  end.

(** The advertisements the runtime originates for changed subscriptions. *)
Definition ad_of_selector (s : TopicSelector) : TopicAd :=
  {| topic := sel_name s; partition := default [] (sel_partition s);
     roles := ROLE_SUBSCRIBE; head_seq := 0; tail_seq := 0 |}.

(** The selector of a discovered advertisement; [None] is the panic of an
    [expect] on a topic that is not valid for Pub/Sub. *)
Definition selector_of_ad (ad : TopicAd) : option TopicSelector :=
  if zlen (partition ad) =? 0 then
    match all_partitions (topic ad) with Ok s => Some s | Err _ => None end
  else
    match TopicKey_new (topic ad) (partition ad) with
    | Ok t => Some (exact_selector t)
    | Err _ => None
    end.

Fixpoint collect_subscribers (ads : list DiscoveredTopicAd)
    (m : gmap TopicSelector (gset NodeId)) : option (gmap TopicSelector (gset NodeId)) :=
  match ads with
  | [] => Some m
  | d :: ads =>
      if negb (TopicRoles_contains (roles (disc_ad d)) ROLE_SUBSCRIBE) then
        collect_subscribers ads m
      else
        selector ← selector_of_ad (disc_ad d);
        collect_subscribers ads
          (<[selector := {[disc_node d]} ∪ default ∅ (m !! selector)]> m)
  end.
Definition discovery_from_topic_ads (ads : list DiscoveredTopicAd) :
  option (gmap TopicSelector (gset NodeId)) :=
  subscribers ← collect_subscribers ads ∅;
  Some (foldl (λ d p, set_subscribers d p.1 (bset_iter p.2)) ∅ (btree_iter subscribers)).

(** ** LSAs *)

Section Codec.
Context `{!Prost PbLsa, !Prost PbSignedLsa, !Prost PbDigest, !Prost PbDigestReq}.

Definition pb_of_lsa (l : Lsa) : PbLsa :=
  {| pb_origin := as_bytes (origin l); pb_seq := seq_no l; pb_ttl_sec := ttl_sec l;
     pb_adjacencies := (λ a, {| pb_peer := as_bytes (adj_peer a);
                                pb_cost := cost_get (adj_cost a) |}) <$> adjacencies l;
     pb_topics := (λ ad, {| pb_topic := topic ad; pb_partition := partition ad;
                            pb_role := roles ad; pb_head_seq := head_seq ad;
                            pb_tail_seq := tail_seq ad |}) <$> topics l;
     pb_epoch := epoch l |}.
Definition encode_lsa (l : Lsa) : bytes := prost_encode (pb_of_lsa l).

Definition decode_adjacency (a : PbAdjacency) : result Adjacency RuntimeError :=
  peer ←? decode_node_id (pb_peer a);
  if u_max 16 <? pb_cost a then Err (ReInvalidLinkCost (pb_cost a))
  else match LinkCost_new (pb_cost a) with
       | Ok c => Ok {| adj_peer := peer; adj_cost := c |}
       | Err _ => Err (ReInvalidLinkCost (pb_cost a))
       end.
Definition decode_topic_ad (a : PbTopicAd) : result TopicAd RuntimeError :=
  r ←? validate_topic_ad (pb_topic a) (pb_partition a) (pb_role a);
  Ok {| topic := pb_topic a; partition := pb_partition a; roles := r;
        head_seq := pb_head_seq a; tail_seq := pb_tail_seq a |}.

Definition decode_lsa (w : PbLsa) : result Lsa RuntimeError :=
  o ←? decode_node_id (pb_origin w);
  if negb ((1 <=? pb_ttl_sec w) && (pb_ttl_sec w <=? MAX_LSA_TTL_SEC)) then
    Err (InvalidLsaTtl (pb_ttl_sec w))
  else
    _ ←? ensure_limit "Lsa.adjacencies" (zlen (pb_adjacencies w)) MAX_LSA_ADJACENCIES;
    _ ←? ensure_limit "Lsa.topics" (zlen (pb_topics w)) MAX_LSA_TOPIC_ADS;
    adjs ←? collect_results decode_adjacency (pb_adjacencies w);
    ads ←? collect_results decode_topic_ad (pb_topics w);
    if negb (Z.of_nat (size (list_to_set ((λ ad, (topic ad, partition ad)) <$> ads)
                               : gset (rstring * bytes))) =? zlen ads)
    then Err DuplicateTopicAd
    else Ok {| origin := o; epoch := pb_epoch w; seq_no := pb_seq w; ttl_sec := pb_ttl_sec w;
               adjacencies := adjs; topics := ads |}.

(** ** Control frames *)

Definition encode_control_frame (frame : ControlFrame) : result WireFrame RuntimeError :=
  match frame with
  | CfLsa m =>
      let l := lsa m in
      if negb ((1 <=? ttl_sec l) && (ttl_sec l <=? MAX_LSA_TTL_SEC)) then
        Err (InvalidLsaTtl (ttl_sec l))
      else
        _ ←? ensure_limit "Lsa.adjacencies" (zlen (adjacencies l)) MAX_LSA_ADJACENCIES;
        _ ←? ensure_limit "Lsa.topics" (zlen (topics l)) MAX_LSA_TOPIC_ADS;
        _ ←? check_topics ∅ (topics l);
        let lsa_bytes :=
          if zlen (canonical_bytes m) =? 0 then encode_lsa l else canonical_bytes m in
        Ok (WireFrame_control FtLsa
              (prost_encode {| pb_lsa_bytes := lsa_bytes; pb_signature := signature m |}))
  | CfDigest entries =>
      _ ←? ensure_limit "Digest.entries" (zlen entries) MAX_DIGEST_ENTRIES;
      Ok (WireFrame_control FtDigest
            (prost_encode {| pb_entries :=
               (λ e, {| pde_origin := as_bytes (de_origin e); pde_epoch := de_epoch e;
                        pde_seq := de_seq e |}) <$> entries |}))
  | CfDigestReq origins =>
      _ ←? ensure_limit "DigestReq.origins" (zlen origins) MAX_DIGEST_REQ_ORIGINS;
      Ok (WireFrame_control FtDigestReq
            (prost_encode {| pb_origins := as_bytes <$> origins |}))
  end.

Definition decode_digest_entry (e : PbDigestEntry) : result DigestEntry RuntimeError :=
  o ←? decode_node_id (pde_origin e);
  Ok {| de_origin := o; de_epoch := pde_epoch e; de_seq := pde_seq e |}.

Definition decode_control_frame (f : WireFrame) : result ControlFrame RuntimeError :=
  if negb (bool_decide (channel f = ChControl)) then
    Err (UnexpectedFrame (frame_type f) (channel f))
  else
    match frame_type f with
    | FtLsa =>
        signed ←? map_err ReProtobuf (prost_decode (M:=PbSignedLsa) (frame_payload f));
        wire_lsa ←? map_err ReProtobuf (prost_decode (M:=PbLsa) (pb_lsa_bytes signed));
        l ←? decode_lsa wire_lsa;
        Ok (CfLsa {| lsa := l; canonical_bytes := pb_lsa_bytes signed;
                     signature := pb_signature signed |})
    | FtDigest =>
        d ←? map_err ReProtobuf (prost_decode (M:=PbDigest) (frame_payload f));
        _ ←? ensure_limit "Digest.entries" (zlen (pb_entries d)) MAX_DIGEST_ENTRIES;
        entries ←? collect_results decode_digest_entry (pb_entries d);
        Ok (CfDigest entries)
    | FtDigestReq =>
        r ←? map_err ReProtobuf (prost_decode (M:=PbDigestReq) (frame_payload f));
        _ ←? ensure_limit "DigestReq.origins" (zlen (pb_origins r)) MAX_DIGEST_REQ_ORIGINS;
        origins ←? collect_results decode_node_id (pb_origins r);
        Ok (CfDigestReq origins)
    | _ => Err (UnexpectedFrame (frame_type f) (channel f))
    end.
End Codec.
