(* ===== verification/RuntimeCodecProps.v ===== *)
(** * Properties of the runtime codecs (crates/mb-runtime)

    Round trips of control and forward frames, agreement of the wire checks
    with the control plane's, and discovery as a set specification. *)

From Stdlib Require Import Strings.Byte Strings.String.
From S2P Require Export Prelude Ord Bytes Types Proto Wire WirePackets PubSub PubSubProps Forward ControlTypes Control RuntimeCodec.
Open Scope Z_scope.

(** ** Small decoders *)

Lemma decode_node_id_Ok b n : decode_node_id b = Ok n ↔ as_bytes n = b.
Proof.
  unfold decode_node_id. destruct (from_bytes b) as [m|] eqn:E.
  - apply from_bytes_Some in E. split; [by intros [= <-]|]. intros <-. f_equal. by apply NodeId_eq.
  - split; [done|]. intros <-. by rewrite from_bytes_as_bytes in E.
Qed.
Lemma ensure_limit_Ok field count limit : ensure_limit field count limit = Ok tt ↔ count ≤ limit.
Proof. unfold ensure_limit. destruct (Z.ltb_spec limit count); split; (done || lia). Qed.
Lemma ensure_limit_cases field count limit {A} (k : result A RuntimeError) x :
  (_ ←? ensure_limit field count limit; k) = Ok x ↔ count ≤ limit ∧ k = Ok x.
Proof. unfold ensure_limit. destruct (Z.ltb_spec limit count); naive_solver lia. Qed.

Lemma roles_from_bits b r : TopicRoles_from_bits b = Some r → r = b.
Proof. unfold TopicRoles_from_bits. destruct (_ && _); congruence. Qed.

Lemma validate_topic_ad_Ok ad r :
  validate_topic_ad (topic ad) (partition ad) (roles ad) = Ok r ↔
  r = roles ad ∧ valid_topic_ad ad = true ∧ roles ad ≤ u_max 8.
Proof.
  unfold validate_topic_ad, valid_topic_ad.
  destruct (Z.eqb_spec (zlen (topic ad)) 0); [naive_solver|].
  destruct (Z.ltb_spec MAX_TOPIC_NAME_LEN (zlen (topic ad)));
    destruct (Z.leb_spec (zlen (topic ad)) MAX_TOPIC_NAME_LEN); try lia; [naive_solver|].
  destruct (Z.ltb_spec MAX_TOPIC_PARTITION_LEN (zlen (partition ad)));
    destruct (Z.leb_spec (zlen (partition ad)) MAX_TOPIC_PARTITION_LEN); try lia; [naive_solver|].
  destruct (Z.ltb_spec (u_max 8) (roles ad)); [naive_solver lia|].
  destruct (TopicRoles_from_bits (roles ad)) as [r'|] eqn:E; [|naive_solver].
  apply roles_from_bits in E as ->. naive_solver.
Qed.

Lemma NoDup_size_list_to_set `{Countable K} (l : list K) :
  size (list_to_set l : gset K) = length l ↔ NoDup l.
Proof.
  split; [|apply size_list_to_set]. induction l as [|x l IH]; [constructor|].
  cbn [list_to_set length]. intros Hs. pose proof (size_list_to_set_le l) as Hle.
  destruct (decide (x ∈ l)) as [Hx|Hx].
  - rewrite subseteq_union_1_L in Hs; [lia|]. by apply singleton_subseteq_l, elem_of_list_to_set.
  - rewrite size_union, size_singleton in Hs by set_solver. constructor; [done|]. apply IH. lia.
Qed.

Abbreviation ad_key := (λ ad, (topic ad, partition ad)).

Lemma valid_topic_ads_spec ads :
  valid_topic_ads ads = true ↔
  zlen ads ≤ MAX_LSA_TOPIC_ADS ∧ Forall (λ ad, valid_topic_ad ad = true) ads ∧
  NoDup (ad_key <$> ads).
Proof.
  unfold valid_topic_ads. rewrite !andb_true_iff, Z.leb_le, Z.eqb_eq, forallb_forall.
  rewrite <-(NoDup_size_list_to_set (ad_key <$> ads)), length_fmap. unfold zlen.
  rewrite Forall_forall. setoid_rewrite list_elem_of_In.
  rewrite Nat2Z.inj_iff. tauto.
Qed.

Lemma check_topics_Ok ads : ∀ u,
  check_topics u ads = Ok tt ↔
  Forall (λ ad, valid_topic_ad ad = true ∧ roles ad ≤ u_max 8) ads ∧ NoDup (ad_key <$> ads) ∧
  (∀ ad, ad ∈ ads → ad_key ad ∉ u).
Proof.
  induction ads as [|ad ads IH]; intros u; cbn [check_topics].
  { split; [|done]. intros _. split_and!; [constructor|constructor|].
    by intros ad Had%elem_of_nil. }
  rewrite fmap_cons, Forall_cons, NoDup_cons.
  destruct (validate_topic_ad _ _ _) as [r|e] eqn:Ev.
  2:{ split; [done|]. intros ([Hv _] & _). assert (∃ r, validate_topic_ad (topic ad)
        (partition ad) (roles ad) = Ok r) as [r Hr]; [|congruence].
      exists (roles ad). by apply validate_topic_ad_Ok. }
  apply validate_topic_ad_Ok in Ev as (-> & Hv & Hr). case_decide as Hu.
  { split; [done|]. intros (_ & _ & Hd). by destruct (Hd ad ltac:(by left)). }
  rewrite IH. setoid_rewrite not_elem_of_union. setoid_rewrite not_elem_of_singleton. split.
  - intros (Hf & Hnd & Hd). split_and!; [done|done|done| |done|].
    + intros (ad' & Heq & Hin)%list_elem_of_fmap. by destruct (Hd ad' Hin).
    + intros ad' [->|Hin]%elem_of_cons; [done|]. by apply Hd.
  - intros ((_ & Hf) & (Hn & Hnd) & Hd). split_and!; [done|done|].
    intros ad' Hin. split; [|by apply Hd; right].
    intros E. apply Hn, list_elem_of_fmap. by exists ad'.
Qed.

(** ** LSAs *)

(** The Rust types of the fields: [u64], [u32], [u8] roles, [String]. *)
Definition ad_typed (ad : TopicAd) : Prop :=
  utf8_valid (topic ad) = true ∧ is_uint 8 (roles ad) ∧ is_uint 64 (head_seq ad) ∧
  is_uint 64 (tail_seq ad).
Definition lsa_typed (l : Lsa) : Prop :=
  is_uint 64 (seq_no l) ∧ is_uint 32 (epoch l) ∧ is_uint 32 (ttl_sec l) ∧
  Forall ad_typed (topics l).

Lemma collect_results_fmap {A B E} (f : A → result B E) (g : B → A) l :
  Forall (λ y, f (g y) = Ok y) l → collect_results f (g <$> l) = Ok l.
Proof. intros H. apply collect_results_ok. induction H; by constructor. Qed.

Lemma decode_adjacency_encode a :
  decode_adjacency {| pb_peer := as_bytes (adj_peer a); pb_cost := cost_get (adj_cost a) |} = Ok a.
Proof.
  unfold decode_adjacency. cbn [pb_peer pb_cost].
  rewrite (proj2 (decode_node_id_Ok _ (adj_peer a)) eq_refl).
  pose proof (cost_range (adj_cost a)). rewrite (proj2 (Z.ltb_ge _ _)) by (unfold u_max; lia).
  assert (LinkCost_new (cost_get (adj_cost a)) = Ok (adj_cost a)) as ->; [|by destruct a].
  apply LinkCost_new_Ok. done.
Qed.

Lemma valid_lsa_spec l :
  valid_lsa l = true ↔
  1 ≤ ttl_sec l ≤ MAX_LSA_TTL_SEC ∧ zlen (adjacencies l) ≤ MAX_LSA_ADJACENCIES ∧
  valid_topic_ads (topics l) = true.
Proof. unfold valid_lsa. rewrite !andb_true_iff, !Z.leb_le. tauto. Qed.

Section Lsa.
Context `{!Prost PbLsa}.

Lemma pb_of_lsa_typed l : lsa_typed l → PbLsa_typed (pb_of_lsa l).
Proof.
  intros (Hs & He & Ht & Hads). unfold PbLsa_typed; cbn. split_and!; [done..| |].
  - apply Forall_fmap, Forall_true. intros a. cbn. pose proof (cost_range (adj_cost a)).
    unfold is_uint. lia.
  - apply Forall_fmap. eapply Forall_impl; [exact Hads|]. intros ad (? & ? & ? & ?).
    split_and!; try done. cbn. unfold is_uint in *. lia.
Qed.

Lemma decode_lsa_encode l : lsa_typed l → valid_lsa l = true → decode_lsa (pb_of_lsa l) = Ok l.
Proof.
  intros (_ & _ & _ & Hads) (Ht & Ha & Htop)%valid_lsa_spec.
  pose proof Htop as (Hlen & Hf & Hnd)%valid_topic_ads_spec.
  unfold decode_lsa. cbn [pb_of_lsa pb_origin pb_ttl_sec pb_adjacencies pb_topics pb_epoch pb_seq].
  rewrite (proj2 (decode_node_id_Ok _ (origin l)) eq_refl).
  rewrite !(proj2 (Z.leb_le _ _)) by lia. cbn [andb negb].
  rewrite !(proj2 (ensure_limit_Ok _ _ _)) by (unfold zlen in *; by rewrite length_fmap).
  rewrite (collect_results_fmap decode_adjacency);
    [|by apply Forall_true; intros; apply decode_adjacency_encode].
  rewrite (collect_results_fmap decode_topic_ad).
  - rewrite (proj2 (Z.eqb_eq _ _)); [by destruct l|].
    rewrite (proj2 (NoDup_size_list_to_set _) Hnd). unfold zlen. by rewrite length_fmap.
  - rewrite Forall_forall in Hf, Hads |- *. intros ad Hin. unfold decode_topic_ad. cbn.
    rewrite (proj2 (validate_topic_ad_Ok ad (roles ad))); [by destruct ad|].
    split_and!; [done|by apply Hf|].
    destruct (Hads ad Hin) as (_ & Hr & _). unfold is_uint, u_max in *. lia.
Qed.

Lemma decode_topic_ads_valid ws ads :
  collect_results decode_topic_ad ws = Ok ads →
  length ads = length ws ∧
  Forall (λ ad, valid_topic_ad ad = true ∧ roles ad ≤ u_max 8) ads.
Proof.
  intros HF%collect_results_ok. split; [symmetry; by eapply Forall2_length|].
  induction HF as [|w ad ws ads Hw _ IH]; constructor; [|done].
  unfold decode_topic_ad in Hw. destruct (validate_topic_ad _ _ _) as [r|] eqn:E; [|done].
  injection Hw as <-.
  pose proof (validate_topic_ad_Ok {| topic := pb_topic w; partition := pb_partition w;
    roles := pb_role w; head_seq := pb_head_seq w; tail_seq := pb_tail_seq w |} r) as [H _].
  specialize (H E) as (-> & Hv & Hr). cbn [roles] in *. done.
Qed.

(** Every LSA the wire yields is one the control plane accepts as valid. *)
Lemma decode_lsa_valid w l :
  decode_lsa w = Ok l →
  valid_lsa l = true ∧ Forall (λ ad, roles ad ≤ u_max 8) (topics l) ∧
  epoch l = pb_epoch w ∧ seq_no l = pb_seq w ∧ as_bytes (origin l) = pb_origin w.
Proof.
  unfold decode_lsa. destruct (decode_node_id _) as [o|] eqn:Eo; [|done].
  apply decode_node_id_Ok in Eo. destruct (negb _) eqn:Et; [done|].
  rewrite ensure_limit_cases. intros [Ha H]. apply ensure_limit_cases in H as [Htop H].
  destruct (collect_results decode_adjacency _) as [adjs|] eqn:Ea; [|done].
  destruct (collect_results decode_topic_ad _) as [ads|] eqn:Eads; [|done].
  destruct (negb _) eqn:En in H; [done|]. injection H as <-. bool_prop.
  apply collect_results_ok, Forall2_length in Ea. apply decode_topic_ads_valid in Eads as [El Ef].
  split_and!; try done.
  - apply valid_lsa_spec. cbn [ttl_sec adjacencies topics]. unfold zlen in *.
    split_and!; [lia|lia|lia|]. apply valid_topic_ads_spec. unfold zlen. split_and!; [lia| |].
    + eapply Forall_impl; [exact Ef|]. by intros ? [].
    + apply NoDup_size_list_to_set. rewrite length_fmap. lia.
  - cbn. eapply Forall_impl; [exact Ef|]. by intros ? [].
Qed.
End Lsa.

(** ** Control frames *)

(** What a frame must satisfy to be sent: the limits of the protocol. *)
Definition sendable (f : ControlFrame) : Prop :=
  match f with
  | CfLsa m => valid_lsa (lsa m) = true
  | CfDigest entries => zlen entries ≤ MAX_DIGEST_ENTRIES
  | CfDigestReq origins => zlen origins ≤ MAX_DIGEST_REQ_ORIGINS
  end.
Definition frame_typed (f : ControlFrame) : Prop :=
  match f with
  | CfLsa m => lsa_typed (lsa m)
  | CfDigest entries => Forall (λ e, is_uint 32 (de_epoch e) ∧ is_uint 64 (de_seq e)) entries
  | CfDigestReq _ => True
  end.

Section Frames.
Context `{!Prost PbLsa, !Prost PbSignedLsa, !Prost PbDigest, !Prost PbDigestReq}.

(** The bytes an LSA travels as, kept verbatim once known. *)
Definition lsa_wire_bytes (m : LsaMessage) : bytes :=
  if zlen (canonical_bytes m) =? 0 then encode_lsa (lsa m) else canonical_bytes m.
(** Canonical bytes, when present, are an encoding of the LSA. *)
Definition bytes_consistent (f : ControlFrame) : Prop :=
  match f with
  | CfLsa m => canonical_bytes m ≠ [] →
      ∃ w, prost_decode (canonical_bytes m) = Ok w ∧ decode_lsa w = Ok (lsa m)
  | _ => True
  end.
Definition canonical_frame (f : ControlFrame) : ControlFrame :=
  match f with
  | CfLsa m => CfLsa {| lsa := lsa m; canonical_bytes := lsa_wire_bytes m;
                        signature := signature m |}
  | f => f
  end.

Lemma encode_lsa_frame m :
  Forall (λ ad, roles ad ≤ u_max 8) (topics (lsa m)) →
  match encode_control_frame (CfLsa m) with
  | Ok w => valid_lsa (lsa m) = true ∧
      w = WireFrame_control FtLsa
            (prost_encode {| pb_lsa_bytes := lsa_wire_bytes m; pb_signature := signature m |})
  | Err _ => valid_lsa (lsa m) ≠ true
  end.
Proof.
  intros Hr. pose proof (valid_lsa_spec (lsa m)) as Hs. unfold encode_control_frame.
  destruct (negb _) eqn:Et.
  { bool_prop. intros (Ht & _)%Hs. apply andb_false_iff in Et as [?|?]; bool_prop; lia. }
  bool_prop. unfold ensure_limit.
  destruct (Z.ltb_spec MAX_LSA_ADJACENCIES (zlen (adjacencies (lsa m)))).
  { intros (_ & Ha & _)%Hs. lia. }
  destruct (Z.ltb_spec MAX_LSA_TOPIC_ADS (zlen (topics (lsa m)))).
  { intros (_ & _ & (Hlen & _)%valid_topic_ads_spec)%Hs. lia. }
  destruct (check_topics ∅ (topics (lsa m))) as [[]|e] eqn:Ec.
  - split; [|done]. apply Hs. split_and!; [lia|lia|done|].
    apply check_topics_Ok in Ec as (Hf & Hnd & _).
    apply valid_topic_ads_spec. split_and!; [lia| |done].
    eapply Forall_impl; [exact Hf|]. by intros ? [].
  - intros (_ & _ & (_ & Hf & Hnd)%valid_topic_ads_spec)%Hs.
    rewrite (proj2 (check_topics_Ok (topics (lsa m)) ∅)) in Ec; [done|].
    split_and!; [by apply Forall_and|done|]. intros ad _. apply not_elem_of_empty.
Qed.

Context `{!ProstLaws PbLsa PbLsa_typed, !ProstLaws PbSignedLsa (λ _, True),
          !ProstLaws PbDigest PbDigest_typed, !ProstLaws PbDigestReq (λ _, True)}.

Lemma decode_lsa_frame m :
  (∃ w, prost_decode (lsa_wire_bytes m) = Ok w ∧ decode_lsa w = Ok (lsa m)) →
  decode_control_frame (WireFrame_control FtLsa
    (prost_encode {| pb_lsa_bytes := lsa_wire_bytes m; pb_signature := signature m |})) =
  Ok (canonical_frame (CfLsa m)).
Proof.
  intros (w & Hd & Hl). unfold decode_control_frame. cbn [WireFrame_control channel frame_type
    frame_payload]. rewrite bool_decide_true by done. cbn [negb].
  rewrite prost_roundtrip by done. cbn [map_err pb_lsa_bytes pb_signature].
  rewrite Hd. cbn [map_err]. by rewrite Hl.
Qed.

Lemma lsa_wire_bytes_decode m :
  lsa_typed (lsa m) → valid_lsa (lsa m) = true → bytes_consistent (CfLsa m) →
  ∃ w, prost_decode (lsa_wire_bytes m) = Ok w ∧ decode_lsa w = Ok (lsa m).
Proof.
  intros Ht Hv Hc. unfold lsa_wire_bytes. destruct (Z.eqb_spec (zlen (canonical_bytes m)) 0).
  - exists (pb_of_lsa (lsa m)). split; [|by apply decode_lsa_encode].
    apply prost_roundtrip, pb_of_lsa_typed, Ht.
  - apply Hc. intros E. by rewrite E in *.
Qed.

Lemma decode_encode_digest entries :
  Forall (λ e, is_uint 32 (de_epoch e) ∧ is_uint 64 (de_seq e)) entries →
  zlen entries ≤ MAX_DIGEST_ENTRIES →
  ∃ w, encode_control_frame (CfDigest entries) = Ok w ∧
    decode_control_frame w = Ok (CfDigest entries).
Proof.
  intros Ht Hlen. unfold encode_control_frame.
  rewrite (proj2 (ensure_limit_Ok _ _ _)) by done. eexists. split; [done|].
  unfold decode_control_frame. cbn [WireFrame_control channel frame_type frame_payload].
  rewrite bool_decide_true by done. cbn [negb]. rewrite prost_roundtrip.
  2:{ apply Forall_fmap. eapply Forall_impl; [exact Ht|]. done. }
  cbn [map_err pb_entries].
  rewrite (proj2 (ensure_limit_Ok _ _ _)) by (unfold zlen in *; by rewrite length_fmap).
  rewrite collect_results_fmap; [done|]. apply Forall_true. intros e.
  unfold decode_digest_entry. cbn. rewrite (proj2 (decode_node_id_Ok _ (de_origin e)) eq_refl).
  by destruct e.
Qed.
Lemma decode_encode_digest_req origins :
  zlen origins ≤ MAX_DIGEST_REQ_ORIGINS →
  ∃ w, encode_control_frame (CfDigestReq origins) = Ok w ∧
    decode_control_frame w = Ok (CfDigestReq origins).
Proof.
  intros Hlen. unfold encode_control_frame.
  rewrite (proj2 (ensure_limit_Ok _ _ _)) by done. eexists. split; [done|].
  unfold decode_control_frame. cbn [WireFrame_control channel frame_type frame_payload].
  rewrite bool_decide_true by done. cbn [negb]. rewrite prost_roundtrip by done.
  cbn [map_err pb_origins].
  rewrite (proj2 (ensure_limit_Ok _ _ _)) by (unfold zlen in *; by rewrite length_fmap).
  rewrite collect_results_fmap; [done|]. apply Forall_true. intros o.
  by apply decode_node_id_Ok.
Qed.

Lemma encode_control_frame_err f :
  frame_typed f → (∃ e, encode_control_frame f = Err e) → ¬ sendable f.
Proof.
  intros Ht [e He]. destruct f as [m|entries|origins].
  - pose proof (encode_lsa_frame m) as H. rewrite He in H. apply H.
    destruct Ht as (_ & _ & _ & Ht). eapply Forall_impl; [exact Ht|].
    intros ad (_ & Hr & _). unfold is_uint, u_max in *. lia.
  - cbn. unfold encode_control_frame, ensure_limit in He.
    destruct (Z.ltb_spec MAX_DIGEST_ENTRIES (zlen entries)); [lia|done].
  - cbn. unfold encode_control_frame, ensure_limit in He.
    destruct (Z.ltb_spec MAX_DIGEST_REQ_ORIGINS (zlen origins)); [lia|done].
Qed.

Lemma decode_control_frame_inv w f :
  decode_control_frame w = Ok f →
  channel w = ChControl ∧ sendable f ∧ bytes_consistent f ∧
  match f with
  | CfLsa m => frame_type w = FtLsa ∧ Forall (λ ad, roles ad ≤ u_max 8) (topics (lsa m))
  | CfDigest _ => frame_type w = FtDigest
  | CfDigestReq _ => frame_type w = FtDigestReq
  end.
Proof.
  unfold decode_control_frame. destruct (negb _) eqn:Ech; [done|]. bool_prop.
  destruct (frame_type w) eqn:Eft; try done.
  - destruct (prost_decode (frame_payload w)) as [s|]; [|done]. cbn [map_err].
    destruct (prost_decode (pb_lsa_bytes s)) as [wl|] eqn:Ed; [|done]. cbn [map_err].
    destruct (decode_lsa wl) as [l|] eqn:El; [|done]. intros [= <-].
    destruct (decode_lsa_valid _ _ El) as (Hv & Hr & _). cbn. eauto 10.
  - destruct (prost_decode (frame_payload w)) as [d|]; [|done]. cbn [map_err].
    rewrite ensure_limit_cases. intros [Hl H].
    destruct (collect_results _ _) as [es|] eqn:Ee; [|done]. injection H as <-.
    apply collect_results_ok, Forall2_length in Ee. unfold zlen in *. cbn. unfold zlen.
    rewrite <-Ee. eauto.
  - destruct (prost_decode (frame_payload w)) as [d|]; [|done]. cbn [map_err].
    rewrite ensure_limit_cases. intros [Hl H].
    destruct (collect_results _ _) as [es|] eqn:Ee; [|done]. injection H as <-.
    apply collect_results_ok, Forall2_length in Ee. unfold zlen in *. cbn. unfold zlen.
    rewrite <-Ee. eauto.
Qed.
End Frames.

(** ** Discovery *)

Lemma valid_topic_ad_limits ad :
  valid_topic_ad ad = true →
  zlen (topic ad) ≠ 0 ∧ zlen (topic ad) ≤ MAX_TOPIC_NAME_LEN ∧
  zlen (partition ad) ≤ MAX_TOPIC_PARTITION_LEN.
Proof. unfold valid_topic_ad. intros H. bool_prop. done. Qed.

Lemma validate_topic_valid ad p :
  valid_topic_ad ad = true → zlen p ≤ zlen (partition ad) →
  validate_topic (topic ad) p = Ok tt.
Proof.
  intros (Hn & Hl & Hp)%valid_topic_ad_limits Hle. unfold validate_topic.
  unfold PS_MAX_TOPIC_NAME_LEN, MAX_PARTITION_LEN, MAX_TOPIC_NAME_LEN,
    MAX_TOPIC_PARTITION_LEN in *.
  rewrite (proj2 (Z.eqb_neq _ _)), !(proj2 (Z.ltb_ge _ _)) by lia. done.
Qed.

(** The [expect]s of discovery cannot fire on a valid advertisement. *)
Lemma selector_of_ad_valid ad :
  valid_topic_ad ad = true →
  selector_of_ad ad =
  Some {| sel_name := topic ad;
          sel_partition := if zlen (partition ad) =? 0 then None else Some (partition ad) |}.
Proof.
  intros Hv. unfold selector_of_ad. destruct (Z.eqb_spec (zlen (partition ad)) 0) as [E|E].
  - unfold all_partitions. rewrite validate_topic_valid; [done..|].
    by rewrite E.
  - pose proof (validate_topic_valid ad (partition ad) Hv ltac:(done)) as Ht.
    by rewrite (proj2 (TopicKey_new_Ok (topic ad) (partition ad) (mk_topic_key _ _ Ht)) eq_refl).
Qed.

(** The specification: who subscribes to a topic, by what was advertised. *)
Definition advertises (d : DiscoveredTopicAd) (t : TopicKey) : Prop :=
  TopicRoles_contains (roles (disc_ad d)) ROLE_SUBSCRIBE = true ∧
  topic (disc_ad d) = tk_name t ∧
  (partition (disc_ad d) = [] ∨ partition (disc_ad d) = tk_partition t).

Lemma matches_selector_of_ad ad s t :
  valid_topic_ad ad = true → selector_of_ad ad = Some s →
  matches s t = true ↔
  topic ad = tk_name t ∧ (partition ad = [] ∨ partition ad = tk_partition t).
Proof.
  intros Hv Hs. rewrite selector_of_ad_valid in Hs by done. injection Hs as <-.
  rewrite matches_spec. cbn [sel_name sel_partition].
  destruct (Z.eqb_spec (zlen (partition ad)) 0) as [E|E].
  - assert (partition ad = []) by (unfold zlen in E; destruct (partition ad); [done|cbn in E; lia]).
    naive_solver.
  - assert (partition ad ≠ []) as Hne by (intros E'; by rewrite E' in E).
    split; intros [Hn [Hp|Hp]]; split; try done; [right|right]; congruence.
Qed.

Lemma collect_subscribers_spec ads : ∀ m,
  Forall (λ d, valid_topic_ad (disc_ad d) = true) ads →
  ∃ m', collect_subscribers ads m = Some m' ∧
    ∀ t n, (∃ s ns, m' !! s = Some ns ∧ matches s t = true ∧ n ∈ ns) ↔
           (∃ s ns, m !! s = Some ns ∧ matches s t = true ∧ n ∈ ns) ∨
           (∃ d, d ∈ ads ∧ disc_node d = n ∧ advertises d t).
Proof.
  induction ads as [|d ads IH]; intros m Hv; cbn [collect_subscribers].
  { exists m. split; [done|]. intros t n. split; [by left|].
    intros [?|(d & Hd%elem_of_nil & _)]; done. }
  apply Forall_cons in Hv as [Hd Hv]. setoid_rewrite elem_of_cons.
  destruct (TopicRoles_contains _ _) eqn:Er; cbn [negb].
  2:{ destruct (IH m Hv) as (m' & -> & Hm'). exists m'. split; [done|]. intros t n.
      rewrite Hm'. unfold advertises. split.
      { intros [?|(d' & ? & ? & ?)]; [by left|right; exists d'; auto]. }
      intros [?|(d' & [->|?] & ? & Ha)];
        [by left|destruct Ha; congruence|right; eauto]. }
  destruct (selector_of_ad (disc_ad d)) as [s|] eqn:Es;
    [|by rewrite selector_of_ad_valid in Es]. cbn [mbind option_bind].
  pose proof (λ t, matches_selector_of_ad _ _ t Hd Es) as Hmatch.
  set (m1 := <[s := _]> m). destruct (IH m1 Hv) as (m' & -> & Hm'). exists m'. split; [done|].
  intros t n. rewrite Hm'. clear Hm' IH.
  assert ((∃ s0 ns, m1 !! s0 = Some ns ∧ matches s0 t = true ∧ n ∈ ns) ↔
          (∃ s0 ns, m !! s0 = Some ns ∧ matches s0 t = true ∧ n ∈ ns) ∨
          (disc_node d = n ∧ advertises d t)) as ->.
  2:{ split.
      - intros [[?|[? ?]]|(d' & ? & ? & ?)]; [by left|right; exists d; auto|right; exists d'; auto].
      - intros [?|(d' & [->|?] & ? & ?)]; [auto|auto|right; exists d'; auto]. }
  unfold advertises. rewrite <-Hmatch. subst m1. split.
  - intros (s0 & ns & Hl & Hm & Hn). apply lookup_insert_Some in Hl as [[<- <-]|[Hne Hl]].
    + apply elem_of_union in Hn as [->%elem_of_singleton|Hn]; [by right|].
      destruct (m !! s) as [ns|] eqn:El; [left; eauto|by apply not_elem_of_empty in Hn].
    + left; eauto.
  - intros [(s0 & ns & Hl & Hm & Hn)|(<- & _ & Hm)].
    + destruct (decide (s0 = s)) as [->|Hne].
      * exists s. eexists. rewrite lookup_insert_eq. split_and!; [done..|].
        apply elem_of_union_r. by rewrite Hl.
      * exists s0, ns. by rewrite lookup_insert_ne.
    + exists s. eexists. rewrite lookup_insert_eq. split_and!; [done..|].
      by apply elem_of_union_l, elem_of_singleton.
Qed.

(** Rebuilding the index entry by entry gives back the map. *)
Lemma foldl_set_subscribers (l : list (TopicSelector * gset NodeId)) d :
  NoDup l.*1 →
  foldl (λ d p, set_subscribers d p.1 (bset_iter p.2)) d l = list_to_map l ∪ d.
Proof.
  revert d. induction l as [|[s ns] l IH]; intros d; cbn.
  { by rewrite (left_id_L ∅ (∪)). }
  intros [Hs Hnd]%NoDup_cons. rewrite IH by done. unfold set_subscribers.
  rewrite bset_iter_to_set, <-insert_union_r, insert_union_l; [done|].
  by apply not_elem_of_list_to_map_1.
Qed.
Lemma discovery_eq m :
  foldl (λ d p, set_subscribers d p.1 (bset_iter p.2)) ∅ (btree_iter m) = m.
Proof.
  rewrite foldl_set_subscribers by apply btree_keys_NoDup. rewrite (right_id_L ∅ (∪)).
  rewrite (list_to_map_proper (btree_iter m) (map_to_list m)), list_to_map_to_list; [done|..].
  - apply btree_keys_NoDup.
  - apply btree_iter_perm.
Qed.

Lemma discovery_spec ads :
  Forall (λ d, valid_topic_ad (disc_ad d) = true) ads →
  ∃ index, discovery_from_topic_ads ads = Some index ∧
    ∀ t n, n ∈ subscribers index t ↔ ∃ d, d ∈ ads ∧ disc_node d = n ∧ advertises d t.
Proof.
  intros Hv. unfold discovery_from_topic_ads.
  destruct (collect_subscribers_spec ads ∅ Hv) as (m & -> & Hm). cbn [mbind option_bind].
  rewrite discovery_eq. exists m. split; [done|]. intros t n.
  rewrite elem_of_subscribers, Hm. split; [|by right].
  intros [(s & ns & Hl & _)|?]; [by rewrite lookup_empty in Hl|done].
Qed.

(** ** Claims *)

(** C39: Control frames round trip: a well-typed frame encodes exactly when it is
    within the limits of the protocol, which for an LSA are the limits the
    control plane checks, and the wire frame decodes to the same frame, with
    the bytes of the LSA recorded. *)
Theorem control_frame_roundtrip
    `{!Prost PbLsa, !Prost PbSignedLsa, !Prost PbDigest, !Prost PbDigestReq,
      !ProstLaws PbLsa PbLsa_typed, !ProstLaws PbSignedLsa (λ _, True),
      !ProstLaws PbDigest PbDigest_typed, !ProstLaws PbDigestReq (λ _, True)} f :
  frame_typed f → bytes_consistent f →
  match encode_control_frame f with
  | Ok w => sendable f ∧ decode_control_frame w = Ok (canonical_frame f)
  | Err _ => ¬ sendable f
  end.
Proof.
  intros Ht Hc. destruct (encode_control_frame f) as [w|e] eqn:He;
    [|apply (encode_control_frame_err f Ht); eauto].
  destruct f as [m|entries|origins].
  - pose proof (encode_lsa_frame m) as H. rewrite He in H. destruct H as [Hv ->].
    { destruct Ht as (_ & _ & _ & Ht). eapply Forall_impl; [exact Ht|].
      intros ad (_ & Hr & _). unfold is_uint, u_max in *. lia. }
    split; [done|]. by apply decode_lsa_frame, lsa_wire_bytes_decode.
  - pose proof He as He'. unfold encode_control_frame in He'.
    apply ensure_limit_cases in He' as [Hl _].
    destruct (decode_encode_digest entries Ht Hl) as (w' & Hw & Hd).
    rewrite He in Hw. injection Hw as <-. done.
  - pose proof He as He'. unfold encode_control_frame in He'.
    apply ensure_limit_cases in He' as [Hl _].
    destruct (decode_encode_digest_req origins Hl) as (w' & Hw & Hd).
    rewrite He in Hw. injection Hw as <-. done.
Qed.

(** Flooding preserves LSAs: an LSA decoded from any frame passes the
    control plane's validation and can always be encoded again, and the
    relayed frame decodes to the same LSA with the same canonical bytes and
    signature. *)
Theorem lsa_relayed_verbatim
    `{!Prost PbLsa, !Prost PbSignedLsa, !Prost PbDigest, !Prost PbDigestReq,
      !ProstLaws PbLsa PbLsa_typed, !ProstLaws PbSignedLsa (λ _, True),
      !ProstLaws PbDigest PbDigest_typed, !ProstLaws PbDigestReq (λ _, True)} w m :
  decode_control_frame w = Ok (CfLsa m) →
  valid_lsa (lsa m) = true ∧
  ∃ w', encode_control_frame (CfLsa m) = Ok w' ∧
    (canonical_bytes m ≠ [] → decode_control_frame w' = Ok (CfLsa m)).
Proof.
  intros (Hch & Hs & Hc & Hft & Hr)%decode_control_frame_inv. split; [done|].
  pose proof (encode_lsa_frame m Hr) as H.
  destruct (encode_control_frame (CfLsa m)) as [w'|]; [|by destruct H].
  destruct H as [_ ->]. exists (WireFrame_control FtLsa
    (prost_encode {| pb_lsa_bytes := lsa_wire_bytes m; pb_signature := signature m |})).
  split; [done|]. intros Hne.
  assert (lsa_wire_bytes m = canonical_bytes m) as E.
  { unfold lsa_wire_bytes. destruct (Z.eqb_spec (zlen (canonical_bytes m)) 0) as [E|]; [|done].
    unfold zlen in E. destruct (canonical_bytes m); [done|cbn in E; lia]. }
  rewrite decode_lsa_frame by (rewrite E; by apply Hc).
  unfold canonical_frame. rewrite E. by destruct m.
Qed.

(** Forward frames round trip: the frame built for a packet decodes at the
    other end to the packet in canonical form, its channel being that of its
    priority; its payload has exactly the length taken from the link's credit,
    and it always fits into a link frame. *)
Theorem forward_frame_roundtrip p :
  wf_header (header p) →
  match forward_frame p with
  | Ok w => decode_forward_frame w = Some (Ok (canonical_packet p)) ∧
            zlen (frame_payload w) = ForwardPacket_encoded_len p ∧
            (∃ bs, frame_encode w = Ok bs)
  | Err e => ForwardPacket_encode p = Err e
  end.
Proof.
  intros Hwf. unfold forward_frame. destruct (ForwardPacket_encode p) as [bs|e] eqn:E; [|done].
  destruct (packet_encoded_len_exact p bs E) as [Hlen Hmax]. split_and!; [|done|].
  - unfold decode_forward_frame. cbn [frame_type channel frame_payload].
    rewrite bool_decide_true by done. cbn [negb].
    rewrite (packet_decode_encode p bs Hwf E). cbn [mbind option_bind map_err canonical_packet header].
    by rewrite bool_decide_true.
  - unfold frame_encode. cbn [frame_payload]. rewrite (proj2 (Z.ltb_ge _ _)) by done. eauto.
Qed.

(** Discovery is exact: on valid advertisements none of its [expect]s fails,
    and the subscribers of a topic are exactly the nodes that advertise the
    topic with the subscriber role for that partition or for all of them. *)
Theorem discovery_exact ads :
  Forall (λ d, valid_topic_ad (disc_ad d) = true) ads →
  ∃ index, discovery_from_topic_ads ads = Some index ∧
    ∀ t n, n ∈ subscribers index t ↔ ∃ d, d ∈ ads ∧ disc_node d = n ∧ advertises d t.
Proof. apply discovery_spec. Qed.

(** Subscriptions survive advertisement and discovery: from the
    advertisements a node makes for its selectors, discovery lists the node as
    a subscriber of every topic one of the selectors matches; and of no other,
    when no selector names the empty partition. *)
Theorem subscriptions_discovered n sels :
  Forall (λ s, validate_topic (sel_name s) (default [] (sel_partition s)) = Ok tt) sels →
  ∃ index,
    discovery_from_topic_ads ((λ s, {| disc_node := n; disc_ad := ad_of_selector s |}) <$> sels)
      = Some index ∧
    ∀ t,
      ((∃ s, s ∈ sels ∧ matches s t = true) → n ∈ subscribers index t) ∧
      (Forall (λ s, sel_partition s ≠ Some []) sels →
       n ∈ subscribers index t → ∃ s, s ∈ sels ∧ matches s t = true).
Proof.
  intros Hv. edestruct discovery_spec as (index & Hi & Hspec); last (exists index; split; [exact Hi|]).
  { apply Forall_fmap. eapply Forall_impl; [exact Hv|]. intros s. cbn.
    unfold validate_topic, valid_topic_ad. cbn [ad_of_selector topic partition roles].
    unfold PS_MAX_TOPIC_NAME_LEN, MAX_PARTITION_LEN, MAX_TOPIC_NAME_LEN, MAX_TOPIC_PARTITION_LEN.
    destruct (Z.eqb_spec (zlen (sel_name s)) 0); [done|].
    destruct (Z.ltb_spec 1024 (zlen (sel_name s))); [done|].
    destruct (Z.ltb_spec (64 * 1024) (zlen (default [] (sel_partition s)))); [done|].
    by rewrite !(proj2 (Z.leb_le _ _)) by lia. }
  intros t. rewrite Hspec. setoid_rewrite list_elem_of_fmap. setoid_rewrite matches_spec.
  unfold advertises. split.
  - intros (s & Hin & Hname & Hp). eexists. split; [by exists s|]. split_and!; [done..|].
    cbn. destruct Hp as [->| ->]; [by left|by right].
  - intros Hne (d & (s & -> & Hin) & _ & _ & Hname & Hp). exists s. cbn in *.
    rewrite Forall_forall in Hne. specialize (Hne s Hin).
    destruct (sel_partition s) as [p|]; cbn in Hp; naive_solver.
Qed.
