(* ===== verification/RuntimeLog.v ===== *)
(** * The diagnostic event log of the runtime (crates/mb-runtime)

    The bounded log [push_runtime_event] keeps and the texts of its entries,
    which use the [Debug] forms of a few types. *)

From Stdlib Require Import Strings.Byte Strings.String.
From S2P Require Export Prelude Ord Bytes Text Types Wire Forward RuntimeCodec ControlTypes Control.
Open Scope Z_scope.

Definition RECENT_EVENT_LIMIT : Z := 256.

Record RuntimeEvent := {
  ev_sequence : Z;
  ev_at : MonoTime;
  ev_kind : rstring;
  ev_detail : rstring;
  ev_link : option LinkId;
}.

(** ** Texts *)

(** [{:?}] of [NodeId], a tuple struct of a byte array. *)
Fixpoint separated (l : list bytes) : bytes :=
  match l with
  | [] => []
  | [x] => x
  | x :: l => x ++ str ", " ++ separated l
  end.
Definition NodeId_debug (n : NodeId) : bytes :=
  str "NodeId([" ++ separated ((λ b, decimal (Z_of_byte b)) <$> as_bytes n) ++ str "])".
Definition option_NodeId_debug (o : option NodeId) : bytes :=
  match o with Some n => str "Some(" ++ NodeId_debug n ++ str ")" | None => str "None" end.
Definition Priority_debug (p : Priority) : bytes :=
  str match p with P0 => "P0" | P1 => "P1" | P2 => "P2" | P3 => "P3" end.
Definition PacketType_debug (t : PacketType) : bytes :=
  str match t with
      | Unicast => "Unicast" | Multicast => "Multicast"
      | CircuitData => "CircuitData" | CircuitControl => "CircuitControl"
      end.
Definition MulticastPayloadError_debug (e : MulticastPayloadError) : bytes :=
  match e with
  | McHeaderTooShort n => str "HeaderTooShort(" ++ decimal n ++ str ")"
  | McEmptyDestinations => str "EmptyDestinations"
  | McTooManyDestinations n => str "TooManyDestinations(" ++ decimal n ++ str ")"
  | McDuplicateDestination d => str "DuplicateDestination(" ++ NodeId_debug d ++ str ")"
  | McDestinationListTruncated e a =>
      str "DestinationListTruncated { expected: " ++ decimal e ++ str ", actual: " ++ decimal a ++
      str " }"
  | McPayloadTooLarge n => str "PayloadTooLarge(" ++ decimal n ++ str ")"
  end.
Definition DropReason_debug (r : DropReason) : bytes :=
  match r with
  | TtlExceeded => str "TtlExceeded"
  | NoRoute => str "NoRoute"
  | LoopDetected => str "LoopDetected"
  | DrLinkDown => str "LinkDown"
  | RouteWaitExpired => str "RouteWaitExpired"
  | InvalidMulticast e => str "InvalidMulticast(" ++ MulticastPayloadError_debug e ++ str ")"
  | UnsupportedPacketType t => str "UnsupportedPacketType(" ++ PacketType_debug t ++ str ")"
  | QueueFull p => str "QueueFull(" ++ Priority_debug p ++ str ")"
  end.

Definition packet_summary (p : ForwardPacket) : bytes :=
  Priority_debug (priority (header p)) ++ str " · flow " ++ decimal (flow_id (header p)) ++
  str " · " ++ NodeId_display (source (header p)) ++ str " → " ++
  NodeId_display (destination (header p)) ++ str " · " ++ decimal (zlen (payload p)) ++ str " bytes".

Definition control_frame_summary (frame : ControlFrame) : rstring * bytes :=
  match frame with
  | CfLsa m =>
      (str "LSA_SEND",
       str "origin " ++ NodeId_display (origin (lsa m)) ++ str " · epoch " ++
       decimal (epoch (lsa m)) ++ str " · seq " ++ decimal (seq_no (lsa m)) ++ str " · " ++
       decimal (zlen (adjacencies (lsa m))) ++ str " adjacencies")
  | CfDigest entries => (str "DIGEST_SEND", decimal (zlen entries) ++ str " LSDB entries")
  | CfDigestReq origins =>
      (str "DIGEST_REQ_SEND", decimal (zlen origins) ++ str " requested origins")
  end.

(** The entry for an executed forward action; timers are not logged. *)
Definition forward_action_summary (a : ForwardAction) : option (rstring * bytes * option LinkId) :=
  match a with
  | FaSend link p =>
      Some (str "PACKET_SEND", str "link " ++ decimal link ++ str " · " ++ packet_summary p,
            Some link)
  | FaDeliverLocal p => Some (str "PACKET_DELIVER", packet_summary p, None)
  | FaDrop reason p =>
      Some (str "PACKET_DROP", DropReason_debug reason ++ str " · " ++ packet_summary p, None)
  | FaBackpressure link p =>
      Some (str "BACKPRESSURE", str "link " ++ decimal link ++ str " · " ++ packet_summary p,
            Some link)
  | FaSetTimer _ _ => None
  end.

(** ** The log *)

(** [recent_events] and [next_event_sequence]. *)
Record EventLog := { recent_events : list RuntimeEvent; next_event_sequence : Z }.
Definition EventLog_empty : EventLog := {| recent_events := []; next_event_sequence := 0 |}.

Definition push_runtime_event (log : EventLog) (at_ : MonoTime) (kind : rstring) (detail : bytes)
    (link : option LinkId) : EventLog :=
  let events := recent_events log in
  let events := if zlen events =? RECENT_EVENT_LIMIT then tail events else events in
  {| recent_events := events ++ [{| ev_sequence := next_event_sequence log; ev_at := at_;
                                    ev_kind := kind; ev_detail := detail; ev_link := link |}];
     next_event_sequence := wrap 64 (next_event_sequence log + 1) |}.

(** The log is bounded, and numbered without gaps up to its next number. *)
Definition log_ok (log : EventLog) : Prop :=
  zlen (recent_events log) ≤ RECENT_EVENT_LIMIT ∧
  ∀ i ev, recent_events log !! i = Some ev →
    ev_sequence ev = wrap 64 (next_event_sequence log - zlen (recent_events log) + Z.of_nat i).

Lemma wrap_wrap_add a b : wrap 64 (wrap 64 a + b) = wrap 64 (a + b).
Proof. unfold wrap. by rewrite Zplus_mod_idemp_l. Qed.
Lemma push_log_ok log at_ kind detail link :
  next_event_sequence log = wrap 64 (next_event_sequence log) → log_ok log →
  log_ok (push_runtime_event log at_ kind detail link) ∧
  next_event_sequence (push_runtime_event log at_ kind detail link) =
    wrap 64 (next_event_sequence (push_runtime_event log at_ kind detail link)).
Proof.
  intros Hn [Hlen Hseq]. split; [|cbn; unfold wrap; by rewrite Zmod_mod].
  unfold push_runtime_event.
  set (evs := if zlen (recent_events log) =? RECENT_EVENT_LIMIT then tail (recent_events log)
              else recent_events log).
  assert (Hevs : zlen evs < RECENT_EVENT_LIMIT ∧ ∀ i ev, evs !! i = Some ev →
    ev_sequence ev = wrap 64 (next_event_sequence log - zlen evs + Z.of_nat i)).
  { unfold evs. destruct (Z.eqb_spec (zlen (recent_events log)) RECENT_EVENT_LIMIT) as [E|E].
    - destruct (recent_events log) as [|x l]; [done|]. cbn [tail]. rewrite zlen_cons in *.
      split; [lia|]. intros i ev Hi. rewrite (Hseq (S i) ev) by done. f_equal. lia.
    - split; [lia|done]. }
  clearbody evs. destruct Hevs as [Hl Hs]. split; cbn [recent_events next_event_sequence].
  { rewrite zlen_app. change (zlen [_]) with 1. lia. }
  intros i ev Hi. rewrite zlen_app. change (zlen [_]) with 1.
  replace (wrap 64 (next_event_sequence log + 1) - (zlen evs + 1) + Z.of_nat i)
    with (wrap 64 (next_event_sequence log + 1) + (Z.of_nat i - zlen evs - 1)) by lia.
  rewrite wrap_wrap_add. apply lookup_app_Some in Hi as [Hi|[Hge Hi]].
  - rewrite (Hs i ev Hi). f_equal. lia.
  - apply list_lookup_singleton_Some in Hi as [Hi <-]. cbn. unfold zlen.
    replace (next_event_sequence log + 1 + (Z.of_nat i - Z.of_nat (length evs) - 1))
      with (next_event_sequence log) by lia. done.
Qed.
Definition log_inv (log : EventLog) : Prop :=
  log_ok log ∧ next_event_sequence log = wrap 64 (next_event_sequence log).
Lemma push_log_inv log at_ kind detail link :
  log_inv log → log_inv (push_runtime_event log at_ kind detail link).
Proof. intros [Hl Hn]. by apply push_log_ok. Qed.
