(* ===== verification/Runtime.v ===== *)
(** * The runtime (crates/mb-runtime)

    [ControlRuntime] and the loop that drives it: every input of the loop is
    turned into events of the control plane, the forwarder and Pub/Sub, and
    their actions into frames, timers, application outcomes and events of the
    other machines.

    The asynchronous surroundings are made explicit: an iteration is given
    the time at which the inbox was examined, the time at which it woke up
    and what woke it; everything the loop does to the outside is appended to
    a log of effects; and [accepts n] says whether the [n]-th effect, a frame
    handed to the transport or an outcome offered to a bounded channel, is
    accepted. *)

From Stdlib Require Import Strings.Byte Strings.String.
From S2P Require Export Prelude Ord Bytes Text SeqStore Types Proto Wire WireFrames Transport WirePackets PubSub Forward RuntimeCodec RuntimeLog ControlTypes Control.
Open Scope Z_scope.

(** ** Data *)

Record RuntimeConfig := {
  config_node : NodeId;
  config_epoch : Z;
  config_peer_costs : gmap NodeId LinkCost;
}.

Inductive ForwardOutcome :=
| FoDelivered (p : ForwardPacket)
| FoDropped (reason : DropReason) (priority : Priority) (flow_id : Z) (source : NodeId)
| FoBackpressure (link : LinkId) (p : ForwardPacket).

Inductive PubSubOutcome :=
| PoDelivered (sub_id : SubId) (m : DeliveredMessage)
| PoPublished (t : TopicKey) (seq : Z)
| PoRejected (r : PubSubRejectReason)
| PoDropped (r : PubSubDropReason).

Inductive ForwardInput :=
| FiOutbound (p : ForwardPacket)
| FiOutboundMulticast (destinations : list NodeId) (p : ForwardPacket).

Inductive RuntimeTimer := RtControl (t : ControlTimer) | RtForward (t : ForwardTimer).

Inductive RuntimeInput :=
| RiLink (e : LinkEvent)
| RiForward (i : ForwardInput)
| RiPubSub (e : PubSubEvent)
| RiTimer (t : RuntimeTimer).

Record RuntimeSnapshot := {
  snap_node : NodeId;
  snap_now : MonoTime;
  snap_peers : gmap LinkId NodeId;
  snap_lsas : list Lsa;
  snap_routes : RouteTable;
  snap_queues : gmap LinkId LinkQueueSnapshot;
  snap_events : list RuntimeEvent;
}.
Definition RuntimeSnapshot_empty (n : NodeId) (t : RouteTable) : RuntimeSnapshot :=
  {| snap_node := n; snap_now := 0; snap_peers := ∅; snap_lsas := []; snap_routes := t;
     snap_queues := ∅; snap_events := [] |}.

(** The derived order of [RuntimeTimer]: constructors in their order, then
    fields. *)
Definition timer_key (t : RuntimeTimer) : Z * (Z * (option NodeId * list Z)) :=
  match t with
  | RtControl (CtDigest l) => (0, (0, (None, [l])))
  | RtControl (CtSpfHold g) => (0, (1, (None, [g])))
  | RtControl (CtLsaRefresh e s) => (0, (2, (None, [e; s])))
  | RtControl (CtLsaExpire o e s) => (0, (3, (Some o, [e; s])))
  | RtForward (PendingP0 g) => (1, (0, (None, [g])))
  end.
Lemma timer_key_inj t u : timer_key t = timer_key u → t = u.
Proof.
  destruct t as [[l|g|e s|o e s]|[g]], u as [[l'|g'|e' s'|o' e' s']|[g']]; cbn; congruence.
Qed.
#[global] Instance RuntimeTimer_ord : TotalOrd RuntimeTimer := ord_inj timer_key timer_key_inj.
#[global] Instance RuntimeTimer_eq_dec : EqDecision RuntimeTimer.
Proof. solve_decision. Defined.

(** ** The inbox *)

(** The timers of [RuntimeInbox]; its channels are the environment. *)
Record RuntimeInbox := {
  timers : list (Z * (Z * RuntimeTimer));
  next_timer_sequence : Z;
}.
Definition RuntimeInbox_new : RuntimeInbox := {| timers := []; next_timer_sequence := 0 |}.

Definition schedule (ib : RuntimeInbox) (t : RuntimeTimer) (at_ : MonoTime) : RuntimeInbox :=
  {| timers := heap_push (at_, (next_timer_sequence ib, t)) (timers ib);
     next_timer_sequence := wrap 64 (next_timer_sequence ib + 1) |}.

(** What completes first in [tokio::select!]: a message of one of the
    channels, the end of one of them, or the sleep until the first timer. *)
Inductive Wake := WkInput (i : RuntimeInput) | WkClosed | WkTimer.

Definition pop_timer (ib : RuntimeInbox) : option RuntimeInput * RuntimeInbox :=
  match heap_pop (timers ib) with
  | Some ((_, (_, t)), rest) =>
      (Some (RiTimer t), {| timers := rest; next_timer_sequence := next_timer_sequence ib |})
  | None => (None, ib)
  end.
(** [recv]: a timer that is due at [checked_at], when the inbox is examined,
    goes first; otherwise the inbox waits for [wake]. *)
Definition recv (ib : RuntimeInbox) (checked_at : MonoTime) (wake : Wake) :
  option RuntimeInput * RuntimeInbox :=
  let due := match heap_pop (timers ib) with
             | Some ((at_ms, _), _) => at_ms <=? checked_at
             | None => false
             end in
  if due then pop_timer ib
  else match wake with
       | WkInput i => (Some i, ib)
       | WkClosed => (None, ib)
       | WkTimer => pop_timer ib
       end.

(** ** Effects

    A frame handed to the transport is recorded with what it encodes, and a
    number handed to the sequence store whether or not it was stored. *)

Inductive Effect :=
| EfControl (link : LinkId) (frame : ControlFrame) (wire : WireFrame)
| EfPacket (link : LinkId) (p : ForwardPacket) (wire : WireFrame)
| EfClose (link : LinkId)
| EfPersist (seq : Z)
| EfForward (o : ForwardOutcome)
| EfPubSub (o : PubSubOutcome).

Section Runtime.
Context {St : Type} `{!SeqStore St}.
Context `{!Prost PbLsa, !Prost PbSignedLsa, !Prost PbDigest, !Prost PbDigestReq}.
Context `{!Prost WireEnvelope}.

(** [config], [plane], [cores], [inbox], [seq_store], [peer_costs], [peers],
    the event log, [diagnostics_enabled] and the watched snapshot of
    [run_runtime_loop], whether the loop still runs, and the effects so far. *)
Record Runtime := {
  rt_node : NodeId;
  plane : ControlPlane;
  forwarder : Forwarder;
  pubsub : PubSub;
  inbox : RuntimeInbox;
  seq_store : St;
  peer_costs : gmap NodeId LinkCost;
  peers : gmap LinkId NodeId;
  event_log : EventLog;
  diagnostics_enabled : bool;
  snapshot : RuntimeSnapshot;
  running : bool;
  effects : list Effect;
}.

Definition set_plane (rt : Runtime) (x : ControlPlane) : Runtime :=
  {| rt_node := rt_node rt; plane := x; forwarder := forwarder rt; pubsub := pubsub rt;
     inbox := inbox rt; seq_store := seq_store rt; peer_costs := peer_costs rt; peers := peers rt;
     event_log := event_log rt; diagnostics_enabled := diagnostics_enabled rt;
     snapshot := snapshot rt; running := running rt; effects := effects rt |}.
Definition set_forwarder (rt : Runtime) (x : Forwarder) : Runtime :=
  {| rt_node := rt_node rt; plane := plane rt; forwarder := x; pubsub := pubsub rt;
     inbox := inbox rt; seq_store := seq_store rt; peer_costs := peer_costs rt; peers := peers rt;
     event_log := event_log rt; diagnostics_enabled := diagnostics_enabled rt;
     snapshot := snapshot rt; running := running rt; effects := effects rt |}.
Definition set_pubsub (rt : Runtime) (x : PubSub) : Runtime :=
  {| rt_node := rt_node rt; plane := plane rt; forwarder := forwarder rt; pubsub := x;
     inbox := inbox rt; seq_store := seq_store rt; peer_costs := peer_costs rt; peers := peers rt;
     event_log := event_log rt; diagnostics_enabled := diagnostics_enabled rt;
     snapshot := snapshot rt; running := running rt; effects := effects rt |}.
Definition set_inbox (rt : Runtime) (x : RuntimeInbox) : Runtime :=
  {| rt_node := rt_node rt; plane := plane rt; forwarder := forwarder rt; pubsub := pubsub rt;
     inbox := x; seq_store := seq_store rt; peer_costs := peer_costs rt; peers := peers rt;
     event_log := event_log rt; diagnostics_enabled := diagnostics_enabled rt;
     snapshot := snapshot rt; running := running rt; effects := effects rt |}.
Definition set_seq_store (rt : Runtime) (x : St) : Runtime :=
  {| rt_node := rt_node rt; plane := plane rt; forwarder := forwarder rt; pubsub := pubsub rt;
     inbox := inbox rt; seq_store := x; peer_costs := peer_costs rt; peers := peers rt;
     event_log := event_log rt; diagnostics_enabled := diagnostics_enabled rt;
     snapshot := snapshot rt; running := running rt; effects := effects rt |}.
Definition set_peers (rt : Runtime) (c : gmap NodeId LinkCost) (x : gmap LinkId NodeId) : Runtime :=
  {| rt_node := rt_node rt; plane := plane rt; forwarder := forwarder rt; pubsub := pubsub rt;
     inbox := inbox rt; seq_store := seq_store rt; peer_costs := c; peers := x;
     event_log := event_log rt; diagnostics_enabled := diagnostics_enabled rt;
     snapshot := snapshot rt; running := running rt; effects := effects rt |}.
Definition set_log (rt : Runtime) (x : EventLog) (on : bool) (sn : RuntimeSnapshot) : Runtime :=
  {| rt_node := rt_node rt; plane := plane rt; forwarder := forwarder rt; pubsub := pubsub rt;
     inbox := inbox rt; seq_store := seq_store rt; peer_costs := peer_costs rt; peers := peers rt;
     event_log := x; diagnostics_enabled := on; snapshot := sn; running := running rt;
     effects := effects rt |}.
Definition stop (rt : Runtime) : Runtime :=
  {| rt_node := rt_node rt; plane := plane rt; forwarder := forwarder rt; pubsub := pubsub rt;
     inbox := inbox rt; seq_store := seq_store rt; peer_costs := peer_costs rt; peers := peers rt;
     event_log := event_log rt; diagnostics_enabled := diagnostics_enabled rt;
     snapshot := snapshot rt; running := false; effects := effects rt |}.
Definition emit (rt : Runtime) (e : Effect) : Runtime :=
  {| rt_node := rt_node rt; plane := plane rt; forwarder := forwarder rt; pubsub := pubsub rt;
     inbox := inbox rt; seq_store := seq_store rt; peer_costs := peer_costs rt; peers := peers rt;
     event_log := event_log rt; diagnostics_enabled := diagnostics_enabled rt;
     snapshot := snapshot rt; running := running rt; effects := effects rt ++ [e] |}.

(** ** Operations *)

Context (accepts : nat → bool).

(** [if endpoint.send(link, frame).await.is_err() { endpoint.close(link) }] *)
Definition transmit (rt : Runtime) (link : LinkId) (frame : Effect) : Runtime :=
  let ok := accepts (length (effects rt)) in
  let rt := emit rt frame in
  if ok then rt else emit rt (EfClose link).
(** [try_send] on a bounded channel: a full one loses the message. *)
Definition try_emit (rt : Runtime) (e : Effect) : Runtime :=
  if accepts (length (effects rt)) then emit rt e else rt.
(** [if diagnostics_enabled { push_runtime_event(..) }] *)
Definition note (rt : Runtime) (now : MonoTime) (kind : rstring) (detail : bytes)
    (link : option LinkId) : Runtime :=
  if diagnostics_enabled rt then
    set_log rt (push_runtime_event (event_log rt) now kind detail link) true (snapshot rt)
  else rt.

Definition forward_event (rt : Runtime) (now : MonoTime) (e : ForwardEvent) :
  option (Runtime * list ForwardAction) :=
  '(fw, a) ← fw_handle (forwarder rt) now e; Some (set_forwarder rt fw, a).
Definition pubsub_event (rt : Runtime) (now : MonoTime) (e : PubSubEvent) :
  option (Runtime * list PubSubAction) :=
  '(ps, a) ← ps_handle (pubsub rt) now e; Some (set_pubsub rt ps, a).

(** *** Actions of Pub/Sub *)

Definition multicast_packet (me : NodeId) (pr : Priority) (flow key : Z) (fl : Z) (p : bytes) :
  ForwardPacket :=
  {| header := {| packet_type := Multicast; priority := pr; ttl := 32; flags := fl;
                  destination := NodeId_default; source := me; flow_id := flow;
                  conflate_key := key |};
     multicast_destinations := []; payload := p |}.

Definition execute_pubsub_action (rt : Runtime) (now : MonoTime) (a : PubSubAction) :
  option (Runtime * list ForwardAction) :=
  match a with
  | PaSendMulticast ds pr flow key conflatable p =>
      fl ← (if conflatable then
              match flags_from_bits CONFLATABLE with Ok f => Some f | Err _ => None end
            else Some flags_empty);
      forward_event rt now
        (FeOutboundMulticast ds (multicast_packet (fw_me (forwarder rt)) pr flow key fl p))
  | PaDeliverToApp id m => Some (emit rt (EfPubSub (PoDelivered id m)), [])
  | PaLocalSubscriptionsChanged _ => Some (rt, [])
  | PaPublished t seq => Some (emit rt (EfPubSub (PoPublished t seq)), [])
  | PaRejected r => Some (emit rt (EfPubSub (PoRejected r)), [])
  | PaDropped r => Some (try_emit rt (EfPubSub (PoDropped r)), [])
  end.
Fixpoint execute_pubsub_actions (rt : Runtime) (now : MonoTime) (l : list PubSubAction) :
  option (Runtime * list ForwardAction) :=
  match l with
  | [] => Some (rt, [])
  | a :: l =>
      '(rt, x) ← execute_pubsub_action rt now a;
      '(rt, y) ← execute_pubsub_actions rt now l;
      Some (rt, x ++ y)
  end.

(** *** Actions of the forwarder *)

Definition report_drop (rt : Runtime) (reason : DropReason) (p : ForwardPacket) : Runtime :=
  try_emit rt (EfForward (FoDropped reason (priority (header p)) (flow_id (header p))
                            (source (header p)))).

(** One action; the result is what is appended to the pending actions. *)
Definition execute_forward_action (rt : Runtime) (now : MonoTime) (a : ForwardAction) :
  option (Runtime * list ForwardAction) :=
  match a with
  | FaSend link p =>
      match forward_frame p with
      | Ok frame => Some (transmit rt link (EfPacket link p frame), [])
      | Err _ => Some (rt, [])
      end
  | FaDeliverLocal p =>
      if is_envelope (payload p) then
        '(rt, acts) ← pubsub_event rt now (PeInbound (source (header p)) (payload p));
        execute_pubsub_actions rt now acts
      else Some (emit rt (EfForward (FoDelivered p)), [])
  | FaDrop reason p => Some (report_drop rt reason p, [])
  | FaBackpressure link p => Some (emit rt (EfForward (FoBackpressure link p)), [])
  | FaSetTimer t at_ => Some (set_inbox rt (schedule (inbox rt) (RtForward t) at_), [])
  end.
(** One iteration of [while let Some(action) = pending.pop_front()]; [inr
    None] is a panic. *)
Definition forward_actions_step (now : MonoTime) (s : Runtime * list ForwardAction) :
  Runtime * list ForwardAction + option Runtime :=
  match s with
  | (rt, []) => inr (Some rt)
  | (rt, a :: pending) =>
      match execute_forward_action rt now a with
      | Some (rt, more) => inl (rt, pending ++ more)
      | None => inr None
      end
  end.
(** One more iteration than there are actions: none of them adds another. *)
Definition execute_forward_actions (rt : Runtime) (now : MonoTime) (l : list ForwardAction) :
  option Runtime :=
  mjoin (run_loop (forward_actions_step now) (Pos.of_succ_nat (length l)) (rt, l)).

(** *** Actions of the control plane *)

(** What the rest of an iteration works with: the forward and Pub/Sub actions
    collected so far. *)
Abbreviation Collected := (list ForwardAction * list PubSubAction)%type.

Definition execute_control_action (rt : Runtime) (now : MonoTime) (c : Collected)
    (a : ControlAction) : option (Runtime * Collected) :=
  let '(fas, pas) := c in
  match a with
  | CaSend link frame =>
      match encode_control_frame frame with
      | Err _ => Some (rt, c)
      | Ok wire_frame =>
          let '(kind, detail) := control_frame_summary frame in
          let rt := note rt now kind detail (Some link) in
          Some (transmit rt link (EfControl link frame wire_frame), c)
      end
  | CaSetTimer t at_ => Some (set_inbox rt (schedule (inbox rt) (RtControl t) at_), c)
  | CaPublishRoutes routes =>
      let rt := note rt now (str "SPF")
                  (str "route table v" ++ decimal (table_version routes) ++ str " · " ++
                   decimal (Z.of_nat (size (table_routes routes))) ++ str " routes") None in
      '(rt, x) ← forward_event rt now (FeRoutesUpdated routes);
      Some (rt, (fas ++ x, pas))
  | CaPublishTopicAds ads =>
      d ← discovery_from_topic_ads ads;
      '(rt, x) ← pubsub_event rt now (PeDiscoveryUpdated d);
      Some (rt, (fas, pas ++ x))
  | CaPersistSeq seq =>
      let '(store, r) := store_persist (seq_store rt) seq in
      let rt := emit (set_seq_store rt store) (EfPersist seq) in
      Some (match r with Ok _ => rt | Err _ => stop rt end, c)
  end.
(** [for action in plane.handle(now, event)]; a failed [PersistSeq] returns
    from the loop. *)
Fixpoint execute_control_actions (rt : Runtime) (now : MonoTime) (c : Collected)
    (l : list ControlAction) : option (Runtime * Collected) :=
  match l with
  | [] => Some (rt, c)
  | a :: l =>
      '(rt, c) ← execute_control_action rt now c a;
      if running rt then execute_control_actions rt now c l else Some (rt, c)
  end.

(** *** One iteration *)

(** [match input { .. }]: the control event and the actions; [None] inside is
    [continue]. *)
Definition take_input (rt : Runtime) (now : MonoTime) (input : RuntimeInput) :
  option (Runtime * option (option ControlEvent * Collected)) :=
  match input with
  | RiTimer (RtControl t) => Some (rt, Some (Some (CeTimer t), ([], [])))
  | RiTimer (RtForward t) =>
      '(rt, x) ← forward_event rt now (FeTimer t);
      Some (rt, Some (None, (x, [])))
  | RiForward (FiOutbound p) =>
      let rt := note rt now (str "ORIGINATE") (packet_summary p) None in
      '(rt, x) ← forward_event rt now (FeOutbound p);
      Some (rt, Some (None, (x, [])))
  | RiForward (FiOutboundMulticast ds p) =>
      let rt := note rt now (str "MULTICAST")
                  (decimal (zlen ds) ++ str " destinations · " ++ packet_summary p) None in
      '(rt, x) ← forward_event rt now (FeOutboundMulticast ds p);
      Some (rt, Some (None, (x, [])))
  | RiPubSub e =>
      '(rt, x) ← pubsub_event rt now e;
      Some (rt, Some (None, ([], x)))
  | RiLink (LeUp link peer) =>
      match peer_costs rt !! peer with
      | None => Some (emit rt (EfClose link), None)
      | Some cost =>
          let rt := set_peers rt (peer_costs rt) (<[link := peer]> (peers rt)) in
          let rt := note rt now (str "LINK_UP")
                      (str "link " ++ decimal link ++ str " · peer " ++ NodeId_display peer)
                      (Some link) in
          '(rt, x) ← forward_event rt now (FeLinkCredit link MAX_PAYLOAD_LEN);
          '(rt, y) ← forward_event rt now (FeLinkWritable link);
          Some (rt, Some (Some (CeLinkUp link peer cost), (x ++ y, [])))
      end
  | RiLink (LeDown link) =>
      let peer := peers rt !! link in
      let rt := set_peers rt (peer_costs rt) (delete link (peers rt)) in
      let rt := note rt now (str "LINK_DOWN")
                  (str "link " ++ decimal link ++ str " · peer " ++ option_NodeId_debug peer)
                  (Some link) in
      '(rt, x) ← forward_event rt now (FeLinkDown link);
      Some (rt, Some (Some (CeLinkDown link), (x, [])))
  | RiLink (LeFrame link frame) =>
      if bool_decide (frame_type frame = FtForward) then
        r ← decode_forward_frame frame;
        match r with
        | Ok p =>
            '(rt, x) ← forward_event rt now (FeInbound link p);
            Some (rt, Some (None, (x, [])))
        | Err _ => Some (emit rt (EfClose link), None)
        end
      else
        match decode_control_frame frame with
        | Ok f => Some (rt, Some (Some (CeFrame link f), ([], [])))
        | Err _ => Some (emit rt (EfClose link), None)
        end
  | RiLink (LeSent link t _ n) =>
      if bool_decide (t = FtForward) then
        '(rt, x) ← forward_event rt now (FeLinkCredit link n);
        '(rt, y) ← forward_event rt now (FeLinkWritable link);
        Some (rt, Some (None, (x ++ y, [])))
      else Some (rt, Some (None, ([], [])))
  end.

(** [pubsub_actions.iter().find_map(..)] *)
Fixpoint changed_selectors (l : list PubSubAction) : option (list TopicSelector) :=
  match l with
  | [] => None
  | PaLocalSubscriptionsChanged s :: _ => Some s
  | _ :: l => changed_selectors l
  end.

(** The log entries of the forward actions about to be executed. *)
Fixpoint note_forward_actions (rt : Runtime) (now : MonoTime) (l : list ForwardAction) : Runtime :=
  match l with
  | [] => rt
  | a :: l =>
      let rt := match forward_action_summary a with
                | Some (kind, detail, link) => note rt now kind detail link
                | None => rt
                end in
      note_forward_actions rt now l
  end.

(** [peers.keys().filter_map(..).collect()]; [None] is the panic of
    [queue_snapshot]. *)
Fixpoint queue_snapshots (fw : Forwarder) (ls : list LinkId) :
  option (gmap LinkId LinkQueueSnapshot) :=
  match ls with
  | [] => Some ∅
  | l :: ls =>
      match queue_snapshot fw l with
      | None => queue_snapshots fw ls
      | Some q => q ← q; m ← queue_snapshots fw ls; Some (<[l := q]> m)
      end
  end.
Definition publish_snapshot (rt : Runtime) (now : MonoTime) : option Runtime :=
  if diagnostics_enabled rt then
    queues ← queue_snapshots (forwarder rt) (btree_keys (peers rt));
    Some (set_log rt (event_log rt) true
      {| snap_node := rt_node rt; snap_now := now; snap_peers := peers rt;
         snap_lsas := lsas (plane rt); snap_routes := cp_routes (plane rt);
         snap_queues := queues; snap_events := recent_events (event_log rt) |})
  else Some rt.

(** [if let Some(event) = control_event { .. }]; the runtime's control plane
    is unsecured. *)
Definition control_stage (rt : Runtime) (now : MonoTime) (event : option ControlEvent)
    (c : Collected) : option (Runtime * Collected) :=
  match event with
  | None => Some (rt, c)
  | Some event =>
      '(cp, acts) ← cp_handle (H:=UnsecuredLsaAuth) (plane rt) now event;
      execute_control_actions (set_plane rt cp) now c acts
  end.
(** The rest of an iteration, once the control plane is done. *)
Definition forward_stage (rt : Runtime) (now : MonoTime) (c : Collected) : option Runtime :=
  let '(fas, pas) := c in
  '(rt, x) ← execute_pubsub_actions rt now pas;
  let rt := note_forward_actions rt now (fas ++ x) in
  rt ← execute_forward_actions rt now (fas ++ x);
  publish_snapshot rt now.
(** Changed subscriptions replace the control event. *)
Definition final_control_event (event : option ControlEvent) (pas : list PubSubAction) :
  option ControlEvent :=
  match changed_selectors pas with
  | Some selectors => Some (CeLocalTopicAdsChanged (ad_of_selector <$> selectors))
  | None => event
  end.

(** The body of [while let Some(input) = inbox.recv().await]. *)
Definition process (rt : Runtime) (now : MonoTime) (input : RuntimeInput) : option Runtime :=
  '(rt, taken) ← take_input rt now input;
  match taken with
  | None => Some rt
  | Some (event, c) =>
      '(rt, c) ← control_stage rt now (final_control_event event c.2) c;
      if running rt then forward_stage rt now c else Some rt
  end.

(** ** Runs *)

(** What happens to a runtime: an iteration of the loop, examined at
    [checked_at] and woken at [now]; or a call of its handle. *)
Inductive Stimulus :=
| StIterate (checked_at now : MonoTime) (wake : Wake)
| StAllowPeer (peer : NodeId) (cost : LinkCost)
| StEnableDiagnostics.

Definition iterate (rt : Runtime) (checked_at now : MonoTime) (wake : Wake) : option Runtime :=
  if negb (running rt) then Some rt
  else
    let '(input, ib) := recv (inbox rt) checked_at wake in
    let rt := set_inbox rt ib in
    match input with
    | None => Some (stop rt)
    | Some i => process rt now i
    end.
Definition allow_peer (rt : Runtime) (peer : NodeId) (cost : LinkCost) : Runtime :=
  set_peers rt (<[peer := cost]> (peer_costs rt)) (peers rt).
Definition enable_diagnostics (rt : Runtime) : Runtime :=
  set_log rt (event_log rt) true (snapshot rt).

Definition stimulate (rt : Runtime) (s : Stimulus) : option Runtime :=
  match s with
  | StIterate checked_at now wake => iterate rt checked_at now wake
  | StAllowPeer peer cost => Some (allow_peer rt peer cost)
  | StEnableDiagnostics => Some (enable_diagnostics rt)
  end.
Fixpoint rt_run (rt : Runtime) (l : list Stimulus) : option Runtime :=
  match l with
  | [] => Some rt
  | s :: l => rt ← stimulate rt s; rt_run rt l
  end.

(** ** [ControlRuntime] *)

Definition spawn_with_seq_store_and_pubsub (config : RuntimeConfig) (endpoint : NodeId)
    (store : St) (policies : gmap rstring TopicPolicy) : St * result Runtime RuntimeError :=
  if decide (endpoint ≠ config_node config) then
    (store, Err (EndpointNodeMismatch endpoint (config_node config)))
  else
    let '(store, r) := store_load store in
    (store,
     persisted_seq ←? map_err ReSeqStore r;
     if persisted_seq =? u_max 64 then Err ReSequenceExhausted
     else
       let cp := new_unsecured_with_seq (config_node config) (config_epoch config) persisted_seq in
       Ok {| rt_node := config_node config; plane := cp;
             forwarder := Forwarder_new (config_node config) (cp_routes cp);
             pubsub := PubSub_new (config_node config) policies; inbox := RuntimeInbox_new;
             seq_store := store; peer_costs := config_peer_costs config; peers := ∅;
             event_log := EventLog_empty; diagnostics_enabled := false;
             snapshot := RuntimeSnapshot_empty (config_node config) (cp_routes cp);
             running := true; effects := [] |}).

(** Without topics of its own. *)
Definition spawn_with_seq_store (config : RuntimeConfig) (endpoint : NodeId) (store : St) :
  St * result Runtime RuntimeError := spawn_with_seq_store_and_pubsub config endpoint store ∅.

(** [allow_peer] of the handle: the runtime's costs and the endpoint's
    allowlist. *)
Definition rt_allow_peer (rt : Runtime) (ep : Endpoint) (peer : NodeId) (cost : LinkCost) :
  Runtime * Endpoint :=
  (allow_peer rt peer cost, set_allowed ep (ep_allowed ep ∪ {[peer]})).
(** [connect]: the peer is allowed first; the connection is then a new one of
    the endpoint. *)
Definition rt_connect (rt : Runtime) (ep : Endpoint) (peer : NodeId) (cost : LinkCost) :
  Runtime * Endpoint * result unit RuntimeError :=
  let '(rt, ep) := rt_allow_peer rt ep peer cost in
  match connect_check ep peer with
  | Err x => (rt, ep, Err (ReTransport x))
  | Ok _ => (rt, set_conns ep (ep_conns ep ++ [Conn_new (Some peer)]), Ok tt)
  end.
Definition rt_close_link (ep : Endpoint) (l : LinkId) :
  option (Endpoint * result unit RuntimeError) :=
  '(ep, r) ← ep_close ep l; Some (ep, map_err ReTransport r).

(** The messages the handle puts into the channels of the loop; [open] says
    whether the loop still receives. *)
Definition enqueue_input {A} (open : bool) (x : A) : result A RuntimeError :=
  if open then Ok x else Err RuntimeStopped.
Definition rt_publish (open : bool) (t : TopicKey) (p : bytes) : result RuntimeInput RuntimeError :=
  enqueue_input open (RiPubSub (PeLocalPublish t p)).
Definition rt_subscribe (open : bool) (id : SubId) (s : TopicSelector) :
  result RuntimeInput RuntimeError := enqueue_input open (RiPubSub (PeLocalSubscribe id s)).
Definition rt_unsubscribe (open : bool) (id : SubId) : result RuntimeInput RuntimeError :=
  enqueue_input open (RiPubSub (PeLocalUnsubscribe id)).
Definition rt_send (open : bool) (p : ForwardPacket) : result RuntimeInput RuntimeError :=
  _ ←? map_err ReForwardPacket (ForwardPacket_encode p);
  enqueue_input open (RiForward (FiOutbound p)).
Definition rt_send_multicast (open : bool) (ds : list NodeId) (p : ForwardPacket) :
  result RuntimeInput RuntimeError :=
  let validation := set_parts (set_header p Multicast NodeId_default (ttl (header p))) ds (payload p) in
  _ ←? map_err ReForwardPacket (ForwardPacket_encode validation);
  enqueue_input open (RiForward (FiOutboundMulticast ds p)).
End Runtime.
Arguments Runtime : clear implicits.

(** With a sequence number that is kept in memory only. *)
Definition spawn_with_pubsub (config : RuntimeConfig) (endpoint : NodeId)
    (policies : gmap rstring TopicPolicy) : MemorySeqStore * result (Runtime MemorySeqStore) RuntimeError :=
  spawn_with_seq_store_and_pubsub config endpoint MemorySeqStore_default policies.
Definition spawn (config : RuntimeConfig) (endpoint : NodeId) :
  MemorySeqStore * result (Runtime MemorySeqStore) RuntimeError :=
  spawn_with_seq_store_and_pubsub config endpoint MemorySeqStore_default ∅.
