(* ===== verification/RuntimeProps.v ===== *)
(** * The runtime loop, stage by stage (crates/mb-runtime)

    The invariant of the runtime and the accounting of the frames it hands to
    the transport, for every operation of the loop. *)

From Stdlib Require Import Strings.Byte Strings.String.
From S2P Require Export Prelude Ord Bytes Text SeqStore Types Proto Wire WirePackets PubSub PubSubProps PubSubTheorems Forward ForwardSched ForwardInv ForwardRoute ForwardProps ForwardTheorems RuntimeCodec RuntimeCodecProps RuntimeLog Runtime ControlTypes Spf Control ControlRoutes ControlInv ControlProps ControlTimers ControlActions.
Open Scope Z_scope.

#[export] Existing Instance UnsecuredLsaAuth.

(** ** Packets that claim to come from the node itself *)

(** A message addressed to [me] that would reach its Pub/Sub component does
    not name [me] as its source. *)
Definition harmless (me : NodeId) (u : unit_of) : Prop :=
  u.1 = me → is_envelope (tag_payload u.2) = true → tag_source u.2 ≠ me.
Definition harmless_packet (me : NodeId) (p : ForwardPacket) : Prop :=
  Forall (harmless me) (units p).
(** A delivery Pub/Sub can take. *)
Definition safe_action (me : NodeId) (a : ForwardAction) : Prop :=
  match a with
  | FaDeliverLocal p => is_envelope (payload p) = true → source (header p) ≠ me
  | _ => True
  end.

Lemma harmless_step fw e fw' acts :
  step_spec fw e fw' acts → Forall (harmless (fw_me fw)) (fw_units fw) →
  Forall (harmless (fw_me fw)) (event_units e) →
  Forall (harmless (fw_me fw)) (fw_units fw') ∧ Forall (safe_action (fw_me fw)) acts.
Proof.
  intros Hs Hfw He. destruct (ss_units _ _ _ _ Hs) as (lost & _ & Hp).
  assert (Forall (harmless (fw_me fw)) (fw_units fw' ++ acts_units acts ++ (lost ≫= units))) as Hall
    by (rewrite <-Hp; by apply Forall_app).
  apply Forall_app in Hall as [Hfw' [Ha _]%Forall_app]. split; [done|].
  apply Forall_forall. intros a Hin. destruct a as [|p| | |]; try done. intros Henv.
  pose proof (ss_actions _ _ _ _ Hs) as Hok. rewrite Forall_forall in Hok.
  specialize (Hok _ Hin). cbn in Hok. rewrite (ss_me _ _ _ _ Hs) in Hok.
  rewrite Forall_forall in Ha. apply (Ha (destination (header p), tag p)); [|done..].
  unfold acts_units. apply list_elem_of_bind. exists (FaDeliverLocal p). split; [by left|done].
Qed.

(** ** Frames handed to the transport *)

Definition frame_bytes (l : LinkId) (es : list Effect) : Z :=
  zsum ((λ e, match e with
              | EfPacket l' _ w => if decide (l' = l) then zlen (frame_payload w) else 0
              | _ => 0
              end) <$> es).
Definition frame_count (l : LinkId) (es : list Effect) : Z :=
  zsum ((λ e, match e with EfPacket l' _ _ => if decide (l' = l) then 1 else 0 | _ => 0 end) <$> es).
Lemma frame_bytes_app l a b : frame_bytes l (a ++ b) = frame_bytes l a + frame_bytes l b.
Proof. unfold frame_bytes. by rewrite fmap_app, zsum_app. Qed.
Lemma frame_count_app l a b : frame_count l (a ++ b) = frame_count l a + frame_count l b.
Proof. unfold frame_count. by rewrite fmap_app, zsum_app. Qed.

Section Runtime.
Context {St : Type} `{!SeqStore St}.
Context `{!Prost PbLsa, !Prost PbSignedLsa, !Prost PbDigest, !Prost PbDigestReq}.
Context `{!Prost WireEnvelope}.
Implicit Types rt : Runtime St.

(** Credit, packets about to be sent and packets sent. *)
Definition held (l : LinkId) rt (fas : list ForwardAction) : Z :=
  credit (forwarder rt) l + sent_bytes l fas + frame_bytes l (effects rt).
Definition slots (l : LinkId) rt (fas : list ForwardAction) : Z :=
  permits (forwarder rt) l + sent_count l fas + frame_count l (effects rt).
Definition batches rt : Z := Z.of_nat (size (pending_p0 (forwarder rt))).

(** ** The invariant *)

Record rt_ok rt : Prop := {
  ro_cp : cp_ok (plane rt);
  ro_cp_me : me (plane rt) = rt_node rt;
  ro_fw : fw_ok (forwarder rt);
  ro_fw_me : fw_me (forwarder rt) = rt_node rt;
  ro_units : Forall (harmless (rt_node rt)) (fw_units (forwarder rt));
  ro_ps : ps_ok (pubsub rt);
  ro_ps_me : ps_me (pubsub rt) = rt_node rt;
}.

(** The machines are the same; only the surroundings change. *)
Definition same_machines rt rt' : Prop :=
  rt_node rt' = rt_node rt ∧ plane rt' = plane rt ∧ forwarder rt' = forwarder rt ∧
  pubsub rt' = pubsub rt.
Lemma rt_ok_machines rt rt' : same_machines rt rt' → rt_ok rt → rt_ok rt'.
Proof. intros (E1 & E2 & E3 & E4) [? ? ? ? ? ? ?]. by constructor; rewrite ?E1, ?E2, ?E3, ?E4. Qed.

(** From [rt], with [fas] collected, to [rt'], with [fas'] collected, where
    links were granted [gb] bytes and [gw] writes, and [d] links failed. *)
Record progress rt (fas : list ForwardAction) rt' (fas' : list ForwardAction)
    (gb gw : LinkId → Z) (d : Z) : Prop := {
  pg_ok : rt_ok rt';
  pg_node : rt_node rt' = rt_node rt;
  pg_safe : Forall (safe_action (rt_node rt)) fas → Forall (safe_action (rt_node rt)) fas';
  pg_held l : held l rt' fas' ≤ held l rt fas + gb l;
  pg_slots l : slots l rt' fas' ≤ slots l rt fas + gw l;
  pg_batches : batches rt' ≤ batches rt + d;
}.
Abbreviation none := (λ _ : LinkId, 0).

Lemma progress_refl rt fas : rt_ok rt → progress rt fas rt fas none none 0.
Proof. intros. constructor; try done; intros; lia. Qed.
Lemma progress_trans rt fas rt1 fas1 rt2 fas2 gb gw d gb' gw' d' :
  progress rt fas rt1 fas1 gb gw d → progress rt1 fas1 rt2 fas2 gb' gw' d' →
  progress rt fas rt2 fas2 (λ l, gb l + gb' l) (λ l, gw l + gw' l) (d + d').
Proof.
  intros [_ Hn1 Hs1 Hh1 Hc1 Hb1] [Hok Hn2 Hs2 Hh2 Hc2 Hb2]. rewrite Hn1 in Hs2.
  constructor; [done|congruence|auto|..|lia]; intros l.
  - specialize (Hh1 l). specialize (Hh2 l). lia.
  - specialize (Hc1 l). specialize (Hc2 l). lia.
Qed.
Lemma progress_weaken rt fas rt' fas' gb gw d gb' gw' d' :
  progress rt fas rt' fas' gb gw d → (∀ l, gb l ≤ gb' l) → (∀ l, gw l ≤ gw' l) → d ≤ d' →
  progress rt fas rt' fas' gb' gw' d'.
Proof.
  intros [] Hb Hw Hd. constructor; try done; [..|lia]; intros l.
  - specialize (Hb l). specialize (pg_held0 l). lia.
  - specialize (Hw l). specialize (pg_slots0 l). lia.
Qed.
Lemma progress_quiet rt fas rt1 fas1 rt2 fas2 gb gw d :
  progress rt fas rt1 fas1 gb gw d → progress rt1 fas1 rt2 fas2 none none 0 →
  progress rt fas rt2 fas2 gb gw d.
Proof.
  intros H1 H2. eapply progress_weaken; [by eapply progress_trans| | |lia]; intros l; cbn; lia.
Qed.
Lemma quiet_progress rt fas rt1 fas1 rt2 fas2 gb gw d :
  progress rt fas rt1 fas1 none none 0 → progress rt1 fas1 rt2 fas2 gb gw d →
  progress rt fas rt2 fas2 gb gw d.
Proof.
  intros H1 H2. eapply progress_weaken; [by eapply progress_trans| | |lia]; intros l; cbn; lia.
Qed.

(** Steps that only touch the surroundings and send no packet. *)
Lemma progress_machines rt rt' fas :
  rt_ok rt → same_machines rt rt' →
  (∀ l, frame_bytes l (effects rt') = frame_bytes l (effects rt) ∧
        frame_count l (effects rt') = frame_count l (effects rt)) →
  progress rt fas rt' fas none none 0.
Proof.
  intros Hok Hm He. pose proof Hm as (E1 & E2 & E3 & E4).
  constructor; [by eapply rt_ok_machines|done|done|..]; unfold held, slots, batches; rewrite ?E3.
  - intros l. destruct (He l) as [-> _]. lia.
  - intros l. destruct (He l) as [_ ->]. lia.
  - lia.
Qed.

(** ** Effects *)

Lemma emit_machines rt e : same_machines rt (emit rt e).
Proof. done. Qed.
Lemma note_machines rt now k d l : same_machines rt (note rt now k d l).
Proof. unfold note. by destruct (diagnostics_enabled rt). Qed.
Lemma note_effects rt now k d l : effects (note rt now k d l) = effects rt.
Proof. unfold note. by destruct (diagnostics_enabled rt). Qed.

Lemma emit_progress rt e fas :
  rt_ok rt → (∀ l p w, e ≠ EfPacket l p w) → progress rt fas (emit rt e) fas none none 0.
Proof.
  intros Hok He. apply progress_machines; [done|done|]. intros l. cbn [effects emit].
  rewrite frame_bytes_app, frame_count_app. unfold frame_bytes, frame_count.
  destruct e; cbn; try lia. by destruct (He link p wire).
Qed.
Lemma note_progress rt now k d l fas : rt_ok rt → progress rt fas (note rt now k d l) fas none none 0.
Proof.
  intros Hok. apply progress_machines; [done|apply note_machines|]. intros x. by rewrite note_effects.
Qed.

(** ** Events of the forwarder and of Pub/Sub *)

Lemma drop_action rt a fas : rt_ok rt → progress rt (a :: fas) rt fas none none 0.
Proof.
  intros Hok. constructor; try done; [|intros l..|lia].
  - intros HF. by apply Forall_cons in HF as [_ ?].
  - unfold held, sent_bytes. rewrite fmap_cons, zsum_cons. destruct a; try lia.
    case_decide; [|lia]. pose proof (encoded_len_pos packet). lia.
  - unfold slots, sent_count. rewrite fmap_cons, zsum_cons. destruct a; try lia. case_decide; lia.
Qed.

Lemma forward_event_ok rt now e fas :
  rt_ok rt → event_ok e → Forall (harmless (rt_node rt)) (event_units e) → batches rt < 2 ^ 64 →
  ∃ fw acts, forward_event rt now e = Some (set_forwarder rt fw, acts) ∧
    progress rt fas (set_forwarder rt fw) (fas ++ acts)
      (λ l, granted_bytes l e) (λ l, granted_writes l e) (Z.of_nat (new_batches e)).
Proof.
  intros Hok He Hh Hb. pose proof Hok as [? ? Hfw Hme Hun ? ?].
  destruct (event_step (forwarder rt) now e Hfw He Hb) as (fw & acts & E & Hs).
  pose proof (event_pending _ _ _ _ _ Hfw He Hb E) as Hp.
  rewrite <-Hme in Hun, Hh. destruct (harmless_step _ _ _ _ Hs Hun Hh) as [Hun' Ha].
  pose proof (ss_me _ _ _ _ Hs) as Hme'. rewrite Hme in *.
  exists fw, acts. unfold forward_event. rewrite E. split; [done|]. constructor.
  - constructor; cbn; try done. apply (ss_ok _ _ _ _ Hs).
  - done.
  - intros HF. by apply Forall_app.
  - intros l. unfold held. cbn [forwarder set_forwarder effects]. rewrite sent_bytes_app. pose proof (ss_credit _ _ _ _ Hs l). lia.
  - intros l. unfold slots. cbn [forwarder set_forwarder effects]. rewrite sent_count_app. pose proof (ss_permits _ _ _ _ Hs l). lia.
  - unfold batches. cbn [forwarder set_forwarder]. lia.
Qed.

(** What a Pub/Sub action asks of the forwarder. *)
Definition sendable (me : NodeId) (a : PubSubAction) : Prop :=
  match a with
  | PaSendMulticast ds _ _ _ _ p => me ∉ ds ∧ zlen p ≤ MAX_LIVE_ENVELOPE_LEN
  | _ => True
  end.
Definition not_multicast (a : PubSubAction) : Prop :=
  match a with PaSendMulticast _ _ _ _ _ _ => False | _ => True end.
Definition local_publish (e : PubSubEvent) : Prop :=
  match e with PeLocalPublish _ _ => True | _ => False end.

Lemma receive_not_multicast ps src p ps' acts :
  receive ps src p = Some (ps', acts) → Forall not_multicast acts.
Proof.
  unfold receive. destruct (Envelope_decode p) as [[e|e]|]; cbn; [|intros [= <- <-]; by repeat constructor|done].
  case_decide; [intros [= <- <-]; by repeat constructor|].
  destruct (policies ps !! _); [|intros [= <- <-]; by repeat constructor].
  destruct (offer _ _ _) as [ps1 b]. destruct b; intros [= <- <-]; [|by repeat constructor].
  unfold local_deliveries. by apply Forall_fmap, Forall_true.
Qed.
Lemma ps_not_multicast ps now e ps' acts :
  ¬ local_publish e → ps_handle ps now e = Some (ps', acts) → Forall not_multicast acts.
Proof.
  intros Hn He. destruct e as [t p|id s|id|src p|d]; cbn [ps_handle] in He; [by destruct Hn|..].
  - simplify_eq. unfold subscription_change. case_match; by repeat constructor.
  - simplify_eq. unfold subscription_change. case_match; by repeat constructor.
  - by eapply receive_not_multicast.
  - by simplify_eq.
Qed.
Lemma ps_sendable ps now e ps' acts :
  ps_handle ps now e = Some (ps', acts) → Forall (sendable (ps_me ps)) acts.
Proof.
  intros He. destruct e as [t p|id s|id|src p|d].
  2-5: eapply Forall_impl; [eapply ps_not_multicast; [|exact He]; cbn; tauto|]; by intros [].
  cbn [ps_handle] in He. apply publish_inv in He.
  destruct He as [?|?? ?|?? ?? ? ?|pol e bs ps1 groups ?? ? ? Hlen ? Hj ?]; [by repeat constructor..|].
  apply Forall_app. split; [|by repeat constructor].
  apply Forall_fmap, Forall_forall. intros g Hg. split; [|done]. intros Hin.
  assert (ps_me ps ∈ mjoin groups) as Hm by (apply list_elem_of_join; eauto).
  rewrite Hj, elem_of_bset_iter in Hm. set_solver.
Qed.

Lemma pubsub_event_ok rt now e fas :
  rt_ok rt → not_from (rt_node rt) e →
  ∃ ps acts, pubsub_event rt now e = Some (set_pubsub rt ps, acts) ∧
    progress rt fas (set_pubsub rt ps) fas none none 0 ∧ Forall (sendable (rt_node rt)) acts ∧
    (¬ local_publish e → Forall not_multicast acts).
Proof.
  intros Hok He. pose proof Hok as [? ? ? ? ? Hps Hme]. rewrite <-Hme in He.
  destruct (handle_ps_total (pubsub rt) now e Hps He) as (ps & acts & E & Hps' & Hme').
  change (ps_handle (pubsub rt) now e = Some (ps, acts)) in E.
  exists ps, acts. unfold pubsub_event. rewrite E. split_and!; [done|..].
  - constructor; try done; [constructor; cbn; congruence || done|..]; intros;
      unfold held, slots, batches; cbn [forwarder set_pubsub effects]; lia.
  - rewrite <-Hme. by eapply ps_sendable.
  - intros Hl. by eapply ps_not_multicast.
Qed.

Section Oracle.
Context (accepts : nat → bool).

Lemma try_emit_progress rt e fas :
  rt_ok rt → (∀ l p w, e ≠ EfPacket l p w) →
  progress rt fas (try_emit accepts rt e) fas none none 0.
Proof.
  intros Hok He. unfold try_emit. destruct (accepts _); [by apply emit_progress|by apply progress_refl].
Qed.

Lemma transmit_machines rt l e : same_machines rt (transmit accepts rt l e).
Proof. unfold transmit. by destruct (accepts _). Qed.
Lemma transmit_effects rt l e :
  ∃ rest, effects (transmit accepts rt l e) = effects rt ++ e :: rest ∧ (rest = [] ∨ rest = [EfClose l]).
Proof.
  unfold transmit. destruct (accepts _); cbn; [by exists []; auto|].
  exists [EfClose l]. rewrite <-app_assoc. auto.
Qed.
Lemma transmit_control rt l f w fas :
  rt_ok rt → progress rt fas (transmit accepts rt l (EfControl l f w)) fas none none 0.
Proof.
  intros Hok. apply progress_machines; [done|apply transmit_machines|]. intros k.
  destruct (transmit_effects rt l (EfControl l f w)) as (rest & -> & Hr).
  rewrite frame_bytes_app, frame_count_app. destruct Hr as [->| ->]; cbn; lia.
Qed.

(** A packet that leaves the collected actions for the transport. *)
Lemma transmit_packet rt l p w fas :
  rt_ok rt → forward_frame p = Ok w →
  progress rt (FaSend l p :: fas) (transmit accepts rt l (EfPacket l p w)) fas none none 0.
Proof.
  intros Hok Hw. pose proof (transmit_machines rt l (EfPacket l p w)) as Hm.
  pose proof Hm as (E1 & E2 & E3 & E4).
  destruct (transmit_effects rt l (EfPacket l p w)) as (rest & Ee & Hr).
  assert (Hlen : zlen (frame_payload w) = ForwardPacket_encoded_len p).
  { unfold forward_frame in Hw. destruct (ForwardPacket_encode p) as [bs|] eqn:E; [|done].
    injection Hw as <-. cbn. symmetry. by apply packet_encoded_len_exact. }
  constructor; [by eapply rt_ok_machines|done| |..]; unfold held, slots, batches; rewrite ?E3, ?Ee.
  - intros HF. by apply Forall_cons in HF as [_ ?].
  - intros k. rewrite frame_bytes_app. unfold sent_bytes. cbn [fmap list_fmap]. rewrite zsum_cons.
    destruct Hr as [->| ->]; unfold frame_bytes at 2; cbn; rewrite Hlen; lia.
  - intros k. rewrite frame_count_app. unfold sent_count. cbn [fmap list_fmap]. rewrite zsum_cons.
    destruct Hr as [->| ->]; unfold frame_count at 2; cbn; lia.
  - lia.
Qed.
(** ** Executing actions *)

Lemma multicast_packet_ok nd pr flow key fl p :
  zlen p ≤ MAX_LIVE_ENVELOPE_LEN → packet_ok (multicast_packet nd pr flow key fl p).
Proof.
  intros Hp. split; [done|]. unfold packet_fits, ForwardPacket_encoded_len, sat_add.
  cbn [header packet_type multicast_packet multicast_destinations payload].
  rewrite decide_True, zlen_nil, multicast_prefix_len_small by done.
  assert (MAX_LIVE_ENVELOPE_LEN ≤ 2 ^ 40 ∧ FORWARD_HEADER_LEN ≤ 2 ^ 40) by (by vm_compute). lia.
Qed.
Lemma multicast_harmless nd ds pr flow key fl p :
  nd ∉ ds →
  Forall (harmless nd) (event_units (FeOutboundMulticast ds (multicast_packet nd pr flow key fl p))).
Proof.
  intros Hds. cbn [event_units payload multicast_packet].
  destruct (MulticastPayload_new ds p); [|constructor].
  apply Forall_fmap, Forall_forall. intros d Hd E. cbn in E. by subst d.
Qed.

Lemma execute_pubsub_action_ok rt now a fas :
  rt_ok rt → sendable (rt_node rt) a → batches rt < 2 ^ 64 →
  ∃ rt' acts, execute_pubsub_action accepts rt now a = Some (rt', acts) ∧
    progress rt fas rt' (fas ++ acts) none none 0 ∧ (not_multicast a → acts = []).
Proof.
  intros Hok Ha Hb. destruct a as [ds pr flow key c p|id m|l|t n|r|r]; cbn [execute_pubsub_action].
  2-6: do 2 eexists; split; [reflexivity|]; split; [rewrite app_nil_r|done].
  - destruct Ha as [Hds Hp].
    assert (∃ fl, (if c then match flags_from_bits CONFLATABLE with Ok f => Some f | Err _ => None end
                   else Some flags_empty) = Some fl) as [fl ->] by (destruct c; eauto).
    cbn [mbind option_bind].
    edestruct (forward_event_ok rt now) as (fw & acts & -> & Hpg);
      [done|apply (multicast_packet_ok (fw_me (forwarder rt)) pr flow key fl p Hp)| |done|].
    { rewrite (ro_fw_me _ Hok). by apply (multicast_harmless _ ds). }
    do 2 eexists. split; [reflexivity|]. by split; [exact Hpg|].
  - by apply emit_progress.
  - by apply progress_refl.
  - by apply emit_progress.
  - by apply emit_progress.
  - by apply try_emit_progress.
Qed.

Lemma execute_pubsub_actions_ok l : ∀ rt now fas,
  rt_ok rt → Forall (sendable (rt_node rt)) l → batches rt < 2 ^ 64 →
  ∃ rt' acts, execute_pubsub_actions accepts rt now l = Some (rt', acts) ∧
    progress rt fas rt' (fas ++ acts) none none 0 ∧ (Forall not_multicast l → acts = []).
Proof.
  induction l as [|a l IH]; intros rt now fas Hok HF Hb; cbn [execute_pubsub_actions].
  { do 2 eexists. split; [reflexivity|]. rewrite app_nil_r. split; [by apply progress_refl|done]. }
  apply Forall_cons in HF as [Ha HF].
  destruct (execute_pubsub_action_ok rt now a fas Hok Ha Hb) as (rt1 & a1 & -> & Hp1 & Hn1).
  cbn [mbind option_bind]. pose proof (pg_batches _ _ _ _ _ _ _ Hp1).
  destruct (IH rt1 now (fas ++ a1)) as (rt2 & a2 & -> & Hp2 & Hn2).
  { apply (pg_ok _ _ _ _ _ _ _ Hp1). }
  { by rewrite (pg_node _ _ _ _ _ _ _ Hp1). }
  { lia. }
  cbn [mbind option_bind]. do 2 eexists. split; [reflexivity|]. rewrite app_assoc. split.
  - by eapply progress_quiet.
  - intros [Hm1 Hm2]%Forall_cons. by rewrite Hn1, Hn2.
Qed.

Lemma execute_forward_action_ok rt now a fas :
  rt_ok rt → safe_action (rt_node rt) a → batches rt < 2 ^ 64 →
  ∃ rt', execute_forward_action accepts rt now a = Some (rt', []) ∧
    progress rt (a :: fas) rt' fas none none 0.
Proof.
  intros Hok Ha Hb. pose proof (drop_action rt a fas Hok) as Hd.
  destruct a as [l p|p|r p|l p|t at_]; cbn [execute_forward_action].
  - destruct (forward_frame p) as [w|] eqn:Ew; eexists; (split; [reflexivity|]); [|done].
    by apply transmit_packet.
  - destruct (is_envelope (payload p)) eqn:Ee.
    + destruct (pubsub_event_ok rt now (PeInbound (source (header p)) (payload p)) fas Hok)
        as (ps & acts & -> & Hpg & Hs & Hn); [by apply Ha|]. cbn [mbind option_bind].
      destruct (execute_pubsub_actions_ok acts (set_pubsub rt ps) now fas) as (rt' & x & -> & Hp' & Hx);
        [apply (pg_ok _ _ _ _ _ _ _ Hpg)|done..|].
      rewrite (Hx (Hn ltac:(cbn; tauto))) in *. rewrite app_nil_r in Hp'.
      eexists. split; [reflexivity|]. eapply progress_quiet; [exact Hd|]. by eapply progress_quiet.
    + eexists. split; [reflexivity|]. eapply progress_quiet; [exact Hd|]. by apply emit_progress.
  - eexists. split; [reflexivity|]. eapply progress_quiet; [exact Hd|]. by apply try_emit_progress.
  - eexists. split; [reflexivity|]. eapply progress_quiet; [exact Hd|]. by apply emit_progress.
  - eexists. split; [reflexivity|]. eapply progress_quiet; [exact Hd|]. by apply progress_machines.
Qed.
Lemma forward_loop_ok l : ∀ rt now,
  rt_ok rt → Forall (safe_action (rt_node rt)) l → batches rt < 2 ^ 64 →
  ∃ rt', loop_nat (forward_actions_step accepts now) (S (length l)) (rt, l) = inr (Some rt') ∧
    progress rt l rt' [] none none 0.
Proof.
  induction l as [|a l IH]; intros rt now Hok HF Hb.
  { exists rt. split; [done|]. by apply progress_refl. }
  apply Forall_cons in HF as [Ha HF].
  destruct (execute_forward_action_ok rt now a l Hok Ha Hb) as (rt1 & E & Hp).
  destruct (IH rt1 now) as (rt2 & E2 & Hp2).
  { apply (pg_ok _ _ _ _ _ _ _ Hp). }
  { by rewrite (pg_node _ _ _ _ _ _ _ Hp). }
  { pose proof (pg_batches _ _ _ _ _ _ _ Hp). lia. }
  exists rt2. split; [|by eapply progress_quiet].
  cbn [length]. change (loop_nat (forward_actions_step accepts now) (S (S (length l))) (rt, a :: l))
    with (match forward_actions_step accepts now (rt, a :: l) with
          | inl s => loop_nat (forward_actions_step accepts now) (S (length l)) s
          | inr r => inr r
          end).
  cbn [forward_actions_step]. rewrite E, app_nil_r. exact E2.
Qed.
Lemma execute_forward_actions_ok rt now l :
  rt_ok rt → Forall (safe_action (rt_node rt)) l → batches rt < 2 ^ 64 →
  ∃ rt', execute_forward_actions accepts rt now l = Some rt' ∧ progress rt l rt' [] none none 0.
Proof.
  intros Hok HF Hb. destruct (forward_loop_ok l rt now Hok HF Hb) as (rt' & E & Hp).
  exists rt'. split; [|done]. unfold execute_forward_actions, run_loop.
  rewrite loop_pos_nat, SuccNat2Pos.id_succ, E. done.
Qed.

Lemma note_forward_progress l : ∀ rt now fas,
  rt_ok rt → progress rt fas (note_forward_actions rt now l) fas none none 0.
Proof.
  induction l as [|a l IH]; intros rt now fas Hok; cbn [note_forward_actions].
  { by apply progress_refl. }
  destruct (forward_action_summary a) as [[[k d] x]|]; [|by apply IH].
  pose proof (note_progress rt now k d x fas Hok) as Hp.
  eapply progress_quiet; [exact Hp|]. apply IH, (pg_ok _ _ _ _ _ _ _ Hp).
Qed.

Lemma snapshot_total rt ls : rt_ok rt → is_Some (queue_snapshots (forwarder rt) ls).
Proof.
  intros Hok. induction ls as [|l ls [m IH]]; cbn [queue_snapshots]; [eauto|].
  unfold queue_snapshot. destruct (links (forwarder rt) !! l) as [s|] eqn:E; cbn; [|rewrite IH; eauto].
  pose proof (fo_links _ (ro_fw _ Hok) l s E) as Hs.
  assert (is_Some (drr_priority (next_drr s))) as [pr ->].
  { pose proof (drr_next _ (lq_drr _ Hs)). destruct (next_drr s) as [|[|[|n]]]; [by eexists..|lia]. }
  cbn. rewrite IH. cbn. eauto.
Qed.
Lemma publish_snapshot_ok rt now :
  rt_ok rt → ∃ rt', publish_snapshot rt now = Some rt' ∧ progress rt [] rt' [] none none 0.
Proof.
  intros Hok. unfold publish_snapshot. destruct (diagnostics_enabled rt).
  - destruct (snapshot_total rt (btree_keys (peers rt)) Hok) as [q ->]. cbn [mbind option_bind].
    eexists. split; [reflexivity|]. by apply progress_machines.
  - exists rt. split; [done|]. by apply progress_refl.
Qed.

Lemma forward_stage_ok rt now fas pas :
  rt_ok rt → Forall (safe_action (rt_node rt)) fas → Forall (sendable (rt_node rt)) pas →
  batches rt < 2 ^ 64 →
  ∃ rt', forward_stage accepts rt now (fas, pas) = Some rt' ∧ progress rt fas rt' [] none none 0.
Proof.
  intros Hok HF HP Hb. unfold forward_stage.
  destruct (execute_pubsub_actions_ok pas rt now fas Hok HP Hb) as (rt1 & x & -> & Hp1 & _).
  cbn [mbind option_bind].
  pose proof (note_forward_progress (fas ++ x) rt1 now (fas ++ x) (pg_ok _ _ _ _ _ _ _ Hp1)) as Hp2.
  pose proof (progress_quiet _ _ _ _ _ _ _ _ _ Hp1 Hp2) as Hp.
  destruct (execute_forward_actions_ok (note_forward_actions rt1 now (fas ++ x)) now (fas ++ x))
    as (rt3 & -> & Hp3).
  { apply (pg_ok _ _ _ _ _ _ _ Hp). }
  { rewrite (pg_node _ _ _ _ _ _ _ Hp). by apply (pg_safe _ _ _ _ _ _ _ Hp). }
  { pose proof (pg_batches _ _ _ _ _ _ _ Hp). lia. }
  cbn [mbind option_bind].
  destruct (publish_snapshot_ok rt3 now (pg_ok _ _ _ _ _ _ _ Hp3)) as (rt4 & -> & Hp4).
  exists rt4. split; [done|]. eapply progress_quiet; [exact Hp|]. by eapply progress_quiet.
Qed.
(** ** The control plane's actions *)

Lemma note_plane rt now k d l : plane (note rt now k d l) = plane rt.
Proof. apply note_machines. Qed.
Lemma execute_control_action_plane rt now c a rt' c' :
  execute_control_action accepts rt now c a = Some (rt', c') → plane rt' = plane rt.
Proof.
  destruct c as [fas pas]. destruct a as [l f|t at_|tab|ads|n]; cbn [execute_control_action].
  - destruct (encode_control_frame f); [|by intros [= <- _]].
    destruct (control_frame_summary f) as [k d]. intros [= <- _].
    destruct (transmit_machines (note rt now k d (Some l)) l (EfControl l f a)) as (_ & -> & _).
    apply note_plane.
  - by intros [= <- _].
  - unfold forward_event. destruct (fw_handle _ _ _) as [[fw x]|]; [|done].
    intros [= <- _]. apply note_plane.
  - destruct (discovery_from_topic_ads ads); [|done]. cbn. by intros [= <- _].
  - destruct (store_persist _ _) as [st r]. intros [= <- _]. by destruct r.
Qed.
Lemma execute_control_actions_plane l : ∀ rt now c rt' c',
  execute_control_actions accepts rt now c l = Some (rt', c') → plane rt' = plane rt.
Proof.
  induction l as [|a l IH]; intros rt now c rt' c'; cbn [execute_control_actions].
  { by intros [= <- _]. }
  destruct (execute_control_action _ _ _ _ _) as [[rt1 c1]|] eqn:E; cbn [mbind option_bind]; [|done].
  apply execute_control_action_plane in E. destruct (running rt1).
  - intros H%IH. congruence.
  - intros [= <- _]. done.
Qed.

Definition ready_action (a : ControlAction) : Prop :=
  match a with CaPublishTopicAds ads => ads_valid ads | _ => True end.
Lemma actions_ready cp cp' acts : actions_spec cp cp' acts → Forall ready_action acts.
Proof.
  assert (∀ l, Forall (plain_action cp') l → Forall ready_action l) as Himp.
  { intros l Hl. eapply Forall_impl; [exact Hl|]. by intros []. }
  intros [[_ Hf]|(_ & _ & rest & -> & Hf)]; [by apply Himp|]. constructor; [done|by apply Himp].
Qed.

Lemma execute_control_action_ok rt now fas pas a :
  rt_ok rt → ready_action a → batches rt < 2 ^ 64 →
  ∃ rt' fas', execute_control_action accepts rt now (fas, pas) a = Some (rt', (fas', pas)) ∧
    progress rt fas rt' fas' none none 0.
Proof.
  intros Hok Ha Hb. destruct a as [l f|t at_|tab|ads|n]; cbn [execute_control_action].
  - destruct (encode_control_frame f) as [w|]; [|do 2 eexists; split; [reflexivity|by apply progress_refl]].
    destruct (control_frame_summary f) as [k d]. do 2 eexists. split; [reflexivity|].
    pose proof (note_progress rt now k d (Some l) fas Hok) as Hp.
    eapply progress_quiet; [exact Hp|]. apply transmit_control, (pg_ok _ _ _ _ _ _ _ Hp).
  - do 2 eexists. split; [reflexivity|]. by apply progress_machines.
  - match goal with |- context [note rt now ?k ?d ?l] => set (rt1 := note rt now k d l);
      pose proof (note_progress rt now k d l fas Hok : progress rt fas rt1 fas none none 0) as Hp end.
    destruct (forward_event_ok rt1 now (FeRoutesUpdated tab) fas) as (fw & x & -> & Hp2);
      [apply (pg_ok _ _ _ _ _ _ _ Hp)|done|constructor|pose proof (pg_batches _ _ _ _ _ _ _ Hp); lia|].
    cbn [mbind option_bind]. do 2 eexists. split; [reflexivity|].
    eapply quiet_progress; [exact Hp|]. eapply progress_weaken; [exact Hp2|done..].
  - destruct (discovery_spec ads Ha) as (index & -> & _). cbn [mbind option_bind].
    destruct (pubsub_event_ok rt now (PeDiscoveryUpdated index) fas Hok) as (ps & x & E & Hp & _); [done|].
    rewrite E. cbn [mbind option_bind]. unfold pubsub_event in E. cbn in E. injection E as _ <-.
    rewrite app_nil_r. do 2 eexists. by split; [reflexivity|].
  - destruct (store_persist (seq_store rt) n) as [st r]. do 2 eexists. split; [reflexivity|].
    apply progress_machines; [done|by destruct r|]. intros l.
    assert (effects (match r with Ok _ => emit (set_seq_store rt st) (EfPersist n)
              | Err _ => stop (emit (set_seq_store rt st) (EfPersist n)) end)
            = effects rt ++ [EfPersist n]) as -> by by destruct r.
    rewrite frame_bytes_app, frame_count_app. cbn. lia.
Qed.

Lemma execute_control_actions_ok l : ∀ rt now fas pas,
  rt_ok rt → Forall ready_action l → batches rt < 2 ^ 64 →
  ∃ rt' fas', execute_control_actions accepts rt now (fas, pas) l = Some (rt', (fas', pas)) ∧
    progress rt fas rt' fas' none none 0.
Proof.
  induction l as [|a l IH]; intros rt now fas pas Hok HF Hb; cbn [execute_control_actions].
  { do 2 eexists. split; [reflexivity|]. by apply progress_refl. }
  apply Forall_cons in HF as [Ha HF].
  destruct (execute_control_action_ok rt now fas pas a Hok Ha Hb) as (rt1 & f1 & -> & Hp1).
  cbn [mbind option_bind]. destruct (running rt1); [|eauto].
  destruct (IH rt1 now f1 pas) as (rt2 & f2 & -> & Hp2); [apply (pg_ok _ _ _ _ _ _ _ Hp1)|done| |].
  { pose proof (pg_batches _ _ _ _ _ _ _ Hp1). lia. }
  do 2 eexists. split; [reflexivity|]. by eapply progress_quiet.
Qed.

Lemma control_stage_ok rt now event fas pas :
  rt_ok rt → batches rt < 2 ^ 64 → my_seq (plane rt) < u_max 64 →
  spf_generation (plane rt) < u_max 64 →
  ∃ rt' fas', control_stage accepts rt now event (fas, pas) = Some (rt', (fas', pas)) ∧
    progress rt fas rt' fas' none none 0 ∧
    my_seq (plane rt') ≤ my_seq (plane rt) + 1 ∧
    spf_generation (plane rt') ≤ spf_generation (plane rt) + 1.
Proof.
  intros Hok Hb Hs Hg. unfold control_stage. destruct event as [e|].
  2: { do 2 eexists. split; [reflexivity|]. split; [by apply progress_refl|lia]. }
  destruct (handle_total (plane rt) now e (ro_cp _ Hok) Hs Hg) as [[cp acts] He].
  rewrite He. cbn [mbind option_bind].
  pose proof (handle_ok _ _ _ _ _ (ro_cp _ Hok) He) as [Hcp [Hme _]].
  pose proof (handle_counters _ _ _ _ _ He) as [Hc1 Hc2].
  pose proof (actions_ready _ _ _ (handle_actions _ _ _ _ _ (ro_cp _ Hok) He)) as Hr.
  assert (progress rt fas (set_plane rt cp) fas none none 0) as Hp.
  { destruct Hok. constructor; try done; [constructor; cbn; congruence || done|..]; intros;
      unfold held, slots, batches; cbn [forwarder set_plane effects]; lia. }
  destruct (execute_control_actions_ok acts (set_plane rt cp) now fas pas) as (rt' & f' & E & Hp');
    [apply (pg_ok _ _ _ _ _ _ _ Hp)|done..|].
  exists rt', f'. rewrite E. split; [done|]. split; [by eapply progress_quiet|].
  rewrite (execute_control_actions_plane _ _ _ _ _ _ E). cbn. lia.
Qed.
(** ** Inputs *)

(** What the types say of an input, and that it brings no message that names
    the node itself as its source. *)
Definition input_ok (nd : NodeId) (i : RuntimeInput) : Prop :=
  match i with
  | RiForward (FiOutbound p) => packet_ok p ∧ harmless_packet nd p
  | RiForward (FiOutboundMulticast ds p) =>
      packet_ok p ∧ Forall (harmless nd) (event_units (FeOutboundMulticast ds p))
  | RiPubSub e => not_from nd e
  | RiLink (LeFrame _ f) => ∀ p, decode_forward_frame f = Some (Ok p) → harmless_packet nd p
  | RiLink (LeSent _ _ _ n) => is_uint 64 n
  | _ => True
  end.
(** The credit and the write permissions an input gives to a link. *)
Definition input_bytes (i : RuntimeInput) (l : LinkId) : Z :=
  match i with
  | RiLink (LeUp l' _) => if decide (l' = l) then MAX_PAYLOAD_LEN else 0
  | RiLink (LeSent l' FtForward _ n) => if decide (l' = l) then n else 0
  | _ => 0
  end.
Definition input_writes (i : RuntimeInput) (l : LinkId) : Z :=
  match i with
  | RiLink (LeUp l' _) | RiLink (LeSent l' FtForward _ _) => if decide (l' = l) then 1 else 0
  | _ => 0
  end.
Definition input_downs (i : RuntimeInput) : Z :=
  match i with RiLink (LeDown _) => 1 | _ => 0 end.

(** A packet that encodes is within the sizes the forwarder counts with. *)
Lemma encoded_packet_ok p bs :
  wf_header (header p) → ForwardPacket_encode p = Ok bs → packet_ok p.
Proof.
  intros Hwf He. apply packet_encoded_len_exact in He as [Hlen Hmax].
  split; [apply Hwf|]. unfold packet_fits. rewrite Hlen.
  assert (MAX_PAYLOAD_LEN ≤ 2 ^ 50) by done. lia.
Qed.
Lemma decode_forward_total f :
  ∃ r, decode_forward_frame f = Some r ∧ ∀ p, r = Ok p → packet_ok p.
Proof.
  unfold decode_forward_frame. case_match; [by eexists|].
  destruct (packet_decode_inv (frame_payload f)) as (r & -> & Hr). cbn [mbind option_bind].
  destruct r as [q|e]; cbn [map_err]; [|by eexists].
  case_match; [by eexists|]. eexists. split; [reflexivity|]. intros p [= <-].
  destruct (Hr q eq_refl) as (Hwf & bs & He & _). by eapply encoded_packet_ok.
Qed.

Definition taken_spec rt (taken : option (option ControlEvent * (list ForwardAction * list PubSubAction)))
    rt' (i : RuntimeInput) : Prop :=
  match taken with
  | None => progress rt [] rt' [] (input_bytes i) (input_writes i) (input_downs i)
  | Some (_, (fas, pas)) =>
      progress rt [] rt' fas (input_bytes i) (input_writes i) (input_downs i) ∧
      Forall (sendable (rt_node rt)) pas
  end.

(** Two grants in a row, as on [LinkUp] and [Sent]. *)
Lemma grant_ok rt now l n :
  rt_ok rt → is_uint 64 n → batches rt < 2 ^ 64 →
  ∃ rt1 x rt2 y, forward_event rt now (FeLinkCredit l n) = Some (rt1, x) ∧
    forward_event rt1 now (FeLinkWritable l) = Some (rt2, y) ∧ plane rt2 = plane rt ∧
    progress rt [] rt2 (x ++ y) (λ k, if decide (l = k) then n else 0)
      (λ k, if decide (l = k) then 1 else 0) 0.
Proof.
  intros Hok Hn Hb.
  destruct (forward_event_ok rt now (FeLinkCredit l n) [] Hok Hn) as (fw & x & E1 & Hp1);
    [constructor|done|].
  destruct (forward_event_ok (set_forwarder rt fw) now (FeLinkWritable l) x) as (fw2 & y & E2 & Hp2);
    [apply (pg_ok _ _ _ _ _ _ _ Hp1)|done|constructor| |].
  { pose proof (pg_batches _ _ _ _ _ _ _ Hp1). cbn [new_batches] in *. lia. }
  exists (set_forwarder rt fw), x, (set_forwarder (set_forwarder rt fw) fw2), y.
  split_and!; [done..|]. eapply progress_weaken; [by eapply progress_trans| | |done]; intros k; cbn.
  - destruct (decide (l = k)); lia.
  - destruct (decide (l = k)); lia.
Qed.

(** An event of the forwarder after steps that changed nothing else. *)
Lemma event_progress rt rt1 now e :
  batches rt < 2 ^ 64 → progress rt [] rt1 [] none none 0 → plane rt1 = plane rt →
  event_ok e → Forall (harmless (rt_node rt)) (event_units e) →
  ∃ fw x, forward_event rt1 now e = Some (set_forwarder rt1 fw, x) ∧
    plane (set_forwarder rt1 fw) = plane rt ∧
    progress rt [] (set_forwarder rt1 fw) x (λ l, granted_bytes l e) (λ l, granted_writes l e)
      (Z.of_nat (new_batches e)).
Proof.
  intros Hb Hp Hpl He Hu. pose proof (pg_batches _ _ _ _ _ _ _ Hp).
  destruct (forward_event_ok rt1 now e [] (pg_ok _ _ _ _ _ _ _ Hp) He) as (fw & x & -> & Hp1);
    [by rewrite (pg_node _ _ _ _ _ _ _ Hp)|lia|].
  exists fw, x. split_and!; [done..|]. by eapply quiet_progress.
Qed.
(** Links are listed or forgotten, and that is noted. *)
Lemma noted_progress rt costs ps now kind detail link :
  rt_ok rt →
  let rt1 := note (set_peers rt costs ps) now kind detail link in
  progress rt [] rt1 [] none none 0 ∧ plane rt1 = plane rt.
Proof.
  intros Hok rt1. unfold rt1. split; [|by rewrite note_plane].
  eapply progress_quiet; [|apply note_progress]; [by apply progress_machines|].
  by eapply rt_ok_machines; [|exact Hok].
Qed.
Lemma take_input_ok rt now i :
  rt_ok rt → input_ok (rt_node rt) i → batches rt < 2 ^ 64 →
  ∃ rt' taken, take_input rt now i = Some (rt', taken) ∧ plane rt' = plane rt ∧
    taken_spec rt taken rt' i.
Proof.
  intros Hok Hi Hb.
  assert (Hpk := λ rt1 e, event_progress rt rt1 now e Hb).
  pose proof (progress_refl rt [] Hok) as Hr.
  destruct i as [[l peer|l|l f|l t c n]|[p|ds p]|e|[t|t]]; cbn [take_input].
  - destruct (peer_costs rt !! peer) as [cost|].
    2: { do 2 eexists. split; [reflexivity|]. split; [done|]. cbn [taken_spec].
         eapply progress_weaken; [by apply emit_progress|..]; intros; cbn; try case_decide; done || lia. }
    set (rt1 := note _ _ _ _ _).
    assert (progress rt [] rt1 [] none none 0 ∧ plane rt1 = plane rt) as [Hp1 Hpl1]
      by (by apply noted_progress).
    destruct (grant_ok rt1 now l MAX_PAYLOAD_LEN (pg_ok _ _ _ _ _ _ _ Hp1))
      as (rt2 & x & rt3 & y & -> & E2 & Hpl & Hg); [done|pose proof (pg_batches _ _ _ _ _ _ _ Hp1); lia|].
    cbn [mbind option_bind]. rewrite E2. cbn [mbind option_bind].
    do 2 eexists. split; [reflexivity|]. split; [congruence|]. split; [|constructor].
    by eapply quiet_progress.
  - set (rt1 := note _ _ _ _ _).
    assert (progress rt [] rt1 [] none none 0 ∧ plane rt1 = plane rt) as [Hp1 Hpl1]
      by (by apply noted_progress).
    destruct (Hpk rt1 (FeLinkDown l) Hp1 Hpl1) as (fw & x & -> & Hpl & Hg); [done|constructor|].
    cbn [mbind option_bind]. do 2 eexists. split; [reflexivity|]. split; [done|]. split; [|constructor].
    exact Hg.
  - case_bool_decide.
    + destruct (decode_forward_total f) as (r & Er & Hr'). rewrite Er. cbn [mbind option_bind].
      destruct r as [p|e].
      * destruct (Hpk rt (FeInbound l p) Hr eq_refl) as (fw & x & -> & Hpl & Hg);
          [by apply Hr'|by apply Hi|].
        cbn [mbind option_bind]. do 2 eexists. split; [reflexivity|]. split; [done|].
        split; [exact Hg|constructor].
      * do 2 eexists. split; [reflexivity|]. split; [done|]. by apply emit_progress.
    + destruct (decode_control_frame f); do 2 eexists; (split; [reflexivity|]); (split; [done|]).
      * by split; [|constructor].
      * by apply emit_progress.
  - case_bool_decide as Ht.
    + subst t. destruct (grant_ok rt now l n Hok Hi Hb) as (rt2 & x & rt3 & y & -> & E2 & Hpl & Hg).
      cbn [mbind option_bind]. rewrite E2. cbn [mbind option_bind].
      do 2 eexists. split; [reflexivity|]. split; [done|]. by split; [|constructor].
    + do 2 eexists. split; [reflexivity|]. split; [done|]. split; [|constructor].
      by destruct t.
  - destruct Hi as [Hp Hh].
    destruct (Hpk (note rt now (str "ORIGINATE") (packet_summary p) None) (FeOutbound p))
      as (fw & x & -> & Hpl & Hg); [by apply note_progress|by apply note_plane|done|done|].
    cbn [mbind option_bind]. do 2 eexists. split; [reflexivity|]. split; [done|]. split; [exact Hg|constructor].
  - destruct Hi as [Hp Hh]. set (rt1 := note _ _ _ _ _).
    destruct (Hpk rt1 (FeOutboundMulticast ds p))
      as (fw & x & -> & Hpl & Hg); [by apply note_progress|by apply note_plane|done|done|].
    cbn [mbind option_bind]. do 2 eexists. split; [reflexivity|]. split; [done|]. split; [exact Hg|constructor].
  - destruct (pubsub_event_ok rt now e [] Hok Hi) as (ps & acts & -> & Hg & Hs & _).
    cbn [mbind option_bind]. do 2 eexists. split; [reflexivity|]. split; [done|]. by split.
  - do 2 eexists. split; [reflexivity|]. split; [done|]. by split; [|constructor].
  - destruct (Hpk rt (FeTimer t) Hr eq_refl) as (fw & x & -> & Hpl & Hg); [done|constructor|].
    cbn [mbind option_bind]. do 2 eexists. split; [reflexivity|]. split; [done|]. split; [exact Hg|constructor].
Qed.
End Oracle.
End Runtime.
