(* ===== verification/RuntimeFrame.v ===== *)
(** * Iterations of the runtime loop (crates/mb-runtime)

    What the forward stage leaves alone, and one whole iteration. *)

From Stdlib Require Import Strings.Byte Strings.String.
From S2P Require Export Prelude Ord Bytes Text SeqStore Types Proto Wire WirePackets PubSub PubSubProps PubSubTheorems Forward ForwardSched ForwardInv ForwardRoute ForwardProps ForwardTheorems RuntimeCodec RuntimeCodecProps RuntimeLog Runtime RuntimeProps ControlTypes Spf Control ControlRoutes ControlInv ControlProps ControlTimers ControlActions.
Open Scope Z_scope.

Section Runtime.
Context {St : Type} `{!SeqStore St}.
Context `{!Prost PbLsa, !Prost PbSignedLsa, !Prost PbDigest, !Prost PbDigestReq}.
Context `{!Prost WireEnvelope}.
Context (accepts : nat → bool).
Implicit Types rt : Runtime St.

(** ** What the forward stage leaves alone

    Everything after the control plane's turn: the control plane, the store
    and the peers stay, timers are only added, and nothing is sent for the
    control plane. *)

Definition plain_effect (e : Effect) : Prop :=
  match e with EfControl _ _ _ | EfPersist _ => False | _ => True end.
Record frame rt rt' : Prop := {
  fr_plane : plane rt' = plane rt;
  fr_node : rt_node rt' = rt_node rt;
  fr_store : seq_store rt' = seq_store rt;
  fr_running : running rt' = running rt;
  fr_effects : ∃ es, effects rt' = effects rt ++ es ∧ Forall plain_effect es;
  fr_timers x : x ∈ timers (inbox rt) → x ∈ timers (inbox rt');
  fr_sorted : StronglySorted ole (timers (inbox rt)) → StronglySorted ole (timers (inbox rt'));
  fr_log : log_inv (event_log rt) → log_inv (event_log rt');
}.
#[global] Instance frame_refl : Reflexive frame.
Proof. intros rt. constructor; try done. exists []. by rewrite app_nil_r. Qed.
#[global] Instance frame_trans : Transitive frame.
Proof.
  intros a b c [? ? ? ? (es & E & He) Ht Hs Hl] [? ? ? ? (es' & E' & He') Ht' Hs' Hl'].
  constructor; try congruence; [|auto..].
  exists (es ++ es'). split; [by rewrite E', E, app_assoc|by apply Forall_app].
Qed.

Lemma emit_frame rt e : plain_effect e → frame rt (emit rt e).
Proof. intros He. constructor; try done. exists [e]. split; [done|by constructor]. Qed.
Lemma try_emit_frame rt e : plain_effect e → frame rt (try_emit accepts rt e).
Proof. intros He. unfold try_emit. destruct (accepts _); [by apply emit_frame|done]. Qed.
Lemma note_frame rt now k d l : frame rt (note rt now k d l).
Proof.
  unfold note. destruct (diagnostics_enabled rt); [|done]. constructor; try done.
  - exists []. by rewrite app_nil_r.
  - apply push_log_inv.
Qed.
Lemma transmit_frame rt l e : plain_effect e → frame rt (transmit accepts rt l e).
Proof.
  intros He. unfold transmit. destruct (accepts _); [by apply emit_frame|].
  etrans; by apply emit_frame.
Qed.
Lemma forward_event_frame rt now e rt' acts :
  forward_event rt now e = Some (rt', acts) → frame rt rt'.
Proof.
  unfold forward_event. destruct (fw_handle _ _ _) as [[fw a]|]; [|done]. intros [= <- _].
  constructor; try done. exists []. by rewrite app_nil_r.
Qed.
Lemma pubsub_event_frame rt now e rt' acts :
  pubsub_event rt now e = Some (rt', acts) → frame rt rt'.
Proof.
  unfold pubsub_event. destruct (ps_handle _ _ _) as [[fw a]|]; [|done]. intros [= <- _].
  constructor; try done. exists []. by rewrite app_nil_r.
Qed.
Lemma schedule_frame rt t at_ : frame rt (set_inbox rt (schedule (inbox rt) t at_)).
Proof.
  constructor; try done; [exists []; by rewrite app_nil_r|..].
  - intros x Hx. cbn. rewrite heap_push_perm. by right.
  - apply heap_push_sorted.
Qed.

Lemma execute_pubsub_actions_frame l : ∀ rt now rt' acts,
  execute_pubsub_actions accepts rt now l = Some (rt', acts) → frame rt rt'.
Proof.
  induction l as [|a l IH]; intros rt now rt' acts; cbn [execute_pubsub_actions].
  { by intros [= <- _]. }
  destruct (execute_pubsub_action _ _ _ _) as [[rt1 x]|] eqn:E1; cbn [mbind option_bind]; [|done].
  destruct (execute_pubsub_actions _ _ _ _) as [[rt2 y]|] eqn:E2; cbn [mbind option_bind]; [|done].
  intros [= <- _]. apply IH in E2. etrans; [|exact E2].
  destruct a as [ds pr flow key c p|id m|ch|t n|r|r]; cbn [execute_pubsub_action] in E1.
  2-6: injection E1 as <- _; try done; try (by apply emit_frame); by apply try_emit_frame.
  destruct (if c then _ else _); cbn [mbind option_bind] in E1; [|done].
  by eapply forward_event_frame.
Qed.
Lemma execute_forward_action_frame rt now a rt' more :
  execute_forward_action accepts rt now a = Some (rt', more) → frame rt rt'.
Proof.
  destruct a as [l p|p|r p|l p|t at_]; cbn [execute_forward_action].
  - destruct (forward_frame p); intros [= <- _]; [by apply transmit_frame|done].
  - destruct (is_envelope _); [|intros [= <- _]; by apply emit_frame].
    destruct (pubsub_event rt now _) as [[rt1 x]|] eqn:E; cbn [mbind option_bind]; [|done].
    intros H%execute_pubsub_actions_frame. apply pubsub_event_frame in E. by etrans.
  - intros [= <- _]. by apply try_emit_frame.
  - intros [= <- _]. by apply emit_frame.
  - intros [= <- _]. apply schedule_frame.
Qed.
Lemma forward_loop_frame now n : ∀ s r,
  loop_nat (forward_actions_step accepts now) n s = inr (Some r) → frame s.1 r.
Proof.
  induction n as [|n IH]; intros [rt l] r; cbn [loop_nat]; [done|].
  destruct l as [|a l]; cbn [forward_actions_step]; [by intros [= <-]|].
  destruct (execute_forward_action _ _ _ _) as [[rt1 x]|] eqn:E; [|done].
  intros H%IH. apply execute_forward_action_frame in E. by etrans.
Qed.
Lemma execute_forward_actions_frame rt now l rt' :
  execute_forward_actions accepts rt now l = Some rt' → frame rt rt'.
Proof.
  unfold execute_forward_actions, run_loop. rewrite loop_pos_nat.
  destruct (loop_nat _ _ _) as [|r] eqn:E; [done|]. cbn. intros ->.
  exact (forward_loop_frame _ _ _ _ E).
Qed.
Lemma note_forward_frame l : ∀ rt now, frame rt (note_forward_actions rt now l).
Proof.
  induction l as [|a l IH]; intros rt now; cbn [note_forward_actions]; [done|].
  destruct (forward_action_summary a) as [[[k d] x]|]; [|apply IH].
  etrans; [apply note_frame|apply IH].
Qed.
Lemma forward_stage_frame rt now c rt' :
  forward_stage accepts rt now c = Some rt' → frame rt rt'.
Proof.
  destruct c as [fas pas]. unfold forward_stage.
  destruct (execute_pubsub_actions _ _ _ _) as [[rt1 x]|] eqn:E1; cbn [mbind option_bind]; [|done].
  destruct (execute_forward_actions _ _ _ _) as [rt2|] eqn:E2; cbn [mbind option_bind]; [|done].
  unfold publish_snapshot. intros E3.
  apply execute_pubsub_actions_frame in E1. apply execute_forward_actions_frame in E2.
  etrans; [exact E1|]. etrans; [apply note_forward_frame|]. etrans; [exact E2|].
  destruct (diagnostics_enabled rt2); [|by injection E3 as <-].
  destruct (queue_snapshots _ _); cbn [mbind option_bind] in E3; [|done]. injection E3 as <-.
  constructor; try done. exists []. by rewrite app_nil_r.
Qed.

(** Taking an input only changes the machines, the peers and the log. *)
Lemma set_peers_frame rt c x : frame rt (set_peers rt c x).
Proof. constructor; try done. exists []. by rewrite app_nil_r. Qed.
Lemma grants_frame rt now l n rt' x y rt1 :
  forward_event rt now (FeLinkCredit l n) = Some (rt1, x) →
  forward_event rt1 now (FeLinkWritable l) = Some (rt', y) → frame rt rt'.
Proof. intros ?%forward_event_frame ?%forward_event_frame. by etrans. Qed.
Lemma take_input_frame rt now i rt' taken :
  take_input rt now i = Some (rt', taken) → frame rt rt'.
Proof.
  assert (Hev : ∀ rt1 e (k : list ForwardAction → option (option ControlEvent * _)) , frame rt rt1 →
    ('(r, x) ← forward_event rt1 now e; Some (r, k x)) = Some (rt', taken) → frame rt rt').
  { intros rt1 e k Hf. destruct (forward_event rt1 now e) as [[r x]|] eqn:E; cbn [mbind option_bind]; [|done].
    intros [= <- _]. apply forward_event_frame in E. by etrans. }
  assert (Hgr : ∀ rt1 l n (k : list ForwardAction → option (option ControlEvent * _)), frame rt rt1 →
    ('(r, x) ← forward_event rt1 now (FeLinkCredit l n);
     '(r, y) ← forward_event r now (FeLinkWritable l); Some (r, k (x ++ y))) = Some (rt', taken) →
    frame rt rt').
  { intros rt1 l n k Hf. destruct (forward_event rt1 now _) as [[r x]|] eqn:E; cbn [mbind option_bind]; [|done].
    destruct (forward_event r now (FeLinkWritable l)) as [[r2 y]|] eqn:E2; cbn [mbind option_bind]; [|done].
    intros [= <- _]. etrans; [exact Hf|]. by eapply grants_frame. }
  destruct i as [[l peer|l|l f|l t c n]|[p|ds p]|e|[t|t]]; cbn [take_input].
  - destruct (peer_costs rt !! peer); [|intros [= <- _]; by apply emit_frame].
    apply (Hgr _ l MAX_PAYLOAD_LEN (λ x, Some (Some (CeLinkUp l peer l0), (x, [])))).
    etrans; [apply set_peers_frame|apply note_frame].
  - apply (Hev _ (FeLinkDown l) (λ x, Some (Some (CeLinkDown l), (x, [])))).
    etrans; [apply set_peers_frame|apply note_frame].
  - case_bool_decide.
    + destruct (decode_forward_frame f) as [[p|e]|]; cbn [mbind option_bind]; [| |done].
      * by apply (Hev _ (FeInbound l p) (λ x, Some (None, (x, [])))).
      * intros [= <- _]. by apply emit_frame.
    + destruct (decode_control_frame f); intros [= <- _]; [done|by apply emit_frame].
  - case_bool_decide; [|by intros [= <- _]].
    by apply (Hgr _ l n (λ x, Some (None, (x, [])))).
  - apply (Hev _ (FeOutbound p) (λ x, Some (None, (x, [])))), note_frame.
  - apply (Hev _ (FeOutboundMulticast ds p) (λ x, Some (None, (x, [])))), note_frame.
  - destruct (pubsub_event rt now e) as [[r x]|] eqn:E; cbn; [|done]. intros [= <- _].
    by eapply pubsub_event_frame.
  - by intros [= <- _].
  - by apply (Hev _ (FeTimer t) (λ x, Some (None, (x, [])))).
Qed.

(** ** Iterations *)

Lemma process_ok rt now i :
  rt_ok rt → input_ok (rt_node rt) i → batches rt + input_downs i < 2 ^ 64 →
  my_seq (plane rt) < u_max 64 → spf_generation (plane rt) < u_max 64 →
  ∃ rt', process accepts rt now i = Some rt' ∧
    (∃ left, progress rt [] rt' left (input_bytes i) (input_writes i) (input_downs i)) ∧
    my_seq (plane rt') ≤ my_seq (plane rt) + 1 ∧
    spf_generation (plane rt') ≤ spf_generation (plane rt) + 1.
Proof.
  intros Hok Hi Hb Hs Hg.
  assert (0 ≤ input_downs i) by (destruct i as [[]| | |]; cbn; lia).
  destruct (take_input_ok rt now i Hok Hi) as (rt1 & taken & E & Hpl & Ht); [lia|].
  unfold process. rewrite E. cbn [mbind option_bind]. destruct taken as [[ev [fas pas]]|]; cbn in Ht.
  2: { exists rt1. split; [done|]. split; [by eexists|]. rewrite Hpl. lia. }
  destruct Ht as [Hp Hsend]. pose proof (pg_node _ _ _ _ _ _ _ Hp) as Hn.
  pose proof (pg_batches _ _ _ _ _ _ _ Hp) as Hb1.
  destruct (control_stage_ok accepts rt1 now (final_control_event ev pas) fas pas (pg_ok _ _ _ _ _ _ _ Hp))
    as (rt2 & fas2 & E2 & Hp2 & Hs2 & Hg2); [lia|by rewrite Hpl|by rewrite Hpl|].
  cbn [snd]. rewrite E2. cbn [mbind option_bind]. rewrite Hpl in Hs2, Hg2.
  pose proof (progress_quiet _ _ _ _ _ _ _ _ _ Hp Hp2) as Hp12.
  destruct (running rt2); [|exists rt2; split; [done|]; split; [by eexists|done]].
  destruct (forward_stage_ok accepts rt2 now fas2 pas) as (rt3 & E3 & Hp3).
  { apply (pg_ok _ _ _ _ _ _ _ Hp2). }
  { rewrite (pg_node _ _ _ _ _ _ _ Hp12). by apply (pg_safe _ _ _ _ _ _ _ Hp12). }
  { by rewrite (pg_node _ _ _ _ _ _ _ Hp12). }
  { pose proof (pg_batches _ _ _ _ _ _ _ Hp12). lia. }
  exists rt3. split; [exact E3|]. split; [exists []; by eapply progress_quiet|].
  by rewrite (fr_plane _ _ (forward_stage_frame _ _ _ _ E3)).
Qed.

(** The inbox yields what woke it, or the first timer. *)
Lemma recv_spec ib checked_at wake i ib' :
  recv ib checked_at wake = (Some i, ib') →
  (wake = WkInput i ∧ ib' = ib) ∨
  (∃ at_ n t, i = RiTimer t ∧ timers ib = (at_, (n, t)) :: timers ib' ∧
     next_timer_sequence ib' = next_timer_sequence ib ∧ (at_ ≤ checked_at ∨ wake = WkTimer)).
Proof.
  unfold recv, pop_timer, heap_pop. destruct (timers ib) as [|[at_ [n t]] rest] eqn:E.
  - destruct wake; intros [= <- <-]; auto.
  - destruct (Z.leb_spec at_ checked_at).
    + intros [= <- <-]. right. exists at_, n, t. auto.
    + destruct wake; intros [= <- <-]; auto. right. exists at_, n, t. auto.
Qed.
End Runtime.
