(* ===== verification/RuntimeTheorems.v ===== *)
(** * Theorems about the runtime (crates/mb-runtime)

    The composition of the control plane, the forwarder and Pub/Sub along
    every run of the loop. *)

From Stdlib Require Import Strings.Byte Strings.String.
From S2P Require Export Prelude Ord Bytes Text SeqStore Types Proto Wire WirePackets PubSub PubSubProps PubSubTheorems Forward ForwardSched ForwardInv ForwardRoute ForwardProps ForwardTheorems RuntimeCodec RuntimeCodecProps RuntimeLog Runtime RuntimeProps RuntimeFrame ControlTypes Spf Control ControlRoutes ControlInv ControlProps ControlTimers ControlActions.
Open Scope Z_scope.

(** ** Traces *)

(** What the types say of a stimulus. *)
Definition stim_ok (nd : NodeId) (s : Stimulus) : Prop :=
  match s with StIterate _ _ (WkInput i) => input_ok nd i | _ => True end.

(** The links of a list of inputs: how often one came up, and what the
    transport reported as sent on it. *)
Definition ups (l : LinkId) (ins : list RuntimeInput) : Z :=
  zsum ((λ i, match i with RiLink (LeUp l' _) => if decide (l' = l) then 1 else 0 | _ => 0 end) <$> ins).
Definition confirmed_bytes (l : LinkId) (ins : list RuntimeInput) : Z :=
  zsum ((λ i, match i with
              | RiLink (LeSent l' FtForward _ n) => if decide (l' = l) then n else 0
              | _ => 0
              end) <$> ins).
Definition confirmed_frames (l : LinkId) (ins : list RuntimeInput) : Z :=
  zsum ((λ i, match i with
              | RiLink (LeSent l' FtForward _ _) => if decide (l' = l) then 1 else 0
              | _ => 0
              end) <$> ins).
Lemma inputs_granted l ins :
  zsum ((λ i, input_bytes i l) <$> ins) = MAX_PAYLOAD_LEN * ups l ins + confirmed_bytes l ins ∧
  zsum ((λ i, input_writes i l) <$> ins) = ups l ins + confirmed_frames l ins.
Proof.
  unfold ups, confirmed_bytes, confirmed_frames.
  induction ins as [|i ins [IH1 IH2]]; [done|]. rewrite !fmap_cons, !zsum_cons, IH1, IH2.
  destruct i as [[l' p|l'|l' f|l' [] c n]| | |]; cbn [input_bytes input_writes]; try lia;
    destruct (decide (l' = l)); lia.
Qed.

Section Runtime.
Context {St : Type} `{!SeqStore St}.
Context `{!Prost PbLsa, !Prost PbSignedLsa, !Prost PbDigest, !Prost PbDigestReq}.
Context `{!Prost WireEnvelope}.
Implicit Types rt : Runtime St.

(** The input a stimulus makes the loop take. *)
Definition next_input rt (s : Stimulus) : option RuntimeInput :=
  match s with
  | StIterate checked_at _ wake =>
      if running rt then (recv (inbox rt) checked_at wake).1 else None
  | _ => None
  end.
Definition option_list {A} (o : option A) : list A := match o with Some a => [a] | None => [] end.
(** The inputs taken along a run. *)
Fixpoint consumed (accepts : nat → bool) rt (l : list Stimulus) : list RuntimeInput :=
  match l with
  | [] => []
  | s :: l =>
      option_list (next_input rt s) ++
      match stimulate accepts rt s with Some rt => consumed accepts rt l | None => [] end
  end.

Section Run.
Context (accepts : nat → bool).

(** Sums over at most one input. *)
Definition total (f : RuntimeInput → Z) (o : option RuntimeInput) : Z :=
  match o with Some i => f i | None => 0 end.

Lemma stimulate_ok rt s :
  rt_ok rt → stim_ok (rt_node rt) s → batches rt + 1 < 2 ^ 64 →
  my_seq (plane rt) < u_max 64 → spf_generation (plane rt) < u_max 64 →
  ∃ rt', stimulate accepts rt s = Some rt' ∧
    (∃ left, progress rt [] rt' left (λ l, total (λ i, input_bytes i l) (next_input rt s))
       (λ l, total (λ i, input_writes i l) (next_input rt s)) 1) ∧
    my_seq (plane rt') ≤ my_seq (plane rt) + 1 ∧
    spf_generation (plane rt') ≤ spf_generation (plane rt) + 1.
Proof.
  intros Hok Hs Hb Hsq Hg.
  assert (Hidle : ∀ rt', same_machines rt rt' → effects rt' = effects rt →
    progress rt [] rt' [] (λ _, 0) (λ _, 0) 1).
  { intros rt' Hm He. eapply progress_weaken; [apply (progress_machines rt rt' [])|..];
      try done. intros l. by rewrite He. }
  destruct s as [checked_at now wake|peer cost|]; cbn [stimulate next_input].
  2-3: eexists; split; [reflexivity|]; split; [exists []; by apply Hidle|cbn; lia].
  unfold iterate. destruct (running rt); cbn [negb].
  2: { exists rt. split; [done|]. split; [exists []; by apply Hidle|lia]. }
  destruct (recv (inbox rt) checked_at wake) as [[i|] ib] eqn:Er; cbn [fst total].
  2: { eexists. split; [reflexivity|]. split; [exists []; by apply Hidle|cbn; lia]. }
  assert (Hi : input_ok (rt_node rt) i).
  { destruct (recv_spec _ _ _ _ _ Er) as [[-> _]|(? & ? & ? & -> & _)]; [exact Hs|done]. }
  assert (progress rt [] (set_inbox rt ib) [] (λ _, 0) (λ _, 0) 0) as Hp.
  { by apply progress_machines. }
  assert (input_downs i ≤ 1) by (destruct i as [[]| | |]; cbn; lia).
  destruct (process_ok accepts (set_inbox rt ib) now i (pg_ok _ _ _ _ _ _ _ Hp))
    as (rt' & -> & (left & Hp') & Hc); [done|unfold batches in *; cbn; lia|done..|].
  exists rt'. split; [done|]. split; [|exact Hc]. exists left.
  eapply progress_weaken; [by eapply quiet_progress|done..].
Qed.
Lemma sent_nonneg l fas : 0 ≤ sent_bytes l fas ∧ 0 ≤ sent_count l fas.
Proof.
  unfold sent_bytes, sent_count. induction fas as [|a fas [IH1 IH2]]; [done|].
  rewrite !fmap_cons, !zsum_cons. destruct a; try lia. case_decide; [|lia].
  pose proof (encoded_len_pos packet). lia.
Qed.
(** Actions that a stopped loop no longer executes. *)
Lemma progress_forget rt rt' left gb gw d :
  progress rt [] rt' left gb gw d → progress rt [] rt' [] gb gw d.
Proof.
  intros [? ? ? Hh Hs ?]. constructor; try done; intros l; destruct (sent_nonneg l left).
  - specialize (Hh l). unfold held in *. change (sent_bytes l []) with 0 in *. lia.
  - specialize (Hs l). unfold slots in *. change (sent_count l []) with 0 in *. lia.
Qed.

Lemma run_ok l : ∀ rt,
  rt_ok rt → Forall (stim_ok (rt_node rt)) l → batches rt + zlen l < 2 ^ 64 →
  my_seq (plane rt) + zlen l ≤ u_max 64 → spf_generation (plane rt) + zlen l ≤ u_max 64 →
  ∃ rt', rt_run accepts rt l = Some rt' ∧
    progress rt [] rt' [] (λ k, zsum ((λ i, input_bytes i k) <$> consumed accepts rt l))
      (λ k, zsum ((λ i, input_writes i k) <$> consumed accepts rt l)) (zlen l).
Proof.
  induction l as [|s l IH]; intros rt Hok HF Hb Hs Hg; cbn [rt_run consumed].
  { exists rt. split; [done|]. by apply progress_refl. }
  apply Forall_cons in HF as [Hst HF]. rewrite zlen_cons in *. pose proof (zlen_nonneg l).
  destruct (stimulate_ok rt s Hok Hst) as (rt1 & -> & (left & Hp%progress_forget) & Hs1 & Hg1); [lia..|].
  cbn [mbind option_bind]. pose proof (pg_batches _ _ _ _ _ _ _ Hp).
  destruct (IH rt1) as (rt2 & -> & Hp2).
  { apply (pg_ok _ _ _ _ _ _ _ Hp). }
  { by rewrite (pg_node _ _ _ _ _ _ _ Hp). }
  1-3: lia.
  exists rt2. split; [done|].
  eapply progress_weaken; [by eapply progress_trans| | |lia]; intros k; cbn;
    rewrite fmap_app, zsum_app; destruct (next_input rt s); cbn; lia.
Qed.
End Run.
(** ** The start of a runtime *)

Lemma spawn_Ok config endpoint store pol store' rt :
  spawn_with_seq_store_and_pubsub config endpoint store pol = (store', Ok rt) →
  ∃ n, store_load store = (store', Ok n) ∧ n ≠ u_max 64 ∧ rt_node rt = config_node config ∧
    plane rt = with_auth_and_seq (config_node config) (config_epoch config) n ∧
    forwarder rt = Forwarder_new (config_node config) RouteTable_default ∧
    pubsub rt = PubSub_new (config_node config) pol ∧ inbox rt = RuntimeInbox_new ∧
    seq_store rt = store' ∧ running rt = true ∧ effects rt = [] ∧ diagnostics_enabled rt = false.
Proof.
  unfold spawn_with_seq_store_and_pubsub. case_decide; [done|].
  destruct (store_load store) as [st [n|e]]; cbn [map_err]; [|done].
  destruct (Z.eqb_spec n (u_max 64)); [done|]. intros [= <- <-]. exists n. by split_and!.
Qed.

Lemma spawn_ok config endpoint store pol store' rt :
  spawn_with_seq_store_and_pubsub config endpoint store pol = (store', Ok rt) → rt_ok rt.
Proof.
  intros (n & _ & _ & Hn & Hp & Hf & Hps & _)%spawn_Ok.
  constructor; rewrite ?Hn, ?Hp, ?Hf, ?Hps; try done.
  apply initial_ok.
Qed.
End Runtime.

(** ** Safety *)

(** C14: A runtime handles every sequence of stimuli without a panic and without
    an endless loop, however timers and inputs are interleaved, and whether or
    not the transport and the channels accept what it hands them, under two
    assumptions: no packet for the node that carries a Pub/Sub envelope, and no
    Pub/Sub input, names the node itself as its source (a packet that does can
    make a later publication panic), inputs of the application are well typed;
    and the 64-bit sequence number has room for as many LSAs as there are
    stimuli.  The composition keeps the invariants of the three machines: what
    the control plane publishes is valid for discovery, what Pub/Sub sends fits
    the forwarder, and what the forwarder delivers suits Pub/Sub. *)
Theorem runtime_run_safe {St} `{!SeqStore St}
    `{!Prost PbLsa, !Prost PbSignedLsa, !Prost PbDigest, !Prost PbDigestReq, !Prost WireEnvelope}
    accepts config endpoint (store store' : St) pol rt l :
  spawn_with_seq_store_and_pubsub config endpoint store pol = (store', Ok rt) →
  Forall (stim_ok (config_node config)) l →
  my_seq (plane rt) + zlen l ≤ u_max 64 → 0 ≤ my_seq (plane rt) →
  ∃ rt', rt_run accepts rt l = Some rt' ∧ rt_ok rt'.
Proof.
  intros Hsp HF Hlen H0. pose proof (spawn_ok _ _ _ _ _ _ Hsp) as Hok.
  apply spawn_Ok in Hsp as (n & _ & _ & Hn & Hp & Hf & _).
  assert (batches rt = 0) as Hb by (unfold batches; by rewrite Hf).
  assert (spf_generation (plane rt) = 0) as Hg by by rewrite Hp.
  destruct (run_ok accepts l rt Hok) as (rt' & E & Hpg);
    [by rewrite Hn|unfold u_max in *; lia..|].
  exists rt'. split; [done|apply (pg_ok _ _ _ _ _ _ _ Hpg)].
Qed.

(** C18: Back pressure of the transport is respected.  Along every run (under the
    assumptions of the safety theorem: no packet or input forges the node's own
    source, and the sequence numbers last) and on every link, the forward frames
    handed to the transport and not yet reported as sent are at most one, and at
    most [MAX_PAYLOAD_LEN] bytes, for each time the link came up. *)
Theorem runtime_flow_control {St} `{!SeqStore St}
    `{!Prost PbLsa, !Prost PbSignedLsa, !Prost PbDigest, !Prost PbDigestReq, !Prost WireEnvelope}
    accepts config endpoint (store store' : St) pol rt l rt' k :
  spawn_with_seq_store_and_pubsub config endpoint store pol = (store', Ok rt) →
  Forall (stim_ok (config_node config)) l →
  my_seq (plane rt) + zlen l ≤ u_max 64 → 0 ≤ my_seq (plane rt) →
  rt_run accepts rt l = Some rt' →
  let ins := consumed accepts rt l in
  frame_bytes k (effects rt') - confirmed_bytes k ins ≤ MAX_PAYLOAD_LEN * ups k ins ∧
  frame_count k (effects rt') - confirmed_frames k ins ≤ ups k ins.
Proof.
  intros Hsp HF Hlen H0 Hr ins. pose proof (spawn_ok _ _ _ _ _ _ Hsp) as Hok.
  apply spawn_Ok in Hsp as (n & _ & _ & Hn & Hp & Hf & _ & _ & _ & _ & He & _).
  assert (batches rt = 0) as Hb by (unfold batches; by rewrite Hf).
  assert (spf_generation (plane rt) = 0) as Hg by by rewrite Hp.
  destruct (run_ok accepts l rt Hok) as (rt1 & E & Hpg);
    [by rewrite Hn|unfold u_max in *; lia..|].
  rewrite Hr in E. injection E as <-.
  destruct (inputs_granted k ins) as [Hib Hiw].
  pose proof (pg_held _ _ _ _ _ _ _ Hpg k) as Hh. pose proof (pg_slots _ _ _ _ _ _ _ Hpg k) as Hs.
  unfold held, slots in Hh, Hs. rewrite He, Hf in Hh, Hs. fold ins in Hh, Hs.
  pose proof (credit_nonneg (forwarder rt') k (ro_fw _ (pg_ok _ _ _ _ _ _ _ Hpg))).
  pose proof (permits_nonneg (forwarder rt') k).
  change (credit (Forwarder_new _ _) k) with 0 in Hh. change (permits (Forwarder_new _ _) k) with 0 in Hs.
  change (sent_bytes k []) with 0 in Hh. change (sent_count k []) with 0 in Hs.
  change (frame_bytes k []) with 0 in Hh. change (frame_count k []) with 0 in Hs. lia.
Qed.
