(* ===== verification/RuntimePersist.v ===== *)
(** * Sequence numbers survive restarts (crates/mb-runtime, mb-control)

    The order in which the runtime persists sequence numbers and sends the
    LSAs that carry them, against the contract of the store. *)

From Stdlib Require Import Strings.Byte Strings.String.
From S2P Require Export Prelude Ord Bytes Text SeqStore Types Proto Wire WirePackets PubSub PubSubProps PubSubTheorems Forward ForwardSched ForwardInv ForwardRoute ForwardProps ForwardTheorems RuntimeCodec RuntimeCodecProps RuntimeLog Runtime RuntimeProps RuntimeFrame RuntimeTheorems ControlTypes Spf Control ControlRoutes ControlInv ControlProps ControlTimers ControlActions.
Open Scope Z_scope.

(** ** The order of effects *)

(** The last number handed to the store, [floor] before the first. *)
Fixpoint last_persisted (floor : Z) (es : list Effect) : Z :=
  match es with
  | [] => floor
  | EfPersist n :: es => last_persisted n es
  | _ :: es => last_persisted floor es
  end.
(** The number of an LSA of [nd] handed to the transport. *)
Definition own_seq (nd : NodeId) (e : Effect) : option Z :=
  match e with
  | EfControl _ (CfLsa m) _ => if decide (origin (lsa m) = nd) then Some (seq_no (lsa m)) else None
  | _ => None
  end.
(** Every own LSA is sent after its number was persisted. *)
Definition durable (nd : NodeId) (floor : Z) (es : list Effect) : Prop :=
  ∀ pre e post n, es = pre ++ e :: post → own_seq nd e = Some n → n ≤ last_persisted floor pre.

Lemma last_persisted_app f a b : last_persisted f (a ++ b) = last_persisted (last_persisted f a) b.
Proof. revert f. induction a as [|e a IH]; intros f; [done|]. destruct e; cbn; apply IH. Qed.
Lemma last_persisted_plain f es : Forall plain_effect es → last_persisted f es = f.
Proof. induction 1 as [|e es He _ IH]; [done|]. by destruct e. Qed.
Lemma own_seq_plain nd e : plain_effect e → own_seq nd e = None.
Proof. by destruct e. Qed.
Lemma durable_snoc nd f es e :
  durable nd f es → (∀ n, own_seq nd e = Some n → n ≤ last_persisted f es) →
  durable nd f (es ++ [e]).
Proof.
  intros Hd He pre e' post n E Hn. destruct post as [|x post] using rev_ind.
  - apply app_inj_tail in E as [-> ->]. by apply He.
  - rewrite app_comm_cons, app_assoc in E. apply app_inj_tail in E as [E _]. by eapply Hd.
Qed.
Lemma durable_plain nd f es es' :
  durable nd f es → Forall plain_effect es' → durable nd f (es ++ es').
Proof.
  intros Hd. induction es' as [|e es' IH] using rev_ind; intros HF; [by rewrite app_nil_r|].
  apply Forall_app in HF as [HF [He _]%Forall_cons]. rewrite app_assoc. apply durable_snoc; [by apply IH|].
  intros n. by rewrite own_seq_plain.
Qed.

Section Runtime.
Context {St : Type} `{!SeqStore St, !SeqStoreLaws St}.
Context `{!Prost PbLsa, !Prost PbSignedLsa, !Prost PbDigest, !Prost PbDigestReq}.
Context `{!Prost WireEnvelope}.
Context (accepts : nat → bool) (floor : Z) (nd : NodeId).
Implicit Types rt : Runtime St.

(** ** The invariant *)

Definition at_least (s : St) (n : Z) : Prop := ∃ m, stored s = Some m ∧ n ≤ m.

(** While the loop runs, the store holds the last persisted number, and the
    control plane is not ahead of it. *)
Definition in_step rt : Prop :=
  running rt = true → stored (seq_store rt) = Some (last_persisted floor (effects rt)) ∧
    my_seq (plane rt) ≤ last_persisted floor (effects rt).
Record stored_ok rt : Prop := {
  so_store : store_ok (seq_store rt);
  so_durable : durable (rt_node rt) floor (effects rt);
  so_sent e n : e ∈ effects rt → own_seq (rt_node rt) e = Some n → at_least (seq_store rt) n;
}.
Record persist_inv rt : Prop := {
  pi_node : rt_node rt = nd;
  pi_cp : cp_ok (plane rt);
  pi_me : me (plane rt) = rt_node rt;
  pi_seq : is_uint 64 (my_seq (plane rt));
  pi_stored : stored_ok rt;
  pi_step : in_step rt;
}.

Lemma stored_ok_frame rt rt' : frame rt rt' → stored_ok rt → stored_ok rt'.
Proof.
  intros [_ Hn Hs _ (es & E & HF) _ _ _] [Ho Hd Hsent]. constructor; rewrite ?Hn, ?Hs, ?E; [done|..].
  - by apply durable_plain.
  - intros e n [Hin|Hin]%elem_of_app; [by apply Hsent|]. rewrite Forall_forall in HF.
    by rewrite own_seq_plain by by apply HF.
Qed.
Lemma in_step_frame rt rt' : frame rt rt' → in_step rt → in_step rt'.
Proof.
  intros [Hp _ Hs Hr (es & E & HF) _ _ _] Hi. unfold in_step. rewrite Hp, Hs, Hr, E, last_persisted_app.
  by rewrite (last_persisted_plain _ es).
Qed.
Lemma persist_inv_frame rt rt' : frame rt rt' → persist_inv rt → persist_inv rt'.
Proof.
  intros Hf [? ? ? ? Hs Hi]. pose proof Hf as [Hp Hn _ _ _ _ _ _]. constructor; rewrite ?Hp, ?Hn; try done.
  - by eapply stored_ok_frame.
  - by eapply in_step_frame.
Qed.

(** ** The control plane's actions *)

(** An LSA handed to the transport by a runtime in step. *)
Lemma transmit_stored rt l f w :
  running rt = true → stored_ok rt → in_step rt → plain_action (plane rt) (CaSend l f) →
  me (plane rt) = rt_node rt →
  stored_ok (transmit accepts rt l (EfControl l f w)) ∧
  in_step (transmit accepts rt l (EfControl l f w)).
Proof.
  intros Hr [Ho Hd Hs] Hi Hp Hme. destruct (Hi Hr) as [Hst Hle].
  assert (Hown : ∀ n, own_seq (rt_node rt) (EfControl l f w) = Some n →
    n ≤ last_persisted floor (effects rt)).
  { intros n. cbn. destruct f as [m| |]; [|done..]. case_decide as Horg; [|done]. intros [= <-].
    rewrite <-Hme in Horg. destruct (Hp Horg) as [_ ->]. done. }
  assert (stored_ok (emit rt (EfControl l f w)) ∧ in_step (emit rt (EfControl l f w))) as [H1 H2].
  { split.
    - constructor; cbn; [done|by apply durable_snoc|].
      intros e n [Hin| ->%list_elem_of_singleton]%elem_of_app Hn; [by eapply Hs|].
      exists (last_persisted floor (effects rt)). split; [done|by apply Hown].
    - intros _. cbn. by rewrite last_persisted_app. }
  unfold transmit. destruct (accepts _); [done|].
  pose proof (emit_frame (emit rt (EfControl l f w)) (EfClose l) I) as Hf.
  split; [by eapply stored_ok_frame|by eapply in_step_frame].
Qed.

Lemma plain_action_inv rt now c a rt' c' :
  running rt = true → stored_ok rt → in_step rt → me (plane rt) = rt_node rt →
  plain_action (plane rt) a → execute_control_action accepts rt now c a = Some (rt', c') →
  running rt' = true ∧ stored_ok rt' ∧ in_step rt' ∧ rt_node rt' = rt_node rt ∧ plane rt' = plane rt.
Proof.
  intros Hr Hs Hi Hme Hp E.
  assert (Hfr : ∀ r, frame rt r →
    running r = true ∧ stored_ok r ∧ in_step r ∧ rt_node r = rt_node rt ∧ plane r = plane rt).
  { intros r Hf. pose proof Hf as [? ? ? Hr' _ _ _ _]. rewrite Hr'.
    split_and!; [done|by eapply stored_ok_frame|by eapply in_step_frame|done|done]. }
  destruct c as [fas pas]. destruct a as [l f|t at_|tab|ads|n]; cbn [execute_control_action] in E.
  - destruct (encode_control_frame f) as [w|]; [|injection E as <- _; by apply Hfr].
    destruct (control_frame_summary f) as [k d]. injection E as <- _.
    destruct (Hfr _ (note_frame rt now k d (Some l))) as (Hr1 & Hs1 & Hi1 & Hn1 & Hp1).
    destruct (transmit_stored _ l f w Hr1 Hs1 Hi1) as [H1 H2]; [by rewrite Hp1|congruence|].
    destruct (transmit_machines accepts (note rt now k d (Some l)) l (EfControl l f w)) as (E1 & E2 & _).
    rewrite E1, E2. split_and!; [|done..]. unfold transmit. by destruct (accepts _).
  - injection E as <- _. apply Hfr, schedule_frame.
  - destruct (forward_event _ now _) as [[r x]|] eqn:Ef; cbn in E; [|done]. injection E as <- _.
    apply Hfr. apply forward_event_frame in Ef. etrans; [apply note_frame|exact Ef].
  - destruct (discovery_from_topic_ads ads); cbn [mbind option_bind] in E; [|done].
    destruct (pubsub_event rt now _) as [[r x]|] eqn:Ef; cbn in E; [|done]. injection E as <- _.
    apply Hfr. by eapply pubsub_event_frame.
  - done.
Qed.
Lemma plain_actions_inv l : ∀ rt now c rt' c',
  running rt = true → stored_ok rt → in_step rt → me (plane rt) = rt_node rt →
  Forall (plain_action (plane rt)) l →
  execute_control_actions accepts rt now c l = Some (rt', c') →
  stored_ok rt' ∧ in_step rt' ∧ rt_node rt' = rt_node rt.
Proof.
  induction l as [|a l IH]; intros rt now c rt' c' Hr Hs Hi Hme HF; cbn [execute_control_actions].
  { by intros [= <- _]. }
  apply Forall_cons in HF as [Ha HF].
  destruct (execute_control_action _ _ _ _ _) as [[rt1 c1]|] eqn:E; cbn [mbind option_bind]; [|done].
  destruct (plain_action_inv _ _ _ _ _ _ Hr Hs Hi Hme Ha E) as (Hr1 & Hs1 & Hi1 & Hn1 & Hp1).
  rewrite Hr1. intros E2. rewrite <-Hn1. eapply IH; [done..| | |exact E2]; rewrite Hp1; congruence.
Qed.

(** [PersistSeq] puts the runtime in step, or stops it. *)
Lemma persist_inv_action rt now c n rt' c' :
  stored_ok rt → is_uint 64 n → my_seq (plane rt) = n →
  execute_control_action accepts rt now c (CaPersistSeq n) = Some (rt', c') →
  stored_ok rt' ∧ in_step rt' ∧ rt_node rt' = rt_node rt ∧ plane rt' = plane rt.
Proof.
  intros [Ho Hd Hs] Hn Hseq E. destruct c as [fas pas]. cbn [execute_control_action] in E.
  destruct (store_persist (seq_store rt) n) as [st r] eqn:Ep.
  destruct (store_persist_law _ _ _ _ Ho Hn Ep) as [Ho' Hr].
  assert (Hmono : ∀ k, at_least (seq_store rt) k → at_least st k).
  { intros k (m & Hm & Hk). destruct r.
    - destruct Hr as (Hst & m' & Hm' & Hle). exists n. split; [done|]. rewrite Hm in Hm'.
      injection Hm' as <-. lia.
    - exists m. by rewrite Hr. }
  assert (Hst : stored_ok (emit (set_seq_store rt st) (EfPersist n))).
  { constructor; cbn; [done|by apply durable_snoc|].
    intros e k [Hin| ->%list_elem_of_singleton]%elem_of_app Hk; [|done]. by eapply Hmono, Hs. }
  injection E as <- _. destruct r.
  - split_and!; [done| |done..]. intros _. cbn. rewrite last_persisted_app. cbn.
    destruct Hr as [-> _]. split; [done|lia].
  - split_and!; [|by intros ?|done..]. by destruct Hst.
Qed.

Lemma control_stage_inv rt now event c rt' c' :
  running rt = true → persist_inv rt → control_stage accepts rt now event c = Some (rt', c') →
  persist_inv rt'.
Proof.
  intros Hr [Hnd Hcp Hme Hseq Hs Hi]. unfold control_stage.
  destruct event as [e|]; [|by intros [= <- _]].
  destruct (cp_handle _ _ _) as [[cp acts]|] eqn:He; cbn [mbind option_bind]; [|done]. intros E.
  pose proof (handle_ok _ _ _ _ _ Hcp He) as [Hcp' [Hme' _]].
  pose proof (execute_control_actions_plane _ _ _ _ _ _ _ E) as Hpl. cbn in Hpl.
  assert (Hs' : stored_ok (set_plane rt cp)) by (destruct Hs; by constructor).
  assert (∀ r, stored_ok r → in_step r → rt_node r = rt_node rt → plane r = cp →
    is_uint 64 (my_seq cp) → persist_inv r) as Hfin.
  { intros r ?? Hn Hp ?. constructor; rewrite ?Hp; done || congruence. }
  destruct (handle_actions _ _ _ _ _ Hcp He) as [[Hsq HF]|(Hsq & Hmax & rest & -> & HF)].
  - destruct (plain_actions_inv acts (set_plane rt cp) now c rt' c') as (H1 & H2 & H3); try done.
    + intros _. cbn. rewrite Hsq. by apply Hi.
    + cbn. congruence.
    + apply Hfin; try done. by rewrite Hsq.
  - assert (is_uint 64 (my_seq cp)) as Hu by (unfold is_uint, u_max in *; lia).
    cbn [execute_control_actions] in E.
    destruct (execute_control_action _ _ _ _ _) as [[rt1 c1]|] eqn:E1 in E; cbn [mbind option_bind] in E; [|done].
    destruct (persist_inv_action (set_plane rt cp) now c (my_seq cp) rt1 c1) as (H1 & H2 & H3 & H4);
      [done..|]. cbn in H3, H4.
    destruct (running rt1) eqn:Hr1; [|injection E as <- _; by apply Hfin].
    destruct (plain_actions_inv rest rt1 now c1 rt' c') as (K1 & K2 & K3); try done.
    + rewrite H4. congruence.
    + by rewrite H4.
    + apply Hfin; try done. congruence.
Qed.

Lemma process_inv rt now i rt' :
  running rt = true → persist_inv rt → process accepts rt now i = Some rt' → persist_inv rt'.
Proof.
  intros Hr Hi. unfold process.
  destruct (take_input rt now i) as [[rt1 taken]|] eqn:E1; cbn [mbind option_bind]; [|done].
  apply take_input_frame in E1. pose proof (persist_inv_frame _ _ E1 Hi) as Hi1.
  destruct taken as [[ev c]|]; [|by intros [= <-]].
  destruct (control_stage _ _ _ _ _) as [[rt2 c2]|] eqn:E2; cbn [mbind option_bind]; [|done].
  apply control_stage_inv in E2; [|by rewrite (fr_running _ _ E1)|done].
  destruct (running rt2); [|by intros [= <-]].
  intros E3%forward_stage_frame. by eapply persist_inv_frame.
Qed.

Lemma stimulate_inv rt s rt' :
  persist_inv rt → stimulate accepts rt s = Some rt' → persist_inv rt'.
Proof.
  assert (Hx : ∀ r, plane r = plane rt → rt_node r = rt_node rt → seq_store r = seq_store rt →
    effects r = effects rt → (running r = true → running rt = true) → persist_inv rt → persist_inv r).
  { intros r Hp Hn Hst He Hr [? ? ? ? [] Hi].
    constructor; rewrite ?Hp, ?Hn; try done; [constructor; rewrite ?Hst, ?Hn, ?He; done|].
    intros Hrun. rewrite Hst, He, Hp. by apply Hi, Hr. }
  intros Hi. destruct s as [checked_at now wake|peer cost|]; cbn [stimulate].
  2-3: intros [= <-]; by apply Hx.
  unfold iterate. destruct (running rt) eqn:Hr; cbn [negb]; [|by intros [= <-]].
  destruct (recv (inbox rt) checked_at wake) as [[i|] ib]; [|intros [= <-]; by apply Hx].
  apply (process_inv (set_inbox rt ib) now i); [exact Hr|by apply Hx].
Qed.
Lemma run_inv l : ∀ rt rt', persist_inv rt → rt_run accepts rt l = Some rt' → persist_inv rt'.
Proof.
  induction l as [|s l IH]; intros rt rt' Hi; cbn [rt_run]; [by intros [= <-]|].
  destruct (stimulate accepts rt s) as [rt1|] eqn:E; cbn [mbind option_bind]; [|done].
  apply stimulate_inv in E; [by apply IH|done].
Qed.
End Runtime.

(** ** Restarts *)

(** C15: Sequence numbers are never reused across restarts.  Along every run of
    a runtime over a store that keeps its contract, an LSA of the node
    itself is handed to the transport only after its number was handed to
    the store, and its number is at most the number the store then holds;
    so that a runtime started again from the store, however the first one
    ended, begins at or above every number sent and originates a newer one. *)
Theorem own_lsas_persisted {St} `{!SeqStore St, !SeqStoreLaws St}
    `{!Prost PbLsa, !Prost PbSignedLsa, !Prost PbDigest, !Prost PbDigestReq, !Prost WireEnvelope}
    accepts config endpoint (store store' : St) pol rt l rt' :
  store_ok store →
  spawn_with_seq_store_and_pubsub config endpoint store pol = (store', Ok rt) →
  rt_run accepts rt l = Some rt' →
  durable (config_node config) (my_seq (plane rt)) (effects rt') ∧
  (∀ e n, e ∈ effects rt' → own_seq (config_node config) e = Some n →
     at_least (seq_store rt') n) ∧
  (∀ store2 pol2 rt2 epoch2 costs2,
     spawn_with_seq_store_and_pubsub
       {| config_node := config_node config; config_epoch := epoch2; config_peer_costs := costs2 |}
       endpoint (seq_store rt') pol2 = (store2, Ok rt2) →
     ∀ e n, e ∈ effects rt' → own_seq (config_node config) e = Some n →
       n ≤ my_seq (plane rt2) < u_max 64).
Proof.
  intros Ho Hsp Hrun. apply spawn_Ok in Hsp as
    (n0 & Hload & Hmax & Hn & Hp & _ & _ & _ & Hst & Hr & He & _).
  destruct (store_load_law _ _ _ Ho Hload) as (Ho' & Hsame & Hv).
  destruct (Hv n0 eq_refl) as [Hs0 Hu0].
  assert (my_seq (plane rt) = n0) as Hseq by by rewrite Hp.
  assert (persist_inv n0 (config_node config) rt) as Hi.
  { constructor; rewrite ?Hp, ?Hn; try done; [apply initial_ok|..].
    - constructor; rewrite ?Hst, ?He; [done| |by intros ? ? ?%elem_of_nil].
      intros pre e post n E. by destruct pre.
    - intros _. rewrite Hst, He, Hsame, Hp. done. }
  destruct (run_inv accepts n0 _ l rt rt' Hi Hrun) as [Hn' _ _ _ [Ho2 Hd Hs] _].
  rewrite Hn' in Hd, Hs. rewrite Hseq. split_and!; [done..|].
  intros store2 pol2 rt2 ep costs Hsp2 e n Hin Hown.
  apply spawn_Ok in Hsp2 as (n2 & Hload2 & Hmax2 & _ & Hp2 & _).
  destruct (store_load_law _ _ _ Ho2 Hload2) as (_ & _ & Hv2).
  destruct (Hv2 n2 eq_refl) as [Hs2 Hu2]. destruct (Hs e n Hin Hown) as (m & Hm & Hle).
  rewrite Hs2 in Hm. injection Hm as <-. rewrite Hp2. cbn. unfold is_uint, u_max in *. lia.
Qed.
