(* ===== verification/RuntimeTimers.v ===== *)
(** * Timers of the runtime (crates/mb-runtime)

    The heap of the runtime holds a timer for every obligation of the control
    plane and of the forwarder. *)

From Stdlib Require Import Strings.Byte Strings.String.
From S2P Require Export Prelude Ord Bytes Text SeqStore Types Proto Wire WirePackets PubSub PubSubProps PubSubTheorems Forward ForwardSched ForwardInv ForwardRoute ForwardProps ForwardTheorems RuntimeCodec RuntimeCodecProps RuntimeLog Runtime RuntimeProps RuntimeFrame RuntimeTheorems ControlTypes Spf Control ControlRoutes ControlInv ControlProps ControlTimers ControlActions.
Open Scope Z_scope.

Definition has_timer (ib : RuntimeInbox) (t : RuntimeTimer) (at_ : MonoTime) : Prop :=
  ∃ n, (at_, (n, t)) ∈ timers ib.

Lemma schedule_has ib t at_ : has_timer (schedule ib t at_) t at_.
Proof. exists (next_timer_sequence ib). cbn. rewrite heap_push_perm. by left. Qed.

(** A due timer is taken before anything else, the earliest first. *)
Lemma recv_earliest ib checked_at wake t at_ :
  StronglySorted ole (timers ib) → has_timer ib t at_ → at_ ≤ checked_at →
  ∃ t0 at0 ib', recv ib checked_at wake = (Some (RiTimer t0), ib') ∧
    has_timer ib t0 at0 ∧ at0 ≤ checked_at ∧ (∀ t2 at2, has_timer ib t2 at2 → at0 ≤ at2).
Proof.
  intros Hs [n Hn] Hle. unfold recv, pop_timer, heap_pop.
  destruct (timers ib) as [|[at0 [n0 t0]] rest] eqn:E; [by apply elem_of_nil in Hn|].
  assert (Hmin : ∀ t2 at2, has_timer ib t2 at2 → at0 ≤ at2).
  { intros t2 at2 [k Hk]. rewrite E in Hk. apply elem_of_cons in Hk as [[= -> _ _]|Hk]; [done|].
    apply StronglySorted_inv in Hs as [_ HF]. rewrite Forall_forall in HF. apply HF in Hk.
    unfold ole in Hk. cbn in Hk. by destruct (Z.compare_spec at0 at2); [lia|lia|]. }
  assert (at0 ≤ checked_at) as H0.
  { etrans; [|exact Hle]. apply (Hmin t). exists n. by rewrite E. }
  rewrite (proj2 (Z.leb_le _ _) H0). do 3 eexists. split; [reflexivity|].
  split; [exists n0; rewrite E; by left|done].
Qed.

Section Runtime.
Context {St : Type} `{!SeqStore St}.
Context `{!Prost PbLsa, !Prost PbSignedLsa, !Prost PbDigest, !Prost PbDigestReq}.
Context `{!Prost WireEnvelope}.
Context (accepts : nat → bool).
Implicit Types rt : Runtime St.

Lemma has_timer_mono rt rt' t at_ :
  (∀ x, x ∈ timers (inbox rt) → x ∈ timers (inbox rt')) →
  has_timer (inbox rt) t at_ → has_timer (inbox rt') t at_.
Proof. intros H [n Hn]. exists n. auto. Qed.

(** ** Pending batches *)

(** Every pending batch has its timer in the heap or among the collected
    actions. *)
Definition fw_armed rt (fas : list ForwardAction) : Prop :=
  ∀ g d, batch_deadline (forwarder rt) g = Some d →
    has_timer (inbox rt) (RtForward (PendingP0 g)) d ∨ FaSetTimer (PendingP0 g) d ∈ fas.

Lemma fw_armed_same rt rt' fas :
  forwarder rt' = forwarder rt → (∀ x, x ∈ timers (inbox rt) → x ∈ timers (inbox rt')) →
  fw_armed rt fas → fw_armed rt' fas.
Proof.
  intros Hf Ht Ha g d Hd. rewrite Hf in Hd. destruct (Ha g d Hd); [left|by right].
  by eapply has_timer_mono.
Qed.
Lemma note_armed rt now k d l fas : fw_armed rt fas → fw_armed (note rt now k d l) fas.
Proof. apply fw_armed_same; [apply note_machines|apply note_frame]. Qed.
Lemma emit_armed rt e fas : fw_armed rt fas → fw_armed (emit rt e) fas.
Proof. by apply fw_armed_same. Qed.
Lemma try_emit_armed rt e fas : fw_armed rt fas → fw_armed (try_emit accepts rt e) fas.
Proof. unfold try_emit. destruct (accepts _); [apply emit_armed|done]. Qed.
Lemma transmit_armed rt l e fas : fw_armed rt fas → fw_armed (transmit accepts rt l e) fas.
Proof. unfold transmit. destruct (accepts _); intros; by repeat apply emit_armed. Qed.

Lemma forward_event_armed rt now e rt' x fas :
  (∀ g d, batch_deadline (forwarder rt) g = Some d → e ≠ FeTimer (PendingP0 g) →
     has_timer (inbox rt) (RtForward (PendingP0 g)) d ∨ FaSetTimer (PendingP0 g) d ∈ fas) →
  forward_event rt now e = Some (rt', x) → fw_armed rt' (fas ++ x).
Proof.
  intros Ha. unfold forward_event. destruct (fw_handle _ _ _) as [[fw a]|] eqn:E; [|done].
  intros [= <- <-] g d Hd. rewrite elem_of_app.
  destruct (batch_armed _ _ _ _ _ _ _ E Hd) as [[Hd' Hne]|Hin]; [|by auto].
  destruct (Ha g d Hd' Hne); [by left|by auto].
Qed.
Lemma forward_event_armed' rt now e rt' x fas :
  fw_armed rt fas → forward_event rt now e = Some (rt', x) → fw_armed rt' (fas ++ x).
Proof. intros Ha. apply forward_event_armed. intros g d Hd _. by apply Ha. Qed.
Lemma pubsub_event_armed rt now e rt' x fas :
  fw_armed rt fas → pubsub_event rt now e = Some (rt', x) → fw_armed rt' fas.
Proof.
  intros Ha. unfold pubsub_event. destruct (ps_handle _ _ _) as [[ps a]|]; [|done].
  by intros [= <- _].
Qed.

Lemma pubsub_actions_armed l : ∀ rt now rt' acts fas,
  fw_armed rt fas → execute_pubsub_actions accepts rt now l = Some (rt', acts) →
  fw_armed rt' (fas ++ acts).
Proof.
  induction l as [|a l IH]; intros rt now rt' acts fas Ha; cbn [execute_pubsub_actions].
  { intros [= <- <-]. by rewrite app_nil_r. }
  destruct (execute_pubsub_action _ _ _ _) as [[rt1 x]|] eqn:E1; cbn [mbind option_bind]; [|done].
  destruct (execute_pubsub_actions _ _ _ _) as [[rt2 y]|] eqn:E2; cbn [mbind option_bind]; [|done].
  intros [= <- <-]. rewrite app_assoc. eapply IH; [|exact E2].
  destruct a as [ds pr flow key c p|id m|ch|t n|r|r]; cbn [execute_pubsub_action] in E1.
  2-6: injection E1 as <- <-; rewrite app_nil_r; try done; try (by apply emit_armed);
    by apply try_emit_armed.
  destruct (if c then _ else _); cbn [mbind option_bind] in E1; [|done].
  by eapply forward_event_armed'.
Qed.

Lemma forward_action_armed rt now a l rt' more :
  fw_armed rt (a :: l) → execute_forward_action accepts rt now a = Some (rt', more) →
  fw_armed rt' (l ++ more).
Proof.
  intros Ha. destruct a as [k p|p|r p|k p|t at_]; cbn [execute_forward_action].
  5: { intros [= <- <-] g d Hd. rewrite app_nil_r.
       destruct (Ha g d Hd) as [Ht|[[= <- <-]|Hin]%elem_of_cons]; [left|left; apply schedule_has|by right].
       destruct Ht as [n Hn]. exists n. cbn. rewrite heap_push_perm. by right. }
  all: assert (fw_armed rt l) as Hl by
    (intros g d Hd; destruct (Ha g d Hd) as [|[?|?]%elem_of_cons]; [by left|done|by right]).
  - destruct (forward_frame p); intros [= <- <-]; rewrite app_nil_r; [by apply transmit_armed|done].
  - destruct (is_envelope _); [|intros [= <- <-]; rewrite app_nil_r; by apply emit_armed].
    destruct (pubsub_event rt now _) as [[rt1 x]|] eqn:E; cbn [mbind option_bind]; [|done].
    apply pubsub_actions_armed. by eapply pubsub_event_armed.
  - intros [= <- <-]. rewrite app_nil_r. by apply try_emit_armed.
  - intros [= <- <-]. rewrite app_nil_r. by apply emit_armed.
Qed.
Lemma forward_actions_armed rt now l rt' :
  fw_armed rt l → execute_forward_actions accepts rt now l = Some rt' → fw_armed rt' [].
Proof.
  unfold execute_forward_actions, run_loop. rewrite loop_pos_nat.
  generalize (Pos.to_nat (Pos.of_succ_nat (length l))) as n. intros n. revert rt l.
  induction n as [|n IH]; intros rt l Ha; cbn [loop_nat]; [done|].
  destruct l as [|a l]; cbn [forward_actions_step]; [by intros [= <-]|].
  destruct (execute_forward_action _ _ _ _) as [[rt1 x]|] eqn:E; [|done].
  apply IH. by eapply forward_action_armed.
Qed.
Lemma note_forward_armed l : ∀ rt now fas, fw_armed rt fas → fw_armed (note_forward_actions rt now l) fas.
Proof.
  induction l as [|a l IH]; intros rt now fas Ha; cbn [note_forward_actions]; [done|].
  destruct (forward_action_summary a) as [[[k d] x]|]; [|by apply IH]. by apply IH, note_armed.
Qed.
Lemma forward_stage_armed rt now fas pas rt' :
  fw_armed rt fas → forward_stage accepts rt now (fas, pas) = Some rt' → fw_armed rt' [].
Proof.
  intros Ha. unfold forward_stage.
  destruct (execute_pubsub_actions _ _ _ _) as [[rt1 x]|] eqn:E1; cbn [mbind option_bind]; [|done].
  destruct (execute_forward_actions _ _ _ _) as [rt2|] eqn:E2; cbn [mbind option_bind]; [|done].
  pose proof (pubsub_actions_armed _ _ _ _ _ _ Ha E1) as Ha1.
  apply forward_actions_armed in E2; [|by apply note_forward_armed].
  unfold publish_snapshot. destruct (diagnostics_enabled rt2); [|by intros [= <-]].
  destruct (queue_snapshots _ _); cbn [mbind option_bind]; [|done]. by intros [= <-].
Qed.
(** ** The control plane's timers *)

(** Timers are only added, and the heap stays sorted. *)
Definition grows rt rt' : Prop :=
  (∀ x, x ∈ timers (inbox rt) → x ∈ timers (inbox rt')) ∧
  (StronglySorted ole (timers (inbox rt)) → StronglySorted ole (timers (inbox rt'))).
#[local] Instance grows_refl : Reflexive grows.
Proof. done. Qed.
#[local] Instance grows_trans : Transitive grows.
Proof. intros a b c [H1 H2] [H3 H4]. split; auto. Qed.
Lemma frame_grows rt rt' : frame rt rt' → grows rt rt'.
Proof. intros []. by split. Qed.
Lemma transmit_grows rt l e : grows rt (transmit accepts rt l e).
Proof. unfold transmit. destruct (accepts _); done. Qed.

Lemma control_action_timers rt now c a rt' c' :
  execute_control_action accepts rt now c a = Some (rt', c') →
  grows rt rt' ∧ (fw_armed rt c.1 → fw_armed rt' c'.1) ∧
  (∀ t at_, a = CaSetTimer t at_ → has_timer (inbox rt') (RtControl t) at_).
Proof.
  destruct c as [fas pas]. destruct a as [l f|t at_|tab|ads|n]; cbn [execute_control_action].
  - destruct (encode_control_frame f) as [w|]; [|by intros [= <- <-]].
    destruct (control_frame_summary f) as [k d]. intros [= <- <-]. split_and!; [| |done].
    + etrans; [apply frame_grows, note_frame|]. apply transmit_grows.
    + intros Ha. by apply transmit_armed, note_armed.
  - intros [= <- <-]. split_and!; [apply frame_grows, schedule_frame| |].
    + apply fw_armed_same; [done|]. apply frame_grows, schedule_frame.
    + intros t' d [= <- <-]. apply schedule_has.
  - destruct (forward_event _ now _) as [[r x]|] eqn:Ef; cbn [mbind option_bind]; [|done].
    intros [= <- <-]. split_and!; [| |done].
    + etrans; [apply frame_grows, note_frame|]. apply frame_grows. by eapply forward_event_frame.
    + intros Ha. cbn. eapply forward_event_armed'; [|exact Ef]. by apply note_armed.
  - destruct (discovery_from_topic_ads ads); cbn [mbind option_bind]; [|done].
    destruct (pubsub_event rt now _) as [[r x]|] eqn:Ef; cbn [mbind option_bind]; [|done].
    intros [= <- <-]. split_and!; [| |done].
    + apply frame_grows. by eapply pubsub_event_frame.
    + intros Ha. cbn. by eapply pubsub_event_armed.
  - destruct (store_persist _ _) as [st r]. intros [= <- <-]. destruct r; by split_and!.
Qed.
(** A loop that is still running has executed every action. *)
Lemma control_actions_timers l : ∀ rt now c rt' c',
  execute_control_actions accepts rt now c l = Some (rt', c') → running rt' = true →
  grows rt rt' ∧ (fw_armed rt c.1 → fw_armed rt' c'.1) ∧
  (∀ t at_, CaSetTimer t at_ ∈ l → has_timer (inbox rt') (RtControl t) at_).
Proof.
  induction l as [|a l IH]; intros rt now c rt' c'; cbn [execute_control_actions].
  { intros [= <- <-] _. split_and!; [done..|]. by intros ? ? ?%elem_of_nil. }
  destruct (execute_control_action _ _ _ _ _) as [[rt1 c1]|] eqn:E; cbn [mbind option_bind]; [|done].
  destruct (control_action_timers _ _ _ _ _ _ E) as (Hg & Ha & Ht).
  destruct (running rt1) eqn:Hr1; [|intros [= <- <-] Hr; congruence].
  intros E2 Hr. destruct (IH _ _ _ _ _ E2 Hr) as (Hg2 & Ha2 & Ht2). split_and!.
  - by etrans.
  - auto.
  - intros t at_ [<-|Hin]%elem_of_cons; [|by apply Ht2].
    eapply has_timer_mono; [apply Hg2|]. by apply Ht.
Qed.

(** ** Iterations *)

(** The invariant: every obligation has its timer, and the first timer of
    the heap is the next one due. *)
Record timers_inv rt : Prop := {
  ti_sorted : StronglySorted ole (timers (inbox rt));
  ti_control t at_ : deadline (plane rt) t = Some at_ → has_timer (inbox rt) (RtControl t) at_;
  ti_digest l : is_Some (local_adjacencies (plane rt) !! l) →
    ∃ at_, has_timer (inbox rt) (RtControl (CtDigest l)) at_;
  ti_forward g d : batch_deadline (forwarder rt) g = Some d →
    has_timer (inbox rt) (RtForward (PendingP0 g)) d;
}.
(** The same, but for the timer that woke the loop. *)
Definition control_but rt (i : RuntimeInput) : Prop :=
  (∀ t at_, deadline (plane rt) t = Some at_ → i ≠ RiTimer (RtControl t) →
     has_timer (inbox rt) (RtControl t) at_) ∧
  (∀ l, is_Some (local_adjacencies (plane rt) !! l) → i ≠ RiTimer (RtControl (CtDigest l)) →
     ∃ at_, has_timer (inbox rt) (RtControl (CtDigest l)) at_).
Record timers_but rt (i : RuntimeInput) : Prop := {
  tb_sorted : StronglySorted ole (timers (inbox rt));
  tb_control : control_but rt i;
  tb_forward g d : batch_deadline (forwarder rt) g = Some d → i ≠ RiTimer (RtForward (PendingP0 g)) →
    has_timer (inbox rt) (RtForward (PendingP0 g)) d;
}.

Lemma recv_timers rt checked_at wake i ib :
  timers_inv rt → recv (inbox rt) checked_at wake = (Some i, ib) → timers_but (set_inbox rt ib) i.
Proof.
  intros [Hs Hc Hd Hf] [[_ ->]|(at_ & n & t & -> & E & _ & _)]%recv_spec.
  { constructor; cbn; [done|split; cbn; auto|auto]. }
  rewrite E in Hs. apply StronglySorted_inv in Hs as [Hs _].
  assert (Hkeep : ∀ t' a, t' ≠ t → has_timer (inbox rt) t' a → has_timer ib t' a).
  { intros t' a Hne [k Hk]. rewrite E in Hk. apply elem_of_cons in Hk as [[= ? ? ?]|Hk]; [done|]. by exists k. }
  constructor; cbn; [done|split; cbn|].
  - intros t' a Ha Hne. apply Hkeep; [congruence|auto].
  - intros l Hl Hne. destruct (Hd l Hl) as [a Ha]. exists a. apply Hkeep; [congruence|done].
  - intros g d Hg Hne. apply Hkeep; [congruence|auto].
Qed.

(** A control timer becomes the event of the control plane. *)
Lemma take_input_timer rt now t rt' taken :
  take_input rt now (RiTimer (RtControl t)) = Some (rt', taken) →
  taken = Some (Some (CeTimer t), ([], [])).
Proof. cbn. by intros [= _ <-]. Qed.

Definition collected (taken : option (option ControlEvent * (list ForwardAction * list PubSubAction))) :
  list ForwardAction := match taken with Some (_, (fas, _)) => fas | None => [] end.

Lemma take_input_armed rt now i rt' taken :
  timers_but rt i → take_input rt now i = Some (rt', taken) → fw_armed rt' (collected taken).
Proof.
  intros [_ _ Hf] E.
  assert ((∃ g, i = RiTimer (RtForward (PendingP0 g))) ∨ ∀ g, i ≠ RiTimer (RtForward (PendingP0 g)))
    as [[g ->]|Hi] by (destruct i as [| | |[|[g]]]; eauto).
  { cbn [take_input] in E. destruct (forward_event rt now _) as [[r x]|] eqn:Ef;
      cbn [mbind option_bind] in E; [|done]. injection E as <- <-. cbn [collected].
    apply (forward_event_armed rt now (FeTimer (PendingP0 g)) r x []); [|done].
    intros k d Hd Hne. left. apply Hf; [done|]. by intros [= ->]. }
  assert (fw_armed rt []) as Ha.
  { intros g d Hd. left. apply Hf; [done|]. apply Hi. }
  clear Hf Hi. revert E.
  assert (Hev : ∀ rt1 e (k : list ForwardAction → option (option ControlEvent * _)),
    fw_armed rt1 [] → (∀ x, collected (k x) = x) →
    ('(r, x) ← forward_event rt1 now e; Some (r, k x)) = Some (rt', taken) →
    fw_armed rt' (collected taken)).
  { intros rt1 e k Ha1 Hk. destruct (forward_event rt1 now e) as [[r x]|] eqn:E;
      cbn [mbind option_bind]; [|done]. intros [= <- <-]. rewrite Hk.
    by apply (forward_event_armed' rt1 now e r x []). }
  assert (Hgr : ∀ rt1 l n (k : list ForwardAction → option (option ControlEvent * _)),
    fw_armed rt1 [] → (∀ x, collected (k x) = x) →
    ('(r, x) ← forward_event rt1 now (FeLinkCredit l n);
     '(r, y) ← forward_event r now (FeLinkWritable l); Some (r, k (x ++ y))) = Some (rt', taken) →
    fw_armed rt' (collected taken)).
  { intros rt1 l n k Ha1 Hk. destruct (forward_event rt1 now _) as [[r x]|] eqn:E1;
      cbn [mbind option_bind]; [|done].
    destruct (forward_event r now (FeLinkWritable l)) as [[r2 y]|] eqn:E2; cbn [mbind option_bind]; [|done].
    intros [= <- <-]. rewrite Hk. apply (forward_event_armed' r now (FeLinkWritable l) r2 y x); [|done].
    by apply (forward_event_armed' rt1 now (FeLinkCredit l n) r x []). }
  destruct i as [[l peer|l|l f|l t c n]|[p|ds p]|e|[t|t]]; cbn [take_input].
  - destruct (peer_costs rt !! peer) as [cost|]; [|intros [= <- <-]; by apply emit_armed].
    apply (Hgr _ l MAX_PAYLOAD_LEN (λ x, Some (Some (CeLinkUp l peer cost), (x, [])))); [|done].
    by apply note_armed.
  - apply (Hev _ (FeLinkDown l) (λ x, Some (Some (CeLinkDown l), (x, [])))); [|done]. by apply note_armed.
  - case_bool_decide.
    + destruct (decode_forward_frame f) as [[p|e]|]; cbn [mbind option_bind]; [| |done].
      * by apply (Hev _ (FeInbound l p) (λ x, Some (None, (x, [])))).
      * intros [= <- <-]. by apply emit_armed.
    + destruct (decode_control_frame f); intros [= <- <-]; [done|by apply emit_armed].
  - case_bool_decide; [|by intros [= <- <-]]. by apply (Hgr _ l n (λ x, Some (None, (x, [])))).
  - apply (Hev _ (FeOutbound p) (λ x, Some (None, (x, [])))); [|done]. by apply note_armed.
  - apply (Hev _ (FeOutboundMulticast ds p) (λ x, Some (None, (x, [])))); [|done]. by apply note_armed.
  - destruct (pubsub_event rt now e) as [[r x]|] eqn:E; cbn [mbind option_bind]; [|done].
    intros [= <- <-]. by eapply pubsub_event_armed.
  - by intros [= <- <-].
  - by apply (Hev _ (FeTimer t) (λ x, Some (None, (x, [])))).
Qed.

(** The control stage keeps or renews the control plane's timers. *)
Lemma control_stage_timers rt now i event c rt' c' :
  control_but rt i → cp_ok (plane rt) → fw_armed rt c.1 →
  (∀ t, i = RiTimer (RtControl t) → event = Some (CeTimer t)) →
  control_stage accepts rt now event c = Some (rt', c') → running rt' = true →
  grows rt rt' ∧ fw_armed rt' c'.1 ∧
  (∀ t at_, deadline (plane rt') t = Some at_ → has_timer (inbox rt') (RtControl t) at_) ∧
  (∀ l, is_Some (local_adjacencies (plane rt') !! l) →
     ∃ at_, has_timer (inbox rt') (RtControl (CtDigest l)) at_).
Proof.
  intros [Hc Hd] Hcp Ha Hev E Hr. unfold control_stage in E. destruct event as [e|].
  2: { injection E as <- <-. split_and!; [done..| |].
       - intros t at_ Ht. apply Hc; [done|]. by intros ?%Hev.
       - intros l Hl. apply Hd; [done|]. by intros ?%Hev. }
  destruct (cp_handle _ _ _) as [[cp acts]|] eqn:He; cbn [mbind option_bind] in E; [|done].
  pose proof (execute_control_actions_plane _ _ _ _ _ _ _ E) as Hpl. cbn in Hpl.
  destruct (control_actions_timers _ _ _ _ _ _ E Hr) as (Hg & Hf & Hset).
  assert (Hne : ∀ t, e ≠ CeTimer t → i ≠ RiTimer (RtControl t)) by (intros t Hne ?%Hev; congruence).
  split_and!; [exact Hg|by apply Hf|..]; rewrite Hpl.
  - intros t at_ Ht. destruct (deadline_armed _ _ _ _ _ _ _ Hcp He Ht) as [[Ht' ?]|Hin]; [|by apply Hset].
    eapply has_timer_mono; [apply Hg|]. apply (Hc t at_ Ht'). auto.
  - intros l Hl. destruct (digest_armed _ _ _ _ _ _ Hcp He Hl) as [[Hl' ?]|Hin]; [|eauto].
    destruct (Hd l Hl') as [at_ Hat]; [by auto|]. exists at_. eapply has_timer_mono; [apply Hg|exact Hat].
Qed.

Lemma control_but_frame rt rt' i : frame rt rt' → control_but rt i → control_but rt' i.
Proof.
  intros Hfr [Hc Hd]. destruct (frame_grows _ _ Hfr) as [Hg _].
  split; rewrite ?(fr_plane _ _ Hfr).
  - intros t at_ ? ?. eapply has_timer_mono; [exact Hg|auto].
  - intros l ? ?. destruct (Hd l) as [a ?]; [done..|]. exists a. by eapply has_timer_mono.
Qed.

Lemma process_timers rt now i rt' :
  timers_but rt i → cp_ok (plane rt) → process accepts rt now i = Some rt' → running rt' = true →
  timers_inv rt'.
Proof.
  intros Hb Hcp E Hr. unfold process in E.
  destruct (take_input rt now i) as [[rt1 taken]|] eqn:E1; cbn [mbind option_bind] in E; [|done].
  pose proof (take_input_armed _ _ _ _ _ Hb E1) as Ha.
  pose proof (take_input_frame _ _ _ _ _ E1) as Hfr. destruct (frame_grows _ _ Hfr) as [_ Hs].
  pose proof (control_but_frame _ _ _ Hfr (tb_control _ _ Hb)) as Hc.
  specialize (Hs (tb_sorted _ _ Hb)).
  assert (Hti : ∀ t, i = RiTimer (RtControl t) → taken = Some (Some (CeTimer t), ([], []))).
  { intros t ->. by eapply take_input_timer. }
  destruct taken as [[ev [fas pas]]|]; cbn [collected] in Ha.
  2: { injection E as <-. destruct Hc as [Hc Hd]. constructor; [done|..].
       - intros t at_ Ht. apply Hc; [done|]. by intros ?%Hti.
       - intros l Hl. apply Hd; [done|]. by intros ?%Hti.
       - intros g d Hd'. by destruct (Ha g d Hd') as [?|?%elem_of_nil]. }
  destruct (control_stage _ _ _ _ _) as [[rt2 [fas2 pas2]]|] eqn:E2; cbn [mbind option_bind] in E; [|done].
  destruct (running rt2) eqn:Hr2; [|injection E as <-; congruence].
  eapply control_stage_timers in E2 as ([_ Hs2] & Ha2 & Hc2 & Hd2);
    [|exact Hc|by rewrite (fr_plane _ _ Hfr)|exact Ha|by intros t [= -> -> ->]%Hti|exact Hr2].
  pose proof (forward_stage_armed _ _ _ _ _ Ha2 E) as Ha3.
  apply forward_stage_frame in E. destruct (frame_grows _ _ E) as [Hg3 Hs3].
  constructor; rewrite ?(fr_plane _ _ E); [auto|..].
  - intros t at_ Ht. eapply has_timer_mono; [exact Hg3|auto].
  - intros l Hl. destruct (Hd2 l Hl) as [a ?]. exists a. by eapply has_timer_mono.
  - intros g d Hd'. by destruct (Ha3 g d Hd') as [?|?%elem_of_nil].
Qed.
Lemma process_cp rt now i rt' :
  cp_ok (plane rt) → process accepts rt now i = Some rt' → cp_ok (plane rt').
Proof.
  intros Hcp E. unfold process in E.
  destruct (take_input rt now i) as [[rt1 taken]|] eqn:E1; cbn [mbind option_bind] in E; [|done].
  apply take_input_frame, fr_plane in E1. rewrite <-E1 in Hcp.
  destruct taken as [[ev c]|]; [|by injection E as <-].
  destruct (control_stage _ _ _ _ _) as [[rt2 c2]|] eqn:E2; cbn [mbind option_bind] in E; [|done].
  assert (cp_ok (plane rt2)).
  { unfold control_stage in E2. destruct (final_control_event ev c.2) as [e|]; [|by injection E2 as <- _].
    destruct (cp_handle _ _ _) as [[cp acts]|] eqn:He; cbn [mbind option_bind] in E2; [|done].
    rewrite (execute_control_actions_plane _ _ _ _ _ _ _ E2). by apply (handle_ok _ _ _ _ _ Hcp He). }
  destruct (running rt2); [|by injection E as <-].
  apply forward_stage_frame, fr_plane in E. by rewrite E.
Qed.

(** ** Runs *)

Definition armed rt : Prop := cp_ok (plane rt) ∧ (running rt = true → timers_inv rt).

Lemma stimulate_armed rt s rt' : armed rt → stimulate accepts rt s = Some rt' → armed rt'.
Proof.
  intros [Hcp Ht]. destruct s as [checked_at now wake|peer cost|]; cbn [stimulate].
  2-3: intros [= <-]; split; [done|]; intros Hr; by destruct (Ht Hr).
  unfold iterate. destruct (running rt) eqn:Hr; cbn [negb]; [|intros [= <-]; split; [done|congruence]].
  destruct (recv (inbox rt) checked_at wake) as [[i|] ib] eqn:Er; [|intros [= <-]; by split].
  intros E. split; [by eapply process_cp in E|]. intros Hr'.
  eapply process_timers; [by eapply recv_timers; [apply Ht|]| |exact E|done]. done.
Qed.
Lemma run_armed l : ∀ rt rt', armed rt → rt_run accepts rt l = Some rt' → armed rt'.
Proof.
  induction l as [|s l IH]; intros rt rt' Ha; cbn [rt_run]; [by intros [= <-]|].
  destruct (stimulate accepts rt s) as [rt1|] eqn:E; cbn [mbind option_bind]; [|done].
  apply stimulate_armed in E; [by apply IH|done].
Qed.
End Runtime.

(** C20: No deadline is forgotten.  Along every run of the loop, as long as it
    runs, its heap of timers holds an entry for the SPF hold-down, for the
    refresh and the expiry of every LSA, for the next digest of every link
    and for the end of the wait of every pending P0 batch, at the time these
    are due; and the loop takes the timers in the order of their times: an
    iteration that finds one due takes one that no other entry precedes. *)
Theorem runtime_timers_armed {St} `{!SeqStore St}
    `{!Prost PbLsa, !Prost PbSignedLsa, !Prost PbDigest, !Prost PbDigestReq, !Prost WireEnvelope}
    accepts config endpoint (store store' : St) pol rt l rt' :
  spawn_with_seq_store_and_pubsub config endpoint store pol = (store', Ok rt) →
  rt_run accepts rt l = Some rt' → running rt' = true →
  (∀ t at_, deadline (plane rt') t = Some at_ → has_timer (inbox rt') (RtControl t) at_) ∧
  (∀ k, is_Some (local_adjacencies (plane rt') !! k) →
     ∃ at_, has_timer (inbox rt') (RtControl (CtDigest k)) at_) ∧
  (∀ g d, batch_deadline (forwarder rt') g = Some d →
     has_timer (inbox rt') (RtForward (PendingP0 g)) d) ∧
  (∀ checked_at wake t at_, has_timer (inbox rt') t at_ → at_ ≤ checked_at →
     ∃ t0 at0 ib, recv (inbox rt') checked_at wake = (Some (RiTimer t0), ib) ∧
       has_timer (inbox rt') t0 at0 ∧ at0 ≤ checked_at ∧
       (∀ t2 at2, has_timer (inbox rt') t2 at2 → at0 ≤ at2)).
Proof.
  intros Hsp Hrun Hr. apply spawn_Ok in Hsp as (n & _ & _ & _ & Hp & Hf & _ & Hib & _).
  assert (armed rt) as Ha.
  { split; [rewrite Hp; apply initial_ok|]. intros _. constructor; rewrite ?Hp, ?Hf, ?Hib.
    - constructor.
    - by intros [].
    - cbn. intros k []%is_Some_None.
    - done. }
  destruct (run_armed accepts l rt rt' Ha Hrun) as [_ [Hs Hc Hd Hfw]]; [done|].
  split_and!; [done..|]. intros checked_at wake t at_ Hat Hle. by eapply recv_earliest.
Qed.
