(* ===== verification/RuntimeDiag.v ===== *)
(** * Diagnostics of the runtime (crates/mb-runtime)

    The event log is bounded, and diagnostics change nothing else. *)

From Stdlib Require Import Strings.Byte Strings.String.
From S2P Require Export Prelude Ord Bytes Text SeqStore Types Proto Wire WirePackets PubSub Forward RuntimeCodec RuntimeLog Runtime RuntimeProps RuntimeFrame RuntimeTheorems ControlTypes Spf Control.
Open Scope Z_scope.

Section Runtime.
Context {St : Type} `{!SeqStore St}.
Context `{!Prost PbLsa, !Prost PbSignedLsa, !Prost PbDigest, !Prost PbDigestReq}.
Context `{!Prost WireEnvelope}.
Context (accepts : nat → bool).
Implicit Types rt : Runtime St.

(** ** What diagnostics may change *)

(** A runtime without its log, its snapshot and its flag. *)
Definition core rt : Runtime St :=
  set_log rt EventLog_empty false (RuntimeSnapshot_empty (rt_node rt) RouteTable_default).

Lemma core_note rt now k d l : core (note rt now k d l) = core rt.
Proof. unfold note. by destruct (diagnostics_enabled rt). Qed.
Lemma note_core rt now k d l : note (core rt) now k d l = core rt.
Proof. done. Qed.
Lemma core_emit rt e : core (emit rt e) = emit (core rt) e.
Proof. done. Qed.
Lemma core_transmit rt l e : core (transmit accepts rt l e) = transmit accepts (core rt) l e.
Proof. unfold transmit. cbn. by destruct (accepts _). Qed.
Lemma core_try_emit rt e : core (try_emit accepts rt e) = try_emit accepts (core rt) e.
Proof. unfold try_emit. cbn. by destruct (accepts _). Qed.

Lemma core_forward_event rt now e rt' x :
  forward_event rt now e = Some (rt', x) → forward_event (core rt) now e = Some (core rt', x).
Proof.
  unfold forward_event. cbn [forwarder core set_log].
  destruct (fw_handle _ _ _) as [[fw a]|]; cbn [mbind option_bind]; [|done]. by intros [= <- <-].
Qed.
Lemma core_pubsub_event rt now e rt' x :
  pubsub_event rt now e = Some (rt', x) → pubsub_event (core rt) now e = Some (core rt', x).
Proof.
  unfold pubsub_event. cbn [pubsub core set_log].
  destruct (ps_handle _ _ _) as [[ps a]|]; cbn [mbind option_bind]; [|done]. by intros [= <- <-].
Qed.

Lemma core_pubsub_actions l : ∀ rt now rt' x,
  execute_pubsub_actions accepts rt now l = Some (rt', x) →
  execute_pubsub_actions accepts (core rt) now l = Some (core rt', x).
Proof.
  induction l as [|a l IH]; intros rt now rt' x; cbn [execute_pubsub_actions]; [by intros [= <- <-]|].
  destruct (execute_pubsub_action accepts rt now a) as [[rt1 y]|] eqn:E1; cbn [mbind option_bind]; [|done].
  destruct (execute_pubsub_actions accepts rt1 now l) as [[rt2 z]|] eqn:E2; cbn [mbind option_bind]; [|done].
  intros [= <- <-].
  assert (execute_pubsub_action accepts (core rt) now a = Some (core rt1, y)) as ->.
  { destruct a as [ds pr flow key c p|id m|ch|t n|r|r]; cbn [execute_pubsub_action] in *.
    2-6: injection E1 as <- <-; by rewrite ?core_try_emit.
    destruct (if c then _ else _); cbn [mbind option_bind] in *; [|done].
    by apply core_forward_event. }
  cbn [mbind option_bind]. by rewrite (IH _ _ _ _ E2).
Qed.
Lemma core_forward_action rt now a rt' x :
  execute_forward_action accepts rt now a = Some (rt', x) →
  execute_forward_action accepts (core rt) now a = Some (core rt', x).
Proof.
  destruct a as [k p|p|r p|k p|t at_]; cbn [execute_forward_action].
  - destruct (forward_frame p); intros [= <- <-]; by rewrite ?core_transmit.
  - destruct (is_envelope _); [|by intros [= <- <-]].
    destruct (pubsub_event rt now _) as [[rt1 y]|] eqn:E; cbn [mbind option_bind]; [|done].
    rewrite (core_pubsub_event _ _ _ _ _ E). apply core_pubsub_actions.
  - intros [= <- <-]. unfold report_drop. by rewrite core_try_emit.
  - by intros [= <- <-].
  - by intros [= <- <-].
Qed.
Lemma core_forward_actions rt now l rt' :
  execute_forward_actions accepts rt now l = Some rt' →
  execute_forward_actions accepts (core rt) now l = Some (core rt').
Proof.
  unfold execute_forward_actions, run_loop. rewrite !loop_pos_nat.
  generalize (Pos.to_nat (Pos.of_succ_nat (length l))) as n. intros n. revert rt l.
  induction n as [|n IH]; intros rt l; cbn [loop_nat]; [done|].
  destruct l as [|a l]; cbn [forward_actions_step]; [by intros [= <-]|].
  destruct (execute_forward_action accepts rt now a) as [[rt1 x]|] eqn:E; [|done].
  rewrite (core_forward_action _ _ _ _ _ E). apply IH.
Qed.
Lemma core_note_actions l : ∀ rt now,
  core (note_forward_actions rt now l) = core rt ∧ note_forward_actions (core rt) now l = core rt.
Proof.
  induction l as [|a l IH]; intros rt now; cbn [note_forward_actions]; [done|].
  destruct (forward_action_summary a) as [[[k d] o]|]; [|by apply IH]. split.
  - rewrite (proj1 (IH _ now)). apply core_note.
  - rewrite note_core. apply IH.
Qed.

Lemma core_control_action rt now c a rt' c' :
  execute_control_action accepts rt now c a = Some (rt', c') →
  execute_control_action accepts (core rt) now c a = Some (core rt', c').
Proof.
  destruct c as [fas pas]. destruct a as [l f|t at_|tab|ads|n]; cbn [execute_control_action].
  - destruct (encode_control_frame f) as [w|]; [|by intros [= <- <-]].
    destruct (control_frame_summary f) as [k d]. intros [= <- <-].
    by rewrite core_transmit, core_note, note_core.
  - by intros [= <- <-].
  - rewrite note_core. destruct (forward_event _ now _) as [[r x]|] eqn:Ef; cbn [mbind option_bind]; [|done].
    apply core_forward_event in Ef. rewrite core_note in Ef. rewrite Ef. cbn [mbind option_bind].
    by intros [= <- <-].
  - destruct (discovery_from_topic_ads ads); cbn [mbind option_bind]; [|done].
    destruct (pubsub_event rt now _) as [[r x]|] eqn:Ef; cbn [mbind option_bind]; [|done].
    apply core_pubsub_event in Ef. rewrite Ef. cbn [mbind option_bind]. by intros [= <- <-].
  - cbn [seq_store core set_log]. destruct (store_persist _ _) as [st r]. intros [= <- <-]. by destruct r.
Qed.
Lemma core_control_actions l : ∀ rt now c rt' c',
  execute_control_actions accepts rt now c l = Some (rt', c') →
  execute_control_actions accepts (core rt) now c l = Some (core rt', c').
Proof.
  induction l as [|a l IH]; intros rt now c rt' c'; cbn [execute_control_actions]; [by intros [= <- <-]|].
  destruct (execute_control_action accepts rt now c a) as [[rt1 c1]|] eqn:E; cbn [mbind option_bind]; [|done].
  rewrite (core_control_action _ _ _ _ _ _ E). cbn [mbind option_bind running core set_log].
  destruct (running rt1); [apply IH|by intros [= <- <-]].
Qed.

Lemma core_take_input rt now i rt' taken :
  take_input rt now i = Some (rt', taken) → take_input (core rt) now i = Some (core rt', taken).
Proof.
  assert (Hev : ∀ rt1 rt0 e (g : list ForwardAction → option (option ControlEvent * _)),
    core rt1 = rt0 →
    ('(r, x) ← forward_event rt1 now e; Some (r, g x)) = Some (rt', taken) →
    ('(r, x) ← forward_event rt0 now e; Some (r, g x)) = Some (core rt', taken)).
  { intros rt1 rt0 e g <-. destruct (forward_event rt1 now e) as [[r x]|] eqn:E; cbn [mbind option_bind]; [|done].
    rewrite (core_forward_event _ _ _ _ _ E). cbn [mbind option_bind]. by intros [= <- <-]. }
  assert (Hgr : ∀ rt1 rt0 l n (g : list ForwardAction → option (option ControlEvent * _)),
    core rt1 = rt0 →
    ('(r, x) ← forward_event rt1 now (FeLinkCredit l n);
     '(r, y) ← forward_event r now (FeLinkWritable l); Some (r, g (x ++ y))) = Some (rt', taken) →
    ('(r, x) ← forward_event rt0 now (FeLinkCredit l n);
     '(r, y) ← forward_event r now (FeLinkWritable l); Some (r, g (x ++ y))) = Some (core rt', taken)).
  { intros rt1 rt0 l n g <-. destruct (forward_event rt1 now _) as [[r x]|] eqn:E1; cbn [mbind option_bind]; [|done].
    rewrite (core_forward_event _ _ _ _ _ E1). cbn [mbind option_bind].
    destruct (forward_event r now _) as [[r2 y]|] eqn:E2; cbn [mbind option_bind]; [|done].
    rewrite (core_forward_event _ _ _ _ _ E2). cbn [mbind option_bind]. by intros [= <- <-]. }
  destruct i as [[l peer|l|l f|l t c n]|[p|ds p]|e|[t|t]]; cbn [take_input].
  - cbn [peer_costs core set_log]. destruct (peer_costs rt !! peer) as [cost|]; [|by intros [= <- <-]].
    apply (Hgr _ _ l MAX_PAYLOAD_LEN (λ x, Some (Some (CeLinkUp l peer cost), (x, [])))). by rewrite core_note.
  - apply (Hev _ _ (FeLinkDown l) (λ x, Some (Some (CeLinkDown l), (x, [])))). by rewrite core_note.
  - case_bool_decide.
    + destruct (decode_forward_frame f) as [[p|e]|]; cbn [mbind option_bind]; [| |done].
      * by apply (Hev _ _ (FeInbound l p) (λ x, Some (None, (x, [])))).
      * by intros [= <- <-].
    + destruct (decode_control_frame f); by intros [= <- <-].
  - case_bool_decide; [|by intros [= <- <-]]. by apply (Hgr _ _ l n (λ x, Some (None, (x, [])))).
  - apply (Hev _ _ (FeOutbound p) (λ x, Some (None, (x, [])))). by rewrite core_note.
  - apply (Hev _ _ (FeOutboundMulticast ds p) (λ x, Some (None, (x, [])))). by rewrite core_note.
  - destruct (pubsub_event rt now e) as [[r x]|] eqn:E; cbn [mbind option_bind]; [|done].
    rewrite (core_pubsub_event _ _ _ _ _ E). cbn [mbind option_bind]. by intros [= <- <-].
  - by intros [= <- <-].
  - by apply (Hev _ _ (FeTimer t) (λ x, Some (None, (x, [])))).
Qed.
Lemma core_forward_stage rt now c rt' :
  forward_stage accepts rt now c = Some rt' → forward_stage accepts (core rt) now c = Some (core rt').
Proof.
  destruct c as [fas pas]. unfold forward_stage.
  destruct (execute_pubsub_actions accepts rt now pas) as [[rt1 x]|] eqn:E1; cbn [mbind option_bind]; [|done].
  rewrite (core_pubsub_actions _ _ _ _ _ E1). cbn [mbind option_bind].
  destruct (execute_forward_actions accepts _ now (fas ++ x)) as [rt2|] eqn:E2; cbn [mbind option_bind]; [|done].
  apply core_forward_actions in E2. destruct (core_note_actions (fas ++ x) rt1 now) as [Ha Hb].
  rewrite Ha in E2. rewrite Hb, E2. cbn [mbind option_bind].
  unfold publish_snapshot. cbn [diagnostics_enabled core set_log].
  destruct (diagnostics_enabled rt2); [|by intros [= <-]].
  destruct (queue_snapshots _ _); cbn [mbind option_bind]; [|done]. by intros [= <-].
Qed.
Lemma core_process rt now i rt' :
  process accepts rt now i = Some rt' → process accepts (core rt) now i = Some (core rt').
Proof.
  unfold process. destruct (take_input rt now i) as [[rt1 taken]|] eqn:E1; cbn [mbind option_bind]; [|done].
  rewrite (core_take_input _ _ _ _ _ E1). cbn [mbind option_bind]. destruct taken as [[ev c]|]; [|by intros [= <-]].
  destruct (control_stage accepts rt1 now _ c) as [[rt2 c2]|] eqn:E2; cbn [mbind option_bind]; [|done].
  assert (control_stage accepts (core rt1) now (final_control_event ev c.2) c = Some (core rt2, c2)) as ->.
  { unfold control_stage in *. destruct (final_control_event ev c.2) as [e|]; [|by injection E2 as <- <-].
    cbn [plane core set_log]. destruct (cp_handle _ _ _) as [[cp acts]|]; cbn [mbind option_bind] in *; [|done].
    apply (core_control_actions acts (set_plane rt1 cp)) in E2. exact E2. }
  cbn [mbind option_bind running core set_log]. destruct (running rt2); [|by intros [= <-]].
  apply core_forward_stage.
Qed.

(** The stimuli but for [enable_diagnostics]. *)
Fixpoint mute (l : list Stimulus) : list Stimulus :=
  match l with
  | [] => []
  | StEnableDiagnostics :: l => mute l
  | s :: l => s :: mute l
  end.

Lemma core_run l : ∀ rt rt',
  rt_run accepts rt l = Some rt' → rt_run accepts (core rt) (mute l) = Some (core rt').
Proof.
  induction l as [|s l IH]; intros rt rt'; cbn [rt_run]; [by intros [= <-]|].
  destruct (stimulate accepts rt s) as [rt1|] eqn:E; cbn [mbind option_bind]; [|done]. intros H.
  destruct s as [checked_at now wake|peer cost|]; cbn [mute].
  - cbn [rt_run stimulate] in *. unfold iterate in *.
    cbn [running inbox core set_log]. destruct (running rt); cbn [negb] in *.
    2: { injection E as <-. cbn [mbind option_bind]. by apply IH. }
    destruct (recv (inbox rt) checked_at wake) as [[i|] ib].
    + apply core_process in E. change (set_inbox (core rt) ib) with (core (set_inbox rt ib)).
      rewrite E. cbn [mbind option_bind]. by apply IH.
    + injection E as <-. cbn [mbind option_bind]. by apply IH in H.
  - injection E as <-. cbn [rt_run stimulate mbind option_bind].
    by apply IH in H.
  - injection E as <-. by apply IH in H.
Qed.

(** ** The log *)

Lemma control_actions_log l : ∀ rt now c rt' c',
  execute_control_actions accepts rt now c l = Some (rt', c') →
  log_inv (event_log rt) → log_inv (event_log rt').
Proof.
  induction l as [|a l IH]; intros rt now c rt' c'; cbn [execute_control_actions]; [by intros [= <- _]|].
  destruct (execute_control_action accepts rt now c a) as [[rt1 c1]|] eqn:E; cbn [mbind option_bind]; [|done].
  intros H Hlog. assert (log_inv (event_log rt1)).
  { clear H. destruct c as [fas pas]. destruct a as [k f|t at_|tab|ads|n]; cbn [execute_control_action] in E.
    - destruct (encode_control_frame f) as [w|]; [|by injection E as <- _].
      destruct (control_frame_summary f) as [kd d]. injection E as <- _. unfold transmit.
      apply (fr_log _ _ (note_frame rt now kd d (Some k))) in Hlog. by destruct (accepts _).
    - by injection E as <- _.
    - destruct (forward_event _ now _) as [[r x]|] eqn:Ef; cbn [mbind option_bind] in E; [|done].
      injection E as <- _. apply (fr_log _ _ (forward_event_frame _ _ _ _ _ Ef)).
      by apply (fr_log _ _ (note_frame rt now _ _ _)).
    - destruct (discovery_from_topic_ads ads); cbn [mbind option_bind] in E; [|done].
      destruct (pubsub_event rt now _) as [[r x]|] eqn:Ef; cbn [mbind option_bind] in E; [|done].
      injection E as <- _. by apply (fr_log _ _ (pubsub_event_frame _ _ _ _ _ Ef)).
    - destruct (store_persist _ _) as [st r]. injection E as <- _. by destruct r. }
  destruct (running rt1); [by eapply IH|by injection H as <- _].
Qed.
Lemma process_log rt now i rt' :
  process accepts rt now i = Some rt' → log_inv (event_log rt) → log_inv (event_log rt').
Proof.
  intros E Hl. unfold process in E.
  destruct (take_input rt now i) as [[rt1 taken]|] eqn:E1; cbn [mbind option_bind] in E; [|done].
  apply (fr_log _ _ (take_input_frame _ _ _ _ _ E1)) in Hl. destruct taken as [[ev c]|]; [|by injection E as <-].
  destruct (control_stage _ _ _ _ _) as [[rt2 c2]|] eqn:E2; cbn [mbind option_bind] in E; [|done].
  assert (log_inv (event_log rt2)).
  { unfold control_stage in E2. destruct (final_control_event ev c.2) as [e|]; [|by injection E2 as <- _].
    destruct (cp_handle _ _ _) as [[cp acts]|]; cbn [mbind option_bind] in E2; [|done].
    by apply control_actions_log in E2. }
  destruct (running rt2); [|by injection E as <-].
  by apply (fr_log _ _ (forward_stage_frame _ _ _ _ _ E)).
Qed.
Lemma run_log l : ∀ rt rt',
  rt_run accepts rt l = Some rt' → log_inv (event_log rt) → log_inv (event_log rt').
Proof.
  induction l as [|s l IH]; intros rt rt'; cbn [rt_run]; [by intros [= <-]|].
  destruct (stimulate accepts rt s) as [rt1|] eqn:E; cbn [mbind option_bind]; [|done]. intros H Hl.
  apply (IH _ _ H). destruct s as [checked_at now wake|peer cost|]; cbn [stimulate] in E;
    [|by injection E as <-..].
  unfold iterate in E. destruct (running rt); cbn [negb] in E; [|by injection E as <-].
  destruct (recv (inbox rt) checked_at wake) as [[i|] ib]; [|by injection E as <-].
  by apply process_log in E.
Qed.
End Runtime.

(** C23: Diagnostics only observe.  A run in which [enable_diagnostics] is
    called at any points, and the same run without these calls, do the same:
    the same frames, closed links, persisted numbers and outcomes in the same
    order, the same states of the machines, the same timers; only the event
    log and the snapshot differ.  The log never holds more than 256 entries,
    and these carry the latest numbers without gaps. *)
Theorem diagnostics_transparent {St} `{!SeqStore St}
    `{!Prost PbLsa, !Prost PbSignedLsa, !Prost PbDigest, !Prost PbDigestReq, !Prost WireEnvelope}
    accepts config endpoint (store store' : St) pol rt l rt' :
  spawn_with_seq_store_and_pubsub config endpoint store pol = (store', Ok rt) →
  rt_run accepts rt l = Some rt' →
  rt_run accepts rt (mute l) = Some (core rt') ∧ log_ok (event_log rt').
Proof.
  intros Hsp Hrun. assert (core rt = rt ∧ log_inv (event_log rt)) as [Hcore Hlog].
  { revert Hsp. unfold spawn_with_seq_store_and_pubsub. case_decide; [done|].
    destruct (store_load store) as [st [n|e]]; cbn [map_err]; [|done].
    destruct (Z.eqb_spec n (u_max 64)); [done|]. intros [= <- <-]. split; [done|]. by repeat split. }
  split; [|by apply (run_log accepts l rt rt')].
  rewrite <-Hcore at 1. by apply core_run.
Qed.
