(* ===== verification/RuntimeTables.v ===== *)
(** * The tables of the runtime agree

    The control plane, the forwarder and Pub/Sub of a runtime each keep a copy
    of what the control plane last published.  Along every run the copies are
    the control plane's own, and when no route computation is pending they are
    those of its database. *)

From Stdlib Require Import Strings.Byte Strings.String.
From S2P Require Export Prelude Ord Bytes Text SeqStore Types Proto Wire WirePackets PubSub PubSubProps PubSubTheorems Forward ForwardSched ForwardInv ForwardRoute ForwardProps ForwardTheorems RuntimeCodec RuntimeCodecProps RuntimeLog Runtime RuntimeProps RuntimeFrame ControlTypes Spf Control ControlRoutes ControlInv ControlProps ControlTimers ControlActions ControlRouting.
Open Scope Z_scope.

(** ** Which events change the routes of a forwarder *)

Definition keeps {A} (fw : Forwarder) (r : option (Forwarder * A)) : Prop :=
  ∀ fw' a, r = Some (fw', a) → fw_routes fw' = fw_routes fw.

Lemma keeps_ret {A} fw (a : A) : keeps fw (Some (fw, a)).
Proof. by intros fw' a' [= <- _]. Qed.
Lemma keeps_tables_bind {A B} fw (r : option (Forwarder * A)) (k : Forwarder → A → option (Forwarder * B)) :
  keeps fw r → (∀ fw' a, fw_routes fw' = fw_routes fw → keeps fw (k fw' a)) →
  keeps fw ('(fw', a) ← r; k fw' a).
Proof.
  intros Hr Hk fw2 b. destruct r as [[fw1 a]|]; cbn [mbind option_bind]; [|done].
  apply Hk. by eapply Hr.
Qed.
Lemma keeps_weaken {A} fw fw1 (r : option (Forwarder * A)) :
  fw_routes fw1 = fw_routes fw → keeps fw1 r → keeps fw r.
Proof. intros E Hr fw2 a Ha. rewrite <-E. by eapply Hr. Qed.

Lemma try_send_one_keeps fw l : keeps fw (try_send_one fw l).
Proof.
  unfold try_send_one. destruct (links fw !! l); [|apply keeps_ret].
  destruct (try_send _) as [[s r]|]; cbn [mbind option_bind]; [|done]. by intros fw' a [= <- _].
Qed.
Lemma enqueue_keeps fw l p incoming : keeps fw (enqueue fw l p incoming).
Proof.
  unfold enqueue. case_decide; [apply keeps_ret|].
  destruct (place _ _ _) as [[s|]|]; cbn [mbind option_bind]; [| |done].
  - eapply keeps_weaken; [|apply try_send_one_keeps]. done.
  - by intros fw' a [= <- _].
Qed.
Lemma enqueue_branches_keeps incoming p b n bs : ∀ fw, keeps fw (enqueue_branches fw incoming p b n bs).
Proof.
  induction bs as [|[l ds] bs IH]; intros fw; cbn [enqueue_branches]; [apply keeps_ret|].
  destruct (multicast_subset_packet _ _ _ _); cbn [mbind option_bind]; [|done].
  apply keeps_tables_bind; [apply enqueue_keeps|]. intros fw1 a E.
  apply keeps_tables_bind; [by eapply keeps_weaken|]. intros fw2 a' E2. by intros fw3 x [= <- _].
Qed.
Lemma process_packet_keeps fw incoming p : keeps fw (process_packet fw incoming p).
Proof.
  unfold process_packet. destruct (_ =? 0); [apply keeps_ret|].
  destruct (packet_type _); try apply keeps_ret.
  - destruct (forward_unicast _ _ _) as [[]|]; cbn [mbind option_bind]; try apply keeps_ret; [|done].
    apply enqueue_keeps.
  - unfold forward_multicast. destruct (MulticastPayload_new _ _); [|apply keeps_ret].
    destruct (drop_subset NoRoute _ _ _); cbn [mbind option_bind]; [|done].
    destruct (drop_subset LoopDetected _ _ _); cbn [mbind option_bind]; [|done].
    destruct (checked_sub _ _); cbn [mbind option_bind]; [|done].
    apply keeps_tables_bind; [apply enqueue_branches_keeps|]. intros fw1 acts E. by intros fw2 x [= <- _].
Qed.
Lemma reroute_queued_keeps fw q fw' a un :
  reroute_queued fw q = Some (fw', a, un) → fw_routes fw' = fw_routes fw.
Proof.
  unfold reroute_queued. destruct (packet_type _); try (by intros [= <- _ _]).
  - unfold reroute_unicast. case_decide; [by intros [= <- _ _]|].
    destruct (reroute_link _ _ _); [|by intros [= <- _ _]].
    destruct (enqueue _ _ _ _) as [[f x]|] eqn:E; cbn [mbind option_bind]; [|done]. intros [= <- _ _].
    by eapply enqueue_keeps.
  - unfold reroute_multicast. destruct (MulticastPayload_new _ _); [|by intros [= <- _ _]].
    destruct (enqueue_branches _ _ _ _ _ _) as [[f x]|] eqn:E; cbn [mbind option_bind]; [|done].
    destruct (match no_route _ with [] => _ | _ => _ end); cbn [mbind option_bind]; [|done].
    intros [= <- _ _]. by eapply enqueue_branches_keeps.
Qed.
Lemma reroute_all_keeps l : ∀ fw, keeps fw (reroute_all fw l).
Proof.
  induction l as [|q l IH]; intros fw; cbn [reroute_all]; [apply keeps_ret|].
  intros fw' a. destruct (reroute_queued fw q) as [[[fw1 x] un]|] eqn:E; cbn [mbind option_bind]; [|done].
  destruct (reroute_all fw1 l) as [[fw2 rest]|] eqn:E2; cbn [mbind option_bind]; [|done].
  intros [= <- _]. apply reroute_queued_keeps in E. apply IH in E2. congruence.
Qed.
Lemma retry_batches_keeps now l : ∀ fw, keeps fw (retry_batches fw now l).
Proof.
  induction l as [|[g b] l IH]; intros fw; cbn [retry_batches]; [apply keeps_ret|].
  apply keeps_tables_bind.
  - unfold retry_batch. destruct (_ <=? now); [apply keeps_ret|].
    apply keeps_tables_bind; [apply reroute_all_keeps|]. intros fw1 acts E fw2 x.
    destruct (acts ≫= snd); by intros [= <- _].
  - intros fw1 a E. apply keeps_tables_bind; [by eapply keeps_weaken|]. intros fw2 a' E2. by intros fw3 x [= <- _].
Qed.

Definition routes_after (fw : Forwarder) (e : ForwardEvent) : RouteTable :=
  match e with FeRoutesUpdated t => t | _ => fw_routes fw end.
Lemma fw_handle_routes fw now e fw' acts :
  fw_handle fw now e = Some (fw', acts) → fw_routes fw' = routes_after fw e.
Proof.
  destruct e as [p|ds p|l p|t|l n|l|l|t]; cbn [fw_handle routes_after]; intros H.
  - by eapply process_packet_keeps.
  - unfold process_outbound_multicast in H. destruct (MulticastPayload_new _ _); [|by injection H as <- _].
    by eapply process_packet_keeps.
  - by eapply process_packet_keeps.
  - unfold handle_routes_updated, retry_pending_p0 in H. apply retry_batches_keeps in H. by rewrite H.
  - unfold grant_credit in H. case_decide; [by injection H as <- _|]. apply try_send_one_keeps in H. by rewrite H.
  - unfold mark_writable in H. case_decide; [by injection H as <- _|]. apply try_send_one_keeps in H. by rewrite H.
  - unfold handle_link_down in H. cbn [links set_down_links] in H.
    destruct (links fw !! l) as [s|]; [|by injection H as <- _].
    destruct (queues s !! 0%nat) as [p0|]; [|done]. destruct (queues s !! 1%nat) as [p1|]; [|done].
    destruct (queues s !! 2%nat) as [p2|]; [|done]. destruct (queues s !! 3%nat) as [p3|]; [|done].
    cbn [mbind option_bind] in H.
    destruct (hold_p0 _ _ _) as [[f1 a1]|] eqn:E1; cbn [mbind option_bind] in H; [|done].
    destruct (reroute_all f1 _) as [[f2 a2]|] eqn:E2; cbn [mbind option_bind] in H; [|done].
    injection H as <- _. apply reroute_all_keeps in E2. rewrite E2. unfold hold_p0 in E1.
    destruct p0; [by injection E1 as <- _|]. destruct (next_pending_generation _) as [[g f]|] eqn:E3;
      cbn [mbind option_bind] in E1; [|done]. injection E1 as <- _. cbn.
    unfold next_pending_generation in E3. destruct (run_loop _ _ _) as [[]|]; cbn in E3; [|done].
    by injection E3 as _ <-.
  - unfold fw_handle_timer in H. destruct t as [g]. destruct (pending_p0 fw !! g); [|by injection H as <- _].
    destruct (now <? _); by injection H as <- _.
Qed.

Definition discovery_after (ps : PubSub) (e : PubSubEvent) : gmap TopicSelector (gset NodeId) :=
  match e with PeDiscoveryUpdated d => d | _ => discovery ps end.
Lemma ps_handle_discovery `{!Prost WireEnvelope} ps now e ps' acts :
  ps_handle ps now e = Some (ps', acts) → discovery ps' = discovery_after ps e.
Proof.
  destruct e as [t p|id s|id|src p|d]; cbn [ps_handle discovery_after].
  - intros H. destruct (publish_inv _ _ _ _ _ _ H) as [|?|?|? ? ? ? ? ? ? ? ? ? Ho]; try done.
    apply offer_fields in Ho as (_ & _ & _ & -> & _). done.
  - by intros [= <- _].
  - by intros [= <- _].
  - unfold receive. destruct (Envelope_decode p) as [[e|e]|]; cbn [mbind option_bind]; [| |done].
    2: by intros [= <- _]. case_decide; [by intros [= <- _]|].
    destruct (policies ps !! _); [|by intros [= <- _]].
    destruct (offer _ _ _) as [ps1 b] eqn:Ho. apply offer_fields in Ho as (_ & _ & _ & Ho & _).
    destruct b; by intros [= <- _].
  - by intros [= <- _].
Qed.

(** ** What an iteration does to the tables *)

Section Tables.
Context {St : Type} `{!SeqStore St}.
Context `{!Prost PbLsa, !Prost PbSignedLsa, !Prost PbDigest, !Prost PbDigestReq}.
Context `{!Prost WireEnvelope}.
Context (accepts : nat → bool).
Implicit Types rt : Runtime St.

(** Routes and subscribers stay. *)
Definition same_tables rt rt' : Prop :=
  fw_routes (forwarder rt') = fw_routes (forwarder rt) ∧
  discovery (pubsub rt') = discovery (pubsub rt).
#[local] Instance same_tables_refl : Reflexive same_tables.
Proof. done. Qed.
#[local] Instance same_tables_trans : Transitive same_tables.
Proof. intros a b c [? ?] [? ?]. split; congruence. Qed.

Definition table_free (e : ForwardEvent) : Prop :=
  match e with FeRoutesUpdated _ => False | _ => True end.
Definition local_event (e : PubSubEvent) : Prop :=
  match e with PeDiscoveryUpdated _ => False | _ => True end.

Lemma forward_event_tables rt now e rt' acts :
  table_free e → forward_event rt now e = Some (rt', acts) → same_tables rt rt'.
Proof.
  unfold forward_event. destruct (fw_handle _ _ _) as [[fw a]|] eqn:E; [|done].
  intros He [= <- _]. apply fw_handle_routes in E. split; [|done]. cbn. rewrite E. by destruct e.
Qed.
Lemma pubsub_event_tables rt now e rt' acts :
  local_event e → pubsub_event rt now e = Some (rt', acts) → same_tables rt rt'.
Proof.
  unfold pubsub_event. destruct (ps_handle _ _ _) as [[ps a]|] eqn:E; [|done].
  intros He [= <- _]. apply ps_handle_discovery in E. split; [done|]. cbn. rewrite E. by destruct e.
Qed.
Lemma emit_tables rt e : same_tables rt (emit rt e).
Proof. done. Qed.
Lemma note_tables rt now k d l : same_tables rt (note rt now k d l).
Proof. unfold note. by destruct (diagnostics_enabled rt). Qed.
Lemma try_emit_tables rt e : same_tables rt (try_emit accepts rt e).
Proof. unfold try_emit. by destruct (accepts _). Qed.
Lemma transmit_tables rt l e : same_tables rt (transmit accepts rt l e).
Proof. unfold transmit. by destruct (accepts _). Qed.

Lemma execute_pubsub_actions_tables l : ∀ rt now rt' acts,
  execute_pubsub_actions accepts rt now l = Some (rt', acts) → same_tables rt rt'.
Proof.
  induction l as [|a l IH]; intros rt now rt' acts; cbn [execute_pubsub_actions].
  { by intros [= <- _]. }
  destruct (execute_pubsub_action _ _ _ _) as [[rt1 x]|] eqn:E1; cbn [mbind option_bind]; [|done].
  destruct (execute_pubsub_actions _ _ _ _) as [[rt2 y]|] eqn:E2; cbn [mbind option_bind]; [|done].
  intros [= <- _]. apply IH in E2. etrans; [|exact E2].
  destruct a as [ds pr flow key c p|id m|ch|t n|r|r]; cbn [execute_pubsub_action] in E1.
  2-6: injection E1 as <- _; try done; apply try_emit_tables.
  destruct (if c then _ else _); cbn [mbind option_bind] in E1; [|done].
  apply forward_event_tables in E1; done.
Qed.
Lemma execute_forward_action_tables rt now a rt' more :
  execute_forward_action accepts rt now a = Some (rt', more) → same_tables rt rt'.
Proof.
  destruct a as [l p|p|r p|l p|t at_]; cbn [execute_forward_action].
  - destruct (forward_frame p); intros [= <- _]; [apply transmit_tables|done].
  - destruct (is_envelope _); [|by intros [= <- _]].
    destruct (pubsub_event rt now _) as [[rt1 x]|] eqn:E; cbn [mbind option_bind]; [|done].
    intros H%execute_pubsub_actions_tables. apply pubsub_event_tables in E; [|done]. by etrans.
  - intros [= <- _]. apply try_emit_tables.
  - by intros [= <- _].
  - by intros [= <- _].
Qed.
Lemma forward_loop_tables now n : ∀ s r,
  loop_nat (forward_actions_step accepts now) n s = inr (Some r) → same_tables s.1 r.
Proof.
  induction n as [|n IH]; intros [rt l] r; cbn [loop_nat]; [done|].
  destruct l as [|a l]; cbn [forward_actions_step]; [by intros [= <-]|].
  destruct (execute_forward_action _ _ _ _) as [[rt1 x]|] eqn:E; [|done].
  intros H%IH. apply execute_forward_action_tables in E. by etrans.
Qed.
Lemma note_forward_tables l : ∀ rt now, same_tables rt (note_forward_actions rt now l).
Proof.
  induction l as [|a l IH]; intros rt now; cbn [note_forward_actions]; [done|].
  destruct (forward_action_summary a) as [[[k d] x]|]; [|apply IH].
  etrans; [apply note_tables|apply IH].
Qed.
Lemma forward_stage_tables rt now c rt' :
  forward_stage accepts rt now c = Some rt' → same_tables rt rt'.
Proof.
  destruct c as [fas pas]. unfold forward_stage.
  destruct (execute_pubsub_actions _ _ _ _) as [[rt1 x]|] eqn:E1; cbn [mbind option_bind]; [|done].
  destruct (execute_forward_actions _ _ _ _) as [rt2|] eqn:E2; cbn [mbind option_bind]; [|done].
  unfold publish_snapshot. intros E3. apply execute_pubsub_actions_tables in E1.
  unfold execute_forward_actions, run_loop in E2. rewrite loop_pos_nat in E2.
  destruct (loop_nat _ _ _) as [|r] eqn:E; [done|]. cbn in E2. subst r.
  apply forward_loop_tables in E. cbn [fst] in E.
  etrans; [exact E1|]. etrans; [apply note_forward_tables|]. etrans; [exact E|].
  destruct (diagnostics_enabled rt2); [|by injection E3 as <-].
  destruct (queue_snapshots _ _); cbn [mbind option_bind] in E3; [|done]. by injection E3 as <-.
Qed.

(** The application hands in publications and subscriptions only. *)
Definition local_input (i : RuntimeInput) : Prop :=
  match i with RiPubSub e => local_event e | _ => True end.
Lemma take_input_tables rt now i rt' taken :
  local_input i → take_input rt now i = Some (rt', taken) → same_tables rt rt'.
Proof.
  intros Hi.
  assert (Hev : ∀ rt1 e (k : list ForwardAction → option (option ControlEvent * _)) , same_tables rt rt1 →
    table_free e → ('(r, x) ← forward_event rt1 now e; Some (r, k x)) = Some (rt', taken) → same_tables rt rt').
  { intros rt1 e k Hf He. destruct (forward_event rt1 now e) as [[r x]|] eqn:E; cbn [mbind option_bind]; [|done].
    intros [= <- _]. apply forward_event_tables in E; [|done]. by etrans. }
  assert (Hgr : ∀ rt1 l n (k : list ForwardAction → option (option ControlEvent * _)), same_tables rt rt1 →
    ('(r, x) ← forward_event rt1 now (FeLinkCredit l n);
     '(r, y) ← forward_event r now (FeLinkWritable l); Some (r, k (x ++ y))) = Some (rt', taken) →
    same_tables rt rt').
  { intros rt1 l n k Hf. destruct (forward_event rt1 now _) as [[r x]|] eqn:E; cbn [mbind option_bind]; [|done].
    destruct (forward_event r now (FeLinkWritable l)) as [[r2 y]|] eqn:E2; cbn [mbind option_bind]; [|done].
    intros [= <- _]. apply forward_event_tables in E, E2; [|done..]. etrans; [exact Hf|]. by etrans. }
  destruct i as [[l peer|l|l f|l t c n]|[p|ds p]|e|[t|t]]; cbn [take_input].
  - destruct (peer_costs rt !! peer); [|by intros [= <- _]].
    apply (Hgr _ l MAX_PAYLOAD_LEN (λ x, Some (Some (CeLinkUp l peer l0), (x, [])))).
    etrans; [|apply note_tables]. done.
  - apply (Hev _ (FeLinkDown l) (λ x, Some (Some (CeLinkDown l), (x, [])))); [|done].
    etrans; [|apply note_tables]. done.
  - case_bool_decide.
    + destruct (decode_forward_frame f) as [[p|e]|]; cbn [mbind option_bind]; [| |done].
      * by apply (Hev _ (FeInbound l p) (λ x, Some (None, (x, [])))).
      * by intros [= <- _].
    + destruct (decode_control_frame f); by intros [= <- _].
  - case_bool_decide; [|by intros [= <- _]].
    by apply (Hgr _ l n (λ x, Some (None, (x, [])))).
  - apply (Hev _ (FeOutbound p) (λ x, Some (None, (x, [])))); [apply note_tables|done].
  - apply (Hev _ (FeOutboundMulticast ds p) (λ x, Some (None, (x, [])))); [apply note_tables|done].
  - destruct (pubsub_event rt now e) as [[r x]|] eqn:E; cbn; [|done]. intros [= <- _].
    by eapply (pubsub_event_tables _ _ _ _ _ Hi E).
  - by intros [= <- _].
  - by apply (Hev _ (FeTimer t) (λ x, Some (None, (x, [])))).
Qed.

(** ** Publishing *)

(** The forwarder has the routes [t], and Pub/Sub the subscribers of [ads]. *)
Definition tables_are rt (t : RouteTable) (ads : list DiscoveredTopicAd) : Prop :=
  fw_routes (forwarder rt) = t ∧ discovery_from_topic_ads ads = Some (discovery (pubsub rt)).
Lemma same_tables_are rt rt' t ads : same_tables rt rt' → tables_are rt t ads → tables_are rt' t ads.
Proof. intros [E1 E2] [H1 H2]. split; congruence. Qed.

Lemma execute_control_actions_tables l : ∀ rt now c rt' c' t ads,
  tables_are rt t ads → execute_control_actions accepts rt now c l = Some (rt', c') → running rt' = true →
  tables_are rt' (last_routes t l) (last_ads ads l).
Proof.
  induction l as [|a l IH]; intros rt now c rt' c' t ads Ht; cbn [execute_control_actions].
  { by intros [= <- _]. }
  destruct (execute_control_action _ _ _ _ _) as [[rt1 c1]|] eqn:E; cbn [mbind option_bind]; [|done].
  intros Hrun Hr. destruct (running rt1) eqn:Er; [|injection Hrun as <- _; congruence].
  assert (Ht1 : tables_are rt1 (last_routes t [a]) (last_ads ads [a])); [|by eapply IH].
  destruct c as [fas pas]. destruct a as [lk f|tm at_|routes|ds|sq]; cbn [execute_control_action] in E.
  - destruct (encode_control_frame f); [|by injection E as <- _].
    destruct (control_frame_summary f) as [k d]. injection E as <- _.
    eapply same_tables_are; [|exact Ht]. etrans; [apply note_tables|apply transmit_tables].
  - by injection E as <- _.
  - match type of E with context [forward_event ?r now _] =>
      assert (Hn : same_tables rt r) by apply note_tables; set (rt0 := r) in * end.
    unfold forward_event in E.
    destruct (fw_handle _ _ _) as [[fw y]|] eqn:Eh; cbn [mbind option_bind] in E; [|done].
    injection E as <- _. apply fw_handle_routes in Eh. destruct Ht as [_ Hd]. split; [exact Eh|].
    cbn. destruct Hn as [_ Hn]. by rewrite Hn.
  - destruct (discovery_from_topic_ads ds) as [d|] eqn:Ed; cbn [mbind option_bind] in E; [|done].
    cbn in E. injection E as <- _. destruct Ht as [Hf _]. split; [exact Hf|exact Ed].
  - destruct (store_persist (seq_store rt) sq) as [s [u|e]]; injection E as <- _; exact Ht.
Qed.

(** ** Runs *)

Definition tables_ok rt : Prop :=
  running rt = true →
  tables_are rt (cp_routes (plane rt)) (published_topic_ads (plane rt)) ∧ current (plane rt).

Lemma process_tables rt now i rt' :
  running rt = true → tables_ok rt → local_input i → process accepts rt now i = Some rt' → tables_ok rt'.
Proof.
  intros Hrun Hok Hi. destruct (Hok Hrun) as [Ht Hc]. unfold process.
  destruct (take_input rt now i) as [[rt1 taken]|] eqn:E1; cbn [mbind option_bind]; [|done].
  pose proof (take_input_tables _ _ _ _ _ Hi E1) as Hs. apply take_input_frame in E1.
  pose proof (same_tables_are _ _ _ _ Hs Ht) as Ht1.
  assert (Hok1 : tables_are rt1 (cp_routes (plane rt1)) (published_topic_ads (plane rt1)) ∧ current (plane rt1))
    by (rewrite (fr_plane _ _ E1); done).
  destruct taken as [[ev c]|]; [|intros [= <-]; by intros _].
  unfold control_stage. destruct (final_control_event ev c.2) as [event|].
  2: { cbn [mbind option_bind]. rewrite (fr_running _ _ E1), Hrun. intros H3. intros _.
       pose proof (forward_stage_tables _ _ _ _ H3) as Hs3. apply forward_stage_frame in H3.
       rewrite (fr_plane _ _ H3). destruct Hok1 as [H1 H2]. split; [|done]. by eapply same_tables_are. }
  destruct (cp_handle _ _ _) as [[cp acts]|] eqn:E2; cbn [mbind option_bind]; [|done].
  destruct Hok1 as [H1 H2].
  destruct (handle_current (H:=UnsecuredLsaAuth) _ _ _ _ _ H2 E2) as (Hcur & Hlr & Hla).
  destruct (execute_control_actions _ _ _ _ _) as [[rt2 c2]|] eqn:E3; cbn [mbind option_bind]; [|done].
  pose proof (execute_control_actions_plane _ _ _ _ _ _ _ E3) as Hpl. cbn in Hpl.
  destruct (running rt2) eqn:Er2; [|intros [= <-] Hr; congruence].
  eapply (execute_control_actions_tables _ (set_plane rt1 cp)) in E3; [|exact H1|exact Er2].
  rewrite Hlr, Hla in E3. intros H3. intros _.
  pose proof (forward_stage_tables _ _ _ _ H3) as Hs3. apply forward_stage_frame in H3.
  rewrite (fr_plane _ _ H3), Hpl. split; [|done]. by eapply same_tables_are.
Qed.

Definition local_stimulus (s : Stimulus) : Prop :=
  match s with StIterate _ _ (WkInput i) => local_input i | _ => True end.
Lemma stimulate_tables rt s rt' :
  tables_ok rt → local_stimulus s → stimulate accepts rt s = Some rt' → tables_ok rt'.
Proof.
  intros Hok Hs. destruct s as [ca now wake|peer cost|]; cbn [stimulate]; [|by intros [= <-]..].
  unfold iterate. destruct (running rt) eqn:Er; cbn [negb]; [|by intros [= <-]].
  destruct (recv _ _ _) as [[i|] ib] eqn:E; [|by intros [= <-]].
  intros H. eapply (process_tables (set_inbox rt ib)); [exact Er|exact Hok| |exact H].
  apply recv_spec in E as [[-> _]|(? & ? & ? & -> & _)]; [exact Hs|done].
Qed.
Lemma rt_run_tables l : ∀ rt rt',
  tables_ok rt → Forall local_stimulus l → rt_run accepts rt l = Some rt' → tables_ok rt'.
Proof.
  induction l as [|s l IH]; intros rt rt' Hok Hl; cbn [rt_run]; [by intros [= <-]|].
  apply Forall_cons in Hl as [Hs Hl].
  destruct (stimulate _ _ _) as [rt1|] eqn:E; cbn [mbind option_bind]; [|done].
  apply IH; [|done]. by eapply stimulate_tables.
Qed.
End Tables.

(** C19: Along every run the three machines of a runtime agree.  While the loop
    runs, the forwarder forwards by exactly the table the control plane holds,
    and Pub/Sub sends to exactly the subscribers of the advertisements the
    control plane has published, whatever arrives in between; and whenever no
    route computation is pending, both are those of the link-state database: the
    routes are the shortest paths it describes and the subscribers the ones its
    LSAs name, so that no change of links or LSAs is ever forgotten. *)
Theorem runtime_tables_current {St} `{!SeqStore St}
    `{!Prost PbLsa, !Prost PbSignedLsa, !Prost PbDigest, !Prost PbDigestReq, !Prost WireEnvelope}
    accepts config endpoint (store store' : St) pol rt l rt' :
  spawn_with_seq_store_and_pubsub config endpoint store pol = (store', Ok rt) →
  Forall local_stimulus l → rt_run accepts rt l = Some rt' → running rt' = true →
  fw_routes (forwarder rt') = cp_routes (plane rt') ∧
  discovery_from_topic_ads (published_topic_ads (plane rt')) = Some (discovery (pubsub rt')) ∧
  (pending_spf (plane rt') = None →
   shortest_paths (plane rt') = Some (table_routes (fw_routes (forwarder rt'))) ∧
   discovery_from_topic_ads (discovered_topics (plane rt')) = Some (discovery (pubsub rt'))).
Proof.
  intros Hsp Hl Hrun Hr.
  assert (Hok : tables_ok rt).
  { unfold spawn_with_seq_store_and_pubsub in Hsp. case_decide; [done|].
    destruct (store_load store) as [st [n|e]]; cbn [map_err] in Hsp; [|done].
    destruct (Z.eqb_spec n (u_max 64)); [done|]. injection Hsp as <- <-. intros _.
    split; [by split|]. apply start_current. }
  destruct (rt_run_tables accepts l rt rt' Hok Hl Hrun Hr) as [[Hf Hd] Hc].
  split; [exact Hf|]. split; [exact Hd|]. intros Hp. destruct (Hc Hp) as [Hs Ht].
  by rewrite Hf, Ht.
Qed.
