(* ===== verification/MeshPubSub.v ===== *)
(** * Publications across a mesh

    Pub/Sub, runtime, forwarders and control planes together: the multicasts of
    a publication cross a synchronised mesh and reach every subscriber exactly
    once.  And where they do not: chunks of one publication on a topic that
    keeps only the latest value replace each other in a queue. *)

From S2P Require Export Prelude Ord Bytes Types Wire WirePackets PubSub PubSubProps PubSubTheorems Runtime Forward ForwardSched ForwardInv ForwardRoute ForwardProps ForwardTheorems ControlTypes Control ControlRouting MeshRoutes MeshForward MeshTraffic MeshDelivery.

(** ** From actions of Pub/Sub to packets *)

Definition conflation_flags (c : bool) : Z := if c then CONFLATABLE else flags_empty.
(** The event of the forwarder that an action of Pub/Sub becomes. *)
Definition publication_move (u : NodeId) (a : PubSubAction) : option Move :=
  match a with
  | PaSendMulticast ds pr flow key c bs =>
      Some (SubmitMulticast u ds (multicast_packet u pr flow key (conflation_flags c) bs))
  | _ => None
  end.
(** It is the one the runtime makes of it. *)
Lemma execute_publication {St} `{!Prost WireEnvelope} (accepts : nat → bool) (rt : Runtime St) now a ds p :
  publication_move (fw_me (forwarder rt)) a = Some (SubmitMulticast (fw_me (forwarder rt)) ds p) →
  execute_pubsub_action accepts rt now a = forward_event rt now (FeOutboundMulticast ds p).
Proof. destruct a as [ds' pr flow key [] bs| | | | |]; try done; by intros [= <- <-]. Qed.

(** ** A publication crosses the mesh *)

(** The other nodes that subscribe to the topic, as far as the node knows. *)
Definition audience (ps : PubSub) (t : TopicKey) : gset NodeId :=
  subscribers (discovery ps) t ∖ {[ps_me ps]}.
Definition fate_node (f : Fate) : NodeId := match f with Delivered v _ | Lost v _ _ => v end.

Lemma submitted_filter ms : submitted (filter (λ m, ¬ advances m) ms) = submitted ms.
Proof.
  induction ms as [|m ms IH]; [done|]. rewrite (submitted_cons m ms), filter_cons.
  destruct (decide (¬ advances m)) as [Hp|Hp].
  - by rewrite submitted_cons, IH.
  - rewrite IH. assert (submitted [m] = []) as ->; [|done]. unfold submitted, advances in *.
    cbn [omap list_omap]. destruct (submission m) eqn:E; [|done]. by destruct Hp.
Qed.

Section Publication.
Context `{!Prost WireEnvelope, !ProstLaws WireEnvelope wire_typed}.

(** The multicasts of a publication, as packets. *)
Lemma publication_groups psA now t p psA' acts policy u :
  handle psA now (PeLocalPublish t p) = Some (psA', acts) →
  policies psA !! tk_name t = Some policy →
  (∀ r, PaRejected r ∉ acts) →
  ∃ groups bs, mjoin groups = bset_iter (audience psA t) ∧ Forall (λ g, multicast_ok g bs) groups ∧
    omap (publication_move u) acts =
      (λ g, SubmitMulticast u g (multicast_packet u (tp_priority policy)
              (stable_hash [tk_name t; tk_partition t])
              (stable_hash [as_bytes (ps_me psA); tk_partition t])
              (conflation_flags (conflates policy)) bs)) <$> groups ∧
    ∀ g, g ∈ groups → ∃ pr flow key c, PaSendMulticast g pr flow key c bs ∈ acts.
Proof.
  intros Hpub Hpol Hrej.
  destruct (publish_inv _ _ _ _ _ _ Hpub) as [H0|?|?|pol e bs ps1 groups Hpol' Hseq He Henc Hlen Ho Hj Hf];
    [congruence|exfalso; eapply Hrej; by left..|].
  rewrite Hpol in Hpol'. injection Hpol' as <-. exists groups, bs. split; [done|]. split; [|split].
  - eapply Forall_impl; [exact Hf|]. intros g (m & [Hm _]%multicast_new_Ok). done.
  - rewrite omap_app. cbn [omap list_omap publication_move]. rewrite app_nil_r.
    clear. induction groups as [|g groups IH]; [done|]. rewrite !fmap_cons. cbn [omap list_omap publication_move].
    f_equal. exact IH.
  - intros g Hg. do 4 eexists. apply elem_of_app. left. apply list_elem_of_fmap. by exists g.
Qed.

(** A multicast of the runtime is one the mesh can carry. *)
Lemma multicast_deliverable net u x pr flow key g bs :
  net !! u = Some x → (size net ≤ 32)%nat → multicast_ok g bs →
  (∀ d, d ∈ g → ∃ q c k, mesh_path (mn_control x) d q c k) →
  deliverable net MAX_PAYLOAD_LEN u (subset_packet (multicast_packet u pr flow key flags_empty bs) g 32).
Proof.
  intros Hx Hsize Hok Hway. set (mp := multicast_packet u pr flow key flags_empty bs).
  assert (Hfit : packet_fits (subset_packet mp g 32)) by by apply subset_packet_fits.
  constructor.
  - right. split; [done|]. by apply multicast_ok_osort.
  - intros [k Hk]. unfold ConflationKey_from_packet in Hk. cbn in Hk. by rewrite andb_false_r in Hk.
  - split; [done|exact Hfit].
  - destruct Hok as (_ & Hl & _ & Hsz). unfold ForwardPacket_encoded_len. rewrite decide_True by done.
    unfold subset_packet. cbn [multicast_destinations set_parts payload]. rewrite zlen_osort.
    pose proof (zlen_nonneg g). pose proof (zlen_nonneg bs). rewrite multicast_prefix_len_small by lia.
    cbn [payload multicast_packet mp].
    unfold sat_add, u_max, MAX_FORWARD_PAYLOAD_LEN, MAX_PAYLOAD_LEN, FORWARD_HEADER_LEN in *. lia.
  - cbn. lia.
  - intros d Hd. unfold dests in Hd. rewrite decide_True in Hd by done. cbn in Hd.
    rewrite elem_of_osort in Hd. exists x. split; [done|]. right. by apply Hway.
Qed.
Lemma submitted_groups u mp groups :
  submitted ((λ g, SubmitMulticast u g mp) <$> groups) ≡ₚ spread mp (mjoin groups).
Proof.
  induction groups as [|g groups IH]; [done|]. rewrite fmap_cons, submitted_cons, IH.
  change (mjoin (g :: groups)) with (g ++ mjoin groups). rewrite spread_app.
  apply Permutation_app_tail. unfold submitted. cbn [omap list_omap submission fmap list_fmap snd].
  rewrite bind_units_one. apply perm_of_occ. intros v. by rewrite subset_packet_units.
Qed.

(** C4: A publication reaches its audience across the mesh.  A node of a
    synchronised mesh at rest, of at most 32 nodes (the TTL of the runtime's
    multicasts), publishes on a topic that does not conflate, and is not
    rejected; its audience, the other nodes it knows to subscribe, is connected
    with it and has at most 256 nodes, and nothing else is sent meanwhile.  When
    the mesh has carried the multicasts, however their copies overtook each
    other, every node of the audience has been handed exactly one packet and no
    other node any, and its Pub/Sub component, if it knows the topic and its
    window accepts the number, delivers the published envelope exactly once to
    exactly the matching local subscriptions. *)
Theorem publication_crosses_mesh net u x psA now t p psA' (acts : list PubSubAction) policy ms tr :
  mesh_ready net MAX_PAYLOAD_LEN → at_rest net → (size net ≤ 32)%nat → net !! u = Some x →
  ps_me psA = u → is_uint 64 now → utf8_valid (tk_name t) = true → 0 ≤ next_seq psA t →
  policies psA !! tk_name t = Some policy → conflates policy = false →
  handle psA now (PeLocalPublish t p) = Some (psA', acts) → (∀ r, PaRejected r ∉ acts) →
  Z.of_nat (size (audience psA t)) ≤ 256 →
  (∀ d, d ∈ audience psA t → ∃ q c k, mesh_path (mn_control x) d q c k) →
  filter (λ m, ¬ advances m) ms.*2 = omap (publication_move u) acts →
  traffic_run (traffic_start net) ms = Some tr → under_way tr = [] →
  (fate_node <$> t_fates tr) ≡ₚ bset_iter (audience psA t) ∧
  ∀ f, f ∈ t_fates tr → ∃ q, f = Delivered (fate_node f) q ∧
    ∀ psB policyB now',
      policies psB !! tk_name t = Some policyB →
      (∀ w, PubSub.received psB !! (u, t) = Some w →
         (window_accept w (env_seq (published_envelope psA now t p))).2 = true) →
      ∃ psB' out,
        handle psB now' (PeInbound (source (header q)) (payload q)) = Some (psB', out) ∧
        NoDup out ∧
        ∀ a, a ∈ out ↔
          ∃ id sel, local_subscriptions psB !! id = Some sel ∧ matches sel t = true ∧
            a = PaDeliverToApp id {| dm_envelope := published_envelope psA now t p;
                                     is_backfill := false |}.
Proof.
  intros Hnet Hrest Hsize Hx Hme Hnow Hutf Hseq Hpol Hcon Hpub Hrej Hmany Hway Hms Hrun Hdone.
  destruct (publication_groups psA now t p psA' acts policy u Hpub Hpol Hrej)
    as (groups & bs & Hj & Hgroups & Hmoves & Hacts).
  rewrite Hcon in Hmoves. cbn [conflation_flags] in Hmoves.
  set (mp := multicast_packet u (tp_priority policy) _ _ flags_empty bs) in Hmoves.
  assert (Hall : Forall (move_ok net MAX_PAYLOAD_LEN) ms.*2).
  { apply Forall_forall. intros m Hm. destruct (decide (advances m)) as [Hp|Hp]; [by destruct m|].
    assert (Hin : m ∈ filter (λ m, ¬ advances m) ms.*2) by by apply list_elem_of_filter.
    rewrite Hms, Hmoves in Hin. apply list_elem_of_fmap in Hin as (g & -> & Hg).
    rewrite Forall_forall in Hgroups. split; [by apply Hgroups|].
    apply (multicast_deliverable net u x); [done|done|by apply Hgroups|].
    intros d Hd. apply Hway. rewrite <-elem_of_bset_iter, <-Hj. apply list_elem_of_join. by exists g. }
  assert (Hsub : submitted ms.*2 ≡ₚ spread mp (bset_iter (audience psA t))).
  { by rewrite <-submitted_filter, Hms, Hmoves, submitted_groups, Hj. }
  destruct (start_accounted net Hrest) as [Ha _].
  destruct (traffic_run_ok net _ Hnet ms _ tr (start_ok net _ Hnet Hrest) Hall) as (Hok & Hacc & _); [|done|].
  { rewrite Ha, zlen_nil, (zlen_perm _ _ Hsub). unfold spread, zlen.
    rewrite length_fmap, length_bset_iter. lia. }
  rewrite Ha, Hsub in Hacc. unfold accounted in Hacc. rewrite Hdone in Hacc. cbn [app] in Hacc.
  assert (Hd : delivered tr = (λ f, (fate_node f, match f with Delivered _ q | Lost _ _ q => tag q end)) <$> t_fates tr).
  { unfold delivered. pose proof (to_fates _ _ _ Hok) as Hf. induction (t_fates tr) as [|f fs IH]; [done|].
    rewrite bind_cons, fmap_cons, IH by (intros g Hg; apply Hf; by right).
    destruct (Hf f) as (v & q & ->); [by left|done]. }
  split.
  { apply (fmap_Permutation fst) in Hacc. unfold spread in Hacc. rewrite Hd, <-!list_fmap_compose in Hacc.
    etrans; [exact Hacc|]. clear. induction (bset_iter (audience psA t)) as [|d ds IH]; [done|].
    rewrite fmap_cons, IH. done. }
  intros f Hf. destruct (to_fates _ _ _ Hok f Hf) as (v & q & ->). exists q. split; [done|].
  assert (Hin : (v, tag q) ∈ spread mp (bset_iter (audience psA t))).
  { rewrite <-Hacc, Hd. apply list_elem_of_fmap. by exists (Delivered v q). }
  apply list_elem_of_fmap in Hin as (d & E & Hin).
  pose proof (f_equal snd E) as Htag. cbn [snd] in Htag.
  assert (Hsrc : source (header q) = u) by exact (f_equal tag_source Htag).
  assert (Hpay : payload q = bs) by exact (f_equal tag_payload Htag).
  rewrite <-Hj in Hin. apply list_elem_of_join in Hin as (g & _ & Hg).
  destruct (Hacts g Hg) as (pr & flow & key & c & Hact). intros psB policyB now' HpolB Hwin.
  rewrite Hsrc, Hpay, <-Hme in *.
  destruct (publish_reaches_subscribers psA now t p psA' acts g pr flow key c bs psB now' policyB)
    as (psB' & out & H1 & H2 & H3 & _); [done..|]. by exists psB', out.
Qed.
End Publication.

(** ** Chunks that replace each other *)

(** A packet on a link that is being written takes the place of the waiting
    packet with its key. *)
Lemma enqueue_conflating fw l p incoming q key :
  fw_ok fw → l ∉ down_links fw → packet_fits p → writable (link_state fw l) = false →
  ConflationKey_from_packet p = Some key → queues (link_state fw l) !! 1%nat = Some q →
  q = [] ∨ (∃ x, q = [x] ∧ ConflationKey_from_packet (q_packet x) = Some key) →
  ∃ s, enqueue fw l p incoming = Some (put_link fw l s, []) ∧ lq_ok s ∧ writable s = false ∧
    queues s = <[1%nat := [{| q_incoming := incoming; q_packet := p |}]]> (queues (link_state fw l)).
Proof.
  intros Hok Hd Hfit Hw Hkey Hq Hcase. unfold enqueue. rewrite decide_False by done.
  set (new := {| q_incoming := incoming; q_packet := p |}).
  assert (Hp : priority (header p) = P1).
  { unfold ConflationKey_from_packet in Hkey. destruct (_ && _) eqn:E; [|done].
    by apply andb_true_iff in E as [E%bool_decide_eq_true _]. }
  destruct (place_total (link_state fw l) p incoming (link_state_ok fw l Hok) Hfit)
    as (r & -> & (q' & limit & Hq' & Hlim & Hr) & Hs). rewrite Hp in Hq', Hlim, Hr. cbn [priority_index] in *.
  rewrite Hq in Hq'. injection Hq' as <-. injection Hlim as <-. cbn [mbind option_bind].
  assert (Hplaced : ∃ s, r = Placed s ∧ writable s = false ∧ queues s = <[1%nat := [new]]> (queues (link_state fw l))).
  { destruct r as [s|].
    - exists s. destruct Hr as (_ & Hw' & Hqs). split; [done|]. split; [congruence|].
      destruct Hcase as [->|(x & -> & Hx)].
      + by destruct Hqs as [(-> & _)|(k & old & key' & Hold & _)].
      + destruct Hqs as [(_ & _ & Hno)|(k & old & key' & Hold & _ & _ & ->)].
        * destruct (Hno key Hkey). unfold queue_keys. cbn. rewrite Hx. by left.
        * by destruct k as [|[]]; [injection Hold as <-|..].
    - destruct Hr as [Hz _]. exfalso. destruct Hcase as [->|(x & -> & _)]; discriminate Hz. }
  destruct Hplaced as (s & -> & Hws & Hqs). exists s. fold (put_link fw l s). rewrite try_send_one_put.
  unfold try_send. rewrite Hws. done.
Qed.
Lemma put_link_twice fw l s s' : put_link (put_link fw l s) l s' = put_link fw l s'.
Proof. unfold put_link, set_links. cbn. by rewrite insert_insert_eq. Qed.

(** A multicast packet whose destinations all lie behind one link. *)
Lemma one_branch fw l p :
  fw_ok fw → packet_type (header p) = Multicast → 0 < ttl (header p) →
  multicast_ok (multicast_destinations p) (payload p) →
  (∀ d, d ∈ multicast_destinations p → classify fw None d = Via l) →
  process_packet fw None p =
  enqueue fw l (subset_packet p (osort (multicast_destinations p)) (ttl (header p) - 1)) None.
Proof.
  intros Hok Hm Httl Hmok Hvia. set (ds := osort (multicast_destinations p)).
  assert (Hall : ∀ d, d ∈ ds → classify fw None d = Via l)
    by (intros d Hd; apply Hvia; unfold ds in Hd; by rewrite elem_of_osort in Hd).
  assert (Hf : ∀ v, v ≠ Via l → filter (λ d, classify fw None d = v) ds = []).
  { intros v Hv. destruct (filter _ ds) as [|d k] eqn:E; [done|]. exfalso.
    assert (Hd : d ∈ d :: k) by by left. rewrite <-E in Hd. apply list_elem_of_filter in Hd as [Hc Hd].
    rewrite (Hall d Hd) in Hc. congruence. }
  assert (Hl : filter (λ d, classify fw None d = Via l) ds = ds).
  { clear -Hall. induction ds as [|d k IH]; [done|]. rewrite filter_cons, decide_True by (apply Hall; by left).
    f_equal. apply IH. intros; apply Hall; by right. }
  destruct (multicast_process fw None p Hok Hm Httl Hmok) as (bs & fw' & rest & Hproc & Hbs & Hsort & Hbr & _).
  fold ds in Hproc, Hbr. rewrite !Hf in Hproc by done. rewrite decide_False in Hproc.
  2: { intros Hin. pose proof (proj2 (classify_local fw None (fw_me fw)) eq_refl) as E.
       rewrite (Hall _ Hin) in E. done. }
  assert (bs = [(l, ds)]) as ->.
  { assert (Hin : (l, ds) ∈ bs).
    { apply Hbr. split; [|done]. destruct Hmok as (Hne & _). by apply osort_nonempty. }
    assert (Hone : ∀ b, b ∈ bs → b = (l, ds)).
    { intros [l' ds'] [Hne ->]%Hbr. destruct (decide (l' = l)) as [->|Hl']; [by rewrite Hl|].
      rewrite Hf in Hne by congruence. done. }
    destruct bs as [|b [|b' bs]]; [by apply not_elem_of_nil in Hin| |].
    - by rewrite (Hone b) by by left.
    - rewrite (Hone b) in Hsort by by left. rewrite (Hone b') in Hsort by (right; by left).
      cbn in Hsort. apply StronglySorted_inv in Hsort as [_ Hs%Forall_inv].
      by apply olt_irrefl in Hs. }
  rewrite Hproc. cbn [dropped_part app]. rewrite <-Hbs. cbn [enqueue_branches].
  rewrite subset_packet_Some by by apply multicast_ok_osort. cbn [mbind option_bind].
  destruct (enqueue _ _ _ _) as [[f a]|]; [|done]. cbn. by rewrite app_nil_r.
Qed.

Section Chunks.
Context (fw : Forwarder) (l : LinkId) (mp : ForwardPacket) (key : ConflationKey).
Context (Hok : fw_ok fw) (Hup : l ∉ down_links fw) (Hbusy : writable (link_state fw l) = false).
Context (Hkey : ConflationKey_from_packet mp = Some key) (Httl : 1 < ttl (header mp)).

(** The link waits with at most one packet of the flow. *)
Definition waits_with (fw' : Forwarder) (q : list QueuedPacket) : Prop :=
  ∃ s, fw' = put_link fw l s ∧ lq_ok s ∧ writable s = false ∧
    queues s = <[1%nat := q]> (queues (link_state fw l)).
Definition chunk_packet (g : list NodeId) : QueuedPacket :=
  {| q_incoming := None;
     q_packet := subset_packet (subset_packet mp g (ttl (header mp))) (osort (osort g)) (ttl (header mp) - 1) |}.

Lemma chunk_step fw' q g now :
  waits_with fw' q → q = [] ∨ (∃ g', q = [chunk_packet g']) → multicast_ok g (payload mp) →
  (∀ d, d ∈ g → classify fw None d = Via l) →
  ∃ fw'', handle fw' now (FeOutboundMulticast g mp) = Some (fw'', []) ∧ waits_with fw'' [chunk_packet g].
Proof.
  intros (s & -> & Hs & Hw & Hqs) Hq Hg Hvia.
  assert (Hok' : fw_ok (put_link fw l s)) by by apply fw_ok_put_link.
  assert (Hlen : length (queues (link_state fw l)) = 4%nat) by apply (link_state_ok fw l Hok).
  cbn [handle Forwarder_component fw_handle].
  rewrite outbound_multicast by done.
  rewrite (one_branch (put_link fw l s) l); [|done|done|cbn; lia|by apply multicast_ok_osort|].
  2: { intros d Hd. cbn in Hd. rewrite elem_of_osort in Hd. exact (Hvia d Hd). }
  destruct (enqueue_conflating (put_link fw l s) l (q_packet (chunk_packet g)) None q key)
    as (s2 & He & Hs2 & Hw2 & Hq2); try done.
  - apply (subset_packet_fits (subset_packet mp g (ttl (header mp)))). cbn.
    by apply multicast_ok_osort, multicast_ok_osort.
  - by rewrite link_state_put, decide_True.
  - rewrite link_state_put, decide_True, Hqs by done. by rewrite list_lookup_insert_eq by lia.
  - destruct Hq as [->|[g' ->]]; [by left|right]. by eexists.
  - eexists. split; [exact He|]. exists s2. rewrite put_link_twice. split; [done|]. split; [done|].
    split; [done|]. rewrite Hq2, link_state_put, decide_True, Hqs by done. by rewrite list_insert_insert_eq.
Qed.

Lemma chunk_run now groups fw' q :
  waits_with fw' q → q = [] ∨ (∃ g', q = [chunk_packet g']) →
  Forall (λ g, multicast_ok g (payload mp)) groups →
  (∀ g d, g ∈ groups → d ∈ g → classify fw None d = Via l) →
  ∃ fw'', run fw' ((λ g, (now, FeOutboundMulticast g mp)) <$> groups) = Some (fw'', []) ∧
    waits_with fw'' (match last groups with Some g => [chunk_packet g] | None => q end).
Proof.
  revert fw' q. induction groups as [|g groups IH]; intros fw' q Hwait Hq Hall Hvia; [by exists fw'|].
  apply Forall_cons in Hall as [Hg Hall].
  destruct (chunk_step fw' q g now Hwait Hq Hg) as (fw1 & Hstep & Hw1); [intros d; apply Hvia; by left|].
  destruct (IH fw1 [chunk_packet g] Hw1) as (fw2 & Hrun & Hw2); [right; by exists g|done| |].
  { intros g' d Hg'. apply Hvia. by right. }
  exists fw2. rewrite fmap_cons. cbn [run]. rewrite Hstep. cbn [mbind option_bind]. rewrite Hrun.
  split; [done|]. destruct groups as [|g' groups]; [done|].
  change (last (g :: g' :: groups)) with (last (g' :: groups)).
  destruct (last (g' :: groups)) eqn:E; [done|]. by apply last_None in E.
Qed.
End Chunks.

Definition move_event (m : Move) : option ForwardEvent :=
  match m with SubmitMulticast _ ds p => Some (FeOutboundMulticast ds p) | _ => None end.

Lemma chunk_events u mp (groups : list (list NodeId)) (now : MonoTime) :
  (λ e, (now, e)) <$> omap move_event ((λ g, SubmitMulticast u g mp) <$> groups) =
  (λ g, (now, FeOutboundMulticast g mp)) <$> groups.
Proof.
  induction groups as [|g gs IH]; [done|]. rewrite !fmap_cons. cbn [omap list_omap move_event].
  rewrite fmap_cons. f_equal. exact IH.
Qed.
(** A forwarder that holds one packet only holds its destinations. *)
Lemma only_chunk fw l s s' mp g :
  fw_units fw = [] → link_state fw l = s → queues s !! 1%nat = Some [] →
  queues s' = <[1%nat := [chunk_packet mp g]]> (queues s) →
  ∀ d tg, (d, tg) ∈ fw_units (put_link fw l s') → d ∈ g.
Proof.
  intros Hempty Hls Hq1 Hqs d tg Hin.
  assert (Hocc : occ (d, tg) (fw_units (put_link fw l s')) = occ (d, tg) (units (q_packet (chunk_packet mp g)))).
  { rewrite occ_put_link, Hempty, Hls, (occ_link_insert _ s 1 [] [chunk_packet mp g] s' Hq1 Hqs).
    rewrite q_units_one. change (q_units []) with (@nil unit_of). rewrite !occ_nil. lia. }
  assert (Hpos : 0 < occ (d, tg) (fw_units (put_link fw l s'))).
  { apply list_elem_of_split in Hin as (k1 & k2 & ->). rewrite occ_app, occ_cons, decide_True by done.
    pose proof (occ_nonneg (d, tg) k1). pose proof (occ_nonneg (d, tg) k2). lia. }
  rewrite Hocc in Hpos. apply occ_elem in Hpos. rewrite units_dests in Hpos.
  apply list_elem_of_fmap in Hpos as (d' & [= <- _] & Hd'). unfold dests in Hd'.
  rewrite decide_True in Hd' by done. cbn in Hd'. by rewrite !elem_of_osort in Hd'.
Qed.

(** C25: Chunks of one publication replace each other.  A topic of priority P1 that
    keeps only the latest value has an audience larger than one multicast can
    name, all of it behind one link that is being written.  The publication is
    accepted and split into several multicasts with the same conflation key; in
    the queue of the link each takes the place of the one before, although they
    name different nodes.  All are handled without an action, so that nothing is
    reported, and afterwards the forwarder holds only the last chunk: to the
    nodes of the other chunks, which are most of the audience but for at most 64,
    the value is never sent. *)
Theorem chunks_conflate `{!Prost WireEnvelope} psA now t p psA' (acts : list PubSubAction) policy fw l s :
  fw_ok fw → fw_me fw = ps_me psA → fw_units fw = [] →
  links fw !! l = Some s → writable s = false → queues s !! 1%nat = Some [] →
  policies psA !! tk_name t = Some policy → conflates policy = true →
  handle psA now (PeLocalPublish t p) = Some (psA', acts) → (∀ r, PaRejected r ∉ acts) →
  MAX_MULTICAST_DESTINATIONS < Z.of_nat (size (audience psA t)) →
  (∀ d, d ∈ audience psA t → ∃ r, RouteTable_get (fw_routes fw) d = Some r ∧ next_hop r = l) →
  ∃ fw' lost kept,
    run fw ((λ e, (now, e)) <$> omap move_event (omap (publication_move (ps_me psA)) acts)) = Some (fw', []) ∧
    lost ++ kept = bset_iter (audience psA t) ∧ lost ≠ [] ∧ zlen kept ≤ MAX_MULTICAST_DESTINATIONS ∧
    (∀ d tg, (d, tg) ∈ fw_units fw' → d ∈ kept) ∧ (∀ d, d ∈ lost → d ∉ kept).
Proof.
  intros Hok Hme Hempty Hl Hw Hq1 Hpol Hcon Hpub Hrej Hmany Hroute.
  assert (Hup : l ∉ down_links fw) by (apply (fo_up _ Hok); by eexists).
  assert (Hls : link_state fw l = s) by (unfold link_state; by rewrite Hl).
  destruct (publication_groups psA now t p psA' acts policy (ps_me psA) Hpub Hpol Hrej)
    as (groups & bs & Hj & Hgroups & Hmoves & _).
  rewrite Hcon in Hmoves. cbn [conflation_flags] in Hmoves. rewrite Hmoves.
  set (mp := multicast_packet (ps_me psA) (tp_priority policy) _ _ CONFLATABLE bs).
  assert (Hp1 : tp_priority policy = P1) by (unfold conflates in Hcon; by apply andb_true_iff in Hcon as [_ E%bool_decide_eq_true]).
  assert (Hkey : ∃ key, ConflationKey_from_packet mp = Some key).
  { unfold ConflationKey_from_packet. cbn [header mp multicast_packet priority flags]. rewrite Hp1. cbn. by eexists. }
  destruct Hkey as [key Hkey].
  assert (Hvia : ∀ g d, g ∈ groups → d ∈ g → classify fw None d = Via l).
  { intros g d Hg Hd. assert (Hin : d ∈ audience psA t)
      by (rewrite <-elem_of_bset_iter, <-Hj; apply list_elem_of_join; by exists g).
    destruct (Hroute d Hin) as (r & Hr & <-). unfold classify. unfold audience in Hin.
    rewrite decide_False by (rewrite Hme; set_solver). rewrite Hr. by rewrite !decide_False. }
  destruct (chunk_run fw l mp key Hok Hup Hkey ltac:(done) now groups fw []) as (fw' & Hrun & Hwait);
    [|by left|done|done|].
  { exists s. rewrite Hls. split; [|split; [by apply (fo_links _ Hok l)|split; [done|by rewrite list_insert_id]]].
    unfold put_link, set_links. rewrite insert_id by done. by destruct fw. }
  destruct Hwait as (s' & -> & _ & _ & Hqs). rewrite Hls in Hqs.
  assert (Hlen : zlen (mjoin groups) = Z.of_nat (size (audience psA t)))
    by (rewrite Hj; unfold zlen; by rewrite length_bset_iter).
  destruct (last groups) as [kept|] eqn:El.
  2: { apply last_None in El as ->. change (zlen (mjoin [])) with 0 in Hlen. unfold MAX_MULTICAST_DESTINATIONS in *. lia. }
  apply last_Some in El as [init ->]. rewrite join_app in Hj, Hlen.
  change (mjoin [kept]) with (kept ++ []) in Hj, Hlen. rewrite app_nil_r in Hj, Hlen.
  apply Forall_app in Hgroups as [_ Hkept%Forall_inv]. destruct Hkept as (_ & Hk & _).
  exists (put_link fw l s'), (mjoin init), kept. split; [|split; [done|split; [|split; [done|split]]]].
  - rewrite <-Hrun. f_equal. apply chunk_events.
  - intros E. rewrite E in Hlen. cbn [app] in Hlen. lia.
  - by eapply only_chunk.
  - pose proof (bset_iter_NoDup (audience psA t)) as Hnd. rewrite <-Hj in Hnd.
    apply NoDup_app in Hnd as (_ & Hdis & _). exact Hdis.
Qed.
