(* ===== verification/ErrorText.v ===== *)
(** * The texts of errors ([Display])

    The texts the error types of the wire codecs, Pub/Sub, the transport and
    the runtime are shown with.  Errors of the sockets and of [prost] carry
    their own texts. *)

From Stdlib Require Import Strings.Byte Strings.String.
From S2P Require Export Prelude Ord Bytes Text SeqStore Types Wire Transport PubSub RuntimeCodec RuntimeLog.
Open Scope Z_scope.

(** ** Numbers in hexadecimal *)

Fixpoint hex_digits (fuel : nat) (n : Z) : bytes :=
  match fuel with
  | O => []
  | S fuel => (if n <? 16 then [] else hex_digits fuel (n / 16)) ++ [hex_digit (n mod 16)]
  end.
(** [{:#x}] and [{:#0<w>x}]: the width counts the prefix. *)
Definition hex_padded (width : nat) (n : Z) : bytes :=
  let digits := hex_digits 16 n in
  str "0x" ++ replicate (width - 2 - length digits) x30 ++ digits.
Definition hex (n : Z) : bytes := hex_padded 0 n.

(** ** Wire *)

Definition MulticastPayloadError_display (e : MulticastPayloadError) : bytes :=
  match e with
  | McHeaderTooShort n =>
      str "multicast payload is " ++ decimal n ++ str " bytes, shorter than the " ++
      decimal MULTICAST_COUNT_LEN ++ str " byte count"
  | McEmptyDestinations => str "multicast destination list is empty"
  | McTooManyDestinations n =>
      str "multicast destination count " ++ decimal n ++ str " exceeds the " ++
      decimal MAX_MULTICAST_DESTINATIONS ++ str " destination limit"
  | McDuplicateDestination d =>
      str "multicast destination " ++ NodeId_display d ++ str " is duplicated"
  | McDestinationListTruncated e a =>
      str "multicast destination list needs " ++ decimal e ++ str " bytes but only " ++ decimal a ++
      str " are available"
  | McPayloadTooLarge n =>
      str "multicast payload length " ++ decimal n ++ str " exceeds the " ++
      decimal MAX_FORWARD_PAYLOAD_LEN ++ str " byte limit"
  end.
Definition ForwardPacketError_display (e : ForwardPacketError) : bytes :=
  match e with
  | FpHeaderTooShort n =>
      str "forward packet is " ++ decimal n ++ str " bytes, shorter than the " ++
      decimal FORWARD_HEADER_LEN ++ str " byte header"
  | FpUnsupportedVersion v => str "unsupported forward packet version " ++ decimal v
  | FpUnknownPacketType t => str "unknown forward packet type " ++ decimal t
  | FpUnknownPriority p => str "unknown forward packet priority " ++ decimal p
  | FpUnsupportedFlags f => str "unsupported forward packet flags " ++ hex_padded 10 f
  | FpInvalidMulticast e => str "invalid multicast payload: " ++ MulticastPayloadError_display e
  | FpUnexpectedMulticastDestinations n =>
      str "non-multicast forward packet contains " ++ decimal n ++ str " multicast destinations"
  | FpPayloadTooLarge n =>
      str "forward packet payload length " ++ decimal n ++ str " exceeds the " ++
      decimal MAX_FORWARD_PAYLOAD_LEN ++ str " byte limit"
  end.
Definition FrameError_display (e : FrameError) : bytes :=
  match e with
  | FeUnsupportedVersion v => str "unsupported frame version " ++ decimal v
  | FeUnknownFrameType t => str "unknown frame type " ++ decimal t
  | FeUnknownChannel c => str "unknown channel " ++ decimal c
  | FeUnsupportedFlags f => str "unsupported frame flags " ++ hex_padded 4 f
  | FeNonZeroReserved r => str "reserved frame byte must be zero, got " ++ hex_padded 4 r
  | FePayloadTooLarge n =>
      str "frame payload length " ++ decimal n ++ str " exceeds the " ++ decimal MAX_PAYLOAD_LEN ++
      str " byte limit"
  end.

(** ** Pub/Sub *)

Definition TopicError_display (e : TopicError) : bytes :=
  match e with
  | EmptyName => str "topic name must not be empty"
  | NameTooLong n =>
      str "topic name length " ++ decimal n ++ str " exceeds the " ++
      decimal PS_MAX_TOPIC_NAME_LEN ++ str " byte limit"
  | PartitionTooLong n =>
      str "topic partition length " ++ decimal n ++ str " exceeds the " ++
      decimal MAX_PARTITION_LEN ++ str " byte limit"
  end.
Definition EnvelopeError_display (e : EnvelopeError) : bytes :=
  match e with
  | NotPubSub => str "payload is not a mesh-bus Pub/Sub envelope"
  | EeProtobuf x => str "Pub/Sub envelope protobuf is invalid: " ++ x
  | InvalidOriginLength n => str "Pub/Sub origin must be 32 bytes, got " ++ decimal n
  | InvalidSequence => str "Pub/Sub sequence must be non-zero"
  | InvalidTopic e => str "invalid Pub/Sub topic: " ++ TopicError_display e
  end.

(** ** Transport *)

Definition TransportError_display (e : TransportError) : bytes :=
  match e with
  | TeIo x => str "TCP I/O failed: " ++ x
  | TeWire x => str "wire frame is invalid: " ++ FrameError_display x
  | TeProtobuf x => str "LinkHello protobuf is invalid: " ++ x
  | UnexpectedEndOfStream => str "TCP stream ended before LinkHello arrived"
  | ExpectedLinkHello => str "the first TCP frame must be LinkHello"
  | UnsupportedProtocolVersion v => str "peer uses unsupported protocol version " ++ decimal v
  | TeInvalidNodeIdLength n => str "peer NodeId must be 32 bytes, got " ++ decimal n
  | PeerMismatch e a => str "expected peer " ++ NodeId_display e ++ str ", got " ++ NodeId_display a
  | PeerNotAllowed p => str "peer " ++ NodeId_display p ++ str " is not in the static allowlist"
  | LinkIdExhausted => str "local LinkId space is exhausted"
  | UnknownLink l => str "unknown link " ++ decimal l
  | LinkClosed l => str "link " ++ decimal l ++ str " is closed"
  end.
(** [Error::source], an error being known by its text. *)
Definition TransportError_source (e : TransportError) : option bytes :=
  match e with
  | TeIo x => Some x
  | TeWire x => Some (FrameError_display x)
  | TeProtobuf x => Some x
  | _ => None
  end.

(** ** Runtime *)

Definition SeqStoreError_display (e : SeqStoreError) : bytes := error_message e.

Definition FrameType_debug (t : FrameType) : bytes :=
  str match t with
      | LinkHello => "LinkHello" | FtLsa => "Lsa" | FtDigest => "Digest" | FtDigestReq => "DigestReq"
      | FtForward => "Forward" | FtCircuit => "Circuit" | FtCredit => "Credit" | FtPing => "Ping"
      end.
Definition Channel_debug (c : Channel) : bytes :=
  str match c with
      | ChControl => "Control" | ChRpc => "Rpc" | PubSubP0 => "PubSubP0" | PubSubP1 => "PubSubP1"
      | PubSubP2 => "PubSubP2" | PubSubP3 => "PubSubP3" | ChTunnel => "Tunnel"
      end.
Definition RuntimeError_display (e : RuntimeError) : bytes :=
  match e with
  | EndpointNodeMismatch e c =>
      str "endpoint belongs to node " ++ NodeId_display e ++ str ", but runtime is configured for " ++
      NodeId_display c
  | UnexpectedFrame t c =>
      str "unexpected runtime frame type " ++ FrameType_debug t ++ str " on channel " ++ Channel_debug c
  | ReProtobuf x => str "control protobuf is invalid: " ++ x
  | InvalidNodeIdLength n => str "control-plane NodeId must be 32 bytes, got " ++ decimal n
  | ReInvalidLinkCost c => str "invalid link cost " ++ decimal c
  | InvalidLsaTtl t => str "invalid LSA ttl_sec " ++ decimal t
  | InvalidTopicName => str "LSA topic name must not be empty"
  | InvalidTopicRole r => str "invalid LSA topic role bits " ++ hex r
  | TopicNameTooLong n =>
      str "LSA topic name length " ++ decimal n ++ str " exceeds the " ++
      decimal MAX_TOPIC_NAME_LEN ++ str " byte limit"
  | TopicPartitionTooLong n =>
      str "LSA topic partition length " ++ decimal n ++ str " exceeds the " ++
      decimal MAX_TOPIC_PARTITION_LEN ++ str " byte limit"
  | DuplicateTopicAd => str "LSA contains duplicate topic and partition advertisements"
  | TooManyElements f c l =>
      str f ++ str " contains " ++ decimal c ++ str " elements, limit is " ++ decimal l
  | ReSequenceExhausted => str "LSA sequence is exhausted"
  | ReForwardPacket e => str "forward packet is invalid: " ++ ForwardPacketError_display e
  | RuntimeStopped => str "runtime has stopped"
  | ReSeqStore e => str "sequence persistence failed: " ++ SeqStoreError_display e
  | ReTransport e => str "transport operation failed: " ++ TransportError_display e
  end.
Definition RuntimeError_source (e : RuntimeError) : option bytes :=
  match e with
  | ReProtobuf x => Some x
  | ReForwardPacket x => Some (ForwardPacketError_display x)
  | ReSeqStore x => Some (SeqStoreError_display x)
  | ReTransport x => Some (TransportError_display x)
  | _ => None
  end.
