(* ===== verification/Requests.v ===== *)
(** * Request handlers over shared state

    An asynchronous handler that locks shared state for single accesses and
    awaits answers from outside: a finite tree of atomic accesses and queries.
    Two ways of running handlers: alone, one after the other, and interleaved
    in a pool; with a rule for each. *)

From S2P Require Export Prelude.

(** ** Handlers *)

Section Proc.
Context {S : Type} {Q : Type → Type}.

Inductive proc (R : Type) : Type :=
| Return (r : R)
| Panic
| Atomic {A : Type} (f : S → S * A) (k : A → proc R)
| Ask {A : Type} (q : Q A) (k : A → proc R).
#[global] Arguments Return {R}.
#[global] Arguments Panic {R}.
#[global] Arguments Atomic {R A}.
#[global] Arguments Ask {R A}.

#[global] Instance proc_ret : MRet proc := @Return.
#[global] Instance proc_bind : MBind proc :=
  λ _ _ f, fix bind p :=
    match p with
    | Return r => f r
    | Panic => Panic
    | Atomic g k => Atomic g (λ a, bind (k a))
    | Ask q k => Ask q (λ a, bind (k a))
    end.
Definition atomic {A} (f : S → S * A) : proc A := Atomic f Return.
Definition reading {A} (f : S → A) : proc A := Atomic (λ s, (s, f s)) Return.
Definition writing (f : S → S) : proc unit := Atomic (λ s, (f s, ())) Return.
Definition ask {A} (q : Q A) : proc A := Ask q Return.
(** [?] *)
Definition try_bind {A B E} (p : proc (result A E)) (k : A → proc (result B E)) : proc (result B E) :=
  r ← p; match r with Ok x => k x | Err e => Return (Err e) end.
(** [for x in l { p(x).await }] *)
Fixpoint for_each {A} (l : list A) (p : A → proc unit) : proc unit :=
  match l with [] => Return () | x :: l => _ ← p x; for_each l p end.
End Proc.
Arguments proc : clear implicits.

Notation "x ←! p ; k" := (try_bind p (λ x, k))
  (at level 20, p at level 100, k at level 200, only parsing).

(** ** One handler alone *)

Section Alone.
Context {S : Type} {Q : Type → Type} (good : ∀ A, Q A → A → Prop).
Abbreviation proc := (proc S Q).

(** What a run ends with; [None] is a panic. *)
Inductive runs {R} : proc R → S → option R → S → Prop :=
| runs_return r s : runs (Return r) s (Some r) s
| runs_panic s : runs Panic s None s
| runs_atomic A (f : S → S * A) k s r s' :
    runs (k (f s).2) (f s).1 r s' → runs (Atomic f k) s r s'
| runs_ask A (q : Q A) k a s r s' :
    good A q a → runs (k a) s r s' → runs (Ask q k) s r s'.

(** No panic, and [post] at the end, whatever is answered. *)
Fixpoint wp {R} (p : proc R) (post : R → S → Prop) (s : S) : Prop :=
  match p with
  | Return r => post r s
  | Panic => False
  | Atomic f k => wp (k (f s).2) post (f s).1
  | Ask q k => ∀ a, good _ q a → wp (k a) post s
  end.

Lemma wp_bind {A B} (p : proc A) (f : A → proc B) post s :
  wp p (λ a, wp (f a) post) s → wp (p ≫= f) post s.
Proof. revert s. induction p as [r| |X g k IH|X q k IH]; intros s; cbn; eauto. Qed.
Lemma wp_mono {R} (p : proc R) (post post' : R → S → Prop) s :
  wp p post s → (∀ r s, post r s → post' r s) → wp p post' s.
Proof. revert s. induction p as [r| |X g k IH|X q k IH]; intros s Hp Hm; cbn in *; eauto. Qed.
Lemma wp_try {A B E} (p : proc (result A E)) (k : A → proc (result B E)) post s :
  wp p (λ r s, match r with Ok x => wp (k x) post s | Err e => post (Err e) s end) s →
  wp (try_bind p k) post s.
Proof. intros H. apply wp_bind. eapply wp_mono; [exact H|]. by intros [x|e]. Qed.
Lemma wp_for_each {A} (l : list A) p (I : S → Prop) (post : unit → S → Prop) s :
  I s → (∀ x s, x ∈ l → I s → wp (p x) (λ _, I) s) → (∀ s, I s → post () s) → wp (for_each l p) post s.
Proof.
  intros Hs Hp Hpost. revert s Hs. induction l as [|x l IH]; intros s Hs; cbn; [by apply Hpost|].
  apply wp_bind. eapply wp_mono; [apply Hp; [by left|done]|]. intros r s' Hs'. apply IH; [|done].
  intros y t Hy. apply Hp. by right.
Qed.
Lemma wp_runs {R} (p : proc R) post s r s' :
  wp p post s → runs p s r s' → ∃ x, r = Some x ∧ post x s'.
Proof. intros Hp Hr. induction Hr; cbn in Hp; eauto; done. Qed.
(** A run exists when every query has a good answer. *)
Lemma runs_total {R} (p : proc R) s :
  (∀ A (q : Q A), ∃ a, good A q a) → ∃ r s', runs p s r s'.
Proof.
  intros Hg. revert s. induction p as [r| |A f k IH|A q k IH]; intros s.
  - eexists _, _. constructor.
  - eexists _, _. constructor.
  - destruct (IH (f s).2 (f s).1) as (r & s' & H). exists r, s'. by constructor.
  - destruct (Hg A q) as [a Ha]. destruct (IH a s) as (r & s' & H). exists r, s'. by econstructor.
Qed.
(** A run with given answers. *)
Fixpoint run_with {R} (answer : ∀ A, Q A → A) (p : proc R) (s : S) : option R * S :=
  match p with
  | Return r => (Some r, s)
  | Panic => (None, s)
  | Atomic f k => let '(s', a) := f s in run_with answer (k a) s'
  | Ask q k => run_with answer (k (answer _ q)) s
  end.
Lemma run_with_runs {R} answer (p : proc R) s :
  (∀ A (q : Q A), good A q (answer A q)) → runs p s (run_with answer p s).1 (run_with answer p s).2.
Proof.
  intros Hg. revert s. induction p as [r| |A f k IH|A q k IH]; intros s; cbn.
  - constructor.
  - constructor.
  - constructor. destruct (f s) as [s' a]. apply IH.
  - eapply runs_ask; [apply Hg|apply IH].
Qed.

(** ** Interleaved handlers *)

(** The next access or answer of a handler. *)
Inductive proc_step {R} : proc R → S → proc R → S → Prop :=
| step_atomic A (f : S → S * A) k s : proc_step (Atomic f k) s (k (f s).2) (f s).1
| step_ask A (q : Q A) k a s : good A q a → proc_step (Ask q k) s (k a) s.

(** Between the accesses other handlers run, which keep [I]; [panics] says
    whether this one may panic. *)
Fixpoint keeps {R} (I : S → Prop) (panics : Prop) (p : proc R) (post : R → Prop) : Prop :=
  match p with
  | Return r => post r
  | Panic => panics
  | Atomic f k => ∀ s, I s → I (f s).1 ∧ keeps I panics (k (f s).2) post
  | Ask q k => ∀ a, good _ q a → keeps I panics (k a) post
  end.
Lemma keeps_bind {A B} I panics (p : proc A) (f : A → proc B) post :
  keeps I panics p (λ a, keeps I panics (f a) post) → keeps I panics (p ≫= f) post.
Proof.
  induction p as [r| |X g k IH|X q k IH]; cbn; eauto.
  intros H s Hs. destruct (H s Hs). split; [done|]. by apply IH.
Qed.
Lemma keeps_mono {R} I (panics panics' : Prop) (p : proc R) (post post' : R → Prop) :
  keeps I panics p post → (panics → panics') → (∀ r, post r → post' r) → keeps I panics' p post'.
Proof.
  intros Hp Hq Hm. induction p as [r| |X g k IH|X q k IH]; cbn in *; eauto.
  intros s Hs. destruct (Hp s Hs). split; [done|]. by apply IH.
Qed.
Lemma keeps_try {A B E} I panics (p : proc (result A E)) (k : A → proc (result B E)) post :
  keeps I panics p (λ r, match r with Ok x => keeps I panics (k x) post | Err e => post (Err e) end) →
  keeps I panics (try_bind p k) post.
Proof. intros H. apply keeps_bind. eapply keeps_mono; [exact H|done|]. by intros [x|e]. Qed.
Lemma keeps_for_each {A} I panics (l : list A) p (post : unit → Prop) :
  (∀ x, x ∈ l → keeps I panics (p x) (λ _, True)) → post () → keeps I panics (for_each l p) post.
Proof.
  intros Hp Hpost. induction l as [|x l IH]; cbn; [done|]. apply keeps_bind.
  eapply keeps_mono; [apply Hp; by left|done|]. intros r _. apply IH. intros y Hy. apply Hp. by right.
Qed.
Lemma keeps_step {R} I panics (p : proc R) post s p' s' :
  keeps I panics p post → I s → proc_step p s p' s' → keeps I panics p' post ∧ I s'.
Proof. intros Hp Hs Hstep. destruct Hstep as [A f k s|A q k a s Ha]; cbn in Hp; naive_solver. Qed.

(** A pool: the shared state and the handlers that were started, with their
    requests. *)
Context {Req R : Type} (dispatch : Req → proc R).
Inductive pool_step : S * list (Req * proc R) → S * list (Req * proc R) → Prop :=
| pool_start s ts q : pool_step (s, ts) (s, ts ++ [(q, dispatch q)])
| pool_go s ts i q p p' s' :
    ts !! i = Some (q, p) → proc_step p s p' s' → pool_step (s, ts) (s', <[i := (q, p')]> ts).

Lemma pool_invariant (I : S → Prop) (panics : Req → Prop) (post : Req → R → Prop) s0 x :
  (∀ q, keeps I (panics q) (dispatch q) (post q)) → I s0 → rtc pool_step (s0, []) x →
  I x.1 ∧ ∀ q p, (q, p) ∈ x.2 → keeps I (panics q) p (post q).
Proof.
  intros Hd H0 Hr. set (ok := λ x : S * list (Req * proc R), I x.1 ∧ ∀ q p, (q, p) ∈ x.2 → keeps I (panics q) p (post q)).
  assert (Hstep : ∀ x y, pool_step x y → ok x → ok y).
  { intros x' y' [s ts q|s ts i q p p' s' Hi Hs] [Hi0 Hts]; split; cbn in *; try done.
    - intros q' p' [Hin|[= -> ->]%list_elem_of_singleton]%elem_of_app; auto.
    - by destruct (keeps_step _ _ _ _ _ _ _ (Hts q p (list_elem_of_lookup_2 _ _ _ Hi)) Hi0 Hs).
    - intros q' p2 [j Hj]%list_elem_of_lookup_1. destruct (decide (i = j)) as [->|Hne].
      + rewrite list_lookup_insert_eq in Hj by (by eapply lookup_lt_Some). injection Hj as <- <-.
        by destruct (keeps_step _ _ _ _ _ _ _ (Hts q p (list_elem_of_lookup_2 _ _ _ Hi)) Hi0 Hs).
      + rewrite list_lookup_insert_ne in Hj by done. by eapply Hts, list_elem_of_lookup_2. }
  assert (Hall : ∀ y z, rtc pool_step y z → ok y → ok z).
  { induction 1 as [|y z w Hyz _ IH]; [done|]. intros Hy. apply IH. by eapply Hstep. }
  apply (Hall _ _ Hr). split; [done|]. by intros ?? ?%elem_of_nil.
Qed.

(** A schedule: which handler goes next, with given answers. *)
Definition step_with (answer : ∀ A, Q A → A) (p : proc R) (s : S) : option (proc R * S) :=
  match p with
  | Atomic f k => Some (k (f s).2, (f s).1)
  | Ask q k => Some (k (answer _ q), s)
  | _ => None
  end.
Fixpoint schedule_with (answer : ∀ A, Q A → A) (l : list nat) (x : S * list (Req * proc R)) :
  option (S * list (Req * proc R)) :=
  match l with
  | [] => Some x
  | i :: l =>
      '(q, p) ← x.2 !! i; '(p', s') ← step_with answer p x.1;
      schedule_with answer l (s', <[i := (q, p')]> x.2)
  end.
Lemma schedule_with_steps answer l x y :
  (∀ A (q : Q A), good A q (answer A q)) → schedule_with answer l x = Some y → rtc pool_step x y.
Proof.
  intros Hg. revert x. induction l as [|i l IH]; intros [s ts] E; cbn in E; [by injection E as <-|].
  apply bind_Some in E as ([q p] & Hi & ([p' s'] & Hp & E)%bind_Some).
  apply rtc_l with (s', <[i := (q, p')]> ts); [|by apply IH]. apply pool_go with p; [done|].
  destruct p as [r| |A f k|A qq k]; cbn in Hp; try done; injection Hp as <- <-; constructor. apply Hg.
Qed.
Lemma pool_started s ts qs : rtc pool_step (s, ts) (s, ts ++ ((λ q, (q, dispatch q)) <$> qs)).
Proof.
  revert ts. induction qs as [|q qs IH]; intros ts; [by rewrite app_nil_r|].
  apply rtc_l with (s, ts ++ [(q, dispatch q)]); [constructor|].
  specialize (IH (ts ++ [(q, dispatch q)])). by rewrite <-app_assoc in IH.
Qed.
End Alone.
