(* ===== verification/Lab.v ===== *)
(** * The laboratory's view of a mesh (bins/mblab)

    [collect_state]: what the laboratory reports from the snapshots of its
    nodes: the merged event list, which links are up, the connected components
    of the mesh and whether it has converged.

    The answers of the nodes and the order in which they arrive are the
    argument [collected]; texts that are only passed on are byte strings. *)

From Stdlib Require Import Strings.Byte.
From S2P Require Export Prelude Ord Bytes.
Open Scope Z_scope.

(** ** Data *)

Record NodeInfo := {
  ni_id : Z;
  ni_name : bytes;
  ni_mesh_addr : bytes;
  ni_admin_addr : bytes;
  ni_pid : option Z;
}.
Record PeerSnapshot := { pe_link_id : Z; pe_peer : Z }.
Record LsaSnapshot := {
  ls_origin : Z;
  ls_epoch : Z;
  ls_sequence : Z;
  ls_adjacencies : list Z;
}.
Record RouteSnapshot := {
  ro_destination : Z;
  ro_next_hop : Z;
  ro_cost : Z;
  ro_hops : Z;
}.
Record QueueSnapshot := { qs_link_id : Z; qs_packets : list Z; qs_bytes : list Z }.
Record EventSnapshot := {
  es_sequence : Z;
  es_at_ms : Z;
  es_kind : bytes;
  es_detail : bytes;
  es_link_id : option Z;
  es_peer : option Z;
}.
Record OutcomeSnapshot := {
  os_sequence : Z;
  os_at_ms : Z;
  os_kind : bytes;
  os_detail : bytes;
  os_source : Z;
  os_destination : option Z;
  os_priority : Z;
  os_flow_id : Z;
  os_payload_bytes : option Z;
  os_payload_preview : bytes;
}.
Record NodeSnapshot := {
  ns_id : Z;
  ns_name : bytes;
  ns_mesh_addr : bytes;
  ns_now_ms : Z;
  ns_peers : list PeerSnapshot;
  ns_lsdb : list LsaSnapshot;
  ns_routes : list RouteSnapshot;
  ns_queues : list QueueSnapshot;
  ns_events : list EventSnapshot;
  ns_outcomes : list OutcomeSnapshot;
}.
(** The loss in percent is passed on; it plays no part here. *)
Record LabLink (F : Type) := {
  ll_id : Z;
  ll_a : Z;
  ll_b : Z;
  ll_up : bool;
  ll_desired_up : bool;
  ll_cost : Z;
  ll_latency_ms : Z;
  ll_loss_percent : F;
  ll_bandwidth_kbps : Z;
}.
Arguments ll_id {F}.
Arguments ll_a {F}.
Arguments ll_b {F}.
Arguments ll_up {F}.
Arguments ll_desired_up {F}.
Arguments ll_cost {F}.
Arguments ll_latency_ms {F}.
Arguments ll_loss_percent {F}.
Arguments ll_bandwidth_kbps {F}.
Record LabNodeState := {
  ln_info : NodeInfo;
  ln_running : bool;
  ln_snapshot : option NodeSnapshot;
}.
Record LabEvent := {
  le_node : Z;
  le_name : bytes;
  le_sequence : Z;
  le_at_ms : Z;
  le_kind : bytes;
  le_detail : bytes;
  le_link_id : option Z;
  le_peer : option Z;
}.
Record LabStateResponse (F : Type) := {
  lr_converged : bool;
  lr_components : Z;
  lr_now_ms : Z;
  lr_pace_ms : Z;
  lr_nodes : list LabNodeState;
  lr_links : list (LabLink F);
  lr_events : list LabEvent;
}.
Arguments lr_converged {F}.
Arguments lr_components {F}.
Arguments lr_now_ms {F}.
Arguments lr_pace_ms {F}.
Arguments lr_nodes {F}.
Arguments lr_links {F}.
Arguments lr_events {F}.

(** [sort_by_key], which is stable. *)
Section Sort.
Context {A K : Type} `{!TotalOrd K} (key : A → K).
Fixpoint insert_by (x : A) (l : list A) : list A :=
  match l with
  | [] => [x]
  | y :: l => if decide (ole (key x) (key y)) then x :: y :: l else y :: insert_by x l
  end.
Definition sort_by_key (l : list A) : list A := foldr insert_by [] l.
End Sort.

(** ** Events *)

Definition lab_event (info : NodeInfo) (offset : Z) (e : EventSnapshot) : LabEvent :=
  {| le_node := ni_id info; le_name := ni_name info; le_sequence := es_sequence e;
     le_at_ms := sat_add 64 offset (es_at_ms e); le_kind := es_kind e; le_detail := es_detail e;
     le_link_id := es_link_id e; le_peer := es_peer e |}.
Definition event_key (e : LabEvent) : Z * (Z * Z) := (le_at_ms e, (le_node e, le_sequence e)).

Abbreviation Answer := (NodeInfo * Z * option NodeSnapshot)%type (only parsing).
Definition answer_id (x : Answer) : Z := ni_id x.1.1.

Definition answer_events (x : Answer) : list LabEvent :=
  let '(info, offset, snap) := x in
  match snap with Some s => lab_event info offset <$> ns_events s | None => [] end.
Definition answer_state (x : Answer) : LabNodeState :=
  let '(info, _, snap) := x in
  {| ln_info := info; ln_running := bool_decide (is_Some snap); ln_snapshot := snap |}.
(** Newest first, at most a hundred. *)
Definition recent (l : list LabEvent) : list LabEvent :=
  take 100 (reverse (sort_by_key event_key l)).

(** ** Links *)

Section Links.
Context {F : Type}.
Implicit Types links : list (LabLink F).

Definition node_id_of (n : LabNodeState) : Z := ni_id (ln_info n).
Definition find_node (nodes : list LabNodeState) (id : Z) : option LabNodeState :=
  snd <$> list_find (λ n, node_id_of n = id) nodes.
Definition live_ids (nodes : list LabNodeState) : gset Z :=
  list_to_set (node_id_of <$> filter (λ n, ln_running n = true) nodes).

Definition endpoint_sees_peer (nodes : list LabNodeState) (endpoint peer : Z) : bool :=
  match n ← find_node nodes endpoint; ln_snapshot n with
  | Some s => existsb (λ seen, pe_peer seen =? peer) (ns_peers s)
  | None => false
  end.
Definition set_up (nodes : list LabNodeState) (l : LabLink F) : LabLink F :=
  {| ll_id := ll_id l; ll_a := ll_a l; ll_b := ll_b l;
     ll_up := endpoint_sees_peer nodes (ll_a l) (ll_b l) && endpoint_sees_peer nodes (ll_b l) (ll_a l);
     ll_desired_up := ll_desired_up l; ll_cost := ll_cost l; ll_latency_ms := ll_latency_ms l;
     ll_loss_percent := ll_loss_percent l; ll_bandwidth_kbps := ll_bandwidth_kbps l |}.

(** The live peers over links that are up. *)
Definition expected_peers links (live : gset Z) (id : Z) : gset Z :=
  list_to_set (filter (λ p, p ∈ live)
    ((λ l, if ll_a l =? id then ll_b l else ll_a l) <$>
       filter (λ l, ll_up l && ((ll_a l =? id) || (ll_b l =? id)) = true) links)).
Definition expected_adjacencies links (live : gset Z) : gmap Z (gset Z) :=
  list_to_map ((λ id, (id, expected_peers links live id)) <$> bset_iter live).
End Links.

(** ** Components *)

Section Components.
Context (adj : gmap Z (gset Z)).

(** The search: the component so far, the stack with its top first, and the
    nodes not yet seen. *)
Definition search_step (s : gset Z * list Z * gset Z) : gset Z * list Z * gset Z + gset Z * gset Z :=
  match s with
  | (component, [], unseen) => inr (component, unseen)
  | (component, id :: pending, unseen) =>
      if decide (id ∈ component) then inl (component, pending, unseen)
      else
        let component := {[id]} ∪ component in
        let unseen := unseen ∖ {[id]} in
        match adj !! id with
        | Some peers =>
            inl (component,
                 reverse (filter (λ p, p ∉ component) (bset_iter peers)) ++ pending, unseen)
        | None => inl (component, pending, unseen)
        end
  end.
(** Every node is expanded once, and pushes its peers. *)
Definition search_fuel : positive :=
  Pos.of_succ_nat (S (sum_list ((λ x, size x.2) <$> map_to_list adj))).
Definition search (start : Z) (unseen : gset Z) : option (gset Z * gset Z) :=
  run_loop search_step search_fuel (∅, [start], unseen).

Definition components_step (s : gset Z * list (gset Z)) : gset Z * list (gset Z) + option (list (gset Z)) :=
  let '(unseen, components) := s in
  match bset_iter unseen with
  | [] => inr (Some components)
  | start :: _ =>
      match search start unseen with
      | Some (component, unseen) => inl (unseen, components ++ [component])
      | None => inr None
      end
  end.
Definition components_of (live : gset Z) : option (list (gset Z)) :=
  mjoin (run_loop components_step (Pos.of_succ_nat (size live)) (live, [])).
End Components.

(** ** Convergence *)

(** [collect::<BTreeMap<_, _>>()]: the last entry of a key stays. *)
Definition collect_map {V} (l : list (Z * V)) : gmap Z V :=
  foldl (λ m x, <[x.1 := x.2]> m) ∅ l.

Definition lsdb_view (live : gset Z) (s : NodeSnapshot) (origins : gset Z) :
  gmap Z (Z * Z * gset Z) :=
  collect_map ((λ l, (ls_origin l,
                      (ls_epoch l, ls_sequence l,
                       list_to_set (filter (λ p, p ∈ live) (ls_adjacencies l)) : gset Z))) <$>
               filter (λ l, ls_origin l ∈ origins) (ns_lsdb s)).

Section Converged.
Context (nodes : list LabNodeState) (live : gset Z) (adj : gmap Z (gset Z)).

(** [nodes.iter().find_map(..)] *)
Fixpoint canonical_lsdb (component : gset Z) (l : list LabNodeState) :
  option (gmap Z (Z * Z * gset Z)) :=
  match l with
  | [] => None
  | n :: l =>
      if decide (node_id_of n ∈ component) then
        match ln_snapshot n with
        | Some s => Some (lsdb_view live s component)
        | None => canonical_lsdb component l
        end
      else canonical_lsdb component l
  end.
Definition route_destinations (s : NodeSnapshot) : gset Z := list_to_set (ro_destination <$> ns_routes s).
Definition node_converged (component : gset Z) (canonical : option (gmap Z (Z * Z * gset Z)))
    (id : Z) : bool :=
  match n ← find_node nodes id; ln_snapshot n with
  | None => false
  | Some s =>
      let node_lsdb := lsdb_view live s component in
      bool_decide (size node_lsdb = size component) &&
      bool_decide (Some node_lsdb = canonical) &&
      forallb (λ x : Z * (Z * Z * gset Z), bool_decide (adj !! x.1 = Some x.2.2)) (btree_iter node_lsdb) &&
      bool_decide (route_destinations s = component ∖ {[id]})
  end.
Definition component_converged (component : gset Z) : bool :=
  let canonical := canonical_lsdb component nodes in
  bool_decide (is_Some canonical) && forallb (node_converged component canonical) (bset_iter component).
End Converged.

(** ** [collect_state] *)

Definition collect_state {F} (lab_links : gmap Z (LabLink F)) (now pace : Z) (collected : list Answer) :
  option (LabStateResponse F) :=
  let collected := sort_by_key answer_id collected in
  let nodes := answer_state <$> collected in
  let events := recent (collected ≫= answer_events) in
  let live := live_ids nodes in
  let links := set_up nodes <$> btree_values lab_links in
  let adj := expected_adjacencies links live in
  components ← components_of adj live;
  let running := length (filter (λ n, ln_running n = true) nodes) in
  let converged := bool_decide (0 < running)%nat && forallb (component_converged nodes live adj) components in
  Some {| lr_converged := converged; lr_components := zlen components; lr_now_ms := now;
          lr_pace_ms := pace; lr_nodes := nodes; lr_links := links; lr_events := events |}.
