(* ===== verification/LabProps.v ===== *)
(** * Theorems about the laboratory's view of a mesh (bins/mblab) *)

From Stdlib Require Import Strings.Byte.
From S2P Require Export Prelude Ord Bytes Lab.
Open Scope Z_scope.

Lemma forallb_elem {A} (f : A → bool) (l : list A) :
  forallb f l = true ↔ ∀ x, x ∈ l → f x = true.
Proof. rewrite forallb_forall. by setoid_rewrite list_elem_of_In. Qed.

(** ** Sorting *)

Section Sort.
Context {A K : Type} `{!TotalOrd K} (key : A → K).
Definition by_key (x y : A) : Prop := ole (key x) (key y).

Lemma insert_by_perm x l : insert_by key x l ≡ₚ x :: l.
Proof.
  induction l as [|y l IH]; cbn; [done|]. case_decide; [done|]. rewrite IH. constructor.
Qed.
Lemma sort_by_key_perm l : sort_by_key key l ≡ₚ l.
Proof. induction l as [|x l IH]; cbn; [done|]. by rewrite insert_by_perm, IH. Qed.
Lemma insert_by_sorted x l : StronglySorted by_key l → StronglySorted by_key (insert_by key x l).
Proof.
  induction 1 as [|y l Hl IH Hy]; cbn; [by repeat constructor|]. case_decide as Hxy.
  - constructor; [by constructor|]. constructor; [done|].
    eapply Forall_impl; [exact Hy|]. intros z Hz. unfold by_key in *. by etrans.
  - constructor; [done|]. rewrite insert_by_perm. constructor; [|done].
    unfold by_key. by destruct (total ole (key x) (key y)).
Qed.
Lemma sort_by_key_sorted l : StronglySorted by_key (sort_by_key key l).
Proof. induction l as [|x l IH]; cbn; [constructor|by apply insert_by_sorted]. Qed.
End Sort.

(** ** The graph of the links *)

Section Graph.
Context {F : Type}.
Implicit Types links : list (LabLink F).

(** A link that is up joins [x] and [y]. *)
Definition joined links (x y : Z) : Prop :=
  ∃ l, l ∈ links ∧ ll_up l = true ∧ (ll_a l = x ∧ ll_b l = y ∨ ll_a l = y ∧ ll_b l = x).
Definition neighbours links (live : gset Z) (x y : Z) : Prop := x ∈ live ∧ y ∈ live ∧ joined links x y.
(** A path over links that are up between live nodes. *)
Definition reaches links (live : gset Z) : Z → Z → Prop := rtc (neighbours links live).

Lemma elem_of_expected_peers links live x y :
  y ∈ expected_peers links live x ↔ y ∈ live ∧ joined links x y.
Proof.
  unfold expected_peers, joined. rewrite elem_of_list_to_set, list_elem_of_filter, list_elem_of_fmap.
  apply and_iff_compat_l. split.
  - intros (l & -> & [Hl Hin]%list_elem_of_filter). apply andb_true_iff in Hl as [Hup Hor].
    exists l. split_and!; [done..|]. destruct (Z.eqb_spec (ll_a l) x) as [Ha|Ha]; [by left|].
    cbn in Hor. apply Z.eqb_eq in Hor. by right.
  - intros (l & Hin & Hup & Hor). exists l.
    assert (l ∈ filter (λ l, ll_up l && ((ll_a l =? x) || (ll_b l =? x)) = true) links) as Hf.
    { apply list_elem_of_filter. split; [|done]. rewrite Hup. cbn.
      destruct Hor as [[<- _]|[_ <-]]; rewrite Z.eqb_refl; [done|apply orb_true_r]. }
    split; [|done]. destruct (Z.eqb_spec (ll_a l) x); destruct Hor as [[? ?]|[? ?]]; congruence.
Qed.
Lemma lookup_expected links live x :
  expected_adjacencies links live !! x =
    if decide (x ∈ live) then Some (expected_peers links live x) else None.
Proof.
  unfold expected_adjacencies. case_decide as Hx.
  - apply elem_of_list_to_map_1.
    + rewrite <-list_fmap_compose. unfold compose. cbn. rewrite list_fmap_id. apply bset_iter_NoDup.
    + apply list_elem_of_fmap. exists x. split; [done|]. by apply elem_of_bset_iter.
  - apply not_elem_of_list_to_map_1. rewrite <-list_fmap_compose. unfold compose. cbn.
    rewrite list_fmap_id. by rewrite elem_of_bset_iter.
Qed.
#[global] Instance neighbours_sym links live : Symmetric (neighbours links live).
Proof. intros x y (Hx & Hy & l & ? & ? & ?). split_and!; [done..|]. exists l. split_and!; [done..|]. naive_solver. Qed.
#[global] Instance reaches_equiv links live : Equivalence (reaches links live).
Proof.
  split; [apply _| |apply _]. intros x y Hr.
  induction Hr as [x|x y z Hxy _ IH]; [done|]. apply rtc_r with y; [done|]. by symmetry.
Qed.
End Graph.

(** ** Depth-first search *)

Section Search.
Context (adj : gmap Z (gset Z)).

Definition edge (x y : Z) : Prop := ∃ ps, adj !! x = Some ps ∧ y ∈ ps.

(** What the nodes outside [c] can still push. *)
Definition weight (c : gset Z) : Z :=
  zsum ((λ x : Z * gset Z, if decide (x.1 ∈ c) then 0 else Z.of_nat (size x.2)) <$> map_to_list adj).

Lemma weight_nonneg c : 0 ≤ weight c.
Proof. apply zsum_nonneg, Forall_fmap, Forall_true. intros x. cbn. case_decide; lia. Qed.
Lemma weight_empty :
  weight ∅ = Z.of_nat (sum_list ((λ x : Z * gset Z, size x.2) <$> map_to_list adj)).
Proof.
  unfold weight. induction (map_to_list adj) as [|x l IH]; [done|].
  rewrite !fmap_cons, zsum_cons, IH. cbn [sum_list sum_list_with foldr]. rewrite decide_False by set_solver.
  cbn. lia.
Qed.
Lemma weight_add_other x c : adj !! x = None → weight ({[x]} ∪ c) = weight c.
Proof.
  intros Hx. unfold weight. f_equal. apply list_fmap_ext. intros i [k v] Hi. cbn.
  apply list_elem_of_lookup_2, elem_of_map_to_list in Hi.
  assert (k ≠ x) by congruence. destruct (decide (k ∈ c)); [rewrite decide_True by set_solver|rewrite decide_False by set_solver]; done.
Qed.
Lemma weight_add x ps c :
  adj !! x = Some ps → x ∉ c → weight ({[x]} ∪ c) + Z.of_nat (size ps) = weight c.
Proof.
  intros Hx Hc. unfold weight.
  assert (Hp : map_to_list adj ≡ₚ (x, ps) :: map_to_list (delete x adj)) by (symmetry; by apply map_to_list_delete).
  rewrite !(zsum_perm _ _ (fmap_Permutation _ _ _ Hp)), !fmap_cons, !zsum_cons. cbn [fst snd].
  rewrite decide_True by set_solver. rewrite decide_False by done.
  enough (zsum ((λ y : Z * gset Z, if decide (y.1 ∈ {[x]} ∪ c) then 0 else Z.of_nat (size y.2)) <$>
                map_to_list (delete x adj)) =
          zsum ((λ y : Z * gset Z, if decide (y.1 ∈ c) then 0 else Z.of_nat (size y.2)) <$>
                map_to_list (delete x adj))) by lia.
  f_equal. apply list_fmap_ext. intros i [k v] Hi. cbn.
  apply list_elem_of_lookup_2, elem_of_map_to_list, lookup_delete_Some in Hi as [Hne _].
  destruct (decide (k ∈ c)); [rewrite decide_True by set_solver|rewrite decide_False by set_solver]; done.
Qed.

Record searching (start : Z) (unseen : gset Z) (s : gset Z * list Z * gset Z) : Prop := {
  sr_start : start ∈ s.1.1 ∨ start ∈ s.1.2;
  sr_sound z : z ∈ s.1.1 ∨ z ∈ s.1.2 → rtc edge start z;
  sr_closed z w : z ∈ s.1.1 → edge z w → w ∈ s.1.1 ∨ w ∈ s.1.2;
  sr_unseen : s.2 = unseen ∖ s.1.1;
}.
Definition search_measure (s : gset Z * list Z * gset Z) : Z := zlen s.1.2 + weight s.1.1.

Lemma search_step_ok start unseen s s' :
  searching start unseen s → search_step adj s = inl s' →
  searching start unseen s' ∧ search_measure s' < search_measure s.
Proof.
  destruct s as [[c [|id p]] u]; [done|]. intros [Hs Hsd Hcl Hu] E. cbn in Hs, Hsd, Hcl, Hu.
  unfold search_step in E. unfold search_measure. destruct (decide (id ∈ c)) as [Hin|Hin].
  { injection E as <-. cbn. rewrite zlen_cons. split; [|lia]. constructor; cbn; [set_solver| |set_solver|done].
    intros z Hz. apply Hsd. set_solver. }
  destruct (adj !! id) as [ps|] eqn:Ea; injection E as <-; cbn.
  - set (new := filter _ _). split.
    + assert (Hnew : ∀ z, z ∈ reverse new ++ p ↔ (z ∈ ps ∧ z ∉ {[id]} ∪ c) ∨ z ∈ p).
      { intros z. rewrite elem_of_app, elem_of_reverse. unfold new.
        rewrite list_elem_of_filter, elem_of_bset_iter. naive_solver. }
      constructor; cbn.
      * rewrite Hnew. set_solver.
      * intros z. rewrite Hnew. intros [Hz|[[Hz _]|Hz]]; [|apply rtc_r with id; [apply Hsd; set_solver|by exists ps]|apply Hsd; set_solver].
        apply Hsd. set_solver.
      * intros z w Hz Hzw. rewrite Hnew. destruct (decide (z = id)) as [->|Hne].
        { destruct Hzw as (ps' & E & Hw). rewrite Ea in E. injection E as <-.
          destruct (decide (w ∈ {[id]} ∪ c)); [by left|right; by left]. }
        destruct (Hcl z w) as [?|[->|?]%elem_of_cons]; [set_solver|done|set_solver..].
      * rewrite Hu. set_solver.
    + pose proof (weight_add id ps c Ea Hin) as Hw. rewrite zlen_app, zlen_cons.
      assert (zlen (reverse new) ≤ Z.of_nat (size ps)); [|lia].
      unfold zlen. rewrite length_reverse. unfold new.
      pose proof (length_filter (λ q, q ∉ {[id]} ∪ c) (bset_iter ps)) as Hf.
      rewrite length_bset_iter in Hf. lia.
  - rewrite (weight_add_other id c Ea), zlen_cons. split; [|lia]. constructor; cbn.
    + set_solver.
    + intros z Hz. apply Hsd. set_solver.
    + intros z w Hz Hzw. destruct (decide (z = id)) as [->|Hne].
      { destruct Hzw as (ps' & E & _). congruence. }
      destruct (Hcl z w) as [?|[->|?]%elem_of_cons]; [set_solver|done|set_solver..].
    + rewrite Hu. set_solver.
Qed.

(** The search ends, with the nodes that can be reached. *)
Lemma search_total start unseen :
  ∃ c, search adj start unseen = Some (c, unseen ∖ c) ∧ ∀ z, z ∈ c ↔ rtc edge start z.
Proof.
  destruct (run_loop_total (search_step adj) (searching start unseen)
    (λ r, r.2 = unseen ∖ r.1 ∧ ∀ z, z ∈ r.1 ↔ rtc edge start z) search_measure (search_fuel adj)
    (∅, [start], unseen)) as ([c u] & E & Hu & Hc).
  - constructor; cbn; [set_solver| |set_solver|set_solver].
    intros z [Hz|Hz]; [set_solver|]. by apply list_elem_of_singleton in Hz as ->.
  - intros s _. unfold search_measure. pose proof (weight_nonneg s.1.1). pose proof (zlen_nonneg s.1.2). lia.
  - apply search_step_ok.
  - intros [[c [|id p]] u] r [Hs Hsd Hcl Hu] E; cbn in *.
    + injection E as <-. cbn. split; [done|]. intros z. split.
      * intros Hz. apply Hsd. by left.
      * assert (Hgo : ∀ x, rtc edge x z → x ∈ c → z ∈ c).
        { intros x Hr. induction Hr as [x|x y z' Hxy _ IH]; [done|]. intros Hx. apply IH.
          destruct (Hcl x y Hx Hxy) as [?|?%elem_of_nil]; done. }
        intros Hr. apply (Hgo start Hr). by destruct Hs as [?|?%elem_of_nil].
    + by destruct (decide (id ∈ c)); [|destruct (adj !! id)].
  - unfold search_measure. cbn [fst snd]. rewrite weight_empty. unfold search_fuel, zlen. cbn [length]. lia.
  - cbn in Hu. subst u. exists c. split; [exact E|done].
Qed.

(** *** All components *)

Context (live : gset Z) `{!Equivalence (rtc edge)} (Hlive : ∀ x y, x ∈ live → rtc edge x y → y ∈ live).

(** The classes found so far, none of which meets the unseen nodes. *)
Record parting (s : gset Z * list (gset Z)) : Prop := {
  pt_class i c : s.2 !! i = Some c → ∃ x, x ∈ c ∧ ∀ y, y ∈ c ↔ rtc edge x y;
  pt_disjoint i j c d z : s.2 !! i = Some c → s.2 !! j = Some d → z ∈ c → z ∈ d → i = j;
  pt_unseen i c z : s.2 !! i = Some c → z ∈ c → z ∉ s.1;
  pt_live z : z ∈ live ↔ z ∈ s.1 ∨ ∃ i c, s.2 !! i = Some c ∧ z ∈ c;
}.
Lemma lookup_snoc_Some {A} (l : list A) x i y :
  (l ++ [x]) !! i = Some y → l !! i = Some y ∨ i = length l ∧ y = x.
Proof.
  intros [H|[Hge H]]%lookup_app_Some; [by left|]. apply list_lookup_singleton_Some in H as [? <-].
  right. split; [lia|done].
Qed.
Lemma components_step_ok s s' :
  parting s → components_step adj s = inl s' →
  parting s' ∧ Z.of_nat (size s'.1) < Z.of_nat (size s.1).
Proof.
  destruct s as [u cs]. intros [Hc Hd Hu Hl] E. cbn in *.
  destruct (bset_iter u) as [|start rest] eqn:Eu; [done|].
  assert (Hst : start ∈ u) by (apply elem_of_bset_iter; rewrite Eu; by left).
  destruct (search_total start u) as (c & Es & Hcl). rewrite Es in E. injection E as <-. cbn.
  assert (Hsc : start ∈ c) by (apply Hcl; reflexivity).
  assert (Hapart : ∀ i d z, cs !! i = Some d → z ∈ d → z ∉ c).
  { intros i d z Hi Hz Hzc. destruct (Hc i d Hi) as (x & _ & Hx). apply (Hu i d start Hi); [|done].
    apply Hx. apply Hx in Hz. apply Hcl in Hzc. etrans; [exact Hz|by symmetry]. }
  split.
  - constructor; cbn.
    + intros i d [?|[_ ->]]%lookup_snoc_Some; [by eapply Hc|]. exists start. by split.
    + intros i j d d' z [Hi|[-> ->]]%lookup_snoc_Some [Hj|[-> ->]]%lookup_snoc_Some Hz Hz'; [|exfalso..|done].
      * by eapply Hd.
      * by eapply Hapart.
      * by eapply Hapart.
    + intros i d z [Hi|[_ ->]]%lookup_snoc_Some Hz; [|set_solver]. pose proof (Hu i d z Hi Hz). set_solver.
    + intros z. rewrite Hl. split.
      * intros [Hz|(i & d & Hi & Hz)].
        -- destruct (decide (z ∈ c)); [right|left; set_solver]. exists (length cs), c.
           split; [|done]. by rewrite lookup_app_r, Nat.sub_diag by done.
        -- right. exists i, d. split; [|done]. by apply lookup_app_l_Some.
      * intros [Hz|(i & d & [Hi|[_ ->]]%lookup_snoc_Some & Hz)]; [left; set_solver|right; eauto|].
        apply Hl. apply (Hlive start); [apply Hl; by left|by apply Hcl].
  - apply inj_lt. apply subset_size. set_solver.
Qed.

(** The classes of the live nodes. *)
Definition partition_of (cs : list (gset Z)) : Prop :=
  (∀ c, c ∈ cs → ∃ x, x ∈ c ∧ ∀ y, y ∈ c ↔ rtc edge x y) ∧
  (∀ i j c d z, cs !! i = Some c → cs !! j = Some d → z ∈ c → z ∈ d → i = j) ∧
  (∀ z, z ∈ live ↔ ∃ c, c ∈ cs ∧ z ∈ c).
Lemma components_total : ∃ cs, components_of adj live = Some cs ∧ partition_of cs.
Proof.
  destruct (run_loop_total (components_step adj) parting
    (λ r, ∃ cs, r = Some cs ∧ partition_of cs) (λ s, Z.of_nat (size s.1)) (Pos.of_succ_nat (size live))
    (live, [])) as (r & E & cs & -> & Hcs).
  - constructor; cbn; try done. intros z. split; [by left|]. intros [?|(i & c & ? & _)]; done.
  - intros; lia.
  - apply components_step_ok.
  - intros [u cs] r [Hc Hd Hu Hl] E. cbn in *. destruct (bset_iter u) as [|start rest] eqn:Eu.
    + injection E as <-. exists cs. split; [done|]. assert (u = ∅) as ->.
      { apply elem_of_equiv_empty_L. intros z. rewrite <-elem_of_bset_iter, Eu. apply not_elem_of_nil. }
      split_and!.
      * intros c [i Hi]%list_elem_of_lookup_1. by eapply Hc.
      * done.
      * intros z. rewrite Hl. split.
        -- intros [?|(i & c & Hi & Hz)]; [set_solver|]. exists c. split; [by eapply list_elem_of_lookup_2|done].
        -- intros (c & [i Hi]%list_elem_of_lookup_1 & Hz). right. eauto.
    + destruct (search_total start u) as (c & Es & _). by rewrite Es in E.
  - cbn [fst]. lia.
  - exists cs. unfold components_of. rewrite E. done.
Qed.
End Search.

(** ** Answers *)

Definition snapshot_of (nodes : list LabNodeState) (a : Z) : option NodeSnapshot :=
  n ← find_node nodes a; ln_snapshot n.

Section Nodes.
Context (nodes : list LabNodeState).
Context (Hids : NoDup (node_id_of <$> nodes)).
Context (Hrun : ∀ n, n ∈ nodes → ln_running n = bool_decide (is_Some (ln_snapshot n))).

Lemma find_node_Some a n : find_node nodes a = Some n ↔ n ∈ nodes ∧ node_id_of n = a.
Proof.
  unfold find_node. split.
  - destruct (list_find _ _) as [[i n']|] eqn:E; [|done]. intros [= <-].
    apply list_find_Some in E as (Hi & Ha & _). split; [by eapply list_elem_of_lookup_2|done].
  - intros [[i Hi]%list_elem_of_lookup_1 Ha].
    rewrite (proj2 (list_find_Some (λ n, node_id_of n = a) nodes i n)); [done|]. split_and!; [done..|].
    intros j y Hj Hlt Hy. assert (i = j); [|lia].
    eapply (NoDup_lookup _ i j a Hids); rewrite list_lookup_fmap; [by rewrite Hi, <-Ha|by rewrite Hj, <-Hy].
Qed.
Lemma snapshot_of_Some a s :
  snapshot_of nodes a = Some s ↔ ∃ n, n ∈ nodes ∧ node_id_of n = a ∧ ln_snapshot n = Some s.
Proof.
  unfold snapshot_of. destruct (find_node nodes a) as [n|] eqn:E; cbn [mbind option_bind].
  - split.
    + intros Hs. exists n. by apply find_node_Some in E as [? ?].
    + intros (n' & Hin & Ha & Hs). rewrite (proj2 (find_node_Some a n')) in E by done. by injection E as ->.
  - split; [done|]. intros (n & Hin & Ha & _). by rewrite (proj2 (find_node_Some a n)) in E.
Qed.
Lemma elem_of_live a : a ∈ live_ids nodes ↔ is_Some (snapshot_of nodes a).
Proof.
  unfold live_ids. rewrite elem_of_list_to_set, list_elem_of_fmap. split.
  - intros (n & -> & [Hr Hin]%list_elem_of_filter). rewrite (Hrun n Hin) in Hr.
    apply bool_decide_eq_true in Hr as [s Hs]. exists s. apply snapshot_of_Some. eauto.
  - intros [s (n & Hin & <- & Hs)%snapshot_of_Some]. exists n. split; [done|].
    apply list_elem_of_filter. split; [|done]. rewrite (Hrun n Hin), Hs. by apply bool_decide_eq_true.
Qed.
Lemma canonical_lsdb_Some live (c : gset Z) a :
  a ∈ c → is_Some (snapshot_of nodes a) →
  ∃ b s, b ∈ c ∧ snapshot_of nodes b = Some s ∧ canonical_lsdb live c nodes = Some (lsdb_view live s c).
Proof.
  intros Ha [s (n & Hin & Hn & Hs)%snapshot_of_Some].
  assert (Hgen : ∀ l, (∀ m, m ∈ l → m ∈ nodes) → n ∈ l →
    ∃ b s, b ∈ c ∧ snapshot_of nodes b = Some s ∧ canonical_lsdb live c l = Some (lsdb_view live s c)).
  { induction l as [|m l IH]; intros Hsub Hl; [by apply elem_of_nil in Hl|]. cbn [canonical_lsdb].
    destruct (decide (node_id_of m ∈ c)) as [Hm|Hm].
    - destruct (ln_snapshot m) as [t|] eqn:Et.
      + exists (node_id_of m), t. split_and!; [done| |done]. apply snapshot_of_Some. exists m.
        split_and!; [apply Hsub; by left|done..].
      + apply IH; [intros; apply Hsub; by right|]. apply elem_of_cons in Hl as [->|?]; [congruence|done].
    - apply IH; [intros; apply Hsub; by right|]. apply elem_of_cons in Hl as [->|?]; [congruence|done]. }
  by apply Hgen.
Qed.
End Nodes.

Lemma collect_map_keys {V} (l : list (Z * V)) k : is_Some (collect_map l !! k) → k ∈ l.*1.
Proof.
  unfold collect_map. induction l as [|[j v] l IH] using rev_ind; [by intros [? ?]|].
  rewrite foldl_app, fmap_app. cbn. destruct (decide (j = k)) as [->|Hne].
  - intros _. apply elem_of_app. right. by left.
  - rewrite lookup_insert_ne by done. intros ?%IH. apply elem_of_app. by left.
Qed.
Lemma lsdb_view_keys live s c k : is_Some (lsdb_view live s c !! k) → k ∈ c.
Proof.
  unfold lsdb_view. intros Hk%collect_map_keys. rewrite <-list_fmap_compose in Hk.
  apply list_elem_of_fmap in Hk as (l & -> & [Hl _]%list_elem_of_filter). done.
Qed.
Lemma lsdb_view_complete live s c :
  size (lsdb_view live s c) = size c ↔ ∀ k, k ∈ c → is_Some (lsdb_view live s c !! k).
Proof.
  rewrite <-(size_dom (D:=gset Z)).
  assert (dom (lsdb_view live s c) ⊆ c) as Hsub.
  { intros k Hk. apply elem_of_dom in Hk. by eapply lsdb_view_keys. }
  split.
  - intros Hsz k Hk. apply elem_of_dom. rewrite (set_subseteq_size_eq _ _ Hsub); [done|lia].
  - intros H. f_equal. apply set_eq. intros k. split; [apply Hsub|]. intros Hk. apply elem_of_dom. auto.
Qed.

(** [l] is the LSA of [b] in the snapshot [s]: the last one it lists with that
    origin. *)
Definition last_lsa (lsdb : list LsaSnapshot) (b : Z) (l : LsaSnapshot) : Prop :=
  ∃ older newer, lsdb = older ++ l :: newer ∧ ls_origin l = b ∧ ∀ x, x ∈ newer → ls_origin x ≠ b.
Definition holds_lsa (s : NodeSnapshot) : Z → LsaSnapshot → Prop := last_lsa (ns_lsdb s).

Lemma last_lsa_nil b l : ¬ last_lsa [] b l.
Proof. by intros ([] & ? & ? & _). Qed.
Lemma last_lsa_snoc lsdb x b l :
  last_lsa (lsdb ++ [x]) b l ↔ if decide (ls_origin x = b) then l = x else last_lsa lsdb b l.
Proof.
  split.
  - intros (older & newer & E & Hl & Hn). destruct newer as [|y newer _] using rev_ind.
    + apply app_inj_tail in E as [-> ->]. by rewrite decide_True.
    + rewrite app_comm_cons, app_assoc in E. apply app_inj_tail in E as [-> ->].
      rewrite decide_False by (apply Hn; set_solver). exists older, newer. split_and!; [done..|].
      intros z Hz. apply Hn. set_solver.
  - case_decide as Ex.
    + intros ->. exists lsdb, []. split_and!; [done..|]. by intros y ?%elem_of_nil.
    + intros (older & newer & -> & Hl & Hn). exists older, (newer ++ [x]). split_and!; [by rewrite <-app_assoc|done|].
      intros y [Hy|Hy%list_elem_of_singleton]%elem_of_app; [auto|by subst y].
Qed.
Lemma last_lsa_unique lsdb b l l' : last_lsa lsdb b l → last_lsa lsdb b l' → l = l'.
Proof.
  induction lsdb as [|x lsdb IH] using rev_ind; [by intros ?%last_lsa_nil|].
  rewrite !last_lsa_snoc. case_decide; [congruence|done].
Qed.
(** What the view of a snapshot shows of an LSA. *)
Definition shown (live : gset Z) (l : LsaSnapshot) : Z * Z * gset Z :=
  (ls_epoch l, ls_sequence l, list_to_set (filter (λ p, p ∈ live) (ls_adjacencies l))).
Lemma lookup_lsdb_view live s (c : gset Z) b v :
  b ∈ c → lsdb_view live s c !! b = Some v ↔ ∃ l, holds_lsa s b l ∧ v = shown live l.
Proof.
  intros Hb. unfold lsdb_view, collect_map, holds_lsa. induction (ns_lsdb s) as [|x lsdb IH] using rev_ind.
  { cbn. rewrite lookup_empty. split; [done|]. by intros (l & ?%last_lsa_nil & _). }
  setoid_rewrite last_lsa_snoc. rewrite filter_app, fmap_app, foldl_app.
  rewrite filter_cons, filter_nil. destruct (decide (ls_origin x = b)) as [<-|Hne].
  - rewrite decide_True by done. cbn. rewrite lookup_insert_eq. unfold shown. naive_solver.
  - case_decide; [|done]. cbn. by rewrite lookup_insert_ne.
Qed.

(** ** Convergence *)

Section Convergence.
Context {F : Type} (nodes : list LabNodeState) (links : list (LabLink F)).
Context (Hids : NoDup (node_id_of <$> nodes)).
Context (Hrun : ∀ n, n ∈ nodes → ln_running n = bool_decide (is_Some (ln_snapshot n))).
Abbreviation live := (live_ids nodes).
Abbreviation adj := (expected_adjacencies links (live_ids nodes)).

(** What is required of the snapshot [sa] of node [a], whose component is
    [c]: routes to exactly the rest of the component, an LSA of every node of
    it whose live adjacencies are exactly the neighbours of that node, and the
    same versions of these LSAs as the others. *)
Record agrees (c : gset Z) (a : Z) (sa : NodeSnapshot) : Prop := {
  ag_routes b : b ∈ ro_destination <$> ns_routes sa ↔ b ∈ c ∧ b ≠ a;
  ag_lsas b : b ∈ c → ∃ l, holds_lsa sa b l ∧
    ∀ x, x ∈ ls_adjacencies l ∧ x ∈ live ↔ neighbours links live b x;
  ag_same b sb o la lb : b ∈ c → snapshot_of nodes b = Some sb → o ∈ c →
    holds_lsa sa o la → holds_lsa sb o lb →
    ls_epoch la = ls_epoch lb ∧ ls_sequence la = ls_sequence lb;
}.
(** The same in terms of the views the code compares. *)
Record agrees_view (c : gset Z) (a : Z) (sa : NodeSnapshot) : Prop := {
  av_routes b : b ∈ route_destinations sa ↔ b ∈ c ∧ b ≠ a;
  av_origins b : b ∈ c → is_Some (lsdb_view live sa c !! b);
  av_adjacent b ep sq ps : lsdb_view live sa c !! b = Some (ep, sq, ps) →
    ∀ x, x ∈ ps ↔ neighbours links live b x;
  av_same b sb : b ∈ c → snapshot_of nodes b = Some sb → lsdb_view live sb c = lsdb_view live sa c;
}.
Lemma elem_of_shown l x : x ∈ (shown live l).2 ↔ x ∈ ls_adjacencies l ∧ x ∈ live.
Proof. cbn. rewrite elem_of_list_to_set, list_elem_of_filter. tauto. Qed.
Lemma agrees_views c :
  (∀ a sa, a ∈ c → snapshot_of nodes a = Some sa → agrees c a sa) ↔
  (∀ a sa, a ∈ c → snapshot_of nodes a = Some sa → agrees_view c a sa).
Proof.
  split; intros H a sa Ha Hsa; pose proof (H a sa Ha Hsa) as Hag; constructor.
  - intros b. unfold route_destinations. rewrite elem_of_list_to_set. apply Hag.
  - intros b Hb. destruct (ag_lsas _ _ _ Hag b Hb) as (l & Hl & _).
    exists (shown live l). apply lookup_lsdb_view; eauto.
  - intros b ep sq ps Hv x. pose proof (lsdb_view_keys _ _ _ _ (mk_is_Some _ _ Hv)) as Hb.
    apply lookup_lsdb_view in Hv as (l & Hl & Hv); [|done]. destruct (ag_lsas _ _ _ Hag b Hb) as (l' & Hl' & Hx).
    rewrite <-Hx, (last_lsa_unique _ _ _ _ Hl' Hl), <-elem_of_shown. by rewrite <-Hv.
  - intros b sb Hb Hsb. apply map_eq. intros o. destruct (decide (o ∈ c)) as [Ho|Ho].
    2: { transitivity (@None (Z * Z * gset Z)); [|symmetry]; apply eq_None_not_Some; by intros ?%lsdb_view_keys. }
    destruct (ag_lsas _ _ _ Hag o Ho) as (la & Hla & Hxa).
    destruct (ag_lsas _ _ _ (H b sb Hb Hsb) o Ho) as (lb & Hlb & Hxb).
    destruct (ag_same _ _ _ Hag b sb o la lb) as [Hep Hsq]; [done..|].
    transitivity (Some (shown live la)); [|symmetry; apply lookup_lsdb_view; eauto].
    apply lookup_lsdb_view; [done|]. exists lb. split; [done|]. unfold shown. rewrite Hep, Hsq. f_equal.
    apply set_eq. intros x. rewrite (elem_of_shown la), (elem_of_shown lb), Hxa. by rewrite Hxb.
  - intros b. rewrite <-(av_routes _ _ _ Hag b). unfold route_destinations. by rewrite elem_of_list_to_set.
  - intros b Hb. destruct (av_origins _ _ _ Hag b Hb) as [v Hv]. pose proof Hv as Hv'.
    apply lookup_lsdb_view in Hv' as (l & Hl & ->); [|done]. exists l. split; [done|].
    intros x. rewrite <-elem_of_shown. by eapply av_adjacent.
  - intros b sb o la lb Hb Hsb Ho Hla Hlb. pose proof (av_same _ _ _ Hag b sb Hb Hsb) as E.
    assert (lsdb_view live sa c !! o = Some (shown live la)) as E1 by (apply lookup_lsdb_view; eauto).
    assert (lsdb_view live sb c !! o = Some (shown live lb)) as E2 by (apply lookup_lsdb_view; eauto).
    rewrite E, E1 in E2. unfold shown in E2. by injection E2 as -> ->.
Qed.

Lemma edge_neighbours x y : edge adj x y ↔ neighbours links live x y.
Proof.
  unfold edge, neighbours. rewrite lookup_expected. split.
  - intros (ps & E & Hy). case_decide; [|done]. injection E as <-.
    by apply elem_of_expected_peers in Hy as [? ?].
  - intros (Hx & Hy & Hj). rewrite decide_True by done. eexists. split; [done|].
    by apply elem_of_expected_peers.
Qed.
Lemma rtc_edge x y : rtc (edge adj) x y ↔ reaches links live x y.
Proof.
  split; intros H; [eapply rtc_subrel; [|exact H]|eapply rtc_subrel; [|exact H]]; intros; by apply edge_neighbours.
Qed.
Lemma reaches_live x y : x ∈ live → reaches links live x y → y ∈ live.
Proof. intros Hx Hr. induction Hr as [x|x y z (_ & Hy & _) _ IH]; [done|]. by apply IH. Qed.
Lemma components_reach :
  ∃ cs, components_of adj live = Some cs ∧
    (∀ c, c ∈ cs → ∃ x, x ∈ c ∧ ∀ y, y ∈ c ↔ reaches links live x y) ∧
    (∀ i j c d z, cs !! i = Some c → cs !! j = Some d → z ∈ c → z ∈ d → i = j) ∧
    (∀ z, z ∈ live ↔ ∃ c, c ∈ cs ∧ z ∈ c).
Proof.
  assert (Symmetric (edge adj)) by (intros x y; rewrite !edge_neighbours; by symmetry).
  assert (Equivalence (rtc (edge adj))) by apply _.
  destruct (components_total adj live) as (cs & E & Hc & Hd & Hl).
  { intros x y Hx Hr%rtc_edge. by eapply reaches_live. }
  exists cs. split_and!; try done. intros c (x & Hx & Hy)%Hc. exists x. split; [done|].
  intros y. rewrite Hy. apply rtc_edge.
Qed.

Lemma node_converged_spec c canonical a sa :
  snapshot_of nodes a = Some sa →
  node_converged nodes live adj c canonical a = true ↔
  (∀ b, b ∈ c → is_Some (lsdb_view live sa c !! b)) ∧ Some (lsdb_view live sa c) = canonical ∧
  (∀ b ep sq ps, lsdb_view live sa c !! b = Some (ep, sq, ps) → adj !! b = Some ps) ∧
  route_destinations sa = c ∖ {[a]}.
Proof.
  intros Hs. unfold node_converged. unfold snapshot_of in Hs. rewrite Hs.
  rewrite !andb_true_iff, !bool_decide_eq_true, lsdb_view_complete, forallb_elem.
  split.
  - intros [[[? ?] Hf] ?]. split_and!; try done. intros b ep sq ps Hb.
    specialize (Hf (b, (ep, sq, ps))). cbn in Hf.
    eapply bool_decide_eq_true, Hf. by apply elem_of_btree_iter.
  - intros (? & ? & Hf & ?). split_and!; try done. intros [b [[ep sq] ps]] Hin%elem_of_btree_iter. cbn.
    apply bool_decide_eq_true. by eapply Hf.
Qed.

Lemma component_converged_spec c x :
  x ∈ c → (∀ y, y ∈ c → y ∈ live) →
  component_converged nodes live adj c = true ↔
  ∀ a sa, a ∈ c → snapshot_of nodes a = Some sa → agrees c a sa.
Proof.
  intros Hx Hl. rewrite agrees_views. unfold component_converged. rewrite andb_true_iff, bool_decide_eq_true, forallb_elem.
  assert (Hsnap : ∀ y, y ∈ c → is_Some (snapshot_of nodes y)) by (intros; apply elem_of_live; auto).
  assert (Hadj : ∀ b, b ∈ c → ∀ ps, adj !! b = Some ps ↔ ∀ y, y ∈ ps ↔ neighbours links live b y).
  { intros b Hb ps. rewrite lookup_expected, decide_True by auto. split.
    - intros [= <-] y. rewrite elem_of_expected_peers. unfold neighbours. naive_solver.
    - intros H. f_equal. apply set_eq. intros y. rewrite H, elem_of_expected_peers. unfold neighbours. naive_solver. }
  split.
  - intros [_ Hall] a sa Ha Hsa.
    pose proof (λ b sb (Hb : b ∈ c) Hsb, proj1 (node_converged_spec c _ b sb Hsb)
      (Hall b (proj2 (elem_of_bset_iter c b) Hb))) as Hspec.
    destruct (Hspec a sa Ha Hsa) as (Ho & Hcan & Had & Hr). constructor; try done.
    + intros b. rewrite Hr. set_solver.
    + intros b ep sq ps Hb. apply Hadj; [by eapply lsdb_view_keys|by eapply Had].
    + intros b sb Hb Hsb. destruct (Hspec b sb Hb Hsb) as (_ & Hcb & _). congruence.
  - intros Hag. destruct (canonical_lsdb_Some nodes Hids live c x Hx (Hsnap x Hx)) as (b & sb & Hb & Hsb & Hcan).
    rewrite Hcan. split; [done|]. intros a Ha%elem_of_bset_iter. destruct (Hsnap a Ha) as [sa Hsa].
    apply (node_converged_spec c _ a sa Hsa). destruct (Hag a sa Ha Hsa) as [Hr Ho Had Hsame].
    split_and!; [done| | |].
    + by rewrite (Hsame b sb Hb Hsb).
    + intros d ep sq ps Hd. apply Hadj; [by eapply lsdb_view_keys|by eapply Had].
    + apply set_eq. intros d. rewrite Hr. set_solver.
Qed.
End Convergence.

(** ** The report *)

Lemma answers_ids collected :
  NoDup (answer_id <$> collected) →
  NoDup (node_id_of <$> (answer_state <$> sort_by_key answer_id collected)).
Proof.
  intros Hnd. rewrite <-list_fmap_compose.
  assert (Heq : ∀ l : list Answer, (node_id_of ∘ answer_state) <$> l = answer_id <$> l).
  { intros l. apply list_fmap_ext. by intros i [[info offset] snap] _. }
  by rewrite Heq, sort_by_key_perm.
Qed.
Lemma answers_running collected n :
  n ∈ (answer_state <$> collected : list LabNodeState) → ln_running n = bool_decide (is_Some (ln_snapshot n)).
Proof. by intros ([[info offset] snap] & -> & _)%list_elem_of_fmap. Qed.
Lemma running_live nodes : (0 < length (filter (λ n, ln_running n = true) nodes))%nat ↔ ∃ a, a ∈ live_ids nodes.
Proof.
  unfold live_ids. destruct (filter _ nodes) as [|n l]; cbn.
  - split; [lia|]. intros [a Ha]. set_solver.
  - split; [|lia]. intros _. exists (node_id_of n). set_solver.
Qed.
Lemma elem_of_set_up {F} nodes (l : LabLink F) :
  ll_up (set_up nodes l) = true ↔
  ∃ sa sb, snapshot_of nodes (ll_a l) = Some sa ∧ snapshot_of nodes (ll_b l) = Some sb ∧
    ll_b l ∈ pe_peer <$> ns_peers sa ∧ ll_a l ∈ pe_peer <$> ns_peers sb.
Proof.
  assert (Hsees : ∀ x y, endpoint_sees_peer nodes x y = true ↔
    ∃ s, snapshot_of nodes x = Some s ∧ y ∈ pe_peer <$> ns_peers s).
  { intros x y. unfold endpoint_sees_peer, snapshot_of.
    destruct (n ← find_node nodes x; ln_snapshot n) as [s|]; [|naive_solver].
    rewrite existsb_exists. setoid_rewrite list_elem_of_fmap. setoid_rewrite list_elem_of_In.
    split; [intros (p & ? & ?%Z.eqb_eq); eauto|]. intros (? & [= <-] & p & -> & ?).
    exists p. split; [done|apply Z.eqb_refl]. }
  cbn [set_up ll_up]. rewrite andb_true_iff, !Hsees. naive_solver.
Qed.

(** What a report says: which links are up, the components [cs] of the live
    nodes, and when the mesh counts as converged. *)
Record reports {F} (r : LabStateResponse F) (cs : list (gset Z)) : Prop := {
  rp_links l : l ∈ lr_links r →
    ll_up l = true ↔ ∃ sa sb, snapshot_of (lr_nodes r) (ll_a l) = Some sa ∧
      snapshot_of (lr_nodes r) (ll_b l) = Some sb ∧
      ll_b l ∈ pe_peer <$> ns_peers sa ∧ ll_a l ∈ pe_peer <$> ns_peers sb;
  rp_live a : a ∈ live_ids (lr_nodes r) ↔ is_Some (snapshot_of (lr_nodes r) a);
  rp_count : lr_components r = zlen cs;
  rp_class c : c ∈ cs →
    ∃ x, x ∈ c ∧ ∀ y, y ∈ c ↔ reaches (lr_links r) (live_ids (lr_nodes r)) x y;
  rp_disjoint i j c d z : cs !! i = Some c → cs !! j = Some d → z ∈ c → z ∈ d → i = j;
  rp_cover z : z ∈ live_ids (lr_nodes r) ↔ ∃ c, c ∈ cs ∧ z ∈ c;
  rp_converged : lr_converged r = true ↔
    (∃ a, a ∈ live_ids (lr_nodes r)) ∧
    ∀ c a sa, c ∈ cs → a ∈ c → snapshot_of (lr_nodes r) a = Some sa →
      agrees (lr_nodes r) (lr_links r) c a sa;
}.
Lemma collect_state_spec {F} (lab_links : gmap Z (LabLink F)) now pace collected :
  NoDup (answer_id <$> collected) →
  ∃ r cs, collect_state lab_links now pace collected = Some r ∧ reports r cs.
Proof.
  intros Hnd. unfold collect_state.
  pose proof (answers_ids _ Hnd) as Hids.
  pose proof (answers_running (sort_by_key answer_id collected)) as Hrun.
  set (nodes := answer_state <$> _) in *. set (links := set_up nodes <$> _).
  destruct (components_reach nodes links) as (cs & E & Hc & Hd & Hl).
  rewrite E. eexists _, cs. split; [reflexivity|].
  constructor; cbn [lr_nodes lr_links lr_components lr_converged]; try done.
  - intros l (l0 & -> & _)%list_elem_of_fmap. exact (elem_of_set_up nodes l0).
  - intros a. by apply elem_of_live.
  - rewrite andb_true_iff, bool_decide_eq_true, running_live, forallb_elem. apply and_iff_compat_l.
    assert (Hcomp : ∀ c, c ∈ cs →
      component_converged nodes (live_ids nodes) (expected_adjacencies links (live_ids nodes)) c = true ↔
      ∀ a sa, a ∈ c → snapshot_of nodes a = Some sa → agrees nodes links c a sa).
    { intros c Hin. destruct (Hc c Hin) as (x & Hx & _).
      apply (component_converged_spec nodes links Hids Hrun c x Hx). intros y Hy. apply Hl. eauto. }
    split; [intros H c a sa Hin; by apply Hcomp, H|intros H c Hin; apply Hcomp; eauto].
Qed.
(** C28: The state the laboratory reports is always computed (both search loops
    end), whatever the nodes answered, provided no node answers twice. It has
    the answered snapshots and the laboratory's links. A link counts as up
    exactly when the snapshots of both of its ends list the other end. The
    components are the classes of live nodes joined by links that are up, each
    listed once. The mesh is reported as converged exactly when a node is live
    and, in every component, every node has routes to exactly the other nodes
    of it, holds an LSA of each node of it whose adjacencies to live nodes are
    exactly that node's neighbours, and holds these LSAs in the same epoch and
    sequence number as the other nodes of the component. *)
Theorem lab_convergence {F} (lab_links : gmap Z (LabLink F)) now pace collected :
  NoDup (answer_id <$> collected) →
  ∃ r cs, collect_state lab_links now pace collected = Some r ∧ reports r cs ∧
    (∀ a s, snapshot_of (lr_nodes r) a = Some s ↔
       ∃ info offset, (info, offset, Some s) ∈ collected ∧ ni_id info = a) ∧
    (λ l, (ll_id l, ll_a l, ll_b l)) <$> lr_links r =
      (λ l, (ll_id l, ll_a l, ll_b l)) <$> btree_values lab_links.
Proof.
  intros Hnd. destruct (collect_state_spec lab_links now pace collected Hnd) as (r & cs & E & Hr).
  exists r, cs. split; [done|]. split; [done|]. unfold collect_state in E.
  apply bind_Some in E as (cs' & _ & [= <-]). cbn [lr_nodes lr_links]. split.
  - intros a s. rewrite snapshot_of_Some by (by apply answers_ids). setoid_rewrite list_elem_of_fmap.
    setoid_rewrite sort_by_key_perm. split.
    + intros (n & ([[info offset] snap] & -> & Hin) & Ha & Hs). cbn in Ha, Hs. subst. eauto.
    + intros (info & offset & Hin & Ha). eexists. split; [by eexists (_, _, _)|done].
  - rewrite <-list_fmap_compose. done.
Qed.

Lemma Sorted_take_drop {A} (R : relation A) l n x y :
  StronglySorted R l → x ∈ take n l → y ∈ drop n l → R x y.
Proof.
  rewrite <-(take_drop n l) at 1. intros H Hx Hy. by eapply StronglySorted_app_1_elem_of.
Qed.
Lemma StronglySorted_reverse {A} (R : relation A) l :
  StronglySorted R l → StronglySorted (flip R) (reverse l).
Proof.
  induction 1 as [|x l Hl IH Hx]; [constructor|]. rewrite reverse_cons.
  apply StronglySorted_app_2; [|done|by repeat constructor].
  intros y z Hy ->%list_elem_of_singleton. rewrite elem_of_reverse in Hy. exact (proj1 (Forall_forall _ _) Hx y Hy).
Qed.
(** The report lists the latest hundred events of the nodes that
    answered, newest first: the list is sorted by time (shifted by the
    node's start, saturating), node and sequence number, holds only events of
    the answers, and every event of the answers that it omits is not newer
    than any it lists, and is omitted only when the list is full. *)
Theorem lab_events_recent {F} (lab_links : gmap Z (LabLink F)) now pace collected r :
  collect_state lab_links now pace collected = Some r →
  StronglySorted (λ x y, ole (event_key y) (event_key x)) (lr_events r) ∧
  (length (lr_events r) ≤ 100)%nat ∧
  ∃ omitted, lr_events r ++ omitted ≡ₚ collected ≫= answer_events ∧
    (omitted ≠ [] → length (lr_events r) = 100%nat) ∧
    ∀ x y, x ∈ lr_events r → y ∈ omitted → ole (event_key y) (event_key x).
Proof.
  unfold collect_state. destruct (components_of _ _) as [cs|]; [|done]. cbn [mbind option_bind].
  intros [= <-]. cbn [lr_events]. unfold recent. set (all := sort_by_key answer_id collected ≫= answer_events).
  pose proof (StronglySorted_reverse _ _ (sort_by_key_sorted event_key all)) as Hs.
  set (l := reverse _) in *. split_and!.
  - rewrite <-(take_drop 100 l) in Hs. by apply StronglySorted_app_1_l in Hs.
  - rewrite length_take. lia.
  - exists (drop 100 l). rewrite take_drop. split_and!.
    + unfold l, all. by rewrite reverse_Permutation, sort_by_key_perm, sort_by_key_perm.
    + intros Hne. rewrite length_take. destruct (decide (100 ≤ length l)%nat); [lia|].
      destruct Hne. apply drop_ge. lia.
    + intros x y Hx Hy. exact (Sorted_take_drop _ l 100 x y Hs Hx Hy).
Qed.
