(* ===== verification/LabProxy.v ===== *)
(** * The link proxy of the laboratory (bins/mblab)

    [forward_frames] copies the frames of one direction of a link, delayed and
    thinned by the conditions of the link; [run_link_proxy] runs one for each
    direction.  Both are state machines that stop at the places where the code
    awaits; what completes there is the input of a step.  Floating point is
    binary64 as in [SpecFloat]. *)

From Stdlib Require Import Strings.Byte Floats.SpecFloat.
From S2P Require Export Prelude Bytes Types Wire.
Open Scope Z_scope.

(** ** Conditions *)

(** A float of the type [f64]. *)
Abbreviation f64 := spec_float (only parsing).
Definition f64_mul : f64 → f64 → f64 := SFmul 53 1024.
(** The float of a small natural number: 53 digits. *)
Definition f64_of_pos (p : positive) : f64 :=
  let shift := 52 - Z.log2 (Zpos p) in
  S754_finite false (Z.to_pos (Z.shiftl (Zpos p) shift)) (- shift).

Record ConditionsRequest := {
  latency_ms : Z;
  loss_percent : f64;
  bandwidth_kbps : Z;
}.

(** [x.round() as u64]: to the nearest integer, halves away from zero; the
    cast saturates, and takes NaN to zero. *)
Definition round_as_u64 (x : f64) : Z :=
  match x with
  | S754_finite false m e =>
      if 0 <=? e then Z.min (Z.shiftl (Zpos m) e) (u_max 64)
      else Z.min (Z.shiftr (Zpos m + Z.shiftl 1 (- e - 1)) (- e)) (u_max 64)
  | S754_infinity false => u_max 64
  | _ => 0
  end.

Definition mix64 (value : Z) : Z :=
  let value := Z.lxor value (Z.shiftr value 30) in
  let value := wrap 64 (value * 0xbf58476d1ce4e5b9) in
  let value := Z.lxor value (Z.shiftr value 27) in
  let value := wrap 64 (value * 0x94d049bb133111eb) in
  Z.lxor value (Z.shiftr value 31).

Definition serialization_ms (len : Z) (current : ConditionsRequest) : Z :=
  let bits := sat_mul 64 len 8 in
  let kbps := bandwidth_kbps current in
  if kbps =? 0 then 0 else sat_add 64 bits (sat_sub kbps 1) / kbps.
Definition delay_ms (len : Z) (current : ConditionsRequest) : Z :=
  sat_add 64 (latency_ms current) (serialization_ms len current).
Definition loss_per_million (current : ConditionsRequest) : Z :=
  round_as_u64 (f64_mul (loss_percent current) (f64_of_pos 10000)).
(** The verdict on the frame with number [sequence]. *)
Definition lost (seed sequence : Z) (current : ConditionsRequest) : bool :=
  mix64 (Z.lxor seed sequence) mod 1000000 <? Z.min (loss_per_million current) 1000000.

(** ** One direction *)

(** Where [forward_frames] awaits: the delay of a frame, a write, or a read. *)
Inductive DirectionPhase :=
| DpSleep (frame : WireFrame) (encoded : bytes) (current : ConditionsRequest)
| DpWrite (frame : WireFrame) (encoded : bytes)
| DpRead
| DpReturned.

(** The variables of [forward_frames], what its reader gave and its writer
    took, and the frames decided on, with the verdicts. *)
Record Direction := {
  dr_seed : Z;
  dr_conditions : ConditionsRequest;
  dr_buffered : bytes;
  dr_sequence : Z;
  dr_phase : DirectionPhase;
  dr_taken : bytes;
  dr_given : bytes;
  dr_fates : list (WireFrame * bool);
}.
Definition set_phase (d : Direction) (p : DirectionPhase) : Direction :=
  {| dr_seed := dr_seed d; dr_conditions := dr_conditions d; dr_buffered := dr_buffered d;
     dr_sequence := dr_sequence d; dr_phase := p; dr_taken := dr_taken d; dr_given := dr_given d;
     dr_fates := dr_fates d |}.
Definition set_conditions (d : Direction) (c : ConditionsRequest) : Direction :=
  {| dr_seed := dr_seed d; dr_conditions := c; dr_buffered := dr_buffered d;
     dr_sequence := dr_sequence d; dr_phase := dr_phase d; dr_taken := dr_taken d;
     dr_given := dr_given d; dr_fates := dr_fates d |}.
Definition set_decoded (d : Direction) (rest : bytes) (sequence : Z) : Direction :=
  {| dr_seed := dr_seed d; dr_conditions := dr_conditions d; dr_buffered := rest;
     dr_sequence := sequence; dr_phase := dr_phase d; dr_taken := dr_taken d; dr_given := dr_given d;
     dr_fates := dr_fates d |}.
Definition take_bytes (d : Direction) (bs : bytes) : Direction :=
  {| dr_seed := dr_seed d; dr_conditions := dr_conditions d; dr_buffered := dr_buffered d ++ bs;
     dr_sequence := dr_sequence d; dr_phase := dr_phase d; dr_taken := dr_taken d ++ bs;
     dr_given := dr_given d; dr_fates := dr_fates d |}.
Definition give_bytes (d : Direction) (bs : bytes) : Direction :=
  {| dr_seed := dr_seed d; dr_conditions := dr_conditions d; dr_buffered := dr_buffered d;
     dr_sequence := dr_sequence d; dr_phase := dr_phase d; dr_taken := dr_taken d;
     dr_given := dr_given d ++ bs; dr_fates := dr_fates d |}.
Definition note_fate (d : Direction) (f : WireFrame) (passed : bool) : Direction :=
  {| dr_seed := dr_seed d; dr_conditions := dr_conditions d; dr_buffered := dr_buffered d;
     dr_sequence := dr_sequence d; dr_phase := dr_phase d; dr_taken := dr_taken d;
     dr_given := dr_given d; dr_fates := dr_fates d ++ [(f, passed)] |}.

(** After the delay: the frame is dropped, or handed to the writer. *)
Definition judge (d : Direction) (f : WireFrame) (encoded : bytes) (current : ConditionsRequest) :
  Direction * bool :=
  if lost (dr_seed d) (dr_sequence d) current then (note_fate d f false, false)
  else (set_phase (note_fate d f true) (DpWrite f encoded), true).

(** The inner loop, until it awaits. *)
Definition scan_step (d : Direction) : Direction + option Direction :=
  match frame_decode (dr_buffered d) with
  | None => inr None
  | Some (Err _, _) => inr (Some (set_phase d DpReturned))
  | Some (Ok None, _) => inr (Some (set_phase d DpRead))
  | Some (Ok (Some frame), rest) =>
      match frame_encode frame with
      | Err _ => inr (Some (set_phase (set_decoded d rest (dr_sequence d)) DpReturned))
      | Ok encoded =>
          let d := set_decoded d rest (wrap 64 (dr_sequence d + 1)) in
          if decide (frame_type frame = LinkHello) then
            inr (Some (set_phase (note_fate d frame true) (DpWrite frame encoded)))
          else
            let current := dr_conditions d in
            if 0 <? delay_ms (zlen encoded) current then
              inr (Some (set_phase d (DpSleep frame encoded current)))
            else
              let '(d, passed) := judge d frame encoded current in
              if passed then inr (Some d) else inl d
      end
  end.
(** Every frame takes bytes off the buffer. *)
Definition scan (d : Direction) : option Direction :=
  mjoin (run_loop scan_step (Pos.of_succ_nat (length (dr_buffered d))) d).

Definition forward_frames (conditions : ConditionsRequest) (seed : Z) : option Direction :=
  scan {| dr_seed := seed; dr_conditions := conditions; dr_buffered := []; dr_sequence := 0;
          dr_phase := DpRead; dr_taken := []; dr_given := []; dr_fates := [] |}.

(** What completes: a read (nothing at the end of the stream), the delay, the
    write, a write that fails after [n] bytes, the shutdown, when [n] bytes of
    a write are gone; and new conditions arrive. *)
Inductive DirectionInput :=
| DiRead (r : result bytes rstring)
| DiSlept
| DiWritten
| DiWriteFailed (n : nat)
| DiShutdown (n : nat)
| DiConditions (c : ConditionsRequest).

Definition returned (d : Direction) : Direction := set_phase d DpReturned.
Definition cut_write (d : Direction) (n : nat) : Direction :=
  match dr_phase d with
  | DpWrite _ encoded => returned (give_bytes d (take (Nat.min n (length encoded - 1)) encoded))
  | _ => returned d
  end.
Definition direction_step (d : Direction) (i : DirectionInput) : option Direction :=
  match i, dr_phase d with
  | DiConditions c, _ => Some (set_conditions d c)
  | DiRead (Ok []), DpRead | DiRead (Err _), DpRead => Some (returned d)
  | DiRead (Ok bs), DpRead => scan (take_bytes d bs)
  | DiSlept, DpSleep f encoded current =>
      let '(d, passed) := judge d f encoded current in
      if passed then Some d else scan d
  | DiWritten, DpWrite _ encoded => scan (give_bytes d encoded)
  | DiWriteFailed n, DpWrite _ _ => Some (cut_write d n)
  | DiShutdown n, DpSleep _ _ _ | DiShutdown n, DpWrite _ _ | DiShutdown n, DpRead => Some (cut_write d n)
  | _, _ => None
  end.
Fixpoint direction_run (d : Direction) (l : list DirectionInput) : option Direction :=
  match l with [] => Some d | i :: l => d ← direction_step d i; direction_run d l end.

(** ** Both directions *)

Inductive ProxyPhase :=
| PpAccept
| PpConnect
| PpRunning (down up : Direction)
| PpStopped (directions : option (Direction * Direction)).
(** [run_link_proxy] with its arguments; the channel of conditions is shared. *)
Record LinkProxy := { px_seed : Z; px_conditions : ConditionsRequest; px_phase : ProxyPhase }.
Definition start_link_proxy (conditions : ConditionsRequest) (seed : Z) : LinkProxy :=
  {| px_seed := seed; px_conditions := conditions; px_phase := PpAccept |}.

(** What completes: the accepted and the opened connection, a step of a
    direction, new conditions, the shutdown before both connections are there,
    and the end of the other direction when one has returned ([abort_all],
    [n] bytes of a write being gone). *)
Inductive ProxyInput :=
| PxAccepted (ok : bool)
| PxConnected (ok : bool)
| PxDown (i : DirectionInput)
| PxUp (i : DirectionInput)
| PxConditions (c : ConditionsRequest)
| PxShutdown
| PxAbort (n : nat).

Definition px_go (p : LinkProxy) (ph : ProxyPhase) : LinkProxy :=
  {| px_seed := px_seed p; px_conditions := px_conditions p; px_phase := ph |}.
(** The directions see the new conditions when they borrow them next. *)
Definition px_replace (p : LinkProxy) (c : ConditionsRequest) : LinkProxy :=
  {| px_seed := px_seed p; px_conditions := c;
     px_phase := match px_phase p with
                 | PpRunning d u => PpRunning (set_conditions d c) (set_conditions u c)
                 | ph => ph
                 end |}.
Definition is_conditions (i : DirectionInput) : bool :=
  match i with DiConditions _ => true | _ => false end.
Definition has_returned (d : Direction) : bool :=
  match dr_phase d with DpReturned => true | _ => false end.
Definition proxy_step (p : LinkProxy) (i : ProxyInput) : option LinkProxy :=
  match i, px_phase p with
  | PxConditions c, _ => Some (px_replace p c)
  | PxAccepted ok, PpAccept => Some (px_go p (if ok then PpConnect else PpStopped None))
  | PxConnected ok, PpConnect =>
      if ok then
        d ← forward_frames (px_conditions p) (wrap 64 (px_seed p * 2));
        u ← forward_frames (px_conditions p) (wrap 64 (wrap 64 (px_seed p * 2) + 1));
        Some (px_go p (PpRunning d u))
      else Some (px_go p (PpStopped None))
  | PxShutdown, PpAccept | PxShutdown, PpConnect => Some (px_go p (PpStopped None))
  | PxDown i, PpRunning d u =>
      if is_conditions i then None else d ← direction_step d i; Some (px_go p (PpRunning d u))
  | PxUp i, PpRunning d u =>
      if is_conditions i then None else u ← direction_step u i; Some (px_go p (PpRunning d u))
  | PxAbort n, PpRunning d u =>
      if has_returned d then Some (px_go p (PpStopped (Some (d, cut_write u n))))
      else if has_returned u then Some (px_go p (PpStopped (Some (cut_write d n, u))))
      else None
  | _, _ => None
  end.
Fixpoint proxy_run (p : LinkProxy) (l : list ProxyInput) : option LinkProxy :=
  match l with [] => Some p | i :: l => p ← proxy_step p i; proxy_run p l end.
