(* ===== verification/LabProxyProps.v ===== *)
(** * Theorems about the link proxy of the laboratory (bins/mblab) *)

From Stdlib Require Import Strings.Byte Floats.SpecFloat.
From S2P Require Export Prelude Bytes Types Wire WireFrames LabProxy.
Open Scope Z_scope.

(** ** Loss *)

Lemma lost_none seed sequence c : loss_percent c = S754_zero false → lost seed sequence c = false.
Proof.
  intros Hc. unfold lost, loss_per_million. rewrite Hc. apply Z.ltb_ge.
  change (Z.min _ _) with 0. apply Z.mod_pos_bound. lia.
Qed.
Lemma lost_all seed sequence c : loss_percent c = f64_of_pos 100 → lost seed sequence c = true.
Proof.
  intros Hc. unfold lost, loss_per_million. rewrite Hc. apply Z.ltb_lt.
  replace (Z.min _ _) with 1000000 by (vm_compute; reflexivity). apply Z.mod_pos_bound. lia.
Qed.

(** ** The bytes of frames *)

Definition frame_bytes (f : WireFrame) : bytes := frame_header f ++ frame_payload f.
Definition frames_bytes (l : list WireFrame) : bytes := l ≫= frame_bytes.
Definition passed (l : list (WireFrame * bool)) : list WireFrame := (filter (λ x, x.2 = true) l).*1.

#[global] Arguments frame_bytes : simpl never.
#[global] Arguments frames_bytes : simpl never.
#[global] Arguments passed : simpl never.

Lemma frames_bytes_snoc l f : frames_bytes (l ++ [f]) = frames_bytes l ++ frame_bytes f.
Proof. unfold frames_bytes. rewrite bind_app. cbn. by rewrite app_nil_r. Qed.
Lemma fates_bytes_snoc (l : list (WireFrame * bool)) f b :
  frames_bytes (l ++ [(f, b)]).*1 = frames_bytes l.*1 ++ frame_bytes f.
Proof. rewrite fmap_app. apply frames_bytes_snoc. Qed.
Lemma passed_snoc l f b : passed (l ++ [(f, b)]) = passed l ++ (if b then [f] else []).
Proof. unfold passed. rewrite filter_app, fmap_app. by destruct b. Qed.

(** The bytes of the frame that is waiting, and those still to be written. *)
Definition held (p : DirectionPhase) : bytes := match p with DpSleep f _ _ => frame_bytes f | _ => [] end.
Definition unwritten (p : DirectionPhase) : bytes := match p with DpWrite f _ => frame_bytes f | _ => [] end.
Definition phase_ok (p : DirectionPhase) : Prop :=
  match p with
  | DpSleep f e _ => frame_encode f = Ok e ∧ frame_type f ≠ LinkHello
  | DpWrite f e => frame_encode f = Ok e
  | _ => True
  end.
(** The frames the direction has taken up. *)
Definition taken_up (d : Direction) : Z :=
  zlen (dr_fates d) + match dr_phase d with DpSleep _ _ _ => 1 | _ => 0 end.

(** Frame [k] of the direction, when it was taken up under the conditions
    given by [At], was treated as it had to be. *)
Definition judged (seed : Z) (At : nat → ConditionsRequest → Prop) (fates : list (WireFrame * bool)) : Prop :=
  ∀ k f p, fates !! k = Some (f, p) →
    if decide (frame_type f = LinkHello) then p = true
    else ∃ c, At k c ∧ p = negb (lost seed (wrap 64 (Z.of_nat k + 1)) c).
(** What holds while the direction runs: [now] are the present conditions, and
    [At k] those under which frame [k] was taken up. *)
Record copying (seed : Z) (At : nat → ConditionsRequest → Prop) (now : ConditionsRequest) (d : Direction) : Prop := {
  co_taken : dr_taken d = frames_bytes (dr_fates d).*1 ++ held (dr_phase d) ++ dr_buffered d;
  co_given : frames_bytes (passed (dr_fates d)) = dr_given d ++ unwritten (dr_phase d);
  co_phase : phase_ok (dr_phase d);
  co_sequence : dr_sequence d = wrap 64 (taken_up d);
  co_seed : dr_seed d = seed;
  co_conditions : dr_conditions d = now;
  co_current f e c : dr_phase d = DpSleep f e c → At (length (dr_fates d)) c;
  co_fates : judged seed At (dr_fates d);
}.
(** What is left of it after the direction has returned. *)
Record copied (seed : Z) (At : nat → ConditionsRequest → Prop) (now : ConditionsRequest) (d : Direction) : Prop := {
  cd_taken : frames_bytes (dr_fates d).*1 `prefix_of` dr_taken d;
  cd_given : dr_given d `prefix_of` frames_bytes (passed (dr_fates d));
  cd_seed : dr_seed d = seed;
  cd_conditions : dr_conditions d = now;
  cd_fates : judged seed At (dr_fates d);
}.
(** Where a step of the machine ends up. *)
Definition settles (seed : Z) (At : nat → ConditionsRequest → Prop) (now : ConditionsRequest) (d : Direction) : Prop :=
  copying seed At now d ∨ dr_phase d = DpReturned ∧ copied seed At now d.

Lemma copying_copied seed At now d : copying seed At now d → copied seed At now d.
Proof.
  intros [Ht Hg _ _ Hsd Hc _ Hf]. constructor; [|by exists (unwritten (dr_phase d))|done..].
  rewrite Ht. by eexists.
Qed.
Lemma settles_copied seed At now d : settles seed At now d → copied seed At now d.
Proof. by intros [?%copying_copied|[_ ?]]. Qed.
Lemma judged_weaken seed (At At' : nat → ConditionsRequest → Prop) fates :
  (∀ k c, (k < length fates)%nat → At k c → At' k c) → judged seed At fates → judged seed At' fates.
Proof.
  intros Hsub Hf k f p Hk. specialize (Hf k f p Hk). case_decide; [done|]. destruct Hf as (c & ? & ?).
  exists c. split; [|done]. apply Hsub; [|done]. by eapply lookup_lt_Some.
Qed.
Lemma settles_weaken seed (At At' : nat → ConditionsRequest → Prop) now d :
  (∀ k c, Z.of_nat k < taken_up d → At k c → At' k c) → settles seed At now d → settles seed At' now d.
Proof.
  intros Hsub. assert (Hf : judged seed At (dr_fates d) → judged seed At' (dr_fates d)).
  { apply judged_weaken. intros k c Hk. apply Hsub. unfold taken_up, zlen. destruct (dr_phase d); lia. }
  intros [[]|[Hp []]]; [left|right; split; [done|]]; constructor; auto.
  intros f e c Hp. apply Hsub; [|eauto]. unfold taken_up. rewrite Hp. unfold zlen. lia.
Qed.
Lemma encode_frame_bytes f e : frame_encode f = Ok e → e = frame_bytes f.
Proof. by intros [-> _]%frame_encode_Ok. Qed.

(** ** One frame *)

Section Frame.
Context (seed : Z) (At : nat → ConditionsRequest → Prop) (now : ConditionsRequest).

(** At the head of the inner loop, when what it takes up, from the frame
    [first] on, is taken up under the present conditions. *)
Context (first : Z) (Hnow : ∀ k, first ≤ Z.of_nat k → At k now).
Definition scanning (d : Direction) : Prop :=
  copying seed At now (set_phase d DpRead) ∧ first ≤ zlen (dr_fates d).

Lemma fates_snoc (l : list (WireFrame * bool)) f b k g p :
  (l ++ [(f, b)]) !! k = Some (g, p) → l !! k = Some (g, p) ∨ k = length l ∧ g = f ∧ p = b.
Proof.
  intros [H|[Hge H]]%lookup_app_Some; [by left|]. apply list_lookup_singleton_Some in H as [? [= <- <-]].
  right. split; [lia|done].
Qed.
Lemma judge_ok d f e c d' b :
  copying seed At now (set_phase d (DpSleep f e c)) → judge d f e c = (d', b) →
  copying seed At now (if b then d' else set_phase d' DpRead) ∧ dr_buffered d' = dr_buffered d ∧
  zlen (dr_fates d') = zlen (dr_fates d) + 1.
Proof.
  intros [Ht Hg [He Hh] Hs Hsd Hc Hcur Hf] E. cbn in *.
  assert (Hlen : ∀ b : bool, zlen (dr_fates d ++ [(f, b)]) = zlen (dr_fates d) + 1) by (intros; by rewrite zlen_app).
  assert (Hnew : ∀ b, b = negb (lost (dr_seed d) (dr_sequence d) c) → judged seed At (dr_fates d ++ [(f, b)])).
  { intros b' Hb k g p [Hk|(-> & -> & ->)]%fates_snoc; [by apply (Hf k)|]. rewrite decide_False by done.
    exists c. split; [by eapply Hcur|]. by rewrite Hb, Hs, Hsd. }
  unfold judge in E. destruct (lost (dr_seed d) (dr_sequence d) c) eqn:El; injection E as <- <-;
    (split; [|split; [done|apply Hlen]]); constructor; cbn; try done.
  - by rewrite fates_bytes_snoc, Ht, <-app_assoc.
  - by rewrite passed_snoc, app_nil_r, Hg.
  - rewrite Hs. unfold taken_up. cbn [dr_fates dr_phase set_phase note_fate]. f_equal. rewrite Hlen. lia.
  - by apply (Hnew false).
  - by rewrite fates_bytes_snoc, Ht, <-app_assoc.
  - by rewrite passed_snoc, frames_bytes_snoc, Hg, app_nil_r.
  - rewrite Hs. unfold taken_up. cbn [dr_fates dr_phase set_phase note_fate]. f_equal. rewrite Hlen. lia.
  - by apply (Hnew true).
Qed.
Lemma wrap_count d n : dr_sequence d = wrap 64 n → wrap 64 (dr_sequence d + 1) = wrap 64 (n + 1).
Proof. intros ->. unfold wrap. by rewrite Zplus_mod_idemp_l. Qed.
Lemma decoded_ok d f e rest :
  scanning d → dr_buffered d = frame_bytes f ++ rest → frame_encode f = Ok e → frame_type f ≠ LinkHello →
  copying seed At now
    (set_phase (set_decoded d rest (wrap 64 (dr_sequence d + 1))) (DpSleep f e (dr_conditions d))).
Proof.
  intros [[Ht Hg _ Hs Hsd Hc _ Hf] Hn] Hb He Hh. cbn in *. constructor; cbn; try done.
  - by rewrite Ht, Hb.
  - rewrite (wrap_count d _ Hs). unfold taken_up. cbn. f_equal. lia.
  - intros ??? [= <- <- <-]. rewrite Hc. by apply Hnow.
Qed.
Lemma hello_ok d f e rest :
  scanning d → dr_buffered d = frame_bytes f ++ rest → frame_encode f = Ok e → frame_type f = LinkHello →
  copying seed At now
    (set_phase (note_fate (set_decoded d rest (wrap 64 (dr_sequence d + 1))) f true) (DpWrite f e)).
Proof.
  intros [[Ht Hg _ Hs Hsd Hc _ Hf] Hn] Hb He Hh. cbn in *. constructor; cbn; try done.
  - by rewrite fates_bytes_snoc, Ht, Hb, <-app_assoc.
  - by rewrite passed_snoc, frames_bytes_snoc, Hg, app_nil_r.
  - rewrite (wrap_count d _ Hs). unfold taken_up. cbn [dr_fates dr_phase set_phase note_fate set_decoded]. f_equal. rewrite zlen_app. change (zlen [_]) with 1. lia.
  - intros k g p [Hk|(-> & -> & ->)]%fates_snoc; [by apply (Hf k)|]. by rewrite decide_True.
Qed.
Lemma decoded_bytes src f rest :
  frame_decode src = Some (Ok (Some f), rest) →
  src = frame_bytes f ++ rest ∧ frame_encode f = Ok (frame_bytes f).
Proof.
  intros [-> Hl]%frame_decode_Some. split; [by unfold frame_bytes; rewrite <-app_assoc|].
  by apply frame_encode_Ok.
Qed.

(** ** The inner loop *)

Lemma returned_ok d : copying seed At now d → settles seed At now (returned d).
Proof. intros []%copying_copied. right. split; [done|]. by constructor. Qed.

Lemma scan_step_ok d :
  scanning d →
  match scan_step d with
  | inl d' => scanning d' ∧ (length (dr_buffered d') < length (dr_buffered d))%nat
  | inr r => ∃ d', r = Some d' ∧ settles seed At now d'
  end.
Proof.
  intros Hd. unfold scan_step. destruct (frame_decode_is_Some (dr_buffered d)) as (r & rest & E & _).
  rewrite E. destruct r as [[f|]|x].
  - destruct (decoded_bytes _ _ _ E) as [Hb He]. rewrite He. destruct (decide (frame_type f = LinkHello)) as [Hh|Hh].
    { eexists. split; [done|]. left. by apply hello_ok. }
    pose proof (decoded_ok d f _ rest Hd Hb He Hh) as Hc.
    destruct (0 <? delay_ms _ _); [eexists; split; [done|by left]|].
    change (dr_conditions (set_decoded _ _ _)) with (dr_conditions d).
    destruct (judge (set_decoded d rest (wrap 64 (dr_sequence d + 1))) f (frame_bytes f) (dr_conditions d))
      as [d' b] eqn:Ej. destruct (judge_ok _ f _ _ d' b Hc Ej) as (Hd' & Hb' & Hl'). destruct b; [eexists; split; [done|by left]|].
    split; [split; [done|rewrite Hl'; destruct Hd; cbn; lia]|]. rewrite Hb', Hb. cbn [dr_buffered set_decoded]. rewrite length_app.
    change (length (frame_bytes f)) with (S (S (7 + length (frame_payload f)))%nat - 1)%nat. lia.
  - eexists. split; [done|]. left. apply Hd.
  - eexists. split; [done|]. apply (returned_ok (set_phase d DpRead)), Hd.
Qed.
Lemma scan_total d : scanning d → ∃ d', scan d = Some d' ∧ settles seed At now d'.
Proof.
  intros Hd. destruct (run_loop_total scan_step scanning (λ r, ∃ d', r = Some d' ∧ settles seed At now d')
    (λ d, Z.of_nat (length (dr_buffered d))) (Pos.of_succ_nat (length (dr_buffered d))) d) as (r & E & d' & -> & Hs).
  - done.
  - lia.
  - intros s s' Hs E. pose proof (scan_step_ok s Hs) as H. rewrite E in H. destruct H. split; [done|lia].
  - intros s r Hs E. pose proof (scan_step_ok s Hs) as H. by rewrite E in H.
  - lia.
  - exists d'. unfold scan. by rewrite E.
Qed.
End Frame.

(** ** Steps *)

Definition conditions_of (i : DirectionInput) : list ConditionsRequest :=
  match i with DiConditions c => [c] | _ => [] end.
(** What the machine is waiting for. *)
Definition awaits (d : Direction) (i : DirectionInput) : bool :=
  match i, dr_phase d with
  | DiConditions _, _ | DiRead _, DpRead | DiSlept, DpSleep _ _ _
  | DiWritten, DpWrite _ _ | DiWriteFailed _, DpWrite _ _ => true
  | DiShutdown _, DpReturned => false
  | DiShutdown _, _ => true
  | _, _ => false
  end.

(** The conditions in force after the inputs [l], when [c] were at the start:
    the latest that arrived. *)
Definition in_force (c : ConditionsRequest) (l : list DirectionInput) : ConditionsRequest :=
  default c (last (l ≫= conditions_of)).
Lemma in_force_snoc c l i : in_force c (l ++ [i]) = in_force (in_force c l) [i].
Proof.
  unfold in_force. rewrite bind_app. cbn. rewrite app_nil_r.
  destruct i; cbn [conditions_of]; rewrite ?app_nil_r; [done..|by rewrite last_snoc].
Qed.

Lemma settles_conditions seed At now d c : settles seed At now d → settles seed At c (set_conditions d c).
Proof. intros [[]|[Hp []]]; [left|right; split; [done|]]; by constructor. Qed.
Lemma cut_write_ok seed At now d n :
  copying seed At now d → settles seed At now (cut_write d n).
Proof.
  intros Hd. unfold cut_write. destruct (dr_phase d) as [f e c|f e| |] eqn:Ep.
  1, 3, 4: by apply returned_ok.
  right. split; [done|]. destruct Hd as [Ht Hg Hp _ Hsd Hc _ Hfa]. rewrite Ep in Ht, Hg, Hp.
  cbn in Hp. pose proof (encode_frame_bytes _ _ Hp) as He. constructor; cbn; [|rewrite Hg, He|done..].
  - rewrite Ht. by eexists.
  - apply prefix_app. cbn [unwritten]. apply prefix_take.
Qed.
(** A step takes up frames under the conditions present when it starts. *)
Lemma direction_step_ok seed At now d i :
  settles seed At now d → (∀ k, taken_up d ≤ Z.of_nat k → At k now) → awaits d i = true →
  ∃ d', direction_step d i = Some d' ∧ settles seed At (in_force now [i]) d'.
Proof.
  intros Hd Hnow Ha. destruct i as [r| | |n|n|c]; unfold in_force; cbn [mbind list_bind conditions_of app last default].
  6: { eexists. split; [done|]. by eapply settles_conditions. }
  all: change (default now None) with now.
  all: assert (Hc : copying seed At now d) by (destruct Hd as [?|[Hp _]]; [done|]; unfold awaits in Ha; by rewrite Hp in Ha).
  all: unfold awaits in Ha; unfold direction_step.
  - destruct (dr_phase d) eqn:Ep; try done. destruct r as [[|b bs]|x].
    1, 3: eexists; split; [done|by apply returned_ok].
    apply (scan_total seed At now (taken_up d) Hnow). unfold taken_up. rewrite Ep.
    destruct Hc as [Ht Hg Hp Hs Hsd Hcc Hcur Hfa]. rewrite Ep in *. split; [|cbn; lia].
    constructor; cbn; try done; [by cbn in Ht; rewrite Ht, <-app_assoc|].
    rewrite Hs. unfold taken_up. by rewrite Ep.
  - destruct (dr_phase d) as [f e c| | |] eqn:Ep; try done.
    destruct (judge d f e c) as [d' b] eqn:Ej.
    assert (copying seed At now (set_phase d (DpSleep f e c))) as Hs by (by rewrite <-Ep; destruct d).
    destruct (judge_ok seed At now d f e c d' b Hs Ej) as (Hd' & _ & Hl).
    destruct b; [eexists; split; [done|by left]|]. apply (scan_total seed At now (taken_up d) Hnow).
    split; [done|]. unfold taken_up. rewrite Ep. lia.
  - destruct (dr_phase d) as [|f e| |] eqn:Ep; try done. apply (scan_total seed At now (taken_up d) Hnow).
    unfold taken_up. rewrite Ep.
    destruct Hc as [Ht Hg Hp Hs Hsd Hcc Hcur Hfa]. rewrite Ep in *. cbn in Hp. split; [|cbn; lia].
    constructor; cbn; try done.
    + by rewrite app_nil_r, Hg, (encode_frame_bytes _ _ Hp).
    + rewrite Hs. unfold taken_up. by rewrite Ep.
  - destruct (dr_phase d) eqn:Ep; try done. eexists. split; [done|]. by apply cut_write_ok.
  - destruct (dr_phase d) eqn:Ep; try done; (eexists; split; [done|by apply cut_write_ok]).
Qed.
Lemma direction_step_awaits d i d' : direction_step d i = Some d' → awaits d i = true.
Proof. unfold direction_step, awaits. destruct i as [[[]|]| | | | |], (dr_phase d); done. Qed.

(** ** Runs *)

Lemma direction_run_app d l l' : direction_run d (l ++ l') = d1 ← direction_run d l; direction_run d1 l'.
Proof. revert d. induction l as [|i l IH]; intros d; cbn; [done|]. destruct (direction_step d i); cbn; auto. Qed.
Lemma direction_run_snoc d l i d2 :
  direction_run d (l ++ [i]) = Some d2 ↔ ∃ d1, direction_run d l = Some d1 ∧ direction_step d1 i = Some d2.
Proof.
  rewrite direction_run_app, bind_Some. cbn. split; intros (d1 & E1 & E2); exists d1; (split; [done|]).
  - by apply bind_Some in E2 as (? & ? & [= <-]).
  - by rewrite E2.
Qed.

(** The conditions [cur] were in force when the [k]-th frame (from zero, hellos
    counted) was taken up: at one of the inputs [l], which took the number of
    frames taken up past [k], and before which [cur] were the latest. *)
Definition taken_under (c : ConditionsRequest) (d0 : Direction) (l : list DirectionInput)
    (k : nat) (cur : ConditionsRequest) : Prop :=
  ∃ before i after d1 d2, l = before ++ i :: after ∧
    direction_run d0 before = Some d1 ∧ direction_step d1 i = Some d2 ∧
    taken_up d1 ≤ Z.of_nat k < taken_up d2 ∧ cur = in_force c before.
Lemma taken_under_snoc c d0 l i k cur : taken_under c d0 l k cur → taken_under c d0 (l ++ [i]) k cur.
Proof.
  intros (before & j & after & d1 & d2 & -> & H). exists before, j, (after ++ [i]), d1, d2.
  split; [|done]. by rewrite <-app_assoc.
Qed.

Lemma forward_frames_start c seed :
  forward_frames c seed =
  Some {| dr_seed := seed; dr_conditions := c; dr_buffered := []; dr_sequence := 0;
          dr_phase := DpRead; dr_taken := []; dr_given := []; dr_fates := [] |}.
Proof. reflexivity. Qed.
Lemma direction_run_ok c seed d0 l d :
  forward_frames c seed = Some d0 → direction_run d0 l = Some d →
  settles seed (taken_under c d0 l) (in_force c l) d.
Proof.
  intros E0. revert d. induction l as [|i l IH] using rev_ind; intros d.
  - rewrite forward_frames_start in E0. injection E0 as <-. intros [= <-]. left. by constructor.
  - intros (d1 & E1 & E2)%direction_run_snoc. specialize (IH d1 E1). rewrite in_force_snoc.
    destruct (direction_step_ok seed
      (λ k cur, taken_under c d0 l k cur ∨ taken_up d1 ≤ Z.of_nat k ∧ cur = in_force c l)
      (in_force c l) d1 i) as (d2 & E & Hs).
    + eapply settles_weaken; [|exact IH]. by left.
    + intros k Hk. by right.
    + by eapply direction_step_awaits.
    + rewrite E2 in E. injection E as <-. eapply settles_weaken; [|exact Hs].
      intros k cur Hk [H|[Hge ->]]; [by apply taken_under_snoc|].
      exists l, i, [], d1, d. split_and!; [done..|lia|done|done].
Qed.
Lemma in_force_seen c l : in_force c l ∈ c :: (l ≫= conditions_of).
Proof.
  unfold in_force. destruct (last _) as [x|] eqn:E; [|by left]. right. cbn.
  apply last_Some in E as [k ->]. apply elem_of_app. right. by left.
Qed.
Lemma taken_under_seen c d0 l k cur : taken_under c d0 l k cur → cur ∈ c :: (l ≫= conditions_of).
Proof.
  intros (before & i & after & d1 & d2 & -> & _ & _ & _ & ->). rewrite bind_app.
  pose proof (in_force_seen c before) as [H|H]%elem_of_cons; [rewrite H; by left|]. right.
  apply elem_of_app. by left.
Qed.

(** ** The proxy *)

(** All frames pass when nothing is to be lost, and only hellos when
    everything is. *)
Lemma passed_all l : (∀ k f (p : bool), l !! k = Some (f, p) → p = true) → passed l = l.*1.
Proof.
  intros H. unfold passed. f_equal. induction l as [|[f p] l IH]; [done|].
  rewrite filter_cons, decide_True by (by apply (H 0%nat f p)). f_equal. apply IH. intros k g q Hk.
  by apply (H (S k) g q).
Qed.
Lemma passed_hellos l :
  (∀ k f (p : bool), l !! k = Some (f, p) → p = bool_decide (frame_type f = LinkHello)) →
  passed l = filter (λ f, frame_type f = LinkHello) l.*1.
Proof.
  intros H. unfold passed. induction l as [|[f p] l IH]; [done|].
  pose proof (H 0%nat f p eq_refl) as Hp. rewrite filter_cons, fmap_cons, filter_cons.
  specialize (IH (λ k g q Hk, H (S k) g q Hk)). cbn [fst snd].
  destruct (decide (frame_type f = LinkHello)) as [Hf|Hf].
  - rewrite bool_decide_eq_true_2 in Hp by done. rewrite decide_True by done. by rewrite fmap_cons, IH.
  - rewrite bool_decide_eq_false_2 in Hp by done. rewrite decide_False by (by rewrite Hp). done.
Qed.

(** The inputs of a proxy as those of its directions. *)
Definition down_input (i : ProxyInput) : list DirectionInput :=
  match i with PxDown i => [i] | PxConditions c => [DiConditions c] | _ => [] end.
Definition up_input (i : ProxyInput) : list DirectionInput :=
  match i with PxUp i => [i] | PxConditions c => [DiConditions c] | _ => [] end.
Definition ran (c : ConditionsRequest) (seed : Z) (l : list DirectionInput) (d : Direction) : Prop :=
  ∃ d0, forward_frames c seed = Some d0 ∧ direction_run d0 l = Some d.

Lemma ran_snoc c seed l d i d' : ran c seed l d → direction_step d i = Some d' → ran c seed (l ++ [i]) d'.
Proof. intros (d0 & E0 & E) Ei. exists d0. split; [done|]. apply direction_run_snoc. eauto. Qed.

(** What the phase of a proxy has to do with the inputs [l] it has had: a
    running one consists of two runs of [forward_frames], each of which got
    its own inputs and all the conditions since the connections were there. *)
Definition proxy_runs (c : ConditionsRequest) (seed : Z) (l : list ProxyInput) (p : LinkProxy) : Prop :=
  px_seed p = seed ∧ px_conditions p = in_force c (l ≫= down_input) ∧
  ∀ d u, px_phase p = PpRunning d u →
    ∃ l1 l2, l = l1 ++ PxConnected true :: l2 ∧
      ran (in_force c (l1 ≫= down_input)) (wrap 64 (seed * 2)) (l2 ≫= down_input) d ∧
      ran (in_force c (l1 ≫= down_input)) (wrap 64 (wrap 64 (seed * 2) + 1)) (l2 ≫= up_input) u.
Lemma in_force_quiet c l i : is_conditions i = false → in_force c (l ++ [i]) = in_force c l.
Proof. intros Hi. rewrite in_force_snoc. by destruct i. Qed.
Lemma bind_snoc {A B} (f : A → list B) l x : (l ++ [x]) ≫= f = (l ≫= f) ++ f x.
Proof. rewrite bind_app. cbn. by rewrite app_nil_r. Qed.
Lemma proxy_step_runs c seed l p i p' :
  proxy_runs c seed l p → proxy_step p i = Some p' → proxy_runs c seed (l ++ [i]) p'.
Proof.
  intros (Hseed & Hc & Hr) E. unfold proxy_runs. rewrite bind_snoc.
  destruct i as [ok|ok|i|i|c'| |n]; cbn [down_input]; rewrite ?app_nil_r.
  - unfold proxy_step in E. destruct (px_phase p); try done. injection E as <-. by destruct ok.
  - unfold proxy_step in E. destruct (px_phase p); try done. destruct ok; [|by injection E as <-].
    apply bind_Some in E as (d & Ed & (u & Eu & [= <-])%bind_Some). split; [done|]. split; [done|].
    intros ? ? [= <- <-]. rewrite Hc, Hseed in Ed, Eu.
    exists l, []. split; [done|]. split; [by exists d|by exists u].
  - unfold proxy_step in E. destruct (px_phase p) as [| |d u|] eqn:Ep; try done.
    destruct (is_conditions i) eqn:Ei; [done|]. apply bind_Some in E as (d' & Ed & [= <-]).
    rewrite in_force_quiet by done. split; [done|]. split; [done|]. intros ? ? [= <- <-].
    destruct (Hr d u eq_refl) as (l1 & l2 & -> & Hd & Hu). exists l1, (l2 ++ [PxDown i]).
    rewrite !bind_snoc. split; [by rewrite <-app_assoc|]. split; [by eapply ran_snoc|]. by rewrite app_nil_r.
  - unfold proxy_step in E. destruct (px_phase p) as [| |d u|] eqn:Ep; try done.
    destruct (is_conditions i) eqn:Ei; [done|]. apply bind_Some in E as (u' & Eu & [= <-]).
    split; [done|]. split; [done|]. intros ? ? [= <- <-].
    destruct (Hr d u eq_refl) as (l1 & l2 & -> & Hd & Hu). exists l1, (l2 ++ [PxUp i]).
    rewrite !bind_snoc. split; [by rewrite <-app_assoc|]. split; [by rewrite app_nil_r|by eapply ran_snoc].
  - injection E as <-. rewrite in_force_snoc. split; [done|]. split; [done|]. intros d u Ep. cbn in Ep.
    destruct (px_phase p) as [| |d0 u0|]; try done. injection Ep as <- <-.
    destruct (Hr d0 u0 eq_refl) as (l1 & l2 & -> & Hd & Hu). exists l1, (l2 ++ [PxConditions c']).
    rewrite !bind_snoc. split; [by rewrite <-app_assoc|]. split; by eapply ran_snoc.
  - unfold proxy_step in E. destruct (px_phase p); try done; by injection E as <-.
  - unfold proxy_step in E. destruct (px_phase p) as [| |d u|] eqn:Ep; try done.
    destruct (has_returned d); [|destruct (has_returned u); [|done]]; by injection E as <-.
Qed.
(** Both directions of a running proxy are runs of [forward_frames]. *)
Lemma proxy_run_runs c seed l p :
  proxy_run (start_link_proxy c seed) l = Some p → proxy_runs c seed l p.
Proof.
  assert (Hgen : ∀ l0 p0, proxy_runs c seed l0 p0 → proxy_run p0 l = Some p → proxy_runs c seed (l0 ++ l) p).
  { induction l as [|i l IH]; intros l0 p0 H0; cbn [proxy_run].
    - intros [= <-]. by rewrite app_nil_r.
    - intros (p1 & E1 & E)%bind_Some. specialize (IH _ _ (proxy_step_runs _ _ _ _ _ _ H0 E1) E).
      by rewrite <-app_assoc in IH. }
  by apply (Hgen []).
Qed.

(** C27: A direction of a link proxy copies frames. It is never stuck: whatever
    it waits for, when that completes it goes on to the next wait, the loop
    over its buffer ending. What it has read starts with the encodings of the
    frames it decided on, in order; what it has written is a beginning of the
    encodings of those it let pass, all of them when it waits for a read. A
    [LinkHello] always passes. Any other frame, say the [k]-th from zero of all
    the frames, hellos counted, passes exactly when the sample that [mix64]
    draws from the direction's seed and [k + 1] is not below the loss, in
    millionths, of the conditions in force when the frame was taken up: the
    latest that had arrived before the input at which the frame was taken up.
    So if no conditions so far have a loss everything passes, and if all have
    a loss of 100 percent nothing but the hellos. *)
Theorem proxy_copies_frames c seed d0 l d :
  forward_frames c seed = Some d0 → direction_run d0 l = Some d →
  (∀ i, is_Some (direction_step d i) ↔ awaits d i = true) ∧
  frames_bytes (dr_fates d).*1 `prefix_of` dr_taken d ∧
  dr_given d `prefix_of` frames_bytes (passed (dr_fates d)) ∧
  (dr_phase d = DpRead → dr_given d = frames_bytes (passed (dr_fates d)) ∧
     dr_taken d = frames_bytes (dr_fates d).*1 ++ dr_buffered d) ∧
  (∀ k f p, dr_fates d !! k = Some (f, p) →
     if decide (frame_type f = LinkHello) then p = true
     else ∃ before i after d1 d2, l = before ++ i :: after ∧
       direction_run d0 before = Some d1 ∧ direction_step d1 i = Some d2 ∧
       taken_up d1 ≤ Z.of_nat k < taken_up d2 ∧
       p = negb (mix64 (Z.lxor seed (wrap 64 (Z.of_nat k + 1))) mod 1000000 <?
                 Z.min (loss_per_million (in_force c before)) 1000000)) ∧
  ((∀ c', c' ∈ c :: (l ≫= conditions_of) → loss_percent c' = S754_zero false) →
     passed (dr_fates d) = (dr_fates d).*1) ∧
  ((∀ c', c' ∈ c :: (l ≫= conditions_of) → loss_percent c' = f64_of_pos 100) →
     passed (dr_fates d) = filter (λ f, frame_type f = LinkHello) (dr_fates d).*1).
Proof.
  intros E0 E. pose proof (direction_run_ok c seed d0 l d E0 E) as Hd.
  destruct (settles_copied _ _ _ _ Hd) as [Ht Hg _ _ Hf]. split_and!; try done.
  - intros i. split; [intros [d' Hi]; by eapply direction_step_awaits|]. intros Ha.
    destruct (direction_step_ok seed (λ _ _, True) (in_force c l) d i) as (d' & -> & _); [|done..].
    by eapply settles_weaken, Hd.
  - intros Hp. destruct Hd as [[Ht' Hg' _ _ _ _ _ _]|[? _]]; [|congruence]. rewrite Hp in Ht', Hg'.
    cbn in Ht', Hg'. by rewrite app_nil_r in Hg'.
  - intros k f p Hk. specialize (Hf k f p Hk). case_decide; [done|].
    destruct Hf as (cur & (before & i & after & d1 & d2 & H1 & H2 & H3 & H4 & ->) & ->). by eexists _, _, _, _, _.
  - intros Hz. apply passed_all. intros k f p Hk. specialize (Hf k f p Hk). case_decide; [done|].
    destruct Hf as (c' & Hc'%taken_under_seen & ->). by rewrite lost_none by auto.
  - intros Hz. apply passed_hellos. intros k f p Hk. specialize (Hf k f p Hk). case_decide as Hh.
    + by rewrite bool_decide_eq_true_2.
    + destruct Hf as (c' & Hc'%taken_under_seen & ->). rewrite lost_all by auto. by rewrite bool_decide_eq_false_2.
Qed.
