(* ===== verification/LabNode.v ===== *)
(** * A node of the laboratory (bins/mblab-node)

    The admin interface of one node: the 64-bit ids of the laboratory and the
    [NodeId]s of the mesh, the handlers, the log of forwarding outcomes, and
    the snapshot the laboratory reads.  The responses are sent as JSON and
    read back field by field: they are the records of [Lab].

    Parsing a socket address belongs to the standard library and is the
    parameter [parse_address]; clocks are arguments. *)

From Stdlib Require Import Strings.Byte Strings.String.
From S2P Require Export Prelude Ord Bytes Text SeqStore Types Proto Wire Transport PubSub Forward RuntimeCodec RuntimeLog ErrorText Lab ControlTypes Control Runtime.
Open Scope Z_scope.

(** ** Ids *)

Definition node_id (value : Z) : NodeId :=
  mk_node_id (replicate 24 x00 ++ be_bytes 8 value) eq_refl.
Definition numeric_id (value : NodeId) : Z := be_value (drop 24 (as_bytes value)).

(** ** Responses *)

Inductive StatusCode :=
| OK | ACCEPTED | NO_CONTENT | BAD_REQUEST | NOT_FOUND | SERVICE_UNAVAILABLE | GATEWAY_TIMEOUT
| INTERNAL_SERVER_ERROR | StOther (code : Z).
#[global] Instance StatusCode_eq_dec : EqDecision StatusCode.
Proof. solve_decision. Defined.
Definition is_success (c : StatusCode) : bool :=
  match c with
  | OK | ACCEPTED | NO_CONTENT => true
  | StOther z => (200 <=? z) && (z <? 300)
  | _ => false
  end.
Abbreviation ApiError := (StatusCode * bytes)%type (only parsing).

Definition bad_request (message : bytes) : ApiError := (BAD_REQUEST, message).
Definition internal_error (text : bytes) : ApiError := (INTERNAL_SERVER_ERROR, text).

(** ** Outcomes *)

(** [String::from_utf8_lossy]: every maximal prefix of a sequence that is not
    well formed becomes U+FFFD. *)
Definition REPLACEMENT : bytes := [xef; xbf; xbd].
Definition utf8_chunk (l : bytes) : bytes * bytes :=
  match l with
  | [] => ([], [])
  | a :: l1 =>
      if in_range 0 0x7F a then ([a], l1)
      else match l1 with
      | [] => (REPLACEMENT, [])
      | b :: l2 =>
          if in_range 0xC2 0xDF a then
            if utf8_tail b then ([a; b], l2) else (REPLACEMENT, l1)
          else if negb (in_range 0xE0 0xF4 a && utf8_second a b) then (REPLACEMENT, l1)
          else match l2 with
          | [] => (REPLACEMENT, [])
          | c :: l3 =>
              if negb (utf8_tail c) then (REPLACEMENT, l2)
              else if in_range 0xE0 0xEF a then ([a; b; c], l3)
              else match l3 with
              | [] => (REPLACEMENT, [])
              | d :: l4 => if utf8_tail d then ([a; b; c; d], l4) else (REPLACEMENT, l3)
              end
          end
      end
  end.
Fixpoint from_utf8_lossy_loop (fuel : nat) (l : bytes) : bytes :=
  match fuel, l with
  | O, _ | _, [] => []
  | S fuel, _ => let '(chunk, rest) := utf8_chunk l in chunk ++ from_utf8_lossy_loop fuel rest
  end.
(** Every chunk takes a byte. *)
Definition from_utf8_lossy (l : bytes) : bytes := from_utf8_lossy_loop (length l) l.

Definition packet_outcome (sequence at_ms : Z) (kind detail : bytes) (p : ForwardPacket) :
  OutcomeSnapshot :=
  {| os_sequence := sequence; os_at_ms := at_ms; os_kind := kind; os_detail := detail;
     os_source := numeric_id (source (header p));
     os_destination := Some (numeric_id (destination (header p)));
     os_priority := Priority_code (priority (header p)); os_flow_id := flow_id (header p);
     os_payload_bytes := Some (zlen (payload p));
     os_payload_preview := from_utf8_lossy (take (Z.to_nat (Z.min (zlen (payload p)) 96)) (payload p)) |}.
Definition outcome_response (sequence at_ms : Z) (o : ForwardOutcome) : OutcomeSnapshot :=
  match o with
  | FoDelivered p =>
      packet_outcome sequence at_ms (str "DELIVERED") (str "application delivery") p
  | FoDropped reason prio flow src =>
      {| os_sequence := sequence; os_at_ms := at_ms; os_kind := str "DROPPED";
         os_detail := DropReason_debug reason; os_source := numeric_id src; os_destination := None;
         os_priority := Priority_code prio; os_flow_id := flow; os_payload_bytes := None;
         os_payload_preview := [] |}
  | FoBackpressure link p =>
      packet_outcome sequence at_ms (str "BACKPRESSURE") (str "link " ++ decimal link) p
  end.

Definition OUTCOME_LIMIT : nat := 128.
(** The task that receives outcomes: its counter and the log it shares. *)
Record OutcomeLog := { ol_sequence : Z; ol_log : list OutcomeSnapshot }.
Definition OutcomeLog_new : OutcomeLog := {| ol_sequence := 0; ol_log := [] |}.
Definition record_outcome (s : OutcomeLog) (at_ms : Z) (o : ForwardOutcome) : OutcomeLog :=
  let sequence := wrap 64 (ol_sequence s + 1) in
  let entry := outcome_response sequence at_ms o in
  let log := if Nat.eqb (length (ol_log s)) OUTCOME_LIMIT then tail (ol_log s) else ol_log s in
  {| ol_sequence := sequence; ol_log := log ++ [entry] |}.
Definition record_outcomes : OutcomeLog → list (Z * ForwardOutcome) → OutcomeLog :=
  foldl (λ s x, record_outcome s x.1 x.2).

(** ** The snapshot *)

Definition peer_response (x : LinkId * NodeId) : PeerSnapshot :=
  {| pe_link_id := x.1; pe_peer := numeric_id x.2 |}.
Definition lsa_response (l : Lsa) : LsaSnapshot :=
  {| ls_origin := numeric_id (origin l); ls_epoch := epoch l; ls_sequence := seq_no l;
     ls_adjacencies := (λ a, numeric_id (adj_peer a)) <$> adjacencies l |}.
Definition route_response (x : NodeId * Route) : RouteSnapshot :=
  {| ro_destination := numeric_id x.1; ro_next_hop := next_hop x.2; ro_cost := route_cost x.2;
     ro_hops := hops x.2 |}.
Definition queue_response (x : LinkId * LinkQueueSnapshot) : QueueSnapshot :=
  {| qs_link_id := x.1; qs_packets := snap_counts x.2; qs_bytes := snap_queued_bytes x.2 |}.
Definition event_response (peers : gmap LinkId NodeId) (e : RuntimeEvent) : EventSnapshot :=
  {| es_sequence := ev_sequence e; es_at_ms := ev_at e; es_kind := ev_kind e; es_detail := ev_detail e;
     es_link_id := ev_link e; es_peer := numeric_id <$> (l ← ev_link e; peers !! l) |}.

(** The name, id and address of the node, with the time since it started. *)
Record AppState := { app_name : bytes; app_numeric_id : Z; app_mesh_addr : bytes }.
Definition snapshot_response (st : AppState) (now_ms : Z) (s : RuntimeSnapshot)
    (outcomes : list OutcomeSnapshot) : NodeSnapshot :=
  {| ns_id := app_numeric_id st; ns_name := app_name st; ns_mesh_addr := app_mesh_addr st;
     ns_now_ms := now_ms;
     ns_peers := peer_response <$> btree_iter (snap_peers s);
     ns_lsdb := lsa_response <$> snap_lsas s;
     ns_routes := route_response <$> RouteTable_iter (snap_routes s);
     ns_queues := queue_response <$> btree_iter (snap_queues s);
     ns_events := event_response (snap_peers s) <$> snap_events s;
     ns_outcomes := outcomes |}.

(** ** Handlers *)

Section Handlers.
Context {St : Type} (parse_address : bytes → result bytes bytes).
Abbreviation Runtime := (Runtime St).

Definition cost_error : ApiError := bad_request (str "link cost must be greater than zero").

Definition node_allow_peer (rt : Runtime) (ep : Endpoint) (peer cost : Z) :
  Runtime * Endpoint * result StatusCode ApiError :=
  match LinkCost_new cost with
  | Err _ => (rt, ep, Err cost_error)
  | Ok c => let '(rt, ep) := rt_allow_peer rt ep (node_id peer) c in (rt, ep, Ok NO_CONTENT)
  end.
(** The connection [rt_connect] starts; the id of its link is known when it
    is established. *)
Definition node_connect (rt : Runtime) (ep : Endpoint) (peer : Z) (address : bytes) (cost : Z) :
  Runtime * Endpoint * result unit ApiError :=
  match parse_address address with
  | Err e => (rt, ep, Err (bad_request (str "invalid peer address: " ++ e)))
  | Ok _ =>
      match LinkCost_new cost with
      | Err _ => (rt, ep, Err cost_error)
      | Ok c =>
          let '(rt, ep, r) := rt_connect rt ep (node_id peer) c in
          (rt, ep, map_err (λ e, internal_error (RuntimeError_display e)) r)
      end
  end.
Definition node_close_link (ep : Endpoint) (link : LinkId) :
  option (Endpoint * result StatusCode ApiError) :=
  '(ep, r) ← rt_close_link ep link;
  Some (ep, (_ ←? map_err (λ e, internal_error (RuntimeError_display e)) r; Ok NO_CONTENT)).
(** The input [send] puts into the channel of the runtime. *)
Definition node_send_packet (st : AppState) (open : bool) (dest prio flow : Z) (body : bytes) :
  result (RuntimeInput * StatusCode) ApiError :=
  pr ←? map_err (λ _, bad_request (str "priority must be between 0 and 3")) (Priority_try_from prio);
  let packet :=
    {| header := {| packet_type := Unicast; priority := pr; ttl := 32; flags := flags_empty;
                    destination := node_id dest; source := node_id (app_numeric_id st);
                    flow_id := flow; conflate_key := 0 |};
       multicast_destinations := []; payload := body |} in
  input ←? map_err (λ e, internal_error (RuntimeError_display e)) (rt_send open packet);
  Ok (input, ACCEPTED).
End Handlers.
