(* ===== verification/LabNodeProps.v ===== *)
(** * Theorems about a node of the laboratory (bins/mblab-node) *)

From Stdlib Require Import Strings.Byte Strings.String.
From S2P Require Export Prelude Ord Bytes Text SeqStore Types Proto Wire WirePackets Transport PubSub Forward RuntimeCodec RuntimeLog ErrorText Lab LabNode ControlTypes Control Runtime.
Open Scope Z_scope.

(** ** Ids *)

(** The ids of the laboratory's nodes. *)
Definition is_numeric (n : NodeId) : Prop := ∃ v, is_uint 64 v ∧ n = node_id v.

Lemma numeric_node_id v : is_uint 64 v → numeric_id (node_id v) = v.
Proof.
  intros Hv. unfold numeric_id, node_id. cbn [as_bytes].
  rewrite drop_app_exact by apply length_replicate. by apply be_value_be_bytes.
Qed.
Lemma numeric_id_range n : is_uint 64 (numeric_id n).
Proof.
  unfold numeric_id. pose proof (be_value_range (drop 24 (as_bytes n))) as H.
  rewrite length_drop, length_as_bytes in H. unfold is_uint. cbn in H. lia.
Qed.
Lemma is_numeric_node_id n : is_numeric n ↔ node_id (numeric_id n) = n.
Proof.
  split.
  - intros (v & Hv & ->). by rewrite numeric_node_id.
  - intros <-. eexists. split; [apply numeric_id_range|done].
Qed.
Lemma numeric_id_inj n m : is_numeric n → is_numeric m → numeric_id n = numeric_id m → n = m.
Proof. intros Hn%is_numeric_node_id Hm%is_numeric_node_id E. by rewrite <-Hn, <-Hm, E. Qed.
Lemma node_id_inj v w : is_uint 64 v → is_uint 64 w → node_id v = node_id w → v = w.
Proof. intros Hv Hw E. by rewrite <-(numeric_node_id v Hv), <-(numeric_node_id w Hw), E. Qed.

(** ** Previews *)

Lemma utf8_chunk_shorter l : l ≠ [] → (length (utf8_chunk l).2 < length l)%nat.
Proof.
  destruct l as [|a [|b [|c [|d l]]]]; [done|..]; intros _; unfold utf8_chunk; repeat case_match; cbn; lia.
Qed.
Lemma in_range_true lo hi b : in_range lo hi b = true ↔ lo ≤ Z_of_byte b ≤ hi.
Proof. unfold in_range. rewrite andb_true_iff, !Z.leb_le. lia. Qed.
Lemma in_range_apart lo hi lo' hi' b :
  in_range lo hi b = true → hi < lo' ∨ hi' < lo → in_range lo' hi' b = false.
Proof.
  intros H%in_range_true Hd. destruct (in_range lo' hi' b) eqn:E; [|done].
  apply in_range_true in E. lia.
Qed.
Lemma in_range_within lo hi lo' hi' b :
  in_range lo hi b = true → lo' ≤ lo → hi ≤ hi' → in_range lo' hi' b = true.
Proof. rewrite !in_range_true. lia. Qed.

(** A character: a sequence of bytes that is well formed. *)
Inductive utf8_char : bytes → Prop :=
| char1 a : in_range 0 0x7F a = true → utf8_char [a]
| char2 a b : in_range 0xC2 0xDF a = true → utf8_tail b = true → utf8_char [a; b]
| char3 a b c :
    in_range 0xE0 0xEF a = true → utf8_second a b = true → utf8_tail c = true → utf8_char [a; b; c]
| char4 a b c d :
    in_range 0xF0 0xF4 a = true → utf8_second a b = true → utf8_tail c = true → utf8_tail d = true →
    utf8_char [a; b; c; d].
Lemma replacement_char : utf8_char REPLACEMENT.
Proof. by apply char3. Qed.
Lemma utf8_valid_char x l : utf8_char x → utf8_valid (x ++ l) = utf8_valid l.
Proof.
  destruct 1 as [a Ha|a b Ha Hb|a b c Ha Hb Hc|a b c d Ha Hb Hc Hd]; cbn [app utf8_valid].
  - by rewrite Ha.
  - by rewrite (in_range_apart _ _ 0 0x7F _ Ha), Ha, Hb by lia.
  - by rewrite (in_range_apart _ _ 0 0x7F _ Ha), (in_range_apart _ _ 0xC2 0xDF _ Ha), Ha, Hb, Hc by lia.
  - by rewrite (in_range_apart _ _ 0 0x7F _ Ha), (in_range_apart _ _ 0xC2 0xDF _ Ha),
      (in_range_apart _ _ 0xE0 0xEF _ Ha), Ha, Hb, Hc, Hd by lia.
Qed.
Lemma utf8_valid_inv l : utf8_valid l = true → l = [] ∨ ∃ x r, l = x ++ r ∧ utf8_char x ∧ utf8_valid r = true.
Proof.
  destruct l as [|a l]; [by left|]. cbn [utf8_valid]. intros H. right.
  destruct (in_range 0 0x7F a) eqn:E1; [by exists [a], l; repeat constructor|].
  destruct l as [|b l]; [done|]. destruct (in_range 0xC2 0xDF a) eqn:E2.
  { apply andb_true_iff in H as [? ?]. exists [a; b], l. by repeat constructor. }
  destruct l as [|c l]; [done|]. destruct (in_range 0xE0 0xEF a) eqn:E3.
  { rewrite !andb_true_iff in H. destruct H as [[? ?] ?]. exists [a; b; c], l. by repeat constructor. }
  destruct l as [|d l]; [done|]. rewrite !andb_true_iff in H. destruct H as [[[[? ?] ?] ?] ?].
  exists [a; b; c; d], l. by repeat constructor.
Qed.
Lemma utf8_chunk_char x l : utf8_char x → utf8_chunk (x ++ l) = (x, l).
Proof.
  destruct 1 as [a Ha|a b Ha Hb|a b c Ha Hb Hc|a b c d Ha Hb Hc Hd]; cbn [app utf8_chunk].
  - by rewrite Ha.
  - by rewrite (in_range_apart _ _ 0 0x7F _ Ha), Ha, Hb by lia.
  - by rewrite (in_range_apart _ _ 0 0x7F _ Ha), (in_range_apart _ _ 0xC2 0xDF _ Ha),
      (in_range_within _ _ 0xE0 0xF4 _ Ha), Hb, Hc, Ha by lia.
  - by rewrite (in_range_apart _ _ 0 0x7F _ Ha), (in_range_apart _ _ 0xC2 0xDF _ Ha),
      (in_range_within _ _ 0xE0 0xF4 _ Ha), (in_range_apart _ _ 0xE0 0xEF _ Ha), Hb, Hc, Hd by lia.
Qed.
Lemma utf8_chunk_is_char l : l ≠ [] → utf8_char (utf8_chunk l).1.
Proof.
  pose proof replacement_char as HR. destruct l as [|a l]; [done|]. intros _. unfold utf8_chunk.
  destruct (in_range 0 0x7F a) eqn:E1; [by constructor|]. destruct l as [|b l]; [done|].
  destruct (in_range 0xC2 0xDF a) eqn:E2; [destruct (utf8_tail b) eqn:?; [by constructor|done]|].
  destruct (in_range 0xE0 0xF4 a && utf8_second a b) eqn:E3; cbn [negb]; [|done].
  apply andb_true_iff in E3 as [Ha%in_range_true Hb]. destruct l as [|c l]; [done|].
  destruct (utf8_tail c) eqn:Hc; cbn [negb]; [|done].
  destruct (in_range 0xE0 0xEF a) eqn:E4; [by constructor|]. destruct l as [|d l]; [done|].
  destruct (utf8_tail d) eqn:Hd; [|done]. constructor; try done. apply in_range_true.
  destruct (decide (Z_of_byte a ≤ 0xEF)); [|lia].
  rewrite (proj2 (in_range_true 0xE0 0xEF a)) in E4 by lia. done.
Qed.

Lemma from_utf8_lossy_loop_valid fuel l : utf8_valid (from_utf8_lossy_loop fuel l) = true.
Proof.
  revert l. induction fuel as [|fuel IH]; intros l; [done|]. destruct l as [|a l]; [done|].
  cbn [from_utf8_lossy_loop]. pose proof (utf8_chunk_is_char (a :: l) ltac:(done)) as Hc.
  destruct (utf8_chunk (a :: l)) as [x r]. cbn [fst] in Hc. by rewrite utf8_valid_char.
Qed.
Lemma from_utf8_lossy_loop_id fuel l :
  (length l ≤ fuel)%nat → utf8_valid l = true → from_utf8_lossy_loop fuel l = l.
Proof.
  revert l. induction fuel as [|fuel IH]; intros l Hl Hv; [by destruct l; [|cbn in Hl; lia]|].
  destruct (utf8_valid_inv l Hv) as [->|(x & r & -> & Hx & Hr)]; [done|].
  assert (x ≠ []) as Hne by (by destruct Hx).
  destruct (x ++ r) as [|a l'] eqn:E; [by apply app_eq_nil in E as [? _]|].
  cbn [from_utf8_lossy_loop]. rewrite <-E, utf8_chunk_char by done. rewrite IH; [done| |done].
  rewrite <-E, length_app in Hl. destruct x; [done|]. cbn in Hl. lia.
Qed.
Lemma from_utf8_lossy_valid l : utf8_valid (from_utf8_lossy l) = true.
Proof. apply from_utf8_lossy_loop_valid. Qed.
Lemma from_utf8_lossy_id l : utf8_valid l = true → from_utf8_lossy l = l.
Proof. by apply from_utf8_lossy_loop_id. Qed.

(** ** The log of outcomes *)

(** The entries of outcomes that arrived after [n] others. *)
Fixpoint outcome_entries (n : Z) (l : list (Z * ForwardOutcome)) : list OutcomeSnapshot :=
  match l with
  | [] => []
  | x :: l => outcome_response (wrap 64 (n + 1)) x.1 x.2 :: outcome_entries (n + 1) l
  end.
Lemma outcome_entries_app n l k :
  outcome_entries n (l ++ k) = outcome_entries n l ++ outcome_entries (n + zlen l) k.
Proof.
  revert n. induction l as [|x l IH]; intros n; [by rewrite Z.add_0_r|].
  cbn [app outcome_entries]. rewrite IH, zlen_cons. cbn [app]. do 3 f_equal. lia.
Qed.
Lemma wrap_succ w n : wrap w (wrap w n + 1) = wrap w (n + 1).
Proof. unfold wrap. by rewrite Zplus_mod_idemp_l. Qed.
Definition keep_last {A} (n : nat) (l : list A) : list A := drop (length l - n) l.

Lemma record_outcomes_spec l :
  record_outcomes OutcomeLog_new l =
    {| ol_sequence := wrap 64 (zlen l); ol_log := keep_last OUTCOME_LIMIT (outcome_entries 0 l) |}.
Proof.
  induction l as [|x l IH] using rev_ind; [done|].
  unfold record_outcomes in *. rewrite foldl_app, IH. cbn [foldl]. unfold record_outcome. cbn [ol_sequence ol_log].
  rewrite zlen_app, outcome_entries_app, Z.add_0_l. unfold keep_last, OUTCOME_LIMIT.
  set (es := outcome_entries 0 l). cbn [outcome_entries zlen length].
  f_equal; [apply wrap_succ|].
  rewrite wrap_succ, length_drop, length_app. cbn [length].
  destruct (Nat.eqb_spec (length es - (length es - 128)) 128) as [Hl|Hl].
  - replace (tail (drop (length es - 128) es)) with (drop (length es + 1 - 128) es).
    + rewrite drop_app_le by lia. done.
    + replace (length es + 1 - 128)%nat with (length es - 128 + 1)%nat by lia.
      rewrite <-drop_drop. by destruct (drop (length es - 128) es).
  - replace (length es - 128)%nat with 0%nat by lia. replace (length es + 1 - 128)%nat with 0%nat by lia. done.
Qed.
