(* ===== verification/LabMesh.v ===== *)
(** * A settled mesh is reported as converged

    The laboratory's report, the snapshots of the nodes and the route tables
    of the control plane put together: when every node holds the current LSA
    of every node it is connected to and its routes are computed, the
    laboratory says so. *)

From Stdlib Require Import Strings.Byte Strings.String.
From S2P Require Export Prelude Ord Bytes Types Lab LabProps LabNode LabNodeProps ControlTypes Spf Control ControlRoutes ControlInv ControlProps ControlRouting Runtime.
Open Scope Z_scope.

(** ** A snapshot of a control plane *)

(** The snapshot [s] was taken of a runtime whose control plane is [cp]. *)
Definition snapshot_shows (cp : ControlPlane) (s : NodeSnapshot) : Prop :=
  ∃ st now rs outcomes, s = snapshot_response st now rs outcomes ∧
    snap_lsas rs = lsas cp ∧ snap_routes rs = cp_routes cp.

Lemma collect_map_lookup {V} (l : list (Z * V)) k v :
  (k, v) ∈ l → (∀ v', (k, v') ∈ l → v' = v) → collect_map l !! k = Some v.
Proof.
  unfold collect_map. induction l as [|[j w] l IH] using rev_ind; [by intros ?%elem_of_nil|].
  intros Hin Hu. rewrite foldl_app. cbn. destruct (decide (j = k)) as [->|Hne].
  - rewrite lookup_insert_eq. f_equal. apply Hu, elem_of_app. right. by left.
  - rewrite lookup_insert_ne by done. apply IH.
    + apply elem_of_app in Hin as [?|[= -> ->]%list_elem_of_singleton]; done.
    + intros v' Hv'. apply Hu, elem_of_app. by left.
Qed.
Lemma collect_map_None {V} (l : list (Z * V)) k : k ∉ l.*1 → collect_map l !! k = None.
Proof.
  intros Hk. destruct (collect_map l !! k) eqn:E; [|done]. destruct Hk. apply collect_map_keys. by rewrite E.
Qed.

Section Plane.
Context (cp : ControlPlane) (Hok : cp_ok cp).
Context (Hnum : ∀ o l, cp_lsa cp o = Some l → is_numeric o).

Lemma elem_of_lsas l : l ∈ lsas cp ↔ cp_lsa cp (origin l) = Some l.
Proof.
  unfold lsas, cp_lsa, get_active. rewrite list_elem_of_fmap. setoid_rewrite list_elem_of_omap.
  setoid_rewrite elem_of_btree_values. split.
  - intros (a & -> & e & [o Ho] & Ha).
    pose proof (db_entries _ (cp_db _ Hok) _ _ Ho) as He. unfold entry_ok in He. rewrite Ha in He.
    destruct He as [-> _]. by rewrite Ho; cbn [mbind option_bind]; rewrite Ha.
  - intros (a & (e & He & Ha)%bind_Some & Hl)%fmap_Some. exists a. split; [done|]. exists e. eauto.
Qed.
Lemma cp_lsa_origin o l : cp_lsa cp o = Some l → origin l = o.
Proof.
  intros (a & (e & He & Ha)%bind_Some & ->)%fmap_Some.
  pose proof (db_entries _ (cp_db _ Hok) _ _ He) as H. unfold entry_ok in H. rewrite Ha in H. by destruct H.
Qed.

Definition view_of (live : gset Z) (l : Lsa) : Z * Z * gset Z :=
  (epoch l, seq_no l,
   list_to_set (filter (λ p, p ∈ live) ((λ a, numeric_id (adj_peer a)) <$> adjacencies l))).
Lemma lsdb_view_shows live s (c : gset Z) b :
  snapshot_shows cp s → b ∈ c → is_uint 64 b →
  lsdb_view live s c !! b = view_of live <$> cp_lsa cp (node_id b).
Proof.
  intros (st & now & rs & os & -> & Hl & _) Hb Hu. unfold lsdb_view. cbn [ns_lsdb snapshot_response].
  rewrite Hl. set (l := _ <$> filter _ _).
  assert (Hin : ∀ v, (b, v) ∈ l ↔ ∃ m, v = view_of live m ∧ cp_lsa cp (node_id b) = Some m).
  { intros v. unfold l. rewrite list_elem_of_fmap. setoid_rewrite list_elem_of_filter.
    setoid_rewrite list_elem_of_fmap. split.
    - intros (x & [= -> ->] & _ & m & -> & Hm). exists m. split; [done|].
      cbn [ls_origin lsa_response]. apply elem_of_lsas in Hm. pose proof (Hnum _ _ Hm) as Hn.
      by rewrite (proj1 (is_numeric_node_id _) Hn).
    - intros (m & -> & Hm). pose proof (cp_lsa_origin _ _ Hm) as Ho. exists (lsa_response m).
      cbn [ls_origin ls_epoch ls_sequence ls_adjacencies lsa_response].
      rewrite Ho, numeric_node_id by done. split; [done|]. split; [done|].
      exists m. split; [done|]. apply elem_of_lsas. by rewrite Ho. }
  destruct (cp_lsa cp (node_id b)) as [m|] eqn:E; cbn [fmap option_fmap option_map].
  - apply collect_map_lookup; [apply Hin; eauto|]. intros v' (m' & -> & [= <-])%Hin. done.
  - apply collect_map_None. intros ([k v] & -> & (m & _ & ?)%Hin)%list_elem_of_fmap. done.
Qed.
Lemma route_destinations_shows s b :
  snapshot_shows cp s →
  b ∈ route_destinations s ↔ ∃ d, is_Some (table_routes (cp_routes cp) !! d) ∧ b = numeric_id d.
Proof.
  intros (st & now & rs & os & -> & _ & Hr). unfold route_destinations. cbn [ns_routes snapshot_response].
  rewrite elem_of_list_to_set, list_elem_of_fmap. setoid_rewrite list_elem_of_fmap. rewrite Hr. unfold RouteTable_iter.
  split.
  - intros (x & -> & [d rt] & -> & Hd%elem_of_btree_iter). exists d. split; [by eexists|done].
  - intros (d & [rt Hd] & ->). exists (route_response (d, rt)). split; [done|].
    exists (d, rt). split; [done|]. by apply elem_of_btree_iter.
Qed.
End Plane.

(** ** A settled mesh *)

Section Settled.
Context `{LsaAuthLaws} {F : Type} (r : LabStateResponse F) (cs : list (gset Z)) (Hr : reports r cs).
Context (planes : Z → ControlPlane).
Abbreviation live := (live_ids (lr_nodes r)).
Abbreviation near := (neighbours (lr_links r) (live_ids (lr_nodes r))).
Abbreviation joins := (reaches (lr_links r) (live_ids (lr_nodes r))).

(** A live node: its snapshot shows its control plane, whose database speaks
    of the laboratory's nodes, whose own LSA lists the neighbours, and whose
    routes are computed. *)
Record node_settled (a : Z) (cp : ControlPlane) : Prop := {
  nst_id : is_uint 64 a;
  nst_me : me cp = node_id a;
  nst_reachable : reachable cp;
  nst_snapshot : ∃ s, snapshot_of (lr_nodes r) a = Some s ∧ snapshot_shows cp s;
  nst_numeric o l : cp_lsa cp o = Some l → is_numeric o;
  nst_links n : n ∈ adj_peer <$> adjacencies (local_lsa cp) ↔ ∃ x, near a x ∧ n = node_id x;
  nst_routes : shortest_paths cp = Some (table_routes (cp_routes cp));
}.
Lemma nst_ok a cp : node_settled a cp → cp_ok cp.
Proof. intros Hs. apply reachable_ok, (nst_reachable _ _ Hs). Qed.
Context (Hsettled : ∀ a, a ∈ live → node_settled a (planes a)).
(** Every node holds the current LSA of the nodes it is connected to. *)
Context (Hsync : ∀ a b, a ∈ live → joins a b → cp_lsa (planes a) (node_id b) = Some (local_lsa (planes b))).

Lemma mesh_edge_near a b e :
  a ∈ live → joins a b → mesh_edge (planes a) (node_id b) e → ∃ x, adj_peer e = node_id x ∧ near b x.
Proof.
  intros Ha Hab (l & l' & rr & Hl & He & _). rewrite (Hsync a b Ha Hab) in Hl. injection Hl as <-.
  pose proof (reaches_live _ _ _ _ Ha Hab) as Hb.
  destruct (proj1 (nst_links _ _ (Hsettled b Hb) (adj_peer e))) as (x & Hx & E); [|eauto].
  apply list_elem_of_fmap. eauto.
Qed.
Lemma near_mesh_edge a b x :
  a ∈ live → joins a b → near b x → ∃ e, adj_peer e = node_id x ∧ mesh_edge (planes a) (node_id b) e.
Proof.
  intros Ha Hab Hx. pose proof (reaches_live _ _ _ _ Ha Hab) as Hb. pose proof Hx as (_ & Hlx & _).
  assert (Hax : joins a x) by (etrans; [exact Hab|by apply rtc_once]).
  assert (Hin : ∀ b x, b ∈ live → near b x → ∃ e, e ∈ adjacencies (local_lsa (planes b)) ∧ adj_peer e = node_id x).
  { intros b' x' Hb' Hx'. destruct (proj1 (list_elem_of_fmap adj_peer (adjacencies (local_lsa (planes b'))) (node_id x')))
      as (e & He & Hin); [|by exists e]. apply (nst_links _ _ (Hsettled b' Hb')). eauto. }
  destruct (Hin b x Hb Hx) as (e & He & Ep). destruct (Hin x b Hlx (symmetry Hx)) as (e' & He' & Ep').
  exists e. split; [done|]. exists (local_lsa (planes b)), (local_lsa (planes x)), e'.
  rewrite Ep. split_and!; try done; by apply Hsync.
Qed.
Lemma mesh_path_joins a v p c n :
  a ∈ live → mesh_path (planes a) v p c n → ∃ b, v = node_id b ∧ joins a b.
Proof.
  intros Ha. induction 1 as [e He|u p c n e _ (b & -> & Hb) He].
  - rewrite (nst_me _ _ (Hsettled a Ha)) in He.
    destruct (mesh_edge_near a a e Ha ltac:(reflexivity) He) as (x & -> & Hx). exists x.
    split; [done|]. by apply rtc_once.
  - destruct (mesh_edge_near a b e Ha Hb He) as (x & -> & Hx). exists x. split; [done|].
    etrans; [exact Hb|by apply rtc_once].
Qed.
Lemma joins_mesh_path a b :
  a ∈ live → joins a b → b = a ∨ ∃ p c n, mesh_path (planes a) (node_id b) p c n.
Proof.
  intros Ha Hj. revert b Hj. refine (rtc_ind_r _ _ _ _); [by left|]. intros b x Hab Hx IH. right.
  destruct (near_mesh_edge a b x Ha Hab Hx) as (e & <- & He). destruct IH as [->|(p & c & n & Hp)].
  - rewrite <-(nst_me _ _ (Hsettled a Ha)) in He. eexists _, _, _. by apply mesh_hop.
  - eexists _, _, _. by eapply mesh_ext.
Qed.
Lemma settled_routes a d :
  a ∈ live → is_Some (table_routes (cp_routes (planes a)) !! d) ↔ ∃ b, d = node_id b ∧ b ≠ a ∧ joins a b.
Proof.
  intros Ha. pose proof (Hsettled a Ha) as Hs.
  destruct (shortest_paths_routes _ (nst_ok _ _ Hs)) as (routes & E & Hme & Hd).
  rewrite (nst_routes _ _ Hs) in E. injection E as <-. rewrite (nst_me _ _ Hs) in Hme, Hd. split.
  - intros [rt Hrt]. assert (d ≠ node_id a) as Hne by congruence. specialize (Hd d Hne). rewrite Hrt in Hd.
    destruct Hd as (p & n & x & Hp & _). destruct (mesh_path_joins a d _ _ _ Ha Hp) as (b & -> & Hb).
    exists b. split_and!; [done|congruence|done].
  - intros (b & -> & Hne & Hb). pose proof (reaches_live _ _ _ _ Ha Hb) as Hlb.
    assert (node_id b ≠ node_id a) as Hne'.
    { intros ?%node_id_inj; [done| |]; [apply (Hsettled b Hlb)|apply Hs]. }
    specialize (Hd _ Hne'). destruct (table_routes (cp_routes (planes a)) !! node_id b) as [rt|]; [by eexists|].
    destruct (joins_mesh_path a b Ha Hb) as [?|(p & c & n & Hp)]; [done|]. by apply Hd in Hp.
Qed.

Lemma view_of_settled b :
  b ∈ live → ∃ ps, view_of live (local_lsa (planes b)) =
    (epoch (local_lsa (planes b)), seq_no (local_lsa (planes b)), ps) ∧ ∀ x, x ∈ ps ↔ near b x.
Proof.
  intros Hb. eexists. split; [reflexivity|]. intros x. pose proof (nst_links _ _ (Hsettled b Hb)) as Hl.
  assert (Hid : ∀ y, near b y → numeric_id (node_id y) = y).
  { intros y (_ & Hy & _). apply numeric_node_id, (Hsettled y Hy). }
  rewrite elem_of_list_to_set, list_elem_of_filter, list_elem_of_fmap. split.
  - intros [_ (e & -> & He)]. destruct (proj1 (Hl (adj_peer e))) as (y & Hy & ->); [apply list_elem_of_fmap; eauto|].
    by rewrite Hid.
  - intros Hx. split; [by destruct Hx as (_ & ? & _)|].
    destruct (proj1 (list_elem_of_fmap adj_peer _ _) (proj2 (Hl (node_id x)) ltac:(eauto))) as (e & E & He).
    exists e. split; [|done]. by rewrite <-E, Hid.
Qed.
Lemma class_joins c a : c ∈ cs → a ∈ c → a ∈ live ∧ ∀ b, b ∈ c ↔ joins a b.
Proof.
  intros Hc Ha. destruct (rp_class _ _ Hr c Hc) as (x & Hx & Hj). split.
  - apply (rp_cover _ _ Hr). eauto.
  - intros b. rewrite Hj. apply Hj in Ha. split; intros Hb; [|by etrans].
    etrans; [symmetry; exact Ha|exact Hb].
Qed.
Lemma settled_agrees_view c a sa :
  c ∈ cs → a ∈ c → snapshot_of (lr_nodes r) a = Some sa → agrees_view (lr_nodes r) (lr_links r) c a sa.
Proof.
  intros Hc Ha Hsa. destruct (class_joins c a Hc Ha) as [Hla Hj].
  assert (Hview : ∀ x sx b, x ∈ c → snapshot_of (lr_nodes r) x = Some sx → b ∈ c →
    lsdb_view live sx c !! b = Some (view_of live (local_lsa (planes b)))).
  { intros x sx b Hx Hsx Hb. destruct (class_joins c x Hc Hx) as [Hlx Hjx].
    pose proof (Hsettled x Hlx) as Hs. destruct (nst_snapshot _ _ Hs) as (s & E & Hshow).
    rewrite Hsx in E. injection E as <-. destruct (class_joins c b Hc Hb) as [Hlb _].
    rewrite (lsdb_view_shows (planes x) (nst_ok _ _ Hs) (nst_numeric _ _ Hs) live sx c b Hshow Hb); [|apply (Hsettled b Hlb)].
    by rewrite (Hsync x b Hlx) by (by apply Hjx). }
  constructor.
  - intros b. pose proof (Hsettled a Hla) as Hs. destruct (nst_snapshot _ _ Hs) as (s & E & Hshow).
    rewrite Hsa in E. injection E as <-. rewrite (route_destinations_shows _ _ _ Hshow).
    setoid_rewrite (settled_routes a). 2: done. rewrite Hj. split.
    + intros (d & (b' & -> & Hne & Hb') & ->). pose proof (reaches_live _ _ _ _ Hla Hb') as Hlb.
      by rewrite numeric_node_id by apply (Hsettled b' Hlb).
    + intros [Hb Hne]. pose proof (reaches_live _ _ _ _ Hla Hb) as Hlb. exists (node_id b).
      split; [eauto|]. by rewrite numeric_node_id by apply (Hsettled b Hlb).
  - intros b Hb. by rewrite (Hview a sa b Ha Hsa Hb).
  - intros b ep sq ps Hb. pose proof (lsdb_view_keys _ _ _ _ (mk_is_Some _ _ Hb)) as Hin.
    rewrite (Hview a sa b Ha Hsa Hin) in Hb. destruct (class_joins c b Hc Hin) as [Hlb _].
    destruct (view_of_settled b Hlb) as (ps' & E & Hps). rewrite E in Hb. injection Hb as _ _ <-. done.
  - intros b sb Hb Hsb. apply map_eq. intros k. destruct (decide (k ∈ c)) as [Hk|Hk].
    + by rewrite (Hview a sa k Ha Hsa Hk), (Hview b sb k Hb Hsb Hk).
    + transitivity (@None (Z * Z * gset Z)); [|symmetry]; apply eq_None_not_Some; by intros ?%lsdb_view_keys.
Qed.
Lemma settled_agrees c a sa :
  c ∈ cs → a ∈ c → snapshot_of (lr_nodes r) a = Some sa → agrees (lr_nodes r) (lr_links r) c a sa.
Proof.
  intros Hc. revert a sa. apply agrees_views. intros a sa. by apply settled_agrees_view.
Qed.
End Settled.

(** C26: The laboratory's verdict is reached by the mesh it watches. Let some
    node be live; let every live node answer with a snapshot of a reachable
    control plane, which uses the laboratory's ids, advertises in its own LSA
    exactly the neighbours the report shows (so that no link is seen from one
    end only), and has computed its routes; and let every live node hold the
    current LSA of every node it is connected to, itself included (so that a
    lone node which never originated an LSA is excluded). Then the laboratory
    reports the mesh as converged. *)
Theorem settled_mesh_converges `{LsaAuthLaws} {F} (lab_links : gmap Z (LabLink F)) now pace collected
    (planes : Z → ControlPlane) r :
  NoDup (answer_id <$> collected) →
  collect_state lab_links now pace collected = Some r →
  (∃ a, a ∈ live_ids (lr_nodes r)) →
  (∀ a, a ∈ live_ids (lr_nodes r) → node_settled r a (planes a)) →
  (∀ a b, a ∈ live_ids (lr_nodes r) → reaches (lr_links r) (live_ids (lr_nodes r)) a b →
     cp_lsa (planes a) (node_id b) = Some (local_lsa (planes b))) →
  lr_converged r = true.
Proof.
  intros Hnd E Hlive Hset Hsync. destruct (collect_state_spec lab_links now pace collected Hnd) as (r' & cs & E' & Hr).
  rewrite E in E'. injection E' as <-. apply (rp_converged _ _ Hr). split; [done|].
  by apply (settled_agrees r cs Hr planes).
Qed.

(** A live node that holds no LSA, as one that has never had a link, keeps the
    laboratory from reporting convergence, even when it is alone. *)
Lemma silent_node_not_converged {F} (r : LabStateResponse F) cs cp a s :
  reports r cs → snapshot_of (lr_nodes r) a = Some s → snapshot_shows cp s → lsdb cp = ∅ →
  lr_converged r = false.
Proof.
  intros Hr Hs (st & now & rs & os & -> & Hl & _) Hdb. destruct (lr_converged r) eqn:E; [|done].
  apply (rp_converged _ _ Hr) in E as [_ Hag].
  assert (a ∈ live_ids (lr_nodes r)) as Ha by (apply (rp_live _ _ Hr); by eexists).
  apply (rp_cover _ _ Hr) in Ha as (c & Hc & Ha). destruct (ag_lsas _ _ _ _ _ (Hag c a _ Hc Ha Hs) a Ha) as (l & Hv & _).
  unfold holds_lsa in Hv. cbn [ns_lsdb snapshot_response] in Hv. rewrite Hl in Hv. unfold lsas in Hv.
  rewrite Hdb in Hv. by apply last_lsa_nil in Hv.
Qed.
