(* ===== verification/LabManage.v ===== *)
(** * The management of the laboratory (bins/mblab)

    The state of the laboratory ([Lab]) and its HTTP handlers.  Handlers run
    concurrently: every access to a locked table is atomic, and between two of
    them others may run.  What they ask of the outside (ports, processes, the
    admin interface of a node, sockets, the clock) is a [Query]. *)

From Stdlib Require Import Strings.Byte Strings.String Floats.SpecFloat.
From S2P Require Export Prelude Ord Bytes Text Types Requests Lab LabProxy LabNode.
Open Scope Z_scope.

(** ** State *)

(** [child] is the handle of the process, if the laboratory still has one. *)
Record ManagedNode := { mn_info : NodeInfo; mn_child : bool; mn_started_offset_ms : Z }.
(** The sender of the conditions; the task is a [LinkProxy]. *)
Record LinkProxyHandle := { ph_conditions : ConditionsRequest }.
Abbreviation Link := (LabLink spec_float) (only parsing).
Record Lab := {
  lab_nodes : gmap Z ManagedNode;
  lab_links : gmap Z (LabLink spec_float);
  lab_proxies : gmap Z LinkProxyHandle;
  next_node : Z;
  next_link : Z;
  next_flow : Z;
  pace_ms : Z;
}.
Definition Lab_new (pace : Z) : Lab :=
  {| lab_nodes := ∅; lab_links := ∅; lab_proxies := ∅; next_node := 1; next_link := 1; next_flow := 1;
     pace_ms := pace |}.
Definition set_nodes (s : Lab) (m : gmap Z ManagedNode) : Lab :=
  {| lab_nodes := m; lab_links := lab_links s; lab_proxies := lab_proxies s; next_node := next_node s;
     next_link := next_link s; next_flow := next_flow s; pace_ms := pace_ms s |}.
Definition set_lab_links (s : Lab) (m : gmap Z Link) : Lab :=
  {| lab_nodes := lab_nodes s; lab_links := m; lab_proxies := lab_proxies s; next_node := next_node s;
     next_link := next_link s; next_flow := next_flow s; pace_ms := pace_ms s |}.
Definition set_proxies (s : Lab) (m : gmap Z LinkProxyHandle) : Lab :=
  {| lab_nodes := lab_nodes s; lab_links := lab_links s; lab_proxies := m; next_node := next_node s;
     next_link := next_link s; next_flow := next_flow s; pace_ms := pace_ms s |}.
Definition set_counters (s : Lab) (n l f pace : Z) : Lab :=
  {| lab_nodes := lab_nodes s; lab_links := lab_links s; lab_proxies := lab_proxies s; next_node := n;
     next_link := l; next_flow := f; pace_ms := pace |}.

(** [fetch_add(1)] of the three counters. *)
Definition fetch_node (s : Lab) : Lab * Z :=
  (set_counters s (wrap 64 (next_node s + 1)) (next_link s) (next_flow s) (pace_ms s), next_node s).
Definition fetch_link (s : Lab) : Lab * Z :=
  (set_counters s (next_node s) (wrap 64 (next_link s + 1)) (next_flow s) (pace_ms s), next_link s).
Definition fetch_flow (s : Lab) : Lab * Z :=
  (set_counters s (next_node s) (next_link s) (wrap 64 (next_flow s + 1)) (pace_ms s), next_flow s).

(** ** The outside *)

Inductive Post :=
| PostAllow (peer cost : Z)
| PostConnect (peer : Z) (address : bytes) (cost : Z)
| PostSend (destination priority flow_id : Z) (payload : bytes).
Inductive Query : Type → Type :=
| QPort : Query (result Z bytes)
| QSpawn (id : Z) (name : bytes) (mesh_port admin_port : Z) : Query (result (option Z) bytes)
| QClock : Query Z
| QSleep (ms : Z) : Query unit
| QKill (id : Z) : Query (result unit bytes)
| QBind : Query (result bytes bytes)
| QJoin : Query unit
| QHealth (admin : bytes) : Query bool
| QPost (admin : bytes) (p : Post) : Query (result (StatusCode * bytes) bytes)
| QSnapshots (l : list (NodeInfo * Z)) : Query (list (NodeInfo * Z * option NodeSnapshot)).
(** The answers to [QSnapshots] come from the nodes asked, in any order; a
    task that fails gives none. *)
Definition good (A : Type) (q : Query A) : A → Prop :=
  match q in Query A return A → Prop with
  | QSnapshots l => λ a, a.*1 ⊆+ l
  | _ => λ _, True
  end.

Abbreviation lab_proc := (proc Lab Query).
Abbreviation api A := (proc Lab Query (result A (StatusCode * bytes))).

Definition not_found (kind : bytes) : StatusCode * bytes := (NOT_FOUND, kind ++ str " was not found").
Definition fail {A} (e : StatusCode * bytes) : api A := Return (Err e).
Definition done_ {A} (x : A) : api A := Return (Ok x).
Definition ask_internal {A} (q : Query (result A bytes)) : api A :=
  r ← ask q; Return (map_err internal_error r).
(** [ensure_success] of a response *)
Definition post (admin : bytes) (p : Post) : api unit :=
  response ←! ask_internal (QPost admin p);
  let '(status, body) := response in
  if is_success status then done_ () else fail (status, body).

(** ** Proxies *)

Definition effective_conditions (pace : Z) (link : Link) : ConditionsRequest :=
  {| latency_ms := sat_add 64 (ll_latency_ms link) pace; loss_percent := ll_loss_percent link;
     bandwidth_kbps := ll_bandwidth_kbps link |}.
Definition update_proxy (link : Link) (id : Z) (s : Lab) : Lab :=
  match lab_proxies s !! id with
  | Some _ =>
      set_proxies s (<[id := {| ph_conditions := effective_conditions (pace_ms s) link |}]> (lab_proxies s))
  | None => s
  end.
Definition update_proxy_conditions (id : Z) (link : Link) : lab_proc unit := writing (update_proxy link id).
Definition remove_proxies (ids : list Z) (s : Lab) : Lab * list LinkProxyHandle :=
  (set_proxies s (foldr delete (lab_proxies s) ids), omap (λ id, lab_proxies s !! id) ids).
Definition stop_proxy (p : LinkProxyHandle) : lab_proc unit := ask QJoin.
Definition stop_proxies (ids : list Z) : lab_proc unit :=
  proxies ← atomic (remove_proxies ids);
  for_each proxies stop_proxy.

Definition should_restore_link (link : Link) (node : Z) (desired_only : bool) : bool :=
  ((ll_a link =? node) || (ll_b link =? node)) && (negb desired_only || ll_desired_up link).
Definition incident (node : Z) (desired_only : bool) (s : Lab) : list Z :=
  ll_id <$> filter (λ l, should_restore_link l node desired_only = true) (btree_values (lab_links s)).
Definition incident_link_ids (node : Z) (desired_only : bool) : lab_proc (list Z) :=
  reading (incident node desired_only).

(** ** Processes *)

Definition localhost (port : Z) : bytes := str "127.0.0.1:" ++ decimal port.
Fixpoint wait_for_health_loop (n : nat) (admin : bytes) : api unit :=
  match n with
  | O => fail (GATEWAY_TIMEOUT, str "mblab-node at " ++ admin ++ str " did not become ready")
  | S n =>
      ok ← ask (QHealth admin);
      if (ok : bool) then done_ () else _ ← ask (QSleep 50); wait_for_health_loop n admin
  end.
Definition wait_for_health (admin : bytes) : api unit := wait_for_health_loop 60 admin.
Definition spawn_process (id : Z) (name : bytes) : api ManagedNode :=
  mesh_port ←! ask_internal QPort;
  admin_port ←! ask_internal QPort;
  offset ← ask QClock;
  pid ←! ask_internal (QSpawn id name mesh_port admin_port);
  let info := {| ni_id := id; ni_name := name; ni_mesh_addr := localhost mesh_port;
                 ni_admin_addr := localhost admin_port; ni_pid := pid |} in
  _ ←! wait_for_health (ni_admin_addr info);
  done_ {| mn_info := info; mn_child := true; mn_started_offset_ms := Z.min offset (u_max 64) |}.
Definition insert_node (id : Z) (n : ManagedNode) : lab_proc unit :=
  writing (λ s, set_nodes s (<[id := n]> (lab_nodes s))).
Definition spawn_new_node (name : option bytes) : api Z :=
  id ← atomic fetch_node;
  let name := default (str "node-" ++ decimal id) name in
  managed ←! spawn_process id name;
  _ ← insert_node id managed;
  done_ id.
(** The name, and whether there was a process to kill. *)
Definition take_child (id : Z) (s : Lab) : Lab * option (bytes * bool) :=
  match lab_nodes s !! id with
  | None => (s, None)
  | Some n =>
      let i := mn_info n in
      let info := {| ni_id := ni_id i; ni_name := ni_name i; ni_mesh_addr := ni_mesh_addr i;
                     ni_admin_addr := ni_admin_addr i; ni_pid := None |} in
      (set_nodes s (<[id := {| mn_info := info; mn_child := false;
                               mn_started_offset_ms := mn_started_offset_ms n |}]> (lab_nodes s)),
       Some (ni_name i, mn_child n))
  end.
Definition kill_child (id : Z) (child : bool) : api unit :=
  if child then ask_internal (QKill id) else done_ ().
Definition restart_managed_node (id : Z) : api unit :=
  r ← atomic (take_child id);
  match r with
  | None => fail (not_found (str "node"))
  | Some (name, child) =>
      _ ←! kill_child id child;
      managed ←! spawn_process id name;
      _ ← insert_node id managed;
      done_ ()
  end.

Definition managed_running (n : ManagedNode) : bool :=
  mn_child n && bool_decide (is_Some (ni_pid (mn_info n))).
Definition require_running_node (id : Z) : api NodeInfo :=
  r ← reading (λ s, lab_nodes s !! id);
  match r with
  | None => fail (not_found (str "node"))
  | Some n =>
      let info := mn_info n in
      let stopped :=
        (SERVICE_UNAVAILABLE,
         str "node " ++ decimal (ni_id info) ++ str " (" ++ ni_name info ++
         str ") process is stopped; restart it before creating a link") in
      if managed_running n then
        ok ← ask (QHealth (ni_admin_addr info));
        if (ok : bool) then done_ info else fail stopped
      else fail stopped
  end.

(** ** Links *)

Section Handlers.
(** [str::parse::<SocketAddr>] *)
Context (parse_address : bytes → result bytes bytes).

Definition default_link_cost : Z := 10.

Definition connect_existing_link (id : Z) : api unit :=
  r ← reading (λ s, lab_links s !! id);
  match r with
  | None => fail (not_found (str "link"))
  | Some link =>
      a_info ←! require_running_node (ll_a link);
      b_info ←! require_running_node (ll_b link);
      _ ← stop_proxies [id];
      match parse_address (ni_mesh_addr b_info) with
      | Err e => fail (internal_error e)
      | Ok target =>
          pace ← reading pace_ms;
          let proxy := {| ph_conditions := effective_conditions pace link |} in
          proxy_addr ←! ask_internal QBind;
          _ ←! post (ni_admin_addr a_info) (PostAllow (ll_b link) (ll_cost link));
          _ ←! post (ni_admin_addr b_info) (PostAllow (ll_a link) (ll_cost link));
          r ← post (ni_admin_addr a_info) (PostConnect (ll_b link) proxy_addr (ll_cost link));
          match r with
          | Err e => _ ← stop_proxy proxy; fail e
          | Ok _ => _ ← writing (λ s, set_proxies s (<[id := proxy]> (lab_proxies s))); done_ ()
          end
      end
  end.

Definition joins_pair (a b : Z) (l : Link) : bool :=
  ((ll_a l =? a) && (ll_b l =? b)) || ((ll_a l =? b) && (ll_b l =? a)).
Definition f64_zero : spec_float := S754_zero false.
Definition new_link (id a b cost : Z) : Link :=
  {| ll_id := id; ll_a := a; ll_b := b; ll_up := false; ll_desired_up := true; ll_cost := cost;
     ll_latency_ms := 0; ll_loss_percent := f64_zero; ll_bandwidth_kbps := 0 |}.
Definition mark_up (desired : bool) (up : bool) (l : Link) : Link :=
  {| ll_id := ll_id l; ll_a := ll_a l; ll_b := ll_b l; ll_up := up; ll_desired_up := desired;
     ll_cost := ll_cost l; ll_latency_ms := ll_latency_ms l; ll_loss_percent := ll_loss_percent l;
     ll_bandwidth_kbps := ll_bandwidth_kbps l |}.
Definition connect_nodes (a b cost : Z) : api Z :=
  if a =? b then fail (bad_request (str "a link requires two different nodes"))
  else if cost =? 0 then fail (bad_request (str "link cost must be greater than zero"))
  else
    exists_ ← reading (λ s, existsb (joins_pair a b) (btree_values (lab_links s)));
    if (exists_ : bool) then fail (bad_request (str "a link between these nodes already exists"))
    else
      id ← atomic fetch_link;
      _ ← writing (λ s, set_lab_links s (<[id := new_link id a b cost]> (lab_links s)));
      r ← connect_existing_link id;
      match r with
      | Err e =>
          _ ← writing (λ s, set_lab_links s (delete id (lab_links s)));
          _ ← stop_proxies [id];
          fail e
      | Ok _ =>
          _ ← writing (λ s, set_lab_links s (alter (λ l, mark_up (ll_desired_up l) true l) id (lab_links s)));
          done_ id
      end.

(** ** Handlers *)

Inductive Response :=
| RespStatus (c : StatusCode)
| RespNode (i : NodeInfo)
| RespLink (l : Link)
| RespState (r : LabStateResponse spec_float).

(** [lab.links.lock().await[&id].clone()], which panics without the link. *)
Definition respond_link (id : Z) : api Response :=
  r ← reading (λ s, lab_links s !! id);
  match r with Some l => done_ (RespLink l) | None => Panic end.

Definition node_infos (s : Lab) : list (NodeInfo * Z) :=
  (λ n, (mn_info n, mn_started_offset_ms n)) <$> btree_values (lab_nodes s).
Definition api_state : api Response :=
  infos ← reading node_infos;
  collected ← ask (QSnapshots infos);
  links ← reading lab_links;
  now ← ask QClock;
  pace ← reading pace_ms;
  match collect_state links (Z.min now (u_max 64)) pace collected with
  | Some r => done_ (RespState r)
  | None => Panic
  end.

Definition remove_links_of (id : Z) (s : Lab) : Lab :=
  set_lab_links s (filter (λ x, ll_a x.2 ≠ id ∧ ll_b x.2 ≠ id) (lab_links s)).
Definition remove_managed (id : Z) (s : Lab) : Lab * option ManagedNode :=
  (set_nodes s (delete id (lab_nodes s)), lab_nodes s !! id).
(** [let _ = child.kill().await] *)
Definition kill_ignored (id : Z) (child : bool) : lab_proc unit :=
  if child then _ ← ask (QKill id); Return () else Return ().
(** The lock is held while the process is killed; here others may run then. *)
Definition discard_node (id : Z) : lab_proc unit :=
  r ← atomic (remove_managed id);
  _ ← match r with Some n => kill_ignored id (mn_child n) | None => Return () end;
  writing (remove_links_of id).
(** [values().find(..).map(|node| node.info.id)] *)
Definition first_running (s : Lab) : option Z :=
  match list_find (λ n, managed_running n = true) (btree_values (lab_nodes s)) with
  | Some (_, n) => Some (ni_id (mn_info n))
  | None => None
  end.
Definition add_node (name : option bytes) (attach_to : option Z) : api Response :=
  attach ←! match attach_to with
            | Some id => _ ←! require_running_node id; done_ (Some id)
            | None => r ← reading first_running; done_ r
            end;
  id ←! spawn_new_node name;
  _ ←! match attach with
       | None => done_ ()
       | Some peer =>
           r ← connect_nodes peer id default_link_cost;
           match r with
           | Err e => _ ← discard_node id; fail e
           | Ok _ => done_ ()
           end
       end;
  r ← reading (λ s, lab_nodes s !! id);
  match r with Some n => done_ (RespNode (mn_info n)) | None => Panic end.
Definition remove_node (id : Z) : api Response :=
  incident ← incident_link_ids id false;
  _ ← stop_proxies incident;
  r ← atomic (remove_managed id);
  match r with
  | None => fail (not_found (str "node"))
  | Some n =>
      _ ← kill_ignored id (mn_child n);
      _ ← writing (remove_links_of id);
      done_ (RespStatus NO_CONTENT)
  end.
Definition crash_node (id : Z) : api Response :=
  r ← atomic (take_child id);
  match r with
  | None => fail (not_found (str "node"))
  | Some (_, child) =>
      _ ←! kill_child id child;
      incident ← incident_link_ids id false;
      _ ← stop_proxies incident;
      done_ (RespStatus NO_CONTENT)
  end.
Fixpoint reconnect (ids : list Z) : api Response :=
  match ids with
  | [] => done_ (RespStatus NO_CONTENT)
  | id :: ids =>
      r ← connect_existing_link id;
      match r with
      | Ok _ => reconnect ids
      | Err (status, text) =>
          if decide (status = SERVICE_UNAVAILABLE) then reconnect ids else fail (status, text)
      end
  end.
Definition restart_node (id : Z) : api Response :=
  _ ←! restart_managed_node id;
  incident ← incident_link_ids id true;
  reconnect incident.
Definition add_link (a b cost : Z) : api Response :=
  id ←! connect_nodes a b cost;
  respond_link id.
(** [links.get_mut(&id).ok_or(..)?] and the assignment of both flags *)
Definition switch_link (id : Z) (on : bool) : api unit :=
  r ← atomic (λ s, (set_lab_links s (alter (mark_up on on) id (lab_links s)), lab_links s !! id));
  match r with Some _ => done_ () | None => fail (not_found (str "link")) end.
Definition toggle_link (id : Z) : api Response :=
  r ← reading (λ s, lab_links s !! id);
  match r with
  | None => fail (not_found (str "link"))
  | Some link =>
      _ ←! (if ll_desired_up link then
              _ ←! switch_link id false;
              _ ← stop_proxies [id];
              done_ ()
            else
              _ ←! connect_existing_link id;
              switch_link id true);
      respond_link id
  end.
(** [(0.0..=100.0).contains(&x)] *)
Definition loss_valid (x : spec_float) : bool := SFleb f64_zero x && SFleb x (f64_of_pos 100).
Definition with_conditions (c : ConditionsRequest) (l : Link) : Link :=
  {| ll_id := ll_id l; ll_a := ll_a l; ll_b := ll_b l; ll_up := ll_up l;
     ll_desired_up := ll_desired_up l; ll_cost := ll_cost l; ll_latency_ms := latency_ms c;
     ll_loss_percent := loss_percent c; ll_bandwidth_kbps := bandwidth_kbps c |}.
Definition set_link_conditions (id : Z) (request : ConditionsRequest) : api Response :=
  if negb (loss_valid (loss_percent request)) then
    fail (bad_request (str "loss_percent must be between 0 and 100"))
  else
    r ← atomic (λ s, (set_lab_links s (alter (with_conditions request) id (lab_links s)), lab_links s !! id));
    match r with
    | None => fail (not_found (str "link"))
    | Some link =>
        let updated := with_conditions request link in
        _ ← update_proxy_conditions id updated;
        done_ (RespLink updated)
    end.
Definition set_pace (pace : Z) : api Response :=
  if 2000 <? pace then fail (bad_request (str "pace_ms must be between 0 and 2000"))
  else
    _ ← writing (λ s, set_counters s (next_node s) (next_link s) (next_flow s) pace);
    links ← reading (λ s, filter (λ l, ll_desired_up l = true) (btree_values (lab_links s)));
    _ ← for_each links (λ link, update_proxy_conditions (ll_id link) link);
    done_ (RespStatus NO_CONTENT).
Definition node_admin (id : Z) : api bytes :=
  r ← reading (λ s, lab_nodes s !! id);
  match r with
  | Some n => done_ (ni_admin_addr (mn_info n))
  | None => fail (not_found (str "node"))
  end.
Definition send_packet (source destination priority : Z) (payload : option bytes) : api Response :=
  admin ←! node_admin source;
  flow ← atomic fetch_flow;
  _ ←! post admin (PostSend destination priority flow (default (str "mesh-lab probe") payload));
  done_ (RespStatus ACCEPTED).

(** The routes of the HTTP server. *)
Inductive Request :=
| GetState
| AddNode (name : option bytes) (attach_to : option Z)
| RemoveNode (id : Z)
| CrashNode (id : Z)
| RestartNode (id : Z)
| AddLink (a b cost : Z)
| ToggleLink (id : Z)
| SetConditions (id : Z) (c : ConditionsRequest)
| SetPace (pace : Z)
| SendPacket (source destination priority : Z) (payload : option bytes).
Definition dispatch (r : Request) : api Response :=
  match r with
  | GetState => api_state
  | AddNode n a => add_node n a
  | RemoveNode id => remove_node id
  | CrashNode id => crash_node id
  | RestartNode id => restart_node id
  | AddLink a b c => add_link a b c
  | ToggleLink id => toggle_link id
  | SetConditions id c => set_link_conditions id c
  | SetPace p => set_pace p
  | SendPacket s d p b => send_packet s d p b
  end.

(** ** Start *)

Fixpoint spawn_all (names : list bytes) : api (list Z) :=
  match names with
  | [] => done_ []
  | name :: names => id ←! spawn_new_node (Some name); ids ←! spawn_all names; done_ (id :: ids)
  end.
Fixpoint connect_all (edges : list (Z * Z)) : api unit :=
  match edges with
  | [] => done_ ()
  | (a, b) :: edges => _ ←! connect_nodes a b default_link_cost; connect_all edges
  end.
Definition INITIAL_NAMES : list bytes :=
  str <$> ["drone-17"; "vehicle-3"; "ground-2"; "relay-west"; "c2-main"]%string.
Definition initial_names (initial : nat) : list bytes :=
  take (Nat.min initial 5) INITIAL_NAMES ++
  ((λ index, str "node-" ++ decimal (Z.of_nat index + 1)) <$> seq 5 (initial - 5)).
Definition DEFAULT_EDGES : list (nat * nat) := [(0, 1); (1, 2); (0, 3); (3, 2); (2, 4); (3, 4)]%nat.
Definition default_edges (ids : list Z) : list (Z * Z) :=
  omap (λ e, a ← ids !! e.1; b ← ids !! e.2; Some (a, b)) DEFAULT_EDGES.
(** [ids[4..].windows(2)] *)
Definition chain_edges (ids : list Z) : list (Z * Z) :=
  if decide (5 < length ids)%nat then zip (drop 4 ids) (drop 5 ids) else [].
Definition startup (initial : nat) : api unit :=
  ids ←! spawn_all (initial_names initial);
  _ ←! connect_all (default_edges ids);
  connect_all (chain_edges ids).
End Handlers.

(** ** End *)

(** [node.child.take()] of all nodes; the lock is held while they are killed. *)
Definition childless (n : ManagedNode) : ManagedNode :=
  {| mn_info := mn_info n; mn_child := false; mn_started_offset_ms := mn_started_offset_ms n |}.
Definition take_children (s : Lab) : Lab * list Z :=
  (set_nodes s (childless <$> lab_nodes s),
   (btree_iter (filter (λ x, mn_child x.2 = true) (lab_nodes s))).*1).
Definition shutdown_lab : lab_proc unit :=
  proxy_ids ← reading (λ s, btree_keys (lab_proxies s));
  _ ← stop_proxies proxy_ids;
  children ← atomic take_children;
  for_each children (λ id, kill_ignored id true).
