(* ===== verification/LabManageProps.v ===== *)
(** * What the management of the laboratory keeps (bins/mblab)

    For requests served one after the other: the tables stay consistent, no
    handler panics, and a request that fails changes no link. *)

From Stdlib Require Import Strings.Byte Strings.String Floats.SpecFloat.
From S2P Require Export Prelude Ord Bytes Text Types Requests Lab LabProps LabProxy LabNode LabManage.
Open Scope Z_scope.

(** ** Invariants *)

Definition link_ok (id : Z) (l : LabLink spec_float) : Prop :=
  ll_id l = id ∧ ll_a l ≠ ll_b l ∧ ll_cost l ≠ 0 ∧ loss_valid (ll_loss_percent l) = true.
(** What holds at every moment, however handlers interleave. *)
Record lab_inv (s : Lab) : Prop := {
  li_nodes id n : lab_nodes s !! id = Some n → ni_id (mn_info n) = id;
  li_links id l : lab_links s !! id = Some l → link_ok id l;
  li_proxies id h : lab_proxies s !! id = Some h → loss_valid (loss_percent (ph_conditions h)) = true;
}.
(** What holds between requests that are served one after the other. *)
Record lab_ok (s : Lab) : Prop := {
  lo_nodes id n : lab_nodes s !! id = Some n → ni_id (mn_info n) = id ∧ id < next_node s;
  lo_links id l : lab_links s !! id = Some l → link_ok id l ∧ id < next_link s;
  lo_ends id l : lab_links s !! id = Some l →
    is_Some (lab_nodes s !! ll_a l) ∧ is_Some (lab_nodes s !! ll_b l);
  lo_unique i j l m : lab_links s !! i = Some l → lab_links s !! j = Some m →
    joins_pair (ll_a l) (ll_b l) m = true → i = j;
  lo_proxies id h : lab_proxies s !! id = Some h →
    ∃ l, lab_links s !! id = Some l ∧ ll_desired_up l = true ∧
      ph_conditions h = effective_conditions (pace_ms s) l;
  lo_pace : 0 < next_node s ∧ 0 < next_link s;
}.
(** The counters do not wrap around with the next request. *)
Definition lasting (s : Lab) : Prop := next_node s < u_max 64 ∧ next_link s < u_max 64.

Create HintDb lab.
Abbreviation wps := (wp good).

Ltac wp_step :=
  match goal with
  | |- wp _ (try_bind _ _) _ _ => apply wp_try
  | |- wp _ (_ ← _; _) _ _ => apply wp_bind
  | |- wp _ (let _ := _ in _) _ _ => cbv zeta
  | |- wp _ (reading _) _ _ => cbn [wp reading fst snd]
  | |- wp _ (atomic _) _ _ => cbn [wp atomic fst snd]
  | |- wp _ (writing _) _ _ => cbn [wp writing fst snd]
  | |- wp _ (ask _) _ _ => cbn [wp ask]
  | |- wp _ (Return _) _ _ => cbn [wp]
  | |- wp _ (done_ _) _ _ => cbn [wp done_]
  | |- wp _ (fail _) _ _ => cbn [wp fail]
  end.
Ltac wp_steps := repeat wp_step.

(** ** Pieces *)

Lemma wp_ask_internal {A} (q : Query (result A bytes)) post s :
  (∀ r, post r s) → wps (ask_internal q) post s.
Proof. intros H. unfold ask_internal. wp_steps. intros a _. apply H. Qed.
Lemma wp_post admin p post0 s : (∀ r, post0 r s) → wps (post admin p) post0 s.
Proof.
  intros H. unfold post. wp_step. apply wp_ask_internal. intros [[st body]|e]; [|done].
  destruct (is_success st); apply H.
Qed.
Lemma wp_joins (ps : list LinkProxyHandle) (post0 : unit → Lab → Prop) s :
  post0 () s → wps (for_each ps stop_proxy) post0 s.
Proof.
  intros H. apply (wp_for_each _ _ _ (λ s', s' = s)); [done| |by intros ? ->].
  intros x s' _ ->. unfold stop_proxy. by wp_steps.
Qed.
Lemma wp_stop_proxies ids (post0 : unit → Lab → Prop) s :
  post0 () (set_proxies s (foldr delete (lab_proxies s) ids)) → wps (stop_proxies ids) post0 s.
Proof. intros H. unfold stop_proxies. wp_steps. by apply wp_joins. Qed.
Lemma wp_health n admin post0 s : (∀ r, post0 r s) → wps (wait_for_health_loop n admin) post0 s.
Proof.
  intros H. induction n as [|n IH]; [apply H|]. cbn [wait_for_health_loop]. wp_steps.
  intros ok _. destruct ok; [apply H|]. wp_steps. intros _ _. apply IH.
Qed.
Lemma wp_spawn_process id name (post0 : _ → Lab → Prop) s :
  (∀ e, post0 (Err e) s) → (∀ n, ni_id (mn_info n) = id → post0 (Ok n) s) → wps (spawn_process id name) post0 s.
Proof.
  intros He Ho. unfold spawn_process. wp_step. apply wp_ask_internal. intros [mp|e]; [|apply He].
  wp_step. apply wp_ask_internal. intros [ap|e]; [|apply He]. wp_steps. intros off _.
  wp_step. apply wp_ask_internal. intros [pid|e]; [|apply He]. wp_step. apply wp_health.
  intros [[]|e]; [|apply He]. by apply Ho.
Qed.
Lemma wp_require_running id (post0 : _ → Lab → Prop) s :
  (∀ e, post0 (Err e) s) → (∀ i, is_Some (lab_nodes s !! id) → post0 (Ok i) s) →
  wps (require_running_node id) post0 s.
Proof.
  intros He Ho. unfold require_running_node. wp_steps. destruct (lab_nodes s !! id) as [n|] eqn:E; [|apply He].
  destruct (managed_running n); [|apply He]. wp_steps. intros ok _. destruct ok; [apply Ho; by eexists|apply He].
Qed.

(** ** Changes that keep the tables consistent *)

Definition connected (id : Z) (l : LabLink spec_float) (s : Lab) : Lab :=
  set_proxies s (<[id := {| ph_conditions := effective_conditions (pace_ms s) l |}]> (lab_proxies s)).

Lemma ok_proxies s m : lab_ok s → m ⊆ lab_proxies s → lab_ok (set_proxies s m).
Proof.
  intros [Hn Hl He Hu Hp Hc] Hsub. constructor; cbn; try done.
  intros id h Hh. apply Hp. by eapply lookup_weaken.
Qed.
Lemma ok_unproxied s id : lab_ok s → lab_ok (set_proxies s (delete id (lab_proxies s))).
Proof. intros Hs. apply ok_proxies; [done|apply delete_subseteq]. Qed.
Lemma ok_stop s ids : lab_ok s → lab_ok (set_proxies s (foldr delete (lab_proxies s) ids)).
Proof.
  intros Hs. apply ok_proxies; [done|]. clear. induction ids as [|id ids IH]; cbn; [done|].
  etrans; [apply delete_subseteq|done].
Qed.
Lemma ok_connected s id l :
  lab_ok s → lab_links s !! id = Some l → ll_desired_up l = true → lab_ok (connected id l s).
Proof.
  intros [Hn Hl He Hu Hp Hc] El Hd. constructor; cbn; try done.
  intros i h [[<- <-]|[_ Hh]]%lookup_insert_Some; [eauto|by apply Hp].
Qed.
Lemma ok_flow s f : lab_ok s → lab_ok (set_counters s (next_node s) (next_link s) f (pace_ms s)).
Proof. by intros [Hn Hl He Hu Hp Hc]; constructor. Qed.
Lemma ok_fetch_node s : lab_ok s → next_node s < u_max 64 → lab_ok (fetch_node s).1 ∧ next_node (fetch_node s).1 = next_node s + 1.
Proof.
  intros [Hn Hl He Hu Hp Hc] Hx.
  assert (wrap 64 (next_node s + 1) = next_node s + 1) as Hw.
  { unfold wrap. apply Z.mod_small. unfold u_max in Hx. lia. }
  split; [|done]. constructor; cbn; try done; rewrite ?Hw; [|lia].
  intros id n Hid. destruct (Hn id n Hid). split; [done|lia].
Qed.
Lemma ok_insert_node s id n :
  lab_ok s → id < next_node s → ni_id (mn_info n) = id → lab_ok (set_nodes s (<[id := n]> (lab_nodes s))).
Proof.
  intros [Hn Hl He Hu Hp Hc] Hid Hi. constructor; cbn; try done.
  - intros j m [[<- <-]|[_ Hm]]%lookup_insert_Some; [done|by apply Hn].
  - intros j l Hj. destruct (He j l Hj) as [Ha Hb]. by split; apply lookup_insert_is_Some; destruct (decide (id = ll_a l)), (decide (id = ll_b l)); auto.
Qed.
Lemma ok_alter s id g :
  lab_ok s →
  (∀ l, ll_id (g l) = ll_id l ∧ ll_a (g l) = ll_a l ∧ ll_b (g l) = ll_b l ∧ ll_cost (g l) = ll_cost l) →
  (∀ l, lab_links s !! id = Some l → loss_valid (ll_loss_percent (g l)) = true) →
  (∀ l h, lab_links s !! id = Some l → lab_proxies s !! id = Some h →
     ll_desired_up (g l) = true ∧ effective_conditions (pace_ms s) (g l) = effective_conditions (pace_ms s) l) →
  lab_ok (set_lab_links s (alter g id (lab_links s))).
Proof.
  intros [Hn Hl He Hu Hp Hc] Hg Hv Hh.
  assert (Hinv : ∀ j l, alter g id (lab_links s) !! j = Some l → ∃ l0, lab_links s !! j = Some l0 ∧
    (j = id ∧ l = g l0 ∨ j ≠ id ∧ l = l0)).
  { intros j l. destruct (decide (j = id)) as [->|Hne].
    - rewrite lookup_alter_eq. intros (l0 & -> & ->)%fmap_Some. eauto.
    - rewrite lookup_alter_ne by done. eauto. }
  assert (Hsame : ∀ j l, alter g id (lab_links s) !! j = Some l → ∃ l0, lab_links s !! j = Some l0 ∧
    ll_a l = ll_a l0 ∧ ll_b l = ll_b l0).
  { intros j l (l0 & E & [[_ ->]|[_ ->]])%Hinv; exists l0; split; try done. by destruct (Hg l0) as (_ & -> & -> & _). }
  constructor; cbn; try done.
  - intros j l (l0 & E & [[-> ->]|[_ ->]])%Hinv; [|by apply Hl]. destruct (Hl id l0 E) as [(H1 & H2 & H3 & _) H5].
    destruct (Hg l0) as (G1 & G2 & G3 & G4). split; [|done]. unfold link_ok. rewrite G1, G2, G3, G4. auto.
  - intros j l (l0 & E & -> & ->)%Hsame. by apply (He j).
  - intros i j l m (l0 & El & -> & ->)%Hsame (m0 & Em & Ea & Eb)%Hsame Hj. apply (Hu i j l0 m0); try done.
    unfold joins_pair in *. by rewrite <-Ea, <-Eb.
  - intros j h Hj. destruct (Hp j h Hj) as (l0 & E & Hd & Hcnd). destruct (decide (j = id)) as [->|Hne].
    + destruct (Hh l0 h E Hj) as [Hd' Hc']. exists (g l0). rewrite lookup_alter_eq, E. split; [done|].
      split; [done|congruence].
    + exists l0. by rewrite lookup_alter_ne.
Qed.

Lemma joins_pair_spec a b (l : LabLink spec_float) :
  joins_pair a b l = true ↔ ll_a l = a ∧ ll_b l = b ∨ ll_a l = b ∧ ll_b l = a.
Proof. unfold joins_pair. rewrite orb_true_iff, !andb_true_iff, !Z.eqb_eq. done. Qed.
Lemma ok_fetch_link s : lab_ok s → next_link s < u_max 64 → lab_ok (fetch_link s).1 ∧ next_link (fetch_link s).1 = next_link s + 1.
Proof.
  intros [Hn Hl He Hu Hp Hc] Hx.
  assert (wrap 64 (next_link s + 1) = next_link s + 1) as Hw.
  { unfold wrap. apply Z.mod_small. unfold u_max in Hx. lia. }
  split; [|done]. constructor; cbn; try done; rewrite ?Hw; [|lia].
  intros id l Hid. destruct (Hl id l Hid). split; [done|lia].
Qed.
Lemma ok_new_link s id a b cost :
  lab_ok s → id < next_link s → lab_links s !! id = None → lab_proxies s !! id = None →
  a ≠ b → cost ≠ 0 → is_Some (lab_nodes s !! a) → is_Some (lab_nodes s !! b) →
  (∀ j m, lab_links s !! j = Some m → joins_pair a b m = false) →
  lab_ok (set_lab_links s (<[id := new_link id a b cost]> (lab_links s))).
Proof.
  intros [Hn Hl He Hu Hp Hc] Hid Hfl Hfp Hab Hcost Ha Hb Hnew. constructor; cbn; try done.
  - intros j l [[<- <-]|[_ Hj]]%lookup_insert_Some; [|by apply Hl]. split; [|done]. by split_and!.
  - intros j l [[<- <-]|[_ Hj]]%lookup_insert_Some; [done|by apply (He j)].
  - intros i j l m [[<- <-]|[Hi El]]%lookup_insert_Some [[<- <-]|[Hj Em]]%lookup_insert_Some Hm; [done| | |by eapply Hu].
    + cbn [new_link ll_a ll_b] in Hm. by rewrite (Hnew j m Em) in Hm.
    + specialize (Hnew i l El). assert (joins_pair a b l = true); [|congruence].
      apply joins_pair_spec in Hm. apply joins_pair_spec. cbn in Hm. naive_solver.
  - intros j h Hj. destruct (Hp j h Hj) as (l & E & ?). exists l. split; [|done].
    rewrite lookup_insert_ne; [done|]. congruence.
Qed.
(** [delete] of a link, and of its proxy. *)
Lemma ok_remove s (P : LabLink spec_float → Prop) `{!∀ l, Decision (P l)} nodes proxies :
  lab_ok s → nodes ⊆ lab_nodes s → proxies ⊆ lab_proxies s →
  (∀ id l, lab_links s !! id = Some l → P l → is_Some (nodes !! ll_a l) ∧ is_Some (nodes !! ll_b l)) →
  (∀ id l h, lab_links s !! id = Some l → proxies !! id = Some h → P l) →
  lab_ok (set_lab_links (set_nodes (set_proxies s proxies) nodes) (filter (λ x, P x.2) (lab_links s))).
Proof.
  intros [Hn Hl He Hu Hp Hc] Hsn Hsp Hends Hpr. constructor; cbn; try done.
  - intros id n Hid. apply Hn. by eapply lookup_weaken.
  - intros id l [Hid _]%map_lookup_filter_Some. by apply Hl.
  - intros id l [Hid HP]%map_lookup_filter_Some. by apply (Hends id).
  - intros i j l m [Hi _]%map_lookup_filter_Some [Hj _]%map_lookup_filter_Some. by apply Hu.
  - intros id h Hid. destruct (Hp id h (lookup_weaken _ _ _ _ Hid Hsp)) as (l & El & Hd & Hcnd).
    exists l. split; [|done]. apply map_lookup_filter_Some. split; [done|]. cbn. by eapply Hpr.
Qed.

Section Handlers.
Context (parse_address : bytes → result bytes bytes).

Lemma wp_connect_existing id (post0 : _ → Lab → Prop) s :
  (∀ e, post0 (Err e) s) →
  (∀ e, post0 (Err e) (set_proxies s (delete id (lab_proxies s)))) →
  (∀ l, lab_links s !! id = Some l → is_Some (lab_nodes s !! ll_a l) → is_Some (lab_nodes s !! ll_b l) →
     post0 (Ok ()) (connected id l s)) →
  wps (connect_existing_link parse_address id) post0 s.
Proof.
  intros He Hd Ho. unfold connect_existing_link. wp_steps.
  destruct (lab_links s !! id) as [l|] eqn:El; [|apply He].
  wp_step. apply wp_require_running; [done|]. intros ai Ha.
  wp_step. apply wp_require_running; [done|]. intros bi Hb.
  wp_step. apply wp_stop_proxies. cbn [foldr]. destruct (parse_address _); [|apply Hd].
  wp_steps. apply wp_ask_internal. intros [addr|e]; [|apply Hd].
  wp_step. apply wp_post. intros [[]|e]; [|apply Hd]. wp_step. apply wp_post. intros [[]|e]; [|apply Hd].
  wp_step. apply wp_post. intros [[]|e].
  - wp_steps. specialize (Ho l eq_refl Ha Hb). unfold connected, set_proxies in *. cbn in *.
    by rewrite insert_delete_eq.
  - unfold stop_proxy. wp_steps. intros u _. apply Hd.
Qed.

(** A request leaves the counters of nodes and links as they were, or takes
    one number. *)
Definition keeps_nodes (s s' : Lab) : Prop :=
  lab_nodes s' = lab_nodes s ∧ next_node s' = next_node s ∧ next_link s ≤ next_link s' ≤ next_link s + 1.
Lemma fresh_link s : lab_ok s → lab_links s !! next_link s = None ∧ lab_proxies s !! next_link s = None.
Proof.
  intros Hs. assert (lab_links s !! next_link s = None) as Hl.
  { destruct (lab_links s !! next_link s) as [l|] eqn:E; [|done]. destruct (lo_links _ Hs _ _ E). lia. }
  split; [done|]. destruct (lab_proxies s !! next_link s) as [h|] eqn:E; [|done].
  destruct (lo_proxies _ Hs _ _ E) as (l & El & _). congruence.
Qed.
Lemma wp_connect_nodes a b cost (post0 : _ → Lab → Prop) s :
  lab_ok s → next_link s < u_max 64 →
  (∀ e s', lab_ok s' → keeps_nodes s s' → lab_links s' = lab_links s → post0 (Err e) s') →
  (∀ id s', lab_ok s' → keeps_nodes s s' → is_Some (lab_links s' !! id) → post0 (Ok id) s') →
  wps (connect_nodes parse_address a b cost) post0 s.
Proof.
  intros Hs Hlast He Ho. assert (keeps_nodes s s) as Hrefl by (split_and!; [done|done|lia|lia]).
  unfold connect_nodes. destruct (Z.eqb_spec a b) as [|Hab]; [by apply He|].
  destruct (Z.eqb_spec cost 0) as [|Hcost]; [by apply He|]. wp_steps.
  destruct (existsb (joins_pair a b) (btree_values (lab_links s))) eqn:Ex; [by apply He|].
  destruct (ok_fetch_link s Hs Hlast) as [Hs1 Hn1]. destruct (fresh_link s Hs) as [Hfl Hfp].
  set (id := next_link s) in *. set (s1 := (fetch_link s).1) in *.
  assert (keeps_nodes s s1) as Hk by (split_and!; [done|done|lia|lia]).
  wp_steps. change (fetch_link s).2 with id. fold s1. set (s2 := set_lab_links s1 (<[id := new_link id a b cost]> (lab_links s1))).
  assert (Herr : ∀ e, post0 (Err e) (set_proxies s1 (delete id (lab_proxies s1)))).
  { intros e. apply He; [|done|done]. by apply ok_unproxied. }
  apply wp_connect_existing.
  - intros e. wp_steps. apply wp_stop_proxies. wp_steps. eapply eq_ind; [apply Herr|].
    unfold s2, set_proxies, set_lab_links. cbn. by rewrite delete_insert_id.
  - intros e. wp_steps. apply wp_stop_proxies. wp_steps. eapply eq_ind; [apply Herr|].
    unfold s2, set_proxies, set_lab_links. cbn. by rewrite delete_insert_id, delete_delete_eq.
  - intros l El Ha Hb. cbn in El. rewrite lookup_insert_eq in El. injection El as <-. cbn [ll_a ll_b new_link] in Ha, Hb.
    assert (lab_ok s2) as Hs2.
    { apply ok_new_link; try done; [lia|]. intros j m Hj. destruct (joins_pair a b m) eqn:Em; [|done].
      rewrite <-Ex. symmetry. apply existsb_exists. exists m. split; [|done]. apply list_elem_of_In, elem_of_btree_values. eauto. }
    assert (lab_links s2 !! id = Some (new_link id a b cost)) as El by apply lookup_insert_eq.
    wp_steps. apply Ho.
    + apply (ok_alter (connected id (new_link id a b cost) s2)).
      * by apply ok_connected.
      * done.
      * intros l Hl. cbn. change (lab_links s2 !! id = Some l) in Hl. rewrite El in Hl. by injection Hl as <-.
      * intros l h Hl _. change (lab_links s2 !! id = Some l) in Hl. rewrite El in Hl. by injection Hl as <-.
    + done.
    + cbn. rewrite lookup_alter_eq, lookup_insert_eq. by eexists.
Qed.

(** ** Requests *)

Definition served_by (s : Lab) {A} (r : result A (StatusCode * bytes)) (s' : Lab) : Prop :=
  lab_ok s' ∧ ∀ e, r = Err e → lab_links s' = lab_links s.
Lemma served_err {A} s s' e : lab_ok s' → lab_links s' = lab_links s → served_by s (@Err A _ e) s'.
Proof. intros Hs Hl. split; [done|]. by intros ? _. Qed.
Lemma served_ok {A} s s' (x : A) : lab_ok s' → served_by s (Ok x) s'.
Proof. intros Hs. by split. Qed.
Hint Resolve served_err served_ok ok_proxies ok_stop ok_connected ok_flow : lab.

Lemma wp_spawn_new_node name (post0 : _ → Lab → Prop) s :
  lab_ok s → next_node s < u_max 64 →
  (∀ e s', lab_ok s' → lab_links s' = lab_links s → post0 (Err e) s') →
  (∀ n s', lab_ok s' → lab_links s' = lab_links s → lab_nodes s !! next_node s = None →
     lab_nodes s' = <[next_node s := n]> (lab_nodes s) → next_node s' = next_node s + 1 →
     next_link s' = next_link s → post0 (Ok (next_node s)) s') →
  wps (spawn_new_node name) post0 s.
Proof.
  intros Hs Hlast He Ho. destruct (ok_fetch_node s Hs Hlast) as [Hs1 Hn1]. unfold spawn_new_node. wp_steps.
  change (fetch_node s).2 with (next_node s). apply wp_spawn_process; [by intros; apply He|].
  intros n Hid. unfold insert_node. wp_steps. apply (Ho n); try done.
  - apply ok_insert_node; [done|lia|done].
  - destruct (lab_nodes s !! next_node s) as [m|] eqn:E; [|done]. destruct (lo_nodes _ Hs _ _ E). lia.
Qed.
Lemma links_apart s id l j :
  lab_ok s → lab_nodes s !! id = None → lab_links s !! j = Some l → ll_a l ≠ id ∧ ll_b l ≠ id.
Proof.
  intros Hs Hid Hj. destruct (lo_ends _ Hs j l Hj) as [[n Hn] [m Hm]]. split; congruence.
Qed.
(** A node that has just been added goes again without a trace. *)
Lemma wp_discard_node id (post0 : unit → Lab → Prop) s s0 n :
  lab_ok s → lab_ok s0 → lab_links s = lab_links s0 → lab_nodes s0 !! id = None →
  lab_nodes s = <[id := n]> (lab_nodes s0) →
  (∀ s', lab_ok s' → lab_links s' = lab_links s0 → post0 () s') → wps (discard_node id) post0 s.
Proof.
  intros Hs Hs0 Hl Hid Hn Hpost. unfold discard_node. wp_steps. unfold remove_managed. cbn [fst snd].
  rewrite Hn, lookup_insert_eq, delete_insert_id by done.
  assert (Hfin : wps (writing (remove_links_of id)) post0 (set_nodes s (lab_nodes s0))).
  { wp_steps. apply Hpost.
    - refine (ok_remove s (λ l, ll_a l ≠ id ∧ ll_b l ≠ id) (lab_nodes s0) (lab_proxies s) Hs _ _ _ _); [|done|..].
      + rewrite Hn. by apply insert_subseteq.
      + intros j l Hj _. rewrite Hl in Hj. by apply (lo_ends _ Hs0 j).
      + intros j l h Hj _. rewrite Hl in Hj. by eapply links_apart.
    - cbn. rewrite Hl. apply map_filter_id. intros j l Hj. by eapply links_apart. }
  unfold kill_ignored. destruct (mn_child n); wp_steps; [|exact Hfin]. intros r _. exact Hfin.
Qed.
Lemma serves_add_node name attach s :
  lab_ok s → lasting s → wps (add_node parse_address name attach) (served_by s) s.
Proof.
  intros Hs [Hln Hll]. unfold add_node. wp_step.
  assert (Hmain : ∀ attach, wps (id ←! spawn_new_node name;
    _ ←! match attach with
         | None => done_ ()
         | Some peer =>
             r ← connect_nodes parse_address peer id default_link_cost;
             match r with Err e => _ ← discard_node id; fail e | Ok _ => done_ () end
         end;
    r ← reading (λ s, lab_nodes s !! id);
    match r with Some n => done_ (RespNode (mn_info n)) | None => Panic end) (served_by s) s).
  { intros [peer|].
    - wp_step. apply wp_spawn_new_node; [done|done|by auto with lab|].
      intros n s1 Hs1 Hl1 Hfresh Hn1 Hnn Hnl. wp_steps. apply wp_connect_nodes; [done|lia| |].
      + intros e s2 Hs2 (Hn2 & _) Hl2. wp_steps. eapply (wp_discard_node _ _ s2 s n); [done|done|congruence|done|congruence|].
        intros s3 Hs3 Hl3. wp_steps. by apply served_err.
      + intros link s2 Hs2 (Hn2 & _) _. wp_steps. rewrite Hn2, Hn1, lookup_insert_eq. by apply served_ok.
    - wp_step. apply wp_spawn_new_node; [done|done|by auto with lab|].
      intros n s1 Hs1 Hl1 Hfresh Hn1 Hnn Hnl. wp_steps. rewrite Hn1, lookup_insert_eq. by apply served_ok. }
  destruct attach as [id|].
  - wp_step. apply wp_require_running; [by auto with lab|]. intros i _. apply Hmain.
  - do 3 wp_step. apply Hmain.
Qed.

Lemma elem_of_incident s node desired id :
  lab_ok s → id ∈ incident node desired s ↔
  ∃ l, lab_links s !! id = Some l ∧ should_restore_link l node desired = true.
Proof.
  intros Hs. unfold incident. rewrite list_elem_of_fmap. setoid_rewrite list_elem_of_filter.
  setoid_rewrite elem_of_btree_values. split.
  - intros (l & -> & Hr & j & Hj). destruct (lo_links _ Hs j l Hj) as [(-> & _) _]. eauto.
  - intros (l & Hl & Hr). exists l. destruct (lo_links _ Hs id l Hl) as [(-> & _) _]. eauto.
Qed.
Lemma foldr_delete_subseteq {V} (m : gmap Z V) ids : foldr delete m ids ⊆ m.
Proof. induction ids as [|id ids IH]; cbn; [done|]. etrans; [apply delete_subseteq|done]. Qed.
Lemma serves_remove_node id s : lab_ok s → wps (remove_node id) (served_by s) s.
Proof.
  intros Hs. unfold remove_node, incident_link_ids. wp_steps. apply wp_stop_proxies. wp_steps.
  unfold remove_managed. cbn [fst snd]. set (px := foldr delete (lab_proxies s) _).
  assert (Hpx : ∀ j l h, lab_links s !! j = Some l → px !! j = Some h → ll_a l ≠ id ∧ ll_b l ≠ id).
  { intros j l h Hj Hh. unfold px in Hh. destruct (decide (j ∈ incident id false s)) as [Hin|Hin].
    { by rewrite lookup_foldr_delete in Hh. }
    rewrite elem_of_incident in Hin by done. unfold should_restore_link in Hin. cbn in Hin.
    split; intros E; apply Hin; exists l; split; try done; rewrite E, Z.eqb_refl; by rewrite ?orb_true_r. }
  assert (px ⊆ lab_proxies s) as Hsub by apply foldr_delete_subseteq.
  cbn [lab_nodes set_proxies]. destruct (lab_nodes s !! id) as [n|] eqn:En.
  - assert (Hfin : wps (_ ← writing (remove_links_of id); done_ (RespStatus NO_CONTENT)) (served_by s)
      (set_nodes (set_proxies s px) (delete id (lab_nodes s)))).
    { wp_steps. apply served_ok.
      refine (ok_remove s (λ l, ll_a l ≠ id ∧ ll_b l ≠ id) (delete id (lab_nodes s)) px Hs _ Hsub _ Hpx).
      - apply delete_subseteq.
      - intros j l Hj [Ha Hb]. rewrite !lookup_delete_ne by done. by apply (lo_ends _ Hs j). }
    unfold kill_ignored. destruct (mn_child n); wp_steps; [|exact Hfin]. intros r _. exact Hfin.
  - wp_steps. apply served_err; [|done]. rewrite delete_id by done. by apply (ok_proxies s px).
Qed.
Lemma ok_take_child id s : lab_ok s → lab_ok (take_child id s).1 ∧ lab_links (take_child id s).1 = lab_links s.
Proof.
  intros Hs. unfold take_child. destruct (lab_nodes s !! id) as [n|] eqn:E; [|done]. cbn [fst]. split; [|done].
  destruct (lo_nodes _ Hs id n E) as [Hi Hlt]. by apply ok_insert_node.
Qed.
Lemma serves_crash_node id s : lab_ok s → wps (crash_node id) (served_by s) s.
Proof.
  intros Hs. destruct (ok_take_child id s Hs) as [Hs1 Hl1]. unfold crash_node. wp_steps.
  destruct (take_child id s).2 as [[name child]|]; [|by apply served_err].
  assert (Hfin : wps (incident ← incident_link_ids id false; _ ← stop_proxies incident;
    done_ (RespStatus NO_CONTENT)) (served_by s) (take_child id s).1).
  { unfold incident_link_ids. wp_steps. apply wp_stop_proxies. wp_steps. apply served_ok. by apply ok_stop. }
  wp_step. unfold kill_child. destruct child; [|exact Hfin]. apply wp_ask_internal.
  intros [[]|e]; [exact Hfin|by apply served_err].
Qed.
Lemma serves_reconnect ids s0 s :
  lab_ok s → lab_links s = lab_links s0 →
  (∀ id, id ∈ ids → ∃ l, lab_links s0 !! id = Some l ∧ ll_desired_up l = true) →
  wps (reconnect parse_address ids) (served_by s0) s.
Proof.
  revert s. induction ids as [|id ids IH]; intros s Hs Hl Hd; cbn [reconnect].
  { by apply served_ok. }
  assert (Hrec : ∀ s, lab_ok s → lab_links s = lab_links s0 → wps (reconnect parse_address ids) (served_by s0) s).
  { intros. apply IH; [done|done|]. intros; apply Hd; by right. }
  assert (Herr : ∀ (e : StatusCode * bytes) s, lab_ok s → lab_links s = lab_links s0 →
    wps (let '(status, text) := e in if decide (status = SERVICE_UNAVAILABLE)
         then reconnect parse_address ids else fail (status, text)) (served_by s0) s).
  { intros [st text] t Ht Hlt. destruct (decide _); [by apply Hrec|by apply served_err]. }
  wp_step. apply wp_connect_existing.
  - intros e. by apply (Herr e).
  - intros e. apply (Herr e); [by apply ok_unproxied|done].
  - intros l El _ _. destruct (Hd id ltac:(by left)) as (l' & El' & Hl').
    rewrite Hl, El' in El. injection El as ->. apply Hrec; [|done].
    apply ok_connected; [done|congruence|done].
Qed.
Lemma serves_restart_node id s : lab_ok s → wps (restart_node parse_address id) (served_by s) s.
Proof.
  intros Hs. destruct (ok_take_child id s Hs) as [Hs1 Hl1]. unfold restart_node, restart_managed_node.
  wp_steps. destruct (take_child id s) as [s1 r] eqn:Et. cbn [fst snd] in *.
  destruct r as [[name child]|]; [|by apply served_err].
  assert (Hfin : ∀ s2, lab_ok s2 → lab_links s2 = lab_links s →
    wps (incident ← incident_link_ids id true; reconnect parse_address incident) (served_by s) s2).
  { intros s2 Hs2 Hl2. unfold incident_link_ids. wp_steps. apply serves_reconnect; [done|done|].
    intros j (l & El & Hr)%elem_of_incident; [|done]. exists l. split; [congruence|].
    unfold should_restore_link in Hr. apply andb_true_iff in Hr as [_ Hr]. done. }
  assert (Hspawn : wps (managed ←! spawn_process id name; _ ← insert_node id managed; done_ ())
    (λ r s', match r with
             | Ok _ => wps (incident ← incident_link_ids id true; reconnect parse_address incident) (served_by s) s'
             | Err e => served_by s (@Err Response _ e) s' end) s1).
  { wp_step. apply wp_spawn_process; [by intros; apply served_err|]. intros n Hn. unfold insert_node. do 4 wp_step.
    apply Hfin; [|done]. apply ok_insert_node; [done| |done].
    unfold take_child in Et. destruct (lab_nodes s !! id) as [m|] eqn:Em; [|done].
    injection Et as <- _ _. cbn. by destruct (lo_nodes _ Hs id m Em). }
  wp_step. unfold kill_child. destruct child; [|exact Hspawn]. apply wp_ask_internal.
  intros [[]|e]; [exact Hspawn|by apply served_err].
Qed.

Lemma serves_add_link a b cost s :
  lab_ok s → lasting s → wps (add_link parse_address a b cost) (served_by s) s.
Proof.
  intros Hs [_ Hl]. unfold add_link, respond_link. wp_step. apply wp_connect_nodes; [done|done| |].
  - intros e s' Hs' _ Hl'. by apply served_err.
  - intros id s' Hs' _ [l El]. wp_steps. rewrite El. by apply served_ok.
Qed.
Lemma serves_toggle_link id s : lab_ok s → wps (toggle_link parse_address id) (served_by s) s.
Proof.
  intros Hs. unfold toggle_link. wp_steps. destruct (lab_links s !! id) as [l|] eqn:El; [|by apply served_err].
  destruct (lo_links _ Hs id l El) as [(_ & _ & _ & Hv) _].
  destruct (ll_desired_up l) eqn:Hd; unfold switch_link, respond_link; cbn [negb].
  - wp_steps. rewrite El. wp_steps. apply wp_stop_proxies. wp_steps. cbn [lab_links set_lab_links set_proxies].
    rewrite lookup_alter_eq, El. apply served_ok. refine (ok_alter _ id (mark_up false false) (ok_unproxied s id Hs) _ _ _).
    + done.
    + intros l' E. cbn in E. rewrite El in E. by injection E as <-.
    + intros l' h _ Hh. cbn [lab_proxies set_proxies] in Hh. by rewrite lookup_delete_eq in Hh.
  - wp_step. wp_step. apply wp_connect_existing.
    + intros e. by apply served_err.
    + intros e. apply served_err; [|done]. by apply ok_unproxied.
    + intros l' El' _ _. rewrite El in El'. injection El' as <-. wp_steps. cbn [lab_links connected set_proxies]. rewrite El.
      wp_steps. cbn [lab_links set_lab_links connected set_proxies]. rewrite lookup_alter_eq, El. apply served_ok.
      refine (ok_connected (set_lab_links s (alter (mark_up true true) id (lab_links s))) id (mark_up true true l) _ _ eq_refl).
      * apply ok_alter; [done|done| |].
        -- intros l' E. rewrite El in E. by injection E as <-.
        -- intros l' h E Hh. rewrite El in E. injection E as <-. done.
      * cbn. by rewrite lookup_alter_eq, El.
Qed.
Lemma serves_set_conditions id c s : lab_ok s → wps (set_link_conditions id c) (served_by s) s.
Proof.
  intros Hs. unfold set_link_conditions. destruct (loss_valid (loss_percent c)) eqn:Hv; cbn [negb]; [|by apply served_err].
  wp_steps. destruct (lab_links s !! id) as [l|] eqn:El.
  - unfold update_proxy_conditions. wp_steps. unfold update_proxy. cbn [lab_proxies set_lab_links].
    set (g := with_conditions c).
    assert (Hg : lab_ok (set_lab_links (set_proxies s (delete id (lab_proxies s))) (alter g id (lab_links s)))).
    { apply (ok_alter (set_proxies s (delete id (lab_proxies s))) id g).
      - by apply ok_unproxied.
      - done.
      - done.
      - intros l' h _ Hh. cbn [lab_proxies set_proxies] in Hh. by rewrite lookup_delete_eq in Hh. }
    destruct (lab_proxies s !! id) as [h|] eqn:Eh; apply served_ok.
    + destruct (lo_proxies _ Hs id h Eh) as (l' & El' & Hd & _). rewrite El in El'. injection El' as <-.
      assert (Hc : lab_ok (connected id (g l) (set_lab_links (set_proxies s (delete id (lab_proxies s)))
        (alter g id (lab_links s))))).
      { apply ok_connected; [done| |done]. cbn. by rewrite lookup_alter_eq, El. }
      unfold connected, set_proxies, set_lab_links in *. cbn in *. by rewrite insert_delete_eq in Hc.
    + by rewrite delete_id in Hg.
  - assert (alter (with_conditions c) id (lab_links s) = lab_links s) as -> by (apply alter_id; congruence).
    wp_steps. apply served_err; [|done]. by destruct s.
Qed.
Lemma serves_send_packet src dst prio body s : lab_ok s → wps (send_packet src dst prio body) (served_by s) s.
Proof.
  intros Hs. unfold send_packet, node_admin. wp_steps. destruct (lab_nodes s !! src) as [n|]; [|by apply served_err].
  wp_steps. apply wp_post. intros [[]|e]; wp_steps; [apply served_ok|apply served_err; [|done]]; by apply ok_flow.
Qed.
End Handlers.
