(* ===== verification/LabStart.v ===== *)
(** * Starting the processes of the laboratory

    The command lines of both binaries: what the laboratory passes to a node it
    spawns, what the node makes of it, and the state the node serves.  Binding a
    port belongs to the operating system and is a parameter. *)

From Stdlib Require Import Strings.Byte Strings.String.
From S2P Require Export Prelude Ord Bytes Text SeqStore Types Proto Wire Transport PubSub Forward RuntimeCodec RuntimeLog ErrorText Lab ControlTypes Control Runtime LabNode LabManage.
From S2P Require Import RuntimeProps RuntimeTheorems.
Open Scope Z_scope.

(** ** Arguments *)

Definition missing_value (flag : bytes) : bytes := str "missing value for " ++ flag.
Definition missing_argument (flag : bytes) : bytes := str "missing required argument " ++ flag.
(** The value that follows the first argument equal to [flag]. *)
Fixpoint find_arg (args : list bytes) (flag : bytes) : option (result bytes bytes) :=
  match args with
  | [] => None
  | argument :: args =>
      if decide (argument = flag) then
        Some match args with value :: _ => Ok value | [] => Err (missing_value flag) end
      else find_arg args flag
  end.
(** [parse_arg] of mblab-node. *)
Definition parse_arg (args : list bytes) (flag : bytes) (fallback : option bytes) :
  result bytes bytes :=
  match find_arg args flag with
  | Some r => r
  | None => match fallback with Some v => Ok v | None => Err (missing_argument flag) end
  end.
(** [parse_arg] of mblab. *)
Definition lab_parse_arg (args : list bytes) (flag fallback : bytes) : result bytes bytes :=
  match find_arg args flag with Some r => r | None => Ok fallback end.

(** ** The node *)

Record NodeArgs := {
  na_id : Z; na_name : bytes; na_mesh_port : Z; na_admin_port : Z; na_seq_path : bytes;
}.
#[global] Instance NodeArgs_eq_dec : EqDecision NodeArgs.
Proof. solve_decision. Defined.
Definition node_args (args : list bytes) : result NodeArgs bytes :=
  id_text ←? parse_arg args (str "--id") None;
  id ←? map_err ParseIntError_display (parse_u64 id_text);
  name ←? parse_arg args (str "--name") (Some (str "node-" ++ decimal id));
  mesh_text ←? parse_arg args (str "--mesh-port") (Some (str "0"));
  mesh_port ←? map_err ParseIntError_display (parse_u16 mesh_text);
  admin_text ←? parse_arg args (str "--admin-port") (Some (str "0"));
  admin_port ←? map_err ParseIntError_display (parse_u16 admin_text);
  seq_path ←? parse_arg args (str "--seq-path") None;
  Ok {| na_id := id; na_name := name; na_mesh_port := mesh_port; na_admin_port := admin_port;
        na_seq_path := seq_path |}.

(** What the process holds while it serves. *)
Record NodeProcess := {
  np_app : AppState;
  np_runtime : Runtime FileSeqStore;
  np_endpoint : Endpoint;
  np_outcomes : OutcomeLog;
  np_banner : bytes;
}.

Section Node.
(** [TcpListener::bind] on the loopback address: the address that was bound. *)
Context (bind_mesh bind_admin : Z → result bytes bytes).
(** The file store at a path, over the files there are. *)
Context (open_store : bytes → FileSeqStore).

Definition node_main (args : list bytes) : result NodeProcess bytes :=
  a ←? node_args args;
  mesh_addr ←? bind_mesh (na_mesh_port a);
  let endpoint := bind (node_id (na_id a)) [] in
  let config := {| config_node := node_id (na_id a); config_epoch := 1; config_peer_costs := ∅ |} in
  rt ←? map_err RuntimeError_display
          (spawn_with_seq_store config (ep_local endpoint) (open_store (na_seq_path a))).2;
  let rt := enable_diagnostics rt in
  let app := {| app_name := na_name a; app_numeric_id := na_id a; app_mesh_addr := mesh_addr |} in
  admin_addr ←? bind_admin (na_admin_port a);
  Ok {| np_app := app; np_runtime := rt; np_endpoint := endpoint; np_outcomes := OutcomeLog_new;
        np_banner := str "mblab-node " ++ decimal (na_id a) ++ str " mesh=" ++ mesh_addr ++
                     str " admin=" ++ admin_addr |}.
End Node.

Record HealthResponse := { hr_status : bytes; hr_node_id : Z; hr_name : bytes; hr_mesh_addr : bytes }.
Definition health (st : AppState) : HealthResponse :=
  {| hr_status := str "ok"; hr_node_id := app_numeric_id st; hr_name := app_name st;
     hr_mesh_addr := app_mesh_addr st |}.
(** [elapsed_millis]: saturated to 64 bits. *)
Definition elapsed_millis (elapsed : Z) : Z := Z.min elapsed (u_max 64).
(** The handler of [/snapshot]: the latest snapshot of the runtime and the log. *)
Definition serve_snapshot (p : NodeProcess) (elapsed : Z) : NodeSnapshot :=
  snapshot_response (np_app p) (elapsed_millis elapsed) (snapshot (np_runtime p))
    (ol_log (np_outcomes p)).

(** ** The laboratory *)

(** The arguments of mblab. *)
Definition lab_args (args : list bytes) : result (Z * Z * Z) bytes :=
  port_text ←? lab_parse_arg args (str "--port") (str "8080");
  port ←? map_err ParseIntError_display (parse_u16 port_text);
  initial_text ←? lab_parse_arg args (str "--initial") (str "5");
  initial ←? map_err ParseIntError_display (parse_uint usize_bits initial_text);
  pace_text ←? lab_parse_arg args (str "--tick-ms") (str "220");
  pace ←? map_err ParseIntError_display (parse_u64 pace_text);
  Ok (port, initial, pace).

(** The path of the sequence file of a node. *)
Definition seq_path (state_dir : bytes) (id : Z) : bytes :=
  state_dir ++ str "/node-" ++ decimal id ++ str ".seq".
(** The command line [spawn_process] gives a node, the program first. *)
Definition spawn_args (program state_dir : bytes) (id : Z) (name : bytes) (mesh_port admin_port : Z) :
  list bytes :=
  [program; str "--id"; decimal id; str "--name"; name; str "--mesh-port"; decimal mesh_port;
   str "--admin-port"; decimal admin_port; str "--seq-path"; seq_path state_dir id].

(** ** Flags *)

Definition node_flags : list bytes :=
  [str "--id"; str "--name"; str "--mesh-port"; str "--admin-port"; str "--seq-path"].
(** A number is no flag. *)
Lemma decimal_not_flag n flag : flag ∈ node_flags → decimal n ≠ flag.
Proof.
  assert (Hall : Forall (λ f, head f = Some x2d) node_flags) by (repeat constructor).
  intros Hf <-. rewrite Forall_forall in Hall. apply Hall in Hf.
  pose proof (decimal_digits_digits 20 n) as Hd. fold (decimal n) in Hd.
  destruct (decimal n) as [|b l]; [done|]. cbn in Hf. injection Hf as ->.
  inversion Hd as [|?? Hb%is_digit_value _]; subst. change (Z_of_byte x2d) with 45 in Hb. lia.
Qed.
Lemma find_arg_skip args flag a : a ≠ flag → find_arg (a :: args) flag = find_arg args flag.
Proof. intros Hne. cbn. by rewrite decide_False. Qed.
Lemma find_arg_hit args flag v : find_arg (flag :: v :: args) flag = Some (Ok v).
Proof. cbn. by rewrite decide_True. Qed.

(** A name does not look like one of the flags that follow it. *)
Definition plain_name (name : bytes) : Prop :=
  name ∉ [str "--mesh-port"; str "--admin-port"; str "--seq-path"].

(** Membership in a list of flags. *)
Ltac flag_in := unfold node_flags; repeat first [apply list_elem_of_here | apply list_elem_of_further].
(** Find a flag behind arguments that differ from it. *)
Ltac find_flag Hp Hn :=
  unfold parse_arg, spawn_args;
  repeat rewrite find_arg_skip by
    first [ solve [apply decimal_not_flag; flag_in]
          | solve [intros ->; apply Hp; flag_in]
          | solve [intros ->; apply Hn; flag_in]
          | by vm_compute ];
  rewrite find_arg_hit.

Lemma spawn_args_parsed program dir id name mesh_port admin_port :
  program ∉ node_flags → plain_name name → is_uint 64 id → is_uint 16 mesh_port → is_uint 16 admin_port →
  node_args (spawn_args program dir id name mesh_port admin_port) =
  Ok {| na_id := id; na_name := name; na_mesh_port := mesh_port; na_admin_port := admin_port;
        na_seq_path := seq_path dir id |}.
Proof.
  intros Hp Hn Hid Hm Ha. unfold plain_name in Hn. unfold node_args.
  set (args := spawn_args _ _ _ _ _ _).
  assert (E1 : parse_arg args (str "--id") None = Ok (decimal id)) by (subst args; find_flag Hp Hn; done).
  assert (E2 : ∀ v, parse_arg args (str "--name") v = Ok name) by (intros v; subst args; find_flag Hp Hn; done).
  assert (E3 : ∀ v, parse_arg args (str "--mesh-port") v = Ok (decimal mesh_port))
    by (intros v; subst args; find_flag Hp Hn; done).
  assert (E4 : ∀ v, parse_arg args (str "--admin-port") v = Ok (decimal admin_port))
    by (intros v; subst args; find_flag Hp Hn; done).
  assert (E5 : parse_arg args (str "--seq-path") None = Ok (seq_path dir id)) by (subst args; find_flag Hp Hn; done).
  rewrite E1, parse_u64_decimal by done. cbn [map_err].
  rewrite E2, E3, parse_u16_decimal by done. cbn [map_err].
  rewrite E4, parse_u16_decimal by done. cbn [map_err]. by rewrite E5.
Qed.
(** A name that is a flag is taken for it: the node then reads another word as
    the value of the flag. *)
Lemma flag_name_misread program dir id mesh_port admin_port :
  program ∉ node_flags →
  parse_arg (spawn_args program dir id (str "--seq-path") mesh_port admin_port) (str "--seq-path") None =
  Ok (str "--mesh-port").
Proof.
  intros Hp. assert (Hn : str "--seq-path" ∉ [str "--mesh-port"]) by (vm_compute; set_solver).
  find_flag Hp Hn. done.
Qed.

(** ** A spawned node *)

Lemma spawn_succeeds {St} `{!SeqStore St} config (store store' : St) pol n :
  store_load store = (store', Ok n) → n ≠ u_max 64 →
  ∃ rt, spawn_with_seq_store_and_pubsub config (config_node config) store pol = (store', Ok rt) ∧
    snapshot rt = RuntimeSnapshot_empty (config_node config) RouteTable_default.
Proof.
  intros Hl Hn. unfold spawn_with_seq_store_and_pubsub.
  rewrite decide_False by (intros E; by apply E). rewrite Hl. cbn [map_err].
  rewrite (proj2 (Z.eqb_neq _ _) Hn). by eexists.
Qed.

(** C31: A node that the laboratory spawns starts with what the laboratory
    recorded.  Provided that neither the program nor the node's name is spelled
    like one of the flags of the command line ([node_flags], [plain_name]), that
    the ports it was given can be bound, and that its sequence file can be read
    and holds a number [n] that is not exhausted: the node comes up; it answers
    health checks and snapshots with the id, the name and the address the
    laboratory keeps for it; its mesh identity is that of its id, on the
    endpoint and in the runtime; and its control plane goes on from [n], so
    that a restarted node continues its sequence. *)
Theorem spawned_node_starts bind_mesh bind_admin open_store program dir id name mesh_port admin_port store' n :
  program ∉ node_flags → plain_name name → is_uint 64 id → is_uint 16 mesh_port → is_uint 16 admin_port →
  bind_mesh mesh_port = Ok (localhost mesh_port) → bind_admin admin_port = Ok (localhost admin_port) →
  store_load (open_store (seq_path dir id)) = (store', Ok n) → n ≠ u_max 64 →
  ∃ p, node_main bind_mesh bind_admin open_store (spawn_args program dir id name mesh_port admin_port) = Ok p ∧
    health (np_app p) = {| hr_status := str "ok"; hr_node_id := id; hr_name := name;
                           hr_mesh_addr := localhost mesh_port |} ∧
    (∀ elapsed, let s := serve_snapshot p elapsed in
       ns_id s = id ∧ ns_name s = name ∧ ns_mesh_addr s = localhost mesh_port ∧ ns_peers s = [] ∧
       ns_lsdb s = [] ∧ ns_routes s = [] ∧ ns_events s = [] ∧ ns_outcomes s = []) ∧
    ep_local (np_endpoint p) = node_id id ∧ ep_allowed (np_endpoint p) = ∅ ∧
    rt_ok (np_runtime p) ∧ rt_node (np_runtime p) = node_id id ∧ running (np_runtime p) = true ∧
    diagnostics_enabled (np_runtime p) = true ∧
    plane (np_runtime p) = with_auth_and_seq (node_id id) 1 n ∧ seq_store (np_runtime p) = store'.
Proof.
  intros Hp Hn Hid Hm Ha Hbm Hba Hload Hmax.
  set (config := {| config_node := node_id id; config_epoch := 1; config_peer_costs := ∅ |}).
  destruct (spawn_succeeds config _ store' ∅ n Hload Hmax) as (rt & Hs & Hsnap).
  destruct (spawn_Ok _ _ _ _ _ _ Hs) as (n' & Hl' & _ & Hnode & Hplane & _ & _ & _ & Hst & Hrun & _).
  rewrite Hload in Hl'. injection Hl' as <-. pose proof (spawn_ok _ _ _ _ _ _ Hs) as Hok.
  unfold node_main. rewrite (spawn_args_parsed _ _ _ _ _ _ Hp Hn Hid Hm Ha).
  cbv beta iota delta [na_id na_seq_path na_admin_port na_mesh_port na_name]. rewrite Hbm.
  unfold spawn_with_seq_store. cbn [bind ep_local]. fold config. change (node_id id) with (config_node config) at 1. rewrite Hs. cbn [snd map_err].
  rewrite Hba. eexists. split; [reflexivity|]. cbn [np_app np_runtime np_endpoint].
  split; [reflexivity|]. split.
  2: { split; [reflexivity|]. split; [reflexivity|].
       split; [apply (rt_ok_machines rt); [repeat split; reflexivity|exact Hok]|].
       split; [exact Hnode|]. split; [exact Hrun|]. split; [reflexivity|]. split; [exact Hplane|exact Hst]. }
  intros elapsed. unfold serve_snapshot. cbn [np_runtime np_app np_outcomes enable_diagnostics set_log snapshot].
  rewrite Hsnap. repeat split; reflexivity.
Qed.
