(* ===== verification/LabServe.v ===== *)
(** * Serving requests (bins/mblab)

    The theorems about the management of the laboratory: requests one after
    the other, and requests interleaved. *)

From Stdlib Require Import Strings.Byte Strings.String Floats.SpecFloat.
From S2P Require Export Prelude Ord Bytes Text Types Requests Lab LabProps LabProxy LabNode LabManage LabManageProps.
Open Scope Z_scope.

(** ** The pace *)

(** All proxies of the links [ls] are given new conditions. *)
Definition update_all (ls : list (LabLink spec_float)) (s : Lab) : Lab :=
  foldl (λ s l, update_proxy l (ll_id l) s) s ls.
Lemma wp_update_all ls (post0 : unit → Lab → Prop) s :
  post0 () (update_all ls s) →
  wps (for_each ls (λ l, update_proxy_conditions (ll_id l) l)) post0 s.
Proof.
  revert s. induction ls as [|l ls IH]; intros s H; cbn [for_each]; [done|].
  unfold update_proxy_conditions at 1. wp_steps. by apply IH.
Qed.
Lemma update_proxy_same l id s :
  lab_nodes (update_proxy l id s) = lab_nodes s ∧ lab_links (update_proxy l id s) = lab_links s ∧
  next_node (update_proxy l id s) = next_node s ∧ next_link (update_proxy l id s) = next_link s ∧
  pace_ms (update_proxy l id s) = pace_ms s.
Proof. unfold update_proxy. by destruct (lab_proxies s !! id). Qed.
Lemma update_all_same ls s :
  lab_nodes (update_all ls s) = lab_nodes s ∧ lab_links (update_all ls s) = lab_links s ∧
  next_node (update_all ls s) = next_node s ∧ next_link (update_all ls s) = next_link s ∧
  pace_ms (update_all ls s) = pace_ms s.
Proof.
  revert s. induction ls as [|l ls IH]; intros s; [done|].
  change (update_all (l :: ls) s) with (update_all ls (update_proxy l (ll_id l) s)).
  destruct (IH (update_proxy l (ll_id l) s)) as (-> & -> & -> & -> & ->). apply update_proxy_same.
Qed.
Lemma update_all_proxies ls s id h :
  lab_proxies (update_all ls s) !! id = Some h →
  ∃ h0, lab_proxies s !! id = Some h0 ∧
    ((∃ l, l ∈ ls ∧ ll_id l = id ∧ ph_conditions h = effective_conditions (pace_ms s) l) ∨
     h = h0 ∧ ∀ l, l ∈ ls → ll_id l ≠ id).
Proof.
  revert s. induction ls as [|l ls IH]; intros s Hh; [exists h; split; [done|]; right; split; [done|]; by intros l ?%elem_of_nil|].
  change (update_all (l :: ls) s) with (update_all ls (update_proxy l (ll_id l) s)) in Hh. destruct (IH _ Hh) as (h0 & H0 & Hor).
  destruct (update_proxy_same l (ll_id l) s) as (_ & _ & _ & _ & Hpace). rewrite Hpace in Hor. clear IH Hh.
  unfold update_proxy in H0. destruct (lab_proxies s !! ll_id l) as [h1|] eqn:E1.
  - cbn [lab_proxies set_proxies] in H0. apply lookup_insert_Some in H0 as [[<- <-]|[Hne H0]].
    + exists h1. split; [done|]. left. destruct Hor as [(l' & Hl' & ? & ?)|[-> _]]; [exists l'; split; [by right|done]|].
      exists l. split; [by left|done].
    + exists h0. split; [done|]. destruct Hor as [(l' & Hl' & ? & ?)|[-> Hno]]; [left; exists l'; split; [by right|done]|].
      right. split; [done|]. intros l' [->|Hl']%elem_of_cons; [done|by apply Hno].
  - exists h0. split; [done|]. destruct Hor as [(l' & Hl' & ? & ?)|[-> Hno]]; [left; exists l'; split; [by right|done]|].
    right. split; [done|]. intros l' [->|Hl']%elem_of_cons; [congruence|by apply Hno].
Qed.
Lemma ok_pace s pace :
  lab_ok s → let s1 := set_counters s (next_node s) (next_link s) (next_flow s) pace in
  lab_ok (update_all (filter (λ l, ll_desired_up l = true) (btree_values (lab_links s1))) s1).
Proof.
  intros [Hn Hl He Hu Hp Hc] s1. set (ls := filter _ _).
  destruct (update_all_same ls s1) as (E1 & E2 & E3 & E4 & E5).
  constructor; rewrite ?E1, ?E2, ?E3, ?E4, ?E5; try done.
  intros id h (h0 & H0 & Hor)%update_all_proxies. destruct (Hp id h0 H0) as (l & El & Hd & _).
  exists l. split; [done|]. split; [done|]. assert (l ∈ ls) as Hin.
  { apply list_elem_of_filter. split; [done|]. apply elem_of_btree_values. by exists id. }
  destruct (Hl id l El) as [(Hid & _) _]. destruct Hor as [(l' & Hl' & Hid' & ->)|[_ Hno]]; [|by destruct (Hno l Hin)].
  apply list_elem_of_filter in Hl' as [_ [j Hj]%elem_of_btree_values].
  change (lab_links s !! j = Some l') in Hj. destruct (Hl j l' Hj) as [(Hj' & _) _].
  assert (j = id) by congruence. subst j. assert (l' = l) as -> by congruence. done.
Qed.

Section Handlers.
Context (parse_address : bytes → result bytes bytes).

Lemma serves_set_pace pace s : lab_ok s → wps (set_pace pace) (served_by s) s.
Proof.
  intros Hs. unfold set_pace. destruct (2000 <? pace); [by apply served_err|].
  wp_steps. apply wp_update_all. wp_steps. apply served_ok. by apply (ok_pace s pace).
Qed.
(** The ids asked for are different, so the report is computed. *)
Lemma infos_ids s :
  (∀ id n, lab_nodes s !! id = Some n → ni_id (mn_info n) = id) → NoDup ((λ x : NodeInfo * Z, ni_id x.1) <$> node_infos s).
Proof.
  intros Hn. unfold node_infos. rewrite <-list_fmap_compose.
  replace (_ <$> btree_values (lab_nodes s)) with (btree_keys (lab_nodes s)); [apply btree_keys_NoDup|].
  unfold btree_keys, btree_values. rewrite <-list_fmap_compose. apply list_fmap_ext.
  intros i [k n] Hi. cbn. symmetry. apply Hn, elem_of_btree_iter. by eapply list_elem_of_lookup_2.
Qed.
Lemma report_computed s links now pace collected :
  (∀ id n, lab_nodes s !! id = Some n → ni_id (mn_info n) = id) → collected.*1 ⊆+ node_infos s →
  ∃ r cs, collect_state (F:=spec_float) links now pace collected = Some r ∧ reports r cs.
Proof.
  intros Hn Hsub. apply collect_state_spec.
  replace (answer_id <$> collected) with ((λ x : NodeInfo * Z, ni_id x.1) <$> collected.*1).
  - apply submseteq_Permutation in Hsub as [rest Hp]. pose proof (infos_ids s Hn) as Hnd.
    rewrite Hp, fmap_app in Hnd. by apply NoDup_app in Hnd as [? _].
  - rewrite <-list_fmap_compose. done.
Qed.
Lemma serves_state s : lab_ok s → wps api_state (served_by s) s.
Proof.
  intros Hs. unfold api_state. wp_steps. intros collected Hc. wp_steps. intros now _. wp_steps.
  destruct (report_computed s (lab_links s) (Z.min now (u_max 64)) (pace_ms s) collected) as (r & cs & -> & _).
  - intros id n Hid. by destruct (lo_nodes _ Hs id n Hid).
  - exact Hc.
  - by apply served_ok.
Qed.

(** ** Start *)

Lemma wp_spawn_all names (post0 : _ → Lab → Prop) s :
  lab_ok s → next_node s + zlen names ≤ u_max 64 → 
  (∀ e s', post0 (Err e) s') →
  (∀ ids s', lab_ok s' → length ids = length names → next_link s' = next_link s → post0 (Ok ids) s') →
  wps (spawn_all names) post0 s.
Proof.
  revert post0 s. induction names as [|name names IH]; intros post0 s Hs Hc He Ho; cbn [spawn_all].
  { wp_steps. by apply Ho. }
  rewrite zlen_cons in Hc. pose proof (zlen_nonneg names).
  wp_step. apply wp_spawn_new_node; [done|lia|by intros; apply He|].
  intros n s1 Hs1 _ _ _ Hn1 Hl1. wp_step. apply IH; [done|lia|done|]. intros ids s2 Hs2 Hlen Hl2. wp_steps.
  apply Ho; [done|cbn; lia|lia].
Qed.
Lemma wp_connect_all edges (post0 : _ → Lab → Prop) s :
  lab_ok s → next_link s + zlen edges ≤ u_max 64 →
  (∀ e s', post0 (Err e) s') →
  (∀ s', lab_ok s' → next_link s' ≤ next_link s + zlen edges → post0 (Ok ()) s') →
  wps (connect_all parse_address edges) post0 s.
Proof.
  revert s. induction edges as [|[a b] edges IH]; intros s Hs Hc He Ho; cbn [connect_all].
  { wp_steps. apply Ho; [done|]. rewrite zlen_nil. lia. }
  rewrite zlen_cons in *. pose proof (zlen_nonneg edges). wp_step.
  apply wp_connect_nodes; [done|lia|by intros; apply He|].
  intros id s1 Hs1 (_ & _ & Hl1) _. apply IH; [done|lia|done|]. intros s2 Hs2 Hl2. apply Ho; [done|lia].
Qed.
Lemma length_initial_names initial : (length (initial_names initial) ≤ initial)%nat.
Proof.
  unfold initial_names. rewrite length_app, length_take, length_fmap, length_seq.
  unfold INITIAL_NAMES. rewrite length_fmap. cbn [length]. lia.
Qed.
Lemma Lab_new_ok pace : lab_ok (Lab_new pace).
Proof. constructor; try done; cbn; lia. Qed.
Lemma wp_startup initial pace :
  (Z.of_nat initial < 2 ^ 62) →
  wps (startup parse_address initial) (λ r s, ∀ u : unit, r = Ok u → lab_ok s) (Lab_new pace).
Proof.
  intros Hi. unfold startup. wp_step. pose proof (length_initial_names initial) as Hlen.
  apply wp_spawn_all; [apply Lab_new_ok| |done|].
  { cbn [next_node Lab_new]. unfold zlen, u_max. lia. }
  intros ids s Hs Hl Hnl. cbn [next_link Lab_new] in Hnl.
  assert (zlen (default_edges ids) ≤ 6) as Hd.
  { unfold default_edges, zlen. change 6 with (Z.of_nat (length DEFAULT_EDGES)). apply inj_le.
    generalize DEFAULT_EDGES. intros es. induction es as [|e es IH]; [done|]. cbn [omap list_omap].
    destruct (mbind _ _); cbn [length]; lia. }
  assert (zlen (chain_edges ids) ≤ zlen ids) as Hch.
  { unfold chain_edges, zlen. case_decide; [|cbn; lia]. rewrite length_zip_with, !length_drop. lia. }
  wp_step. apply wp_connect_all; [done|unfold u_max; lia|done|]. intros s1 Hs1 Hl1.
  apply wp_connect_all; [done| |done|by intros]. unfold zlen, u_max in *. lia.
Qed.

(** ** One request after the other *)

Lemma serves_request q s : lab_ok s → lasting s → wps (dispatch parse_address q) (served_by s) s.
Proof.
  intros Hs Hl. destruct q; cbn [dispatch].
  - by apply serves_state.
  - by apply serves_add_node.
  - by apply serves_remove_node.
  - by apply serves_crash_node.
  - by apply serves_restart_node.
  - by apply serves_add_link.
  - by apply serves_toggle_link.
  - by apply serves_set_conditions.
  - by apply serves_set_pace.
  - by apply serves_send_packet.
Qed.
(** The states between requests, from a start with [initial] nodes. *)
Inductive served : Lab → Prop :=
| served_start initial pace s :
    Z.of_nat initial < 2 ^ 62 → runs good (startup parse_address initial) (Lab_new pace) (Some (Ok ())) s → served s
| served_next q s r s' : served s → lasting s → runs good (dispatch parse_address q) s r s' → served s'.
Lemma served_lab_ok s : served s → lab_ok s.
Proof.
  induction 1 as [initial pace s Hi Hr|q s r s' _ IH Hl Hr].
  - destruct (wp_runs _ _ _ _ _ _ (wp_startup initial pace Hi) Hr) as (x & [= <-] & Hx). by eapply Hx.
  - by destruct (wp_runs _ _ _ _ _ _ (serves_request q s IH Hl) Hr) as (x & -> & ? & _).
Qed.
End Handlers.

(** Shutting down leaves no proxy and no process. *)
Lemma wp_shutdown s :
  wps shutdown_lab (λ _ s', lab_proxies s' = ∅ ∧ lab_links s' = lab_links s ∧
    ∀ id n, lab_nodes s' !! id = Some n → mn_child n = false) s.
Proof.
  unfold shutdown_lab. wp_steps. apply wp_stop_proxies. wp_steps.
  set (s1 := (take_children _).1).
  assert (Hs1 : lab_proxies s1 = ∅ ∧ lab_links s1 = lab_links s ∧
    ∀ id n, lab_nodes s1 !! id = Some n → mn_child n = false).
  { split_and!; [|done|].
    - cbn. apply map_empty. intros id. destruct (decide (id ∈ btree_keys (lab_proxies s))) as [Hin|Hin].
      + by apply lookup_foldr_delete.
      + rewrite lookup_foldr_delete_not_elem_of by done. rewrite elem_of_btree_keys in Hin.
        by apply eq_None_not_Some.
    - intros id n. cbn. rewrite lookup_fmap. by intros (m & _ & ->)%fmap_Some. }
  apply (wp_for_each _ _ _ (λ s', s' = s1)); [done| |by intros ? ->].
  intros id s' _ ->. unfold kill_ignored. wp_steps. by intros r _.
Qed.
