(* ===== verification/LabInterleave.v ===== *)
(** * Interleaved requests (bins/mblab)

    Handlers give up the locks between their accesses.  What the tables keep
    in every interleaving, and what two requests can do to each other. *)

From Stdlib Require Import Strings.Byte Strings.String Floats.SpecFloat.
From S2P Require Export Prelude Ord Bytes Text Types Requests Lab LabProps LabProxy LabNode LabManage LabManageProps LabServe.
Open Scope Z_scope.

Abbreviation kept := (keeps good lab_inv).

Ltac kp_step :=
  match goal with
  | |- keeps _ _ _ (try_bind _ _) _ => apply keeps_try
  | |- keeps _ _ _ (_ ← _; _) _ => apply keeps_bind
  | |- keeps _ _ _ (let _ := _ in _) _ => cbv zeta
  | |- keeps _ _ _ (reading ?f) _ =>
      let s := fresh "s" in let Hs := fresh "Hs" in
      cbn [keeps reading fst snd]; intros s Hs; split; [exact Hs|]
  | |- keeps _ _ _ (ask _) _ => cbn [keeps ask]
  | |- keeps _ _ _ (Return _) _ => cbn [keeps]
  | |- keeps _ _ _ (done_ _) _ => cbn [keeps done_]
  | |- keeps _ _ _ (fail _) _ => cbn [keeps fail]
  end.
Ltac kp_steps := repeat kp_step.

(** ** Changes of the tables *)

Lemma inv_nodes s m :
  lab_inv s → (∀ id n, m !! id = Some n → lab_nodes s !! id = Some n ∨ ni_id (mn_info n) = id) →
  lab_inv (set_nodes s m).
Proof.
  intros [Hn Hl Hp] Hm. constructor; cbn; try done. intros id n [Hid|?]%Hm; [by apply Hn|done].
Qed.
Lemma inv_links s m :
  lab_inv s → (∀ id l, m !! id = Some l → lab_links s !! id = Some l ∨ link_ok id l) → lab_inv (set_lab_links s m).
Proof.
  intros [Hn Hl Hp] Hm. constructor; cbn; try done. intros id l [Hid|?]%Hm; [by apply Hl|done].
Qed.
Lemma inv_proxies s m :
  lab_inv s →
  (∀ id h, m !! id = Some h → lab_proxies s !! id = Some h ∨ loss_valid (loss_percent (ph_conditions h)) = true) →
  lab_inv (set_proxies s m).
Proof.
  intros [Hn Hl Hp] Hm. constructor; cbn; try done. intros id h [Hid|?]%Hm; [by apply (Hp id)|done].
Qed.
Lemma inv_counters s n l f pace : lab_inv s → lab_inv (set_counters s n l f pace).
Proof. by intros [Hn Hl Hp]. Qed.
Lemma inv_insert_node s id n :
  lab_inv s → ni_id (mn_info n) = id → lab_inv (set_nodes s (<[id := n]> (lab_nodes s))).
Proof.
  intros Hs Hn. apply inv_nodes; [done|]. intros j m [[<- <-]|[_ ?]]%lookup_insert_Some; [by right|by left].
Qed.
Lemma inv_insert_link s id l :
  lab_inv s → link_ok id l → lab_inv (set_lab_links s (<[id := l]> (lab_links s))).
Proof.
  intros Hs Hn. apply inv_links; [done|]. intros j m [[<- <-]|[_ ?]]%lookup_insert_Some; [by right|by left].
Qed.
Lemma inv_insert_proxy s id h :
  lab_inv s → loss_valid (loss_percent (ph_conditions h)) = true →
  lab_inv (set_proxies s (<[id := h]> (lab_proxies s))).
Proof.
  intros Hs Hn. apply inv_proxies; [done|]. intros j m [[<- <-]|[_ ?]]%lookup_insert_Some; [by right|by left].
Qed.
Lemma inv_alter s id g :
  lab_inv s → (∀ l, link_ok id l → link_ok id (g l)) → lab_inv (set_lab_links s (alter g id (lab_links s))).
Proof.
  intros Hs Hg. apply inv_links; [done|]. intros j l Hj. destruct (decide (j = id)) as [->|Hne].
  - rewrite lookup_alter_eq in Hj. apply fmap_Some in Hj as (l0 & El & ->). right. by apply Hg, (li_links _ Hs).
  - rewrite lookup_alter_ne in Hj by done. by left.
Qed.
Lemma inv_remove_links s id : lab_inv s → lab_inv (remove_links_of id s).
Proof. intros Hs. apply inv_links; [done|]. intros j l [Hj _]%map_lookup_filter_Some. by left. Qed.
Lemma inv_remove_managed s id : lab_inv s → lab_inv (remove_managed id s).1.
Proof. intros Hs. apply inv_nodes; [done|]. intros j n [_ Hj]%lookup_delete_Some. by left. Qed.
Lemma inv_take_child s id : lab_inv s → lab_inv (take_child id s).1.
Proof.
  intros Hs. unfold take_child. destruct (lab_nodes s !! id) as [n|] eqn:E; [|done].
  apply inv_insert_node; [done|]. exact (li_nodes _ Hs id n E).
Qed.
Lemma inv_update_proxy s l id : lab_inv s → loss_valid (ll_loss_percent l) = true → lab_inv (update_proxy l id s).
Proof. intros Hs Hl. unfold update_proxy. destruct (lab_proxies s !! id); [|done]. by apply inv_insert_proxy. Qed.

(** ** Pieces *)

Lemma kept_writing P f (post0 : unit → Prop) :
  (∀ s, lab_inv s → lab_inv (f s)) → post0 () → kept P (writing f) post0.
Proof. intros Hf Hp. cbn. auto. Qed.
Lemma kept_ask_internal {A} P (q : Query (result A bytes)) post0 : (∀ r, post0 r) → kept P (ask_internal q) post0.
Proof. intros H. unfold ask_internal. kp_steps. intros a _. apply H. Qed.
Lemma kept_post P admin p post0 : (∀ r, post0 r) → kept P (post admin p) post0.
Proof.
  intros H. unfold post. kp_step. apply kept_ask_internal. intros [[st body]|e]; [|done].
  destruct (is_success st); apply H.
Qed.
Lemma kept_stop_proxies P ids (post0 : unit → Prop) : post0 () → kept P (stop_proxies ids) post0.
Proof.
  intros Hp. unfold stop_proxies. kp_step. cbn [keeps atomic fst snd]. intros s Hs. split.
  - apply inv_proxies; [done|]. intros id h Hh. left. eapply lookup_weaken; [exact Hh|apply foldr_delete_subseteq].
  - apply keeps_for_each; [|done]. intros h _. cbn. done.
Qed.
Lemma kept_health P n admin post0 : (∀ r, post0 r) → kept P (wait_for_health_loop n admin) post0.
Proof.
  intros H. induction n as [|n IH]; [apply H|]. cbn [wait_for_health_loop]. kp_steps.
  intros ok _. destruct ok; [apply H|]. kp_steps. intros u _. apply IH.
Qed.
Lemma kept_spawn_process P id name (post0 : _ → Prop) :
  (∀ e, post0 (Err e)) → (∀ n, ni_id (mn_info n) = id → post0 (Ok n)) → kept P (spawn_process id name) post0.
Proof.
  intros He Ho. unfold spawn_process. kp_step. apply kept_ask_internal. intros [mp|e]; [|apply He].
  kp_step. apply kept_ask_internal. intros [ap|e]; [|apply He]. kp_steps. intros off _.
  kp_step. apply kept_ask_internal. intros [pid|e]; [|apply He]. kp_step. apply kept_health.
  intros [[]|e]; [|apply He]. by apply Ho.
Qed.
Lemma kept_require_running P id (post0 : _ → Prop) : (∀ r, post0 r) → kept P (require_running_node id) post0.
Proof.
  intros H. unfold require_running_node. kp_steps. destruct (lab_nodes s !! id) as [n|]; [|apply H].
  destruct (managed_running n); [|apply H]. kp_steps. intros ok _. destruct ok; apply H.
Qed.
Lemma kept_insert_node P id n (post0 : unit → Prop) :
  ni_id (mn_info n) = id → post0 () → kept P (insert_node id n) post0.
Proof. intros Hn Hp. apply kept_writing; [|done]. intros s Hs. by apply inv_insert_node. Qed.
Lemma kept_spawn_new_node P name post0 : (∀ r, post0 r) → kept P (spawn_new_node name) post0.
Proof.
  intros H. unfold spawn_new_node. kp_step. cbn [keeps atomic fst snd]. intros s Hs. split; [by apply inv_counters|].
  kp_steps. apply kept_spawn_process; [intros; apply H|]. intros n Hn. kp_step. apply kept_insert_node; [done|apply H].
Qed.

Section Handlers.
Context (parse_address : bytes → result bytes bytes).

Lemma kept_connect_existing P id post0 :
  (∀ r, post0 r) → kept P (connect_existing_link parse_address id) post0.
Proof.
  intros H. unfold connect_existing_link. kp_steps. destruct (lab_links s !! id) as [l|] eqn:El; [|apply H].
  destruct (li_links _ Hs id l El) as (_ & _ & _ & Hv).
  kp_step. apply kept_require_running. intros [ai|e]; [|apply H].
  kp_step. apply kept_require_running. intros [bi|e]; [|apply H].
  kp_step. apply kept_stop_proxies. destruct (parse_address _); [|apply H].
  kp_steps. apply kept_ask_internal. intros [addr|e]; [|apply H].
  kp_step. apply kept_post. intros [[]|e]; [|apply H]. kp_step. apply kept_post. intros [[]|e]; [|apply H].
  kp_step. apply kept_post. intros [[]|e].
  - kp_step. apply kept_writing; [|apply H]. intros s1 Hs1. by apply inv_insert_proxy.
  - unfold stop_proxy. kp_steps. intros u _. apply H.
Qed.
Lemma link_ok_mark_up id d u l : link_ok id l → link_ok id (mark_up d u l).
Proof. done. Qed.
Lemma kept_connect_nodes P a b cost post0 :
  (∀ r, post0 r) → kept P (connect_nodes parse_address a b cost) post0.
Proof.
  intros H. unfold connect_nodes. destruct (Z.eqb_spec a b) as [|Hab]; [apply H|].
  destruct (Z.eqb_spec cost 0) as [|Hcost]; [apply H|]. kp_steps. destruct (existsb _ _); [apply H|].
  kp_step. cbn [keeps atomic fst snd]. intros s1 Hs1. split; [by apply inv_counters|]. kp_step. apply kept_writing.
  { intros s2 Hs2. apply inv_insert_link; [done|]. by split_and!. }
  kp_step. apply kept_connect_existing. intros [[]|e]; kp_step.
  - apply kept_writing; [|apply H]. intros s2 Hs2. by apply inv_alter.
  - apply kept_writing.
    + intros s2 Hs2. apply inv_links; [done|]. intros j l [_ Hj]%lookup_delete_Some. by left.
    + kp_step. apply kept_stop_proxies, H.
Qed.
Lemma kept_kill P id child (post0 : unit → Prop) : post0 () → kept P (kill_ignored id child) post0.
Proof. intros H. unfold kill_ignored. destruct child; [|done]. kp_steps. by intros r _. Qed.
Lemma kept_kill_child P id child post0 : (∀ r, post0 r) → kept P (kill_child id child) post0.
Proof. intros H. unfold kill_child. destruct child; [|apply H]. by apply kept_ask_internal. Qed.
Lemma kept_respond_link id : kept True (respond_link id) (λ _, True).
Proof. unfold respond_link. kp_steps. by destruct (lab_links s !! id). Qed.

(** ** Requests *)

Lemma kept_add_node name attach : kept True (add_node parse_address name attach) (λ _, True).
Proof.
  unfold add_node. kp_step.
  assert (Hmain : ∀ attach, kept True (id ←! spawn_new_node name;
    _ ←! match attach with
         | None => done_ ()
         | Some peer =>
             r ← connect_nodes parse_address peer id default_link_cost;
             match r with Err e => _ ← discard_node id; fail e | Ok _ => done_ () end
         end;
    r ← reading (λ s, lab_nodes s !! id);
    match r with Some n => done_ (RespNode (mn_info n)) | None => Panic end) (λ _, True)).
  { intros peer. kp_step. apply kept_spawn_new_node. intros [id|e]; [|done].
    assert (Hend : kept True (r ← reading (λ s, lab_nodes s !! id);
      match r with Some n => done_ (RespNode (mn_info n)) | None => Panic end) (λ _, True)).
    { kp_steps. by destruct (lab_nodes s !! id). }
    destruct peer as [peer|]; [|exact Hend]. kp_steps. apply kept_connect_nodes. intros [link|e]; [exact Hend|].
    kp_step. unfold discard_node. kp_step. cbn [keeps atomic fst snd]. intros s Hs. split; [by apply inv_remove_managed|].
    kp_step. destruct (remove_managed id s).2 as [n|]; [apply kept_kill|];
      (apply kept_writing; [|done]); intros; by apply inv_remove_links. }
  destruct attach as [id|].
  - kp_step. apply kept_require_running. intros [i|e]; [apply Hmain|done].
  - kp_step. kp_step. kp_step. apply Hmain.
Qed.
Lemma kept_remove_node id : kept False (remove_node id) (λ _, True).
Proof.
  unfold remove_node, incident_link_ids. kp_steps. apply kept_stop_proxies. kp_step. cbn [keeps atomic fst snd].
  intros s1 Hs1. split; [by apply inv_remove_managed|]. destruct (remove_managed id s1).2 as [n|]; [|done].
  kp_step. apply kept_kill. kp_step. apply kept_writing; [|done]. intros; by apply inv_remove_links.
Qed.
Lemma kept_crash_node id : kept False (crash_node id) (λ _, True).
Proof.
  unfold crash_node, incident_link_ids. kp_step. cbn [keeps atomic fst snd]. intros s Hs. split; [by apply inv_take_child|].
  destruct (take_child id s).2 as [[name child]|]; [|done]. kp_step. apply kept_kill_child. intros [[]|e]; [|done].
  kp_steps. by apply kept_stop_proxies.
Qed.
Lemma kept_reconnect ids : kept False (reconnect parse_address ids) (λ _, True).
Proof.
  induction ids as [|id ids IH]; [done|]. cbn [reconnect]. kp_step. apply kept_connect_existing.
  intros [[]|[st text]]; [done|]. by destruct (decide _).
Qed.
Lemma kept_restart_node id : kept False (restart_node parse_address id) (λ _, True).
Proof.
  unfold restart_node, restart_managed_node. do 2 kp_step. cbn [keeps atomic fst snd]. intros s Hs.
  split; [by apply inv_take_child|]. destruct (take_child id s).2 as [[name child]|]; [|done].
  kp_step. apply kept_kill_child. intros [[]|e]; [|done]. kp_step. apply kept_spawn_process; [done|].
  intros n Hn. kp_step. apply kept_insert_node; [done|]. kp_steps. unfold incident_link_ids. kp_steps.
  apply kept_reconnect.
Qed.
Lemma kept_switch P id on post0 : (∀ r, post0 r) → kept P (switch_link id on) post0.
Proof.
  intros H. unfold switch_link. kp_step. cbn [keeps atomic fst snd]. intros s Hs. split; [by apply inv_alter|].
  destruct (lab_links s !! id); apply H.
Qed.
Lemma kept_toggle_link id : kept True (toggle_link parse_address id) (λ _, True).
Proof.
  unfold toggle_link. kp_steps. destruct (lab_links s !! id) as [l|]; [|done]. kp_step.
  destruct (ll_desired_up l); kp_step.
  - apply kept_switch. intros [[]|e]; [|done]. kp_step. apply kept_stop_proxies. kp_step. apply kept_respond_link.
  - apply kept_connect_existing. intros [[]|e]; [|done]. apply kept_switch. intros [[]|e]; [|done].
    apply kept_respond_link.
Qed.
Lemma kept_set_conditions id c : kept False (set_link_conditions id c) (λ _, True).
Proof.
  unfold set_link_conditions. destruct (loss_valid (loss_percent c)) eqn:Hv; cbn [negb]; [|done].
  kp_step. cbn [keeps atomic fst snd]. intros s Hs. split.
  - apply inv_alter; [done|]. intros l (? & ? & ? & _). by split_and!.
  - destruct (lab_links s !! id); [|done]. kp_steps. unfold update_proxy_conditions. apply kept_writing; [|done].
    intros; by apply inv_update_proxy.
Qed.
Lemma kept_set_pace pace : kept False (set_pace pace) (λ _, True).
Proof.
  unfold set_pace. destruct (2000 <? pace); [done|]. kp_step. apply kept_writing; [intros; by apply inv_counters|].
  kp_steps. apply keeps_for_each; [|done]. intros l [_ [id Hid]%elem_of_btree_values]%list_elem_of_filter.
  unfold update_proxy_conditions. apply kept_writing; [|done]. intros; apply inv_update_proxy; [done|]. by apply (li_links _ Hs id l).
Qed.
Lemma kept_send_packet src dst prio body : kept False (send_packet src dst prio body) (λ _, True).
Proof.
  unfold send_packet, node_admin. kp_steps. destruct (lab_nodes s !! src); [|done]. kp_steps.
  cbn [keeps atomic fst snd]. intros s1 Hs1. split; [by apply inv_counters|]. kp_step. apply kept_post. by intros [[]|e].
Qed.
(** The report is computed from what the tables held at different moments. *)
Definition is_report (r : result Response (StatusCode * bytes)) : Prop :=
  ∃ rep cs, r = Ok (RespState rep) ∧ reports rep cs.
Lemma kept_state : kept False api_state is_report.
Proof.
  unfold api_state. kp_steps. intros collected Hc. kp_steps. intros now _. kp_steps.
  destruct (report_computed s (lab_links s0) (Z.min now (u_max 64)) (pace_ms s1) collected) as (r & cs & -> & Hr).
  - apply (li_nodes _ Hs).
  - exact Hc.
  - by exists r, cs.
Qed.

(** The requests whose handlers index a table. *)
Definition indexes (q : Request) : Prop :=
  match q with AddNode _ _ | AddLink _ _ _ | ToggleLink _ => True | _ => False end.
Definition answers (q : Request) (r : result Response (StatusCode * bytes)) : Prop :=
  match q with GetState => is_report r | _ => True end.
Lemma kept_request q : kept (indexes q) (dispatch parse_address q) (answers q).
Proof.
  destruct q; cbn [dispatch indexes answers].
  - apply kept_state.
  - apply kept_add_node.
  - apply kept_remove_node.
  - apply kept_crash_node.
  - apply kept_restart_node.
  - unfold add_link. kp_step. apply kept_connect_nodes. intros [id|e]; [apply kept_respond_link|done].
  - apply kept_toggle_link.
  - apply kept_set_conditions.
  - apply kept_set_pace.
  - apply kept_send_packet.
Qed.
Lemma ok_inv s : lab_ok s → lab_inv s.
Proof.
  intros Hs. constructor.
  - intros id n Hid. by destruct (lo_nodes _ Hs id n Hid).
  - intros id l Hid. by destruct (lo_links _ Hs id l Hid).
  - intros id h Hid. destruct (lo_proxies _ Hs id h Hid) as (l & El & _ & ->). by apply (lo_links _ Hs id l El).
Qed.
End Handlers.

(** C29: Requests one after the other keep the laboratory consistent. From the
    start on, and as long as the counters of nodes and links last: nodes and
    links are filed under their ids; a link joins two different nodes of the
    laboratory, and two nodes have at most one link; a running proxy belongs
    to a link that is wanted, and carries exactly the conditions of that link
    and the pace. Every request can be served and none panics, whatever
    processes, sockets and nodes answer, and one that fails leaves the links
    as they were. *)
Theorem lab_requests_consistent parse_address s :
  served parse_address s →
  lab_ok s ∧
  ∀ q, lasting s →
    (∃ r s', runs good (dispatch parse_address q) s r s') ∧
    ∀ r s', runs good (dispatch parse_address q) s r s' →
      ∃ x, r = Some x ∧ lab_ok s' ∧ ∀ e, x = Err e → lab_links s' = lab_links s.
Proof.
  intros Hs. split; [by apply served_lab_ok with parse_address|]. intros q Hl. split.
  - apply runs_total. intros A qq. destruct qq; try (by exists (Err [])); try (by exists ()); try (by exists 0); [by exists true|].
    exists []. apply submseteq_nil_l.
  - intros r s' Hr. by apply (wp_runs _ _ _ _ _ _ (serves_request parse_address q s (served_lab_ok _ s Hs) Hl) Hr).
Qed.

(** C30: However the handlers of any number of requests interleave, nodes and
    links stay filed under their ids, links join two different nodes at a
    positive cost, and no link or proxy has a loss outside 0 to 100 percent
    (or NaN). The only handlers that can panic are those that index a table
    again after giving up its lock; a request for the state is always answered
    with a report that is right about the snapshots it was made from. *)
Theorem lab_interleaving_safe parse_address s0 s ts :
  served parse_address s0 →
  rtc (pool_step good (dispatch parse_address)) (s0, []) (s, ts) →
  lab_inv s ∧
  (∀ q, (q, Panic) ∈ ts → indexes q) ∧
  (∀ r, (GetState, Return r) ∈ ts → is_report r).
Proof.
  intros H0 Hr.
  destruct (pool_invariant good (dispatch parse_address) lab_inv indexes answers s0 (s, ts)) as [Hi Hts]; try done.
  - apply kept_request.
  - by apply ok_inv, (served_lab_ok parse_address).
  - split_and!; [done| |].
    + intros q Hq. exact (Hts q _ Hq).
    + intros r Hq. exact (Hts GetState _ Hq).
Qed.
