(* ===== verification/Samples.v ===== *)
(** * Concrete states and traces

    A small mesh of four nodes, and the states its components reach on short
    traces.  They show that the hypotheses of the theorems can hold. *)

From Stdlib Require Import Strings.Byte.
From S2P Require Export Prelude Ord Bytes Types Proto Wire WirePackets PubSub Protobuf PubSubTheorems Forward ForwardTheorems ControlTypes Control ControlProps ControlSync ControlRouting RuntimeCodec RuntimeCodecProps.

#[export] Existing Instance UnsecuredLsaAuth.

Definition node (k : Z) : NodeId :=
  default NodeId_default (from_bytes (replicate 31 x00 ++ be_bytes 1 k)).
Definition cost (z : Z) : LinkCost :=
  match LinkCost_new z with Ok c => c | Err _ => mk_link_cost 1 eq_refl end.
Definition adj (k z : Z) : Adjacency := {| adj_peer := node k; adj_cost := cost z |}.
Definition news : rstring := [x6e; x65; x77; x73].
Definition sub_ad : TopicAd :=
  {| topic := news; partition := []; roles := ROLE_SUBSCRIBE; head_seq := 0; tail_seq := 0 |}.
Definition message_of (o seq : Z) (adjs : list Adjacency) : LsaMessage :=
  {| lsa := {| origin := node o; epoch := 1; seq_no := seq; ttl_sec := 300;
               adjacencies := adjs; topics := [sub_ad] |};
     canonical_bytes := []; signature := [] |}.

(** ** The control plane of node 1

    Links 10 and 11 lead to nodes 2 and 3; node 4 is behind node 3. *)

Definition control_trace : list (MonoTime * ControlEvent) :=
  [(0, CeLinkUp 10 (node 2) (cost 5)); (1, CeLinkUp 11 (node 3) (cost 1));
   (2, CeFrame 10 (CfLsa (message_of 2 1 [adj 1 5; adj 4 1])));
   (3, CeFrame 11 (CfLsa (message_of 3 1 [adj 1 1; adj 4 2])));
   (4, CeFrame 11 (CfLsa (message_of 4 1 [adj 2 1; adj 3 2])))].
Definition cp_start : ControlPlane := with_auth_and_seq (node 1) 1 0.
Definition cp_after (start : ControlPlane) (tr : list (MonoTime * ControlEvent)) : ControlPlane :=
  match run start tr with Some (cp, _) => cp | None => start end.
Definition cp_dirty : ControlPlane := cp_after cp_start control_trace.
Definition spf_trace : list (MonoTime * ControlEvent) := [(200, CeTimer (CtSpfHold 1))].
Definition cp_routed : ControlPlane := cp_after cp_dirty spf_trace.

(** A neighbour: node 2, with one link to node 1. *)
Definition cp_other : ControlPlane :=
  cp_after (with_auth_and_seq (node 2) 1 0) [(0, CeLinkUp 7 (node 1) (cost 5))].

Definition cp_actions (start : ControlPlane) (tr : list (MonoTime * ControlEvent)) :
  list ControlAction := match run start tr with Some (_, a) => a | None => [] end.
Lemma run_cp_after start tr :
  match run start tr with Some _ => True | None => False end →
  run start tr = Some (cp_after start tr, cp_actions start tr).
Proof. unfold cp_after, cp_actions. by destruct (run start tr) as [[]|]. Qed.
Lemma reachable_run start tr :
  (∃ me epoch last_seq, start = with_auth_and_seq me epoch last_seq) →
  match run start tr with Some _ => True | None => False end →
  reachable (cp_after start tr).
Proof.
  intros (me & ep & sq & ->) Hr. unfold cp_after.
  destruct (run _ tr) as [[cp acts]|] eqn:E; [|done]. by exists me, ep, sq, tr, acts.
Qed.
Lemma cp_dirty_reachable : reachable cp_dirty.
Proof. apply reachable_run; [unfold cp_start; eauto|vm_compute; exact I]. Qed.
Lemma cp_other_reachable : reachable cp_other.
Proof. apply reachable_run; [eauto|vm_compute; exact I]. Qed.

(** ** The forwarder of node 1 *)

Definition sample_header (t : PacketType) (p : Priority) (d : Z) : ForwardHeader :=
  {| packet_type := t; priority := p; ttl := 8; flags := flags_empty;
     destination := node d; source := node 9; flow_id := 3; conflate_key := 0 |}.
Definition unicast (p : Priority) (d : Z) : ForwardPacket :=
  {| header := sample_header Unicast p d; multicast_destinations := []; payload := news |}.
Definition multicast (ds : list Z) : ForwardPacket :=
  {| header := sample_header Multicast P1 0; multicast_destinations := node <$> ds;
     payload := news |}.
Definition sample_routes : RouteTable := cp_routes cp_routed.
Definition fw_start : Forwarder := Forwarder_new (node 1) sample_routes.
Definition forward_trace : fw_trace :=
  [(0, FeInbound 10 (unicast P0 3)); (1, FeInbound 10 (unicast P2 4)); (2, FeLinkCredit 11 4096)].
Definition fw_after (start : Forwarder) (tr : fw_trace) : Forwarder :=
  match run start tr with Some (fw, _) => fw | None => start end.
Definition fw_busy : Forwarder := fw_after fw_start forward_trace.

Lemma fw_busy_reachable : fw_reachable fw_busy.
Proof.
  exists (node 1), sample_routes, forward_trace.
  assert (match run fw_start forward_trace with Some _ => True | None => False end) as H
    by (vm_compute; exact I).
  unfold fw_busy, fw_after. destruct (run fw_start forward_trace) as [[fw acts]|] eqn:E;
    [|destruct H].
  exists acts. split_and!; [|vm_compute; done|exact E].
  repeat constructor; vm_compute; done.
Qed.

(** ** Pub/Sub: node 1 publishes, node 2 subscribes *)

Definition news_topic : TopicKey :=
  match TopicKey_new news [] with Ok t => t | Err _ => mk_topic_key news [] eq_refl end.
Definition all_news : TopicSelector := {| sel_name := news; sel_partition := None |}.
Definition sample_policies : gmap rstring TopicPolicy :=
  {[ news := {| tp_priority := P1; tp_mode := Log |} ]}.
Definition ps_after (start : PubSub) (tr : list (MonoTime * PubSubEvent)) : PubSub :=
  match run start tr with Some (ps, _) => ps | None => start end.
Definition acts_after (start : PubSub) (tr : list (MonoTime * PubSubEvent)) : list PubSubAction :=
  match run start tr with Some (_, a) => a | None => [] end.

Definition publisher_trace : list (MonoTime * PubSubEvent) :=
  [(0, PeDiscoveryUpdated {[ all_news := {[ node 2; node 3 ]} ]});
   (1, PeLocalPublish news_topic [x41])].
Definition publisher0 : PubSub := PubSub_new (node 1) sample_policies.
Definition publisher : PubSub := ps_after publisher0 publisher_trace.
Definition subscriber0 : PubSub := PubSub_new (node 2) sample_policies.
Definition subscriber : PubSub := ps_after subscriber0 [(0, PeLocalSubscribe 5 all_news)].
(** The packet of the second publication. *)
Definition publication : PubSub * list PubSubAction :=
  match ps_handle publisher 2 (PeLocalPublish news_topic [x42]) with
  | Some r => r | None => (publisher, []) end.
Definition publication_bytes : bytes :=
  match publication.2 with PaSendMulticast _ _ _ _ _ bs :: _ => bs | _ => [] end.
Definition subscriber_trace : list (MonoTime * PubSubEvent) :=
  [(0, PeLocalSubscribe 5 all_news); (3, PeInbound (node 1) publication_bytes);
   (4, PeInbound (node 1) publication_bytes); (5, PeLocalUnsubscribe 5)].
