(* ===== verification/TestsWire.v ===== *)
(** * The unit tests of mb-types and mb-wire, run on the model

    Each test of the source is a definition over the model's operations: an
    assertion that fails, like a panic, makes it [None].  Evaluating them checks
    the definitions against what the authors of the code expect of it.
    Assertions on the addresses of buffers, by which the tests see that payloads
    are shared and not copied, have no counterpart: buffers are values here, and
    their contents are compared. *)

From Stdlib Require Import Strings.Byte Strings.String.
From S2P Require Export Prelude Ord Bytes Text Types Wire.
Open Scope Z_scope.

(** ** Assertions *)

(** A test ends with [Some ()] or panics. *)
Abbreviation test := (option unit).
Definition passed : test := Some ().
(** [assert!] and [assert_eq!] *)
Definition assert_that (P : Prop) `{Decision P} : test :=
  if bool_decide P then Some () else None.
Definition assert_eq {A} `{EqDecision A} (x y : A) : test := assert_that (x = y).
(** [Result::expect] *)
Definition expect {A E} (r : result A E) : option A :=
  match r with Ok a => Some a | Err _ => None end.
(** [for x in l { .. }] whose body only asserts, and one that changes a
    variable. *)
Definition for_each {A} (l : list A) (body : A → test) : test :=
  foldr (λ x k, body x;; k) passed l.
Fixpoint for_fold {A S} (l : list A) (body : A → S → option S) (s : S) : option S :=
  match l with
  | [] => Some s
  | x :: l => s ← body x s; for_fold l body s
  end.

Definition tests_pass (l : list test) : Prop := Forall (λ t, t = passed) l.
#[global] Instance tests_pass_dec l : Decision (tests_pass l).
Proof. unfold tests_pass. apply _. Defined.
(** Evaluate the tests. *)
Ltac run_tests := apply (bool_decide_unpack _); vm_compute; exact I.

(** [fn node(value: u8)] of every test module. *)
Definition test_node (value : Z) : NodeId :=
  mk_node_id (replicate 31 x00 ++ be_bytes 1 value) eq_refl.
(** [vec![0; n]] *)
Definition zeros (n : Z) : bytes := replicate (Z.to_nat n) x00.

(** ** mb-types *)

Definition node_id_display_is_fixed_width_hex : test :=
  let rendered := NodeId_display (mk_node_id ([x0a] ++ replicate 30 x00 ++ [xff]) eq_refl) in
  assert_eq (zlen rendered) 64;;
  assert_that (take 4 rendered = str "0a00");;
  assert_that (drop 60 rendered = str "00ff").

Lemma types_tests_pass : tests_pass [node_id_display_is_fixed_width_hex].
Proof. run_tests. Qed.

(** ** mb-wire *)

Definition forward_packet : option ForwardPacket :=
  flags ← expect (flags_from_bits (Z.lor RELIABLE_HINT CONFLATABLE));
  Some {| header := {| packet_type := Unicast; priority := P1; ttl := 32; flags := flags;
                       destination := test_node 2; source := test_node 1;
                       flow_id := 0x0102030405060708; conflate_key := 0x1112131415161718 |};
          multicast_destinations := []; payload := str "opaque payload" |}.

Definition frame_round_trips : test :=
  let original := WireFrame_control FtLsa (str "an lsa") in
  encoded ← expect (frame_encode original);
  assert_eq (zlen encoded) (HEADER_LEN + zlen (frame_payload original));;
  '(r, source) ← frame_decode encoded;
  decoded ← mjoin (expect r);
  assert_eq decoded original;;
  assert_that (source = []).

Definition frame_decodes_one_byte_at_a_time : test :=
  let original := WireFrame_control FtLsa (str "fragmented") in
  encoded ← expect (frame_encode original);
  '(_, decoded) ← for_fold encoded (λ byte '(source, decoded),
    '(r, source) ← frame_decode (source ++ [byte]);
    next ← expect r;
    match next with
    | Some _ => assert_eq decoded None;; Some (source, next)
    | None => Some (source, decoded)
    end) ([], None);
  assert_eq decoded (Some original).

Definition decoder_returns_multiple_buffered_frames_individually : test :=
  let first := WireFrame_control FtPing (str "one") in
  let second := WireFrame_control FtLsa (str "two") in
  one ← expect (frame_encode first);
  two ← expect (frame_encode second);
  '(r, source) ← frame_decode (one ++ two);
  assert_eq r (Ok (Some first));;
  '(r, source) ← frame_decode source;
  assert_eq r (Ok (Some second));;
  '(r, source) ← frame_decode source;
  assert_eq r (Ok None).

Definition oversized_length_is_rejected_from_the_header_alone : test :=
  let source := [byte_of_Z (Z.lor (Z.shiftl FRAME_VERSION 4) (FrameType_code FtLsa));
                 byte_of_Z (Channel_code ChControl); x00; x00] ++ be_bytes 4 (MAX_PAYLOAD_LEN + 1) in
  '(r, _) ← frame_decode source;
  assert_eq r (Err (FePayloadTooLarge (MAX_PAYLOAD_LEN + 1))).

Definition invalid_header_fields_are_rejected_without_panicking : test :=
  let cases :=
    [([x22; x00; x00; x00; x00; x00; x00; x00], FeUnsupportedVersion 2);
     ([x1f; x00; x00; x00; x00; x00; x00; x00], FeUnknownFrameType 15);
     ([x12; x09; x00; x00; x00; x00; x00; x00], FeUnknownChannel 9);
     ([x12; x00; x01; x00; x00; x00; x00; x00], FeUnsupportedFlags 1);
     ([x12; x00; x00; x01; x00; x00; x00; x00], FeNonZeroReserved 1)] in
  for_each cases (λ '(bytes, expected),
    '(r, _) ← frame_decode bytes;
    assert_eq r (Err expected)).

Definition forward_packet_round_trips_with_a_fixed_width_header : test :=
  original ← forward_packet;
  encoded ← expect (ForwardPacket_encode original);
  assert_eq (zlen encoded) (FORWARD_HEADER_LEN + zlen (payload original));;
  rest ← slice_from (Z.to_nat FORWARD_HEADER_LEN) encoded;
  assert_eq rest (payload original);;
  r ← ForwardPacket_decode encoded;
  decoded ← expect r;
  assert_eq decoded original.

Definition multicast_forward_packet_keeps_destinations_separate_from_shared_body : test :=
  original ← forward_packet;
  let h := header original in
  let original :=
    {| header := {| packet_type := Multicast; priority := priority h; ttl := ttl h; flags := flags h;
                    destination := NodeId_default; source := source h; flow_id := flow_id h;
                    conflate_key := conflate_key h |};
       multicast_destinations := [test_node 2; test_node 3]; payload := payload original |} in
  encoded ← expect (ForwardPacket_encode original);
  count ← slice (Z.to_nat FORWARD_HEADER_LEN) (Z.to_nat (FORWARD_HEADER_LEN + MULTICAST_COUNT_LEN)) encoded;
  assert_eq count (be_bytes 2 2);;
  r ← ForwardPacket_decode encoded;
  decoded ← expect r;
  assert_eq decoded original;;
  assert_eq (payload decoded)
    (drop (Z.to_nat (FORWARD_HEADER_LEN + multicast_prefix_len (zlen (multicast_destinations original))))
       encoded).

Definition multicast_payload_round_trips_canonically_and_slices_the_body : test :=
  let bs := str "opaque application payload" in
  original ← expect (MulticastPayload_new [test_node 3; test_node 1; test_node 2] bs);
  let encoded := MulticastPayload_encode original in
  r ← MulticastPayload_decode encoded;
  decoded ← expect r;
  assert_eq (destinations decoded) [test_node 1; test_node 2; test_node 3];;
  assert_eq (body decoded) bs;;
  assert_eq (body decoded) (drop (Z.to_nat (multicast_prefix_len 3)) encoded).

Definition multicast_payload_accepts_the_sixty_four_destination_boundary : test :=
  original ← expect (MulticastPayload_new (test_node <$> seqZ 0 MAX_MULTICAST_DESTINATIONS) []);
  r ← MulticastPayload_decode (MulticastPayload_encode original);
  decoded ← expect r;
  assert_eq decoded original.

Definition invalid_multicast_destination_lists_are_rejected : test :=
  assert_eq (MulticastPayload_new [] []) (Err McEmptyDestinations);;
  let too_many := test_node <$> seqZ 0 (MAX_MULTICAST_DESTINATIONS + 1) in
  assert_eq (MulticastPayload_new too_many []) (Err (McTooManyDestinations 65));;
  assert_eq (MulticastPayload_new [test_node 1; test_node 1] [])
    (Err (McDuplicateDestination (test_node 1)));;
  assert_eq (MulticastPayload_decode [x00]) (Some (Err (McHeaderTooShort 1)));;
  assert_eq (MulticastPayload_decode [x00; x00]) (Some (Err McEmptyDestinations));;
  let truncated := be_bytes 2 2 ++ as_bytes (test_node 1) in
  assert_eq (MulticastPayload_decode truncated)
    (Some (Err (McDestinationListTruncated (MULTICAST_COUNT_LEN + 2 * NODE_ID_LEN)
                  (MULTICAST_COUNT_LEN + NODE_ID_LEN))));;
  let duplicate := be_bytes 2 2 ++ as_bytes (test_node 1) ++ as_bytes (test_node 1) in
  assert_eq (MulticastPayload_decode duplicate) (Some (Err (McDuplicateDestination (test_node 1)))).

Definition multicast_prefix_is_included_in_the_forward_payload_limit : test :=
  assert_eq (MulticastPayload_new [test_node 1] (zeros MAX_FORWARD_PAYLOAD_LEN))
    (Err (McPayloadTooLarge (MAX_FORWARD_PAYLOAD_LEN + MULTICAST_COUNT_LEN + NODE_ID_LEN)));;
  assert_eq (MulticastPayload_decode (zeros (MAX_FORWARD_PAYLOAD_LEN + 1)))
    (Some (Err (McPayloadTooLarge (MAX_FORWARD_PAYLOAD_LEN + 1)))).

(** [packet.header.packet_type = t; packet.multicast_destinations = ds] *)
Definition retyped (p : ForwardPacket) (t : PacketType) (ds : list NodeId) : ForwardPacket :=
  let h := header p in
  {| header := {| packet_type := t; priority := priority h; ttl := ttl h; flags := flags h;
                  destination := destination h; source := source h; flow_id := flow_id h;
                  conflate_key := conflate_key h |};
     multicast_destinations := ds; payload := payload p |}.
Definition invalid_forward_packet_headers_are_rejected : test :=
  assert_eq (ForwardPacket_decode (zeros (FORWARD_HEADER_LEN - 1)))
    (Some (Err (FpHeaderTooShort (FORWARD_HEADER_LEN - 1))));;
  packet ← forward_packet;
  encoded ← expect (ForwardPacket_encode packet);
  let cases := [(0%nat, x02, FpUnsupportedVersion 2); (1%nat, x09, FpUnknownPacketType 9);
                (2%nat, x04, FpUnknownPriority 4)] in
  for_each cases (λ '(offset, value, expected),
    assert_eq (ForwardPacket_decode (<[offset := value]> encoded)) (Some (Err expected)));;
  assert_eq (ForwardPacket_decode (<[7%nat := byte_of_Z (Z.shiftl 1 3)]> encoded))
    (Some (Err (FpUnsupportedFlags (Z.shiftl 1 3))));;
  let unicast_with_destinations := retyped packet Unicast [test_node 3] in
  assert_eq (ForwardPacket_encode unicast_with_destinations)
    (Err (FpUnexpectedMulticastDestinations 1));;
  let multicast_without_destinations := retyped packet Multicast [] in
  assert_eq (ForwardPacket_encode multicast_without_destinations)
    (Err (FpInvalidMulticast McEmptyDestinations)).

Definition oversized_forward_payload_is_rejected_on_encode_and_decode : test :=
  let oversized_len := MAX_FORWARD_PAYLOAD_LEN + 1 in
  packet ← forward_packet;
  let packet := {| header := header packet;
                   multicast_destinations := multicast_destinations packet;
                   payload := zeros oversized_len |} in
  assert_eq (ForwardPacket_encode packet) (Err (FpPayloadTooLarge oversized_len));;
  assert_eq (ForwardPacket_decode (zeros (MAX_PAYLOAD_LEN + 1)))
    (Some (Err (FpPayloadTooLarge oversized_len))).

Definition wire_tests : list test :=
  [frame_round_trips; frame_decodes_one_byte_at_a_time;
   decoder_returns_multiple_buffered_frames_individually;
   oversized_length_is_rejected_from_the_header_alone;
   invalid_header_fields_are_rejected_without_panicking;
   forward_packet_round_trips_with_a_fixed_width_header;
   multicast_forward_packet_keeps_destinations_separate_from_shared_body;
   multicast_payload_round_trips_canonically_and_slices_the_body;
   multicast_payload_accepts_the_sixty_four_destination_boundary;
   invalid_multicast_destination_lists_are_rejected;
   multicast_prefix_is_included_in_the_forward_payload_limit;
   invalid_forward_packet_headers_are_rejected;
   oversized_forward_payload_is_rejected_on_encode_and_decode].
Lemma wire_tests_pass : tests_pass wire_tests.
Proof. run_tests. Qed.
