(* ===== verification/TestsForward.v ===== *)
(** * The unit tests of mb-forward, run on the model

    Each test of the source as a definition over [fw_handle] and the queries of
    the forwarder; see [TestsWire] for the assertions. *)

From Stdlib Require Import Strings.Byte Strings.String.
From S2P Require Export Prelude Ord Bytes Text Types Wire TestsWire ControlTypes Forward.
Open Scope Z_scope.

(** ** Helpers of the test module *)

Definition route_table_version (version : Z) (entries : list (NodeId * LinkId * Z * Z)) : RouteTable :=
  {| table_version := version;
     table_routes := foldl (λ m '(d, l, c, h), <[d := {| next_hop := l; route_cost := c; hops := h |}]> m)
                       ∅ entries |}.
Definition route_table (entries : list (NodeId * LinkId * Z * Z)) : RouteTable :=
  route_table_version 1 entries.

Definition packet (source destination : NodeId) (ttl : Z) : ForwardPacket :=
  {| header := {| packet_type := Unicast; priority := P1; ttl := ttl; flags := flags_empty;
                  destination := destination; source := source; flow_id := 42; conflate_key := 0 |};
     multicast_destinations := []; payload := str "end-to-end payload" |}.

(** Assignments to the fields of a packet. *)
Definition with_key (p : ForwardPacket) (pr : Priority) (fl : Z) (src : NodeId) (flow key : Z) :
  ForwardPacket :=
  let h := header p in
  {| header := {| packet_type := packet_type h; priority := pr; ttl := ttl h; flags := fl;
                  destination := destination h; source := src; flow_id := flow;
                  conflate_key := key |};
     multicast_destinations := multicast_destinations p; payload := payload p |}.
Definition with_priority (p : ForwardPacket) (pr : Priority) : ForwardPacket :=
  let h := header p in with_key p pr (flags h) (source h) (flow_id h) (conflate_key h).
Definition with_flow (p : ForwardPacket) (flow : Z) : ForwardPacket :=
  let h := header p in with_key p (priority h) (flags h) (source h) flow (conflate_key h).
Definition with_type (p : ForwardPacket) (t : PacketType) : ForwardPacket :=
  set_header p t (destination (header p)) (ttl (header p)).
Definition with_payload (p : ForwardPacket) (b : bytes) : ForwardPacket :=
  set_parts p (multicast_destinations p) b.

Definition conflatable_packet (src dst : NodeId) (flow key : Z) (b : bytes) : option ForwardPacket :=
  fl ← expect (flags_from_bits CONFLATABLE);
  Some (with_payload (with_key (packet src dst 32) P1 fl src flow key) b).

Definition multicast_template (src : NodeId) (ttl : Z) (b : bytes) : ForwardPacket :=
  with_payload (packet src NodeId_default ttl) b.

Definition encoded_multicast_packet (src : NodeId) (ttl : Z) (ds : list NodeId) (b : bytes) :
  option ForwardPacket :=
  let p := with_type (multicast_template src ttl []) Multicast in
  m ← expect (MulticastPayload_new ds b);
  Some (set_parts p (destinations m) (body m)).

Definition decode_multicast (p : ForwardPacket) : option MulticastPayload :=
  assert_eq (packet_type (header p)) Multicast;;
  expect (MulticastPayload_new (multicast_destinations p) (payload p)).
(** [assert_eq!(decode_multicast(p).destinations(), ds)] *)
Definition assert_addressed (p : ForwardPacket) (ds : list NodeId) : test :=
  m ← decode_multicast p; assert_eq (destinations m) ds.

(** [assert!(forwarder.handle(now, event).is_empty())] *)
Definition quiet (now : MonoTime) (e : ForwardEvent) (fw : Forwarder) : option Forwarder :=
  '(fw, acts) ← fw_handle fw now e;
  assert_eq acts [];;
  Some fw.

Definition grant_unlimited_credit (link : LinkId) (fw : Forwarder) : option Forwarder :=
  fw ← quiet 0 (FeLinkCredit link (u_max usize_bits)) fw;
  quiet 0 (FeLinkWritable link) fw.

Definition one_action (acts : list ForwardAction) : option ForwardAction :=
  assert_eq (zlen acts) 1;; head acts.
(** [one_action(forwarder.handle(now, event))] *)
Definition single (now : MonoTime) (e : ForwardEvent) (fw : Forwarder) :
  option (Forwarder * ForwardAction) :=
  '(fw, acts) ← fw_handle fw now e;
  a ← one_action acts;
  Some (fw, a).

Definition expect_send (a : ForwardAction) (expected_link : LinkId) : option ForwardPacket :=
  match a with
  | FaSend link p => assert_eq link expected_link;; Some p
  | _ => None
  end.
(** [expect_send(one_action(forwarder.handle(now, event)), link)] *)
Definition single_send (now : MonoTime) (e : ForwardEvent) (link : LinkId) (fw : Forwarder) :
  option (Forwarder * ForwardPacket) :=
  '(fw, a) ← single now e fw;
  p ← expect_send a link;
  Some (fw, p).
Definition expect_delivery (a : ForwardAction) : option ForwardPacket :=
  match a with FaDeliverLocal p => Some p | _ => None end.
(** [ForwardAction::Drop { reason, packet }] with that reason *)
Definition expect_drop (a : ForwardAction) (reason : DropReason) : option ForwardPacket :=
  match a with
  | FaDrop r p => assert_eq r reason;; Some p
  | _ => None
  end.
(** [queue_snapshot(link).expect(..)] *)
Definition snapshot_of (fw : Forwarder) (link : LinkId) : option LinkQueueSnapshot :=
  mjoin (queue_snapshot fw link).
#[global] Instance LinkQueueSnapshot_eq_dec : EqDecision LinkQueueSnapshot.
Proof. solve_decision. Defined.

(** ** Unicast and multicast *)

Definition unicast_crosses_two_hops_and_preserves_the_payload : test :=
  let a := test_node 1 in let b := test_node 2 in let c := test_node 3 in
  let a_to_b := 1 in let b_to_a := 2 in let b_to_c := 3 in let c_to_b := 4 in
  let forwarder_a := Forwarder_new a (route_table [(b, a_to_b, 10, 1); (c, a_to_b, 20, 2)]) in
  let forwarder_b := Forwarder_new b (route_table [(a, b_to_a, 10, 1); (c, b_to_c, 10, 1)]) in
  let forwarder_c := Forwarder_new c (route_table [(a, c_to_b, 20, 2); (b, c_to_b, 10, 1)]) in
  let original := packet a c 32 in
  forwarder_a ← quiet 0 (FeLinkCredit a_to_b (ForwardPacket_encoded_len original)) forwarder_a;
  forwarder_b ← quiet 0 (FeLinkCredit b_to_c (ForwardPacket_encoded_len original)) forwarder_b;
  forwarder_a ← quiet 0 (FeLinkWritable a_to_b) forwarder_a;
  forwarder_b ← quiet 0 (FeLinkWritable b_to_c) forwarder_b;
  '(_, at_b) ← single_send 0 (FeOutbound original) a_to_b forwarder_a;
  assert_eq (ttl (header at_b)) 31;;
  '(_, at_c) ← single_send 1 (FeInbound b_to_a at_b) b_to_c forwarder_b;
  assert_eq (ttl (header at_c)) 30;;
  '(_, delivered) ← single 2 (FeInbound c_to_b at_c) forwarder_c;
  p ← expect_delivery delivered;
  assert_eq (ttl (header p)) 30;;
  assert_eq (payload p) (payload original);;
  assert_eq (source (header p)) a;;
  assert_eq (destination (header p)) c.

Definition multicast_fans_out_once_per_link_and_delivers_every_destination : test :=
  let src := test_node 1 in let branch := test_node 2 in
  let a := test_node 3 in let b := test_node 4 in let c := test_node 5 in
  let source_to_branch := 1 in let source_to_c := 2 in let branch_from_source := 3 in
  let branch_to_a := 4 in let branch_to_b := 5 in
  let at_source := Forwarder_new src
    (route_table [(branch, source_to_branch, 10, 1); (a, source_to_branch, 20, 2);
                  (b, source_to_branch, 20, 2); (c, source_to_c, 10, 1)]) in
  let at_branch := Forwarder_new branch (route_table [(a, branch_to_a, 10, 1); (b, branch_to_b, 10, 1)]) in
  let at_a := Forwarder_new a RouteTable_default in
  let at_b := Forwarder_new b RouteTable_default in
  let at_c := Forwarder_new c RouteTable_default in
  let bs := str "one body for every subscriber" in
  at_source ← grant_unlimited_credit source_to_branch at_source;
  at_source ← grant_unlimited_credit source_to_c at_source;
  at_branch ← grant_unlimited_credit branch_to_a at_branch;
  at_branch ← grant_unlimited_credit branch_to_b at_branch;
  '(_, source_actions) ← fw_handle at_source 0
    (FeOutboundMulticast [c; b; branch; a] (multicast_template src 32 bs));
  assert_eq (zlen source_actions) 2;;
  s0 ← source_actions !! 0%nat; to_branch ← expect_send s0 source_to_branch;
  s1 ← source_actions !! 1%nat; to_c ← expect_send s1 source_to_c;
  assert_eq (ttl (header to_branch)) 31;;
  assert_addressed to_branch [branch; a; b];;
  assert_addressed to_c [c];;
  assert_eq (payload to_branch) bs;;
  assert_eq (payload to_c) bs;;
  '(_, branch_actions) ← fw_handle at_branch 1 (FeInbound branch_from_source to_branch);
  assert_eq (zlen branch_actions) 3;;
  b0 ← branch_actions !! 0%nat; p ← expect_delivery b0;
  assert_eq (destination (header p)) branch;;
  assert_eq (payload p) bs;;
  b1 ← branch_actions !! 1%nat; to_a ← expect_send b1 branch_to_a;
  b2 ← branch_actions !! 2%nat; to_b ← expect_send b2 branch_to_b;
  assert_addressed to_a [a];;
  assert_addressed to_b [b];;
  assert_eq (payload to_a) bs;;
  assert_eq (payload to_b) bs;;
  for_each [(at_a, 6, to_a, a); (at_b, 7, to_b, b); (at_c, 8, to_c, c)]
    (λ '(forwarder, incoming, packet, dst),
      '(_, x) ← single 2 (FeInbound incoming packet) forwarder;
      p ← expect_delivery x;
      assert_eq (destination (header p)) dst;;
      assert_eq (payload p) bs).

Definition multicast_isolates_local_no_route_loop_and_forwarded_destinations : test :=
  let src := test_node 1 in let me := test_node 2 in let looped := test_node 3 in
  let forwarded := test_node 4 in let unreachable := test_node 5 in
  let incoming := 10 in let outgoing := 20 in
  let fw := Forwarder_new me (route_table [(looped, incoming, 10, 1); (forwarded, outgoing, 10, 1)]) in
  fw ← quiet 0 (FeLinkCredit outgoing (u_max usize_bits)) fw;
  fw ← quiet 0 (FeLinkWritable outgoing) fw;
  let bs := str "isolated body" in
  inbound ← encoded_multicast_packet src 8 [forwarded; unreachable; me; looped] bs;
  '(_, actions) ← fw_handle fw 0 (FeInbound incoming inbound);
  assert_eq (zlen actions) 4;;
  a0 ← actions !! 0%nat; p ← expect_delivery a0; assert_eq (payload p) bs;;
  a1 ← actions !! 1%nat; p ← expect_drop a1 NoRoute; assert_addressed p [unreachable];;
  a2 ← actions !! 2%nat; p ← expect_drop a2 LoopDetected; assert_addressed p [looped];;
  a3 ← actions !! 3%nat; sent ← expect_send a3 outgoing;
  assert_eq (ttl (header sent)) 7;;
  assert_addressed sent [forwarded].

(** [fn run] inside the test *)
Definition order_run (ds : list NodeId) : option (list ForwardAction) :=
  let src := test_node 1 in let a := test_node 2 in let b := test_node 3 in let c := test_node 4 in
  let first := 1 in let second := 2 in
  let fw := Forwarder_new src (route_table [(a, first, 10, 1); (b, first, 10, 1); (c, second, 10, 1)]) in
  fw ← for_fold [first; second] (λ link fw,
    fw ← quiet 0 (FeLinkCredit link (u_max usize_bits)) fw;
    quiet 0 (FeLinkWritable link) fw) fw;
  '(_, acts) ← fw_handle fw 0
    (FeOutboundMulticast ds (multicast_template src 32 (str "deterministic")));
  Some acts.
Definition multicast_destination_order_does_not_change_actions : test :=
  x ← order_run [test_node 4; test_node 2; test_node 3];
  y ← order_run [test_node 3; test_node 4; test_node 2];
  assert_eq x y.

Definition invalid_outbound_multicast_sets_are_dropped_explicitly : test :=
  let src := test_node 1 in
  let fw := Forwarder_new src RouteTable_default in
  let invalid_sets :=
    [([], McEmptyDestinations);
     ([test_node 2; test_node 2], McDuplicateDestination (test_node 2));
     (test_node <$> seqZ 0 (MAX_MULTICAST_DESTINATIONS + 1), McTooManyDestinations 65)] in
  _ ← for_fold invalid_sets (λ '(ds, expected) fw,
    '(fw, a) ← single 0 (FeOutboundMulticast ds (multicast_template src 32 [])) fw;
    expect_drop a (InvalidMulticast expected);;
    Some fw) fw;
  passed.

(** ** Failing links *)

Definition link_down_removes_link_state_and_applies_priority_policies : test :=
  let me := test_node 1 in let dst := test_node 2 in let failed := 10 in
  let fw := Forwarder_new me (route_table [(dst, failed, 10, 1)]) in
  fw ← for_fold [(0, P0); (1, P1); (2, P2); (3, P3)] (λ '(flow, pr) fw,
    quiet 0 (FeOutbound (with_priority (with_flow (packet me dst 32) flow) pr)) fw) fw;
  '(fw, actions) ← fw_handle fw 10 (FeLinkDown failed);
  assert_eq (zlen actions) 4;;
  a0 ← actions !! 0%nat;
  assert_eq a0 (FaSetTimer (PendingP0 0) 2010);;
  for_each (zip (drop 1 actions) [P1; P2; P3]) (λ '(action, pr),
    p ← expect_drop action DrLinkDown;
    assert_eq (priority (header p)) pr);;
  assert_eq (pending_p0_len fw) 1;;
  assert_that (queue_snapshot fw failed = None);;
  fw ← quiet 11 (FeLinkCredit failed (u_max usize_bits)) fw;
  fw ← quiet 11 (FeLinkDown failed) fw;
  let after_down := with_priority (packet me dst 32) P2 in
  '(_, a) ← single 12 (FeOutbound after_down) fw;
  expect_drop a NoRoute;;
  passed.

Definition link_down_reroutes_p2_without_decrementing_ttl_twice : test :=
  let me := test_node 1 in let dst := test_node 2 in let failed := 10 in let alternate := 20 in
  let fw := Forwarder_new me (route_table [(dst, failed, 10, 1)]) in
  let queued := with_priority (packet me dst 32) P2 in
  fw ← quiet 0 (FeOutbound queued) fw;
  fw ← quiet 1 (FeRoutesUpdated (route_table_version 2 [(dst, alternate, 20, 2)])) fw;
  fw ← grant_unlimited_credit alternate fw;
  '(fw, sent) ← single_send 2 (FeLinkDown failed) alternate fw;
  assert_eq (priority (header sent)) P2;;
  assert_eq (ttl (header sent)) 31;;
  assert_that (queue_snapshot fw failed = None).

Definition pending_p0_uses_new_route_and_ignores_its_stale_timer : test :=
  let me := test_node 1 in let dst := test_node 2 in let failed := 10 in let alternate := 20 in
  let fw := Forwarder_new me (route_table [(dst, failed, 10, 1)]) in
  let queued := with_priority (packet me dst 32) P0 in
  fw ← quiet 0 (FeOutbound queued) fw;
  let timer := PendingP0 0 in
  '(fw, a) ← single 100 (FeLinkDown failed) fw;
  assert_eq a (FaSetTimer timer 2100);;
  assert_eq (pending_p0_len fw) 1;;
  '(fw, a) ← single 1000 (FeTimer timer) fw;
  assert_eq a (FaSetTimer timer 2100);;
  fw ← grant_unlimited_credit alternate fw;
  '(fw, sent) ← single_send 1500
    (FeRoutesUpdated (route_table_version 2 [(dst, alternate, 20, 2)])) alternate fw;
  assert_eq (ttl (header sent)) 31;;
  assert_eq (priority (header sent)) P0;;
  assert_eq (pending_p0_len fw) 0;;
  quiet 2100 (FeTimer timer) fw;;
  passed.

Definition pending_p0_expires_after_two_seconds_in_fifo_order : test :=
  let me := test_node 1 in let dst := test_node 2 in let failed := 10 in
  let fw := Forwarder_new me (route_table [(dst, failed, 10, 1)]) in
  fw ← for_fold [10; 20] (λ flow fw,
    quiet 0 (FeOutbound (with_flow (with_priority (packet me dst 32) P0) flow)) fw) fw;
  let timer := PendingP0 0 in
  '(fw, a) ← single 0 (FeLinkDown failed) fw;
  assert_eq a (FaSetTimer timer P0_ROUTE_WAIT_MS);;
  '(fw, a) ← single (P0_ROUTE_WAIT_MS - 1) (FeTimer timer) fw;
  assert_eq a (FaSetTimer timer P0_ROUTE_WAIT_MS);;
  '(fw, expired) ← fw_handle fw P0_ROUTE_WAIT_MS (FeTimer timer);
  assert_eq (zlen expired) 2;;
  ps ← mapM (λ a, expect_drop a RouteWaitExpired) expired;
  assert_eq ((λ p, flow_id (header p)) <$> ps) [10; 20];;
  assert_eq (pending_p0_len fw) 0.

Definition pending_multicast_p0_partially_recovers_and_expires_the_unresolved_subset : test :=
  let me := test_node 1 in let a := test_node 2 in let b := test_node 3 in
  let unresolved := test_node 4 in let failed := 10 in let alternate := 20 in
  let fw := Forwarder_new me
    (route_table [(a, failed, 10, 1); (b, failed, 10, 1); (unresolved, failed, 10, 1)]) in
  let bs := str "pending multicast body" in
  let outbound := with_priority (multicast_template me 32 bs) P0 in
  fw ← quiet 0 (FeOutboundMulticast [unresolved; b; a] outbound) fw;
  let timer := PendingP0 0 in
  '(fw, x) ← single 0 (FeLinkDown failed) fw;
  assert_eq x (FaSetTimer timer P0_ROUTE_WAIT_MS);;
  fw ← grant_unlimited_credit alternate fw;
  '(fw, recovered) ← single_send 1000
    (FeRoutesUpdated (route_table_version 2 [(a, alternate, 20, 2); (b, alternate, 20, 2)])) alternate fw;
  assert_addressed recovered [a; b];;
  assert_eq (ttl (header recovered)) 31;;
  assert_eq (payload recovered) bs;;
  assert_eq (pending_p0_len fw) 1;;
  '(fw, x) ← single P0_ROUTE_WAIT_MS (FeTimer timer) fw;
  p ← expect_drop x RouteWaitExpired;
  assert_addressed p [unresolved];;
  assert_eq (payload p) bs;;
  assert_eq (pending_p0_len fw) 0.

Definition link_down_regroups_multicast_p2_by_alternate_next_hop : test :=
  let me := test_node 1 in let a := test_node 2 in let b := test_node 3 in let c := test_node 4 in
  let unreachable := test_node 5 in let failed := 10 in let first := 20 in let second := 30 in
  let initial_routes := route_table [(a, failed, 10, 1); (b, failed, 10, 1); (c, failed, 10, 1);
                                     (unreachable, failed, 10, 1)] in
  let fw := Forwarder_new me initial_routes in
  let bs := str "shared rerouted multicast body" in
  let outbound := with_priority (multicast_template me 32 bs) P2 in
  fw ← quiet 0 (FeOutboundMulticast [unreachable; c; b; a] outbound) fw;
  fw ← quiet 1 (FeRoutesUpdated (route_table_version 2
                  [(a, first, 20, 2); (b, first, 20, 2); (c, second, 20, 2)])) fw;
  fw ← grant_unlimited_credit first fw;
  fw ← grant_unlimited_credit second fw;
  '(_, actions) ← fw_handle fw 2 (FeLinkDown failed);
  assert_eq (zlen actions) 3;;
  a0 ← actions !! 0%nat; to_first ← expect_send a0 first;
  a1 ← actions !! 1%nat; to_second ← expect_send a1 second;
  assert_addressed to_first [a; b];;
  assert_addressed to_second [c];;
  assert_eq (ttl (header to_first)) 31;;
  assert_eq (ttl (header to_second)) 31;;
  assert_eq (payload to_first) bs;;
  assert_eq (payload to_second) bs;;
  a2 ← actions !! 2%nat; p ← expect_drop a2 DrLinkDown; assert_addressed p [unreachable].

(** [QUEUE_LIMIT_PACKETS[i]] *)
Definition queue_limit (pr : Priority) : option Z := QUEUE_LIMIT_PACKETS !! priority_index pr.
Definition link_down_reroute_uses_existing_queue_overflow_policy : test :=
  let me := test_node 1 in let dst := test_node 2 in let failed := 10 in let alternate := 20 in
  let fw := Forwarder_new me (route_table [(dst, failed, 10, 1)]) in
  let on_failed := with_flow (with_priority (packet me dst 32) P2) (u_max 64) in
  fw ← quiet 0 (FeOutbound on_failed) fw;
  fw ← quiet 1 (FeRoutesUpdated (route_table_version 2 [(dst, alternate, 20, 2)])) fw;
  limit ← queue_limit P2;
  fw ← for_fold (seqZ 0 limit) (λ flow fw,
    quiet 0 (FeOutbound (with_flow (with_priority (packet me dst 32) P2) flow)) fw) fw;
  '(fw, a) ← single 2 (FeLinkDown failed) fw;
  p ← expect_drop a (QueueFull P2);
  assert_eq (flow_id (header p)) (u_max 64);;
  s ← snapshot_of fw alternate;
  assert_eq (snap_counts s !! 2%nat) (Some limit).

Definition link_down_reroute_never_reflects_a_packet_to_its_incoming_link : test :=
  let src := test_node 1 in let me := test_node 2 in let dst := test_node 3 in
  let incoming := 10 in let failed := 20 in
  let fw := Forwarder_new me (route_table [(dst, failed, 10, 1)]) in
  let inbound := with_priority (packet src dst 32) P2 in
  fw ← quiet 0 (FeInbound incoming inbound) fw;
  fw ← quiet 1 (FeRoutesUpdated (route_table_version 2 [(dst, incoming, 20, 2)])) fw;
  '(fw, a) ← single 2 (FeLinkDown failed) fw;
  p ← expect_drop a DrLinkDown;
  assert_eq (ttl (header p)) 31;;
  assert_that (queue_snapshot fw incoming = None).

(** [fn run] inside the test *)
Definition link_down_run : option (list ForwardAction * Z * option (option LinkQueueSnapshot)) :=
  let me := test_node 1 in let dst := test_node 2 in let failed := 10 in let alternate := 20 in
  let fw := Forwarder_new me (route_table [(dst, failed, 10, 1)]) in
  fw ← for_fold [P0; P1; P2; P3] (λ pr fw,
    quiet 0 (FeOutbound (with_priority (packet me dst 32) pr)) fw) fw;
  fw ← quiet 1 (FeRoutesUpdated (route_table_version 2 [(dst, alternate, 20, 2)])) fw;
  fw ← grant_unlimited_credit alternate fw;
  '(fw, actions) ← fw_handle fw 2 (FeLinkDown failed);
  Some (actions, pending_p0_len fw, queue_snapshot fw alternate).
Definition link_down_processing_is_deterministic : test :=
  x ← link_down_run; y ← link_down_run; assert_eq x y.

Definition invalid_forwarding_conditions_have_explicit_drop_reasons : test :=
  let a := test_node 1 in let b := test_node 2 in let c := test_node 3 in let link := 1 in
  let fw := Forwarder_new a (route_table [(c, link, 10, 1)]) in
  let ttl_exceeded := packet b a 0 in
  '(fw, x) ← single 0 (FeInbound link ttl_exceeded) fw;
  assert_eq x (FaDrop TtlExceeded ttl_exceeded);;
  let no_route := packet a b 32 in
  '(fw, x) ← single 0 (FeOutbound no_route) fw;
  assert_eq x (FaDrop NoRoute no_route);;
  let looped := packet b c 32 in
  '(fw, x) ← single 0 (FeInbound link looped) fw;
  assert_eq x (FaDrop LoopDetected looped);;
  let unsupported := with_type (packet a c 32) CircuitData in
  '(fw, x) ← single 0 (FeOutbound unsupported) fw;
  assert_eq x (FaDrop (UnsupportedPacketType CircuitData) unsupported).

Definition route_updates_are_used_by_subsequent_packets : test :=
  let a := test_node 1 in let b := test_node 2 in let link := 7 in
  let fw := Forwarder_new a RouteTable_default in
  let outbound := packet a b 32 in
  '(fw, x) ← single 0 (FeOutbound outbound) fw;
  expect_drop x NoRoute;;
  fw ← quiet 1 (FeRoutesUpdated (route_table [(b, link, 10, 1)])) fw;
  fw ← quiet 1 (FeLinkCredit link (ForwardPacket_encoded_len outbound)) fw;
  fw ← quiet 1 (FeLinkWritable link) fw;
  '(_, sent) ← single_send 2 (FeOutbound outbound) link fw;
  assert_eq (ttl (header sent)) 31.

(** ** Queues and scheduling *)

(** [fn run] inside the test *)
Definition identical_run : option (list ForwardAction * option (option LinkQueueSnapshot)) :=
  let a := test_node 1 in let b := test_node 2 in let link := 1 in
  let routes := route_table [(b, link, 10, 1)] in
  let fw := Forwarder_new a RouteTable_default in
  '(fw, a0) ← fw_handle fw 0 (FeRoutesUpdated routes);
  '(fw, a1) ← fw_handle fw 0 (FeLinkCredit link (ForwardPacket_encoded_len (packet a b 32)));
  '(fw, a2) ← fw_handle fw 0 (FeLinkWritable link);
  '(fw, a3) ← fw_handle fw 1 (FeOutbound (packet a b 32));
  Some (a0 ++ a1 ++ a2 ++ a3, queue_snapshot fw link).
Definition identical_inputs_produce_identical_actions : test :=
  x ← identical_run; y ← identical_run; assert_eq x y.

Definition packets_wait_until_enough_incremental_credit_is_available : test :=
  let a := test_node 1 in let b := test_node 2 in let link := 1 in
  let fw := Forwarder_new a (route_table [(b, link, 10, 1)]) in
  let outbound := packet a b 32 in
  let packet_len := ForwardPacket_encoded_len outbound in
  fw ← quiet 0 (FeOutbound outbound) fw;
  s ← snapshot_of fw link;
  assert_eq s {| snap_credit := 0; snap_counts := [0; 1; 0; 0];
                 snap_queued_bytes := [0; packet_len; 0; 0]; snap_deficits := [0; 0; 0];
                 snap_next := P1 |};;
  fw ← quiet 0 (FeLinkWritable link) fw;
  fw ← quiet 1 (FeLinkCredit link (packet_len - 1)) fw;
  '(fw, sent) ← single_send 2 (FeLinkCredit link 1) link fw;
  assert_eq (ttl (header sent)) 31;;
  s ← snapshot_of fw link;
  assert_eq (snap_credit s) 0;;
  assert_eq (snap_counts s) [0; 0; 0; 0];;
  assert_eq (snap_queued_bytes s) [0; 0; 0; 0].

Definition one_writable_event_releases_at_most_one_packet : test :=
  let a := test_node 1 in let b := test_node 2 in let link := 1 in
  let fw := Forwarder_new a (route_table [(b, link, 10, 1)]) in
  let first := packet a b 32 in
  let second := with_flow (packet a b 32) 2 in
  fw ← for_fold [first; second] (λ queued, quiet 0 (FeOutbound queued)) fw;
  fw ← quiet 0 (FeLinkCredit link
                  (ForwardPacket_encoded_len first + ForwardPacket_encoded_len second)) fw;
  '(fw, sent) ← single_send 1 (FeLinkWritable link) link fw;
  assert_eq (flow_id (header sent)) (flow_id (header first));;
  s ← snapshot_of fw link;
  assert_eq (snap_counts s) [0; 1; 0; 0];;
  '(_, sent) ← single_send 2 (FeLinkWritable link) link fw;
  assert_eq (flow_id (header sent)) (flow_id (header second)).

(** [fn run] inside the test *)
Definition conflating_run : option (list ForwardAction * LinkQueueSnapshot * LinkQueueSnapshot) :=
  let a := test_node 1 in let b := test_node 2 in let link := 1 in
  let fw := Forwarder_new a (route_table [(b, link, 10, 1)]) in
  fw ← for_fold (seqZ 0 1000) (λ sequence fw,
    queued ← conflatable_packet a b 42 7 (be_bytes 8 sequence);
    quiet 0 (FeOutbound queued) fw) fw;
  before ← snapshot_of fw link;
  fw ← quiet 1 (FeLinkWritable link) fw;
  '(fw, actions) ← fw_handle fw 1 (FeLinkCredit link (FORWARD_HEADER_LEN + 8));
  after ← snapshot_of fw link;
  Some (actions, before, after).
Definition repeated_conflatable_updates_send_only_the_latest_packet : test :=
  first ← conflating_run;
  again ← conflating_run;
  assert_eq first again;;
  let '(actions, before, after) := first in
  assert_eq (snap_counts before) [0; 1; 0; 0];;
  assert_eq (snap_queued_bytes before !! 1%nat) (Some (FORWARD_HEADER_LEN + 8));;
  x ← one_action actions;
  sent ← expect_send x 1;
  assert_eq (payload sent) (be_bytes 8 999);;
  assert_eq (snap_counts after) [0; 0; 0; 0];;
  assert_eq (snap_queued_bytes after) [0; 0; 0; 0].

Definition conflation_preserves_queue_position_and_tracks_replacement_size : test :=
  let a := test_node 1 in let b := test_node 2 in let link := 1 in
  let fw := Forwarder_new a (route_table [(b, link, 10, 1)]) in
  first ← conflatable_packet a b 10 20 (str "old");
  let second := with_payload (with_flow (packet a b 32) 99) (str "second") in
  large_replacement ← conflatable_packet a b 10 20 (replicate 1000 x6e);
  replacement ← conflatable_packet a b 10 20 (str "new");
  fw ← quiet 0 (FeOutbound first) fw;
  fw ← quiet 0 (FeOutbound second) fw;
  fw ← quiet 0 (FeOutbound large_replacement) fw;
  large ← snapshot_of fw link;
  assert_eq (snap_counts large) [0; 2; 0; 0];;
  assert_eq (snap_queued_bytes large !! 1%nat)
    (Some (ForwardPacket_encoded_len large_replacement + ForwardPacket_encoded_len second));;
  fw ← quiet 0 (FeOutbound replacement) fw;
  small ← snapshot_of fw link;
  assert_eq (snap_counts small) [0; 2; 0; 0];;
  assert_eq (snap_queued_bytes small !! 1%nat)
    (Some (ForwardPacket_encoded_len replacement + ForwardPacket_encoded_len second));;
  fw ← quiet 1 (FeLinkCredit link
                  (ForwardPacket_encoded_len replacement + ForwardPacket_encoded_len second)) fw;
  '(fw, a1) ← fw_handle fw 1 (FeLinkWritable link);
  '(fw, a2) ← fw_handle fw 2 (FeLinkWritable link);
  let actions := a1 ++ a2 in
  assert_eq (zlen actions) 2;;
  sent ← mapM (λ x, expect_send x link) actions;
  assert_eq (payload <$> sent) [payload replacement; str "second"].

(** [fn queued_count] inside the test *)
Definition queued_count (first second : ForwardPacket) : option Z :=
  let a := test_node 1 in let b := test_node 2 in let link := 1 in
  let fw := Forwarder_new a (route_table [(b, link, 10, 1)]) in
  fw ← quiet 0 (FeOutbound first) fw;
  fw ← quiet 0 (FeOutbound second) fw;
  s ← snapshot_of fw link;
  Some (zsum (snap_counts s)).
Definition conflation_requires_p1_flag_and_an_exact_header_key_match : test :=
  let a := test_node 1 in let b := test_node 2 in let other_source := test_node 3 in
  base ← conflatable_packet a b 10 20 (str "first");
  let h := header base in
  let without_flag :=
    with_key base (priority h) flags_empty (source h) (flow_id h) (conflate_key h) in
  assert_eq (queued_count without_flag without_flag) (Some 2);;
  for_each [P0; P2; P3] (λ pr,
    let other_priority := with_priority base pr in
    assert_eq (queued_count other_priority other_priority) (Some 2));;
  let different_source :=
    with_key base (priority h) (flags h) other_source (flow_id h) (conflate_key h) in
  assert_eq (queued_count base different_source) (Some 2);;
  let different_flow := with_flow base (flow_id h + 1) in
  assert_eq (queued_count base different_flow) (Some 2);;
  let different_key :=
    with_key base (priority h) (flags h) (source h) (flow_id h) (conflate_key h + 1) in
  assert_eq (queued_count base different_key) (Some 2).

Definition a_full_p1_queue_still_accepts_a_matching_replacement : test :=
  let a := test_node 1 in let b := test_node 2 in let link := 1 in
  let fw := Forwarder_new a (route_table [(b, link, 10, 1)]) in
  limit ← QUEUE_LIMIT_PACKETS !! 1%nat;
  fw ← for_fold (seqZ 0 limit) (λ key fw,
    queued ← conflatable_packet a b 42 key (str "old");
    quiet 0 (FeOutbound queued) fw) fw;
  replacement ← conflatable_packet a b 42 0 (str "latest");
  fw ← quiet 0 (FeOutbound replacement) fw;
  s ← snapshot_of fw link;
  assert_eq (snap_counts s !! 1%nat) (Some limit);;
  overflow ← conflatable_packet a b 42 limit (str "new key");
  '(_, x) ← single 0 (FeOutbound overflow) fw;
  expect_drop x (QueueFull P1);;
  passed.

Definition p0_is_sent_before_already_queued_p3 : test :=
  let a := test_node 1 in let b := test_node 2 in let link := 1 in
  let fw := Forwarder_new a (route_table [(b, link, 10, 1)]) in
  let p3 := with_flow (with_priority (packet a b 32) P3) 3 in
  let p0 := with_flow (with_priority (packet a b 32) P0) 0 in
  let packet_len := ForwardPacket_encoded_len p0 in
  fw ← quiet 0 (FeOutbound p3) fw;
  fw ← quiet 0 (FeOutbound p0) fw;
  fw ← quiet 1 (FeLinkCredit link packet_len) fw;
  '(fw, first) ← single_send 1 (FeLinkWritable link) link fw;
  assert_eq (priority (header first)) P0;;
  s ← snapshot_of fw link;
  assert_eq (snap_counts s) [0; 0; 0; 1];;
  fw ← quiet 2 (FeLinkCredit link packet_len) fw;
  '(_, second) ← single_send 2 (FeLinkWritable link) link fw;
  assert_eq (priority (header second)) P3.

Definition drr_eventually_serves_every_non_empty_priority : test :=
  let a := test_node 1 in let b := test_node 2 in let link := 1 in
  let fw := Forwarder_new a (route_table [(b, link, 10, 1)]) in
  let priorities := [P1; P2; P3] in
  '(fw, total_bytes) ← for_fold priorities (λ pr, for_fold (seqZ 0 3) (λ sequence '(fw, total),
    let queued := with_flow (with_priority (packet a b 32) pr)
                    (Z.of_nat (priority_index pr) * 10 + sequence) in
    let queued := with_payload queued (replicate 2048 (byte_of_Z sequence)) in
    fw ← quiet 0 (FeOutbound queued) fw;
    Some (fw, total + ForwardPacket_encoded_len queued))) (fw, 0);
  fw ← quiet 1 (FeLinkCredit link total_bytes) fw;
  '(fw, actions) ← for_fold (seqZ 0 9) (λ sequence '(fw, actions),
    '(fw, released) ← fw_handle fw (2 + sequence) (FeLinkWritable link);
    assert_eq (zlen released) 1;;
    Some (fw, actions ++ released)) (fw, []);
  sent_priorities ← mapM (λ x, match x with
                               | FaSend _ p => Some (priority (header p))
                               | _ => None
                               end) actions;
  assert_eq (zlen sent_priorities) 9;;
  assert_that (Forall (λ pr, pr ∈ sent_priorities) priorities);;
  s ← snapshot_of fw link;
  assert_eq (snap_counts s) [0; 0; 0; 0].

Definition bounded_queues_report_backpressure_or_drop : test :=
  let a := test_node 1 in let b := test_node 2 in let link := 1 in
  let fw := Forwarder_new a (route_table [(b, link, 10, 1)]) in
  limit0 ← QUEUE_LIMIT_PACKETS !! 0%nat;
  limit2 ← QUEUE_LIMIT_PACKETS !! 2%nat;
  fw ← for_fold (seqZ 0 limit0) (λ _, quiet 0 (FeOutbound (with_priority (packet a b 32) P0))) fw;
  '(fw, x) ← single 0 (FeOutbound (with_priority (packet a b 32) P0)) fw;
  match x with FaBackpressure target _ => assert_eq target link | _ => None end;;
  fw ← for_fold (seqZ 0 limit2) (λ _, quiet 0 (FeOutbound (with_priority (packet a b 32) P2))) fw;
  '(fw, x) ← single 0 (FeOutbound (with_priority (packet a b 32) P2)) fw;
  expect_drop x (QueueFull P2);;
  s ← snapshot_of fw link;
  assert_eq (snap_counts s) [limit0; 0; limit2; 0].

Definition forward_tests : list test :=
  [unicast_crosses_two_hops_and_preserves_the_payload;
   multicast_fans_out_once_per_link_and_delivers_every_destination;
   multicast_isolates_local_no_route_loop_and_forwarded_destinations;
   multicast_destination_order_does_not_change_actions;
   invalid_outbound_multicast_sets_are_dropped_explicitly;
   link_down_removes_link_state_and_applies_priority_policies;
   link_down_reroutes_p2_without_decrementing_ttl_twice;
   pending_p0_uses_new_route_and_ignores_its_stale_timer;
   pending_p0_expires_after_two_seconds_in_fifo_order;
   pending_multicast_p0_partially_recovers_and_expires_the_unresolved_subset;
   link_down_regroups_multicast_p2_by_alternate_next_hop;
   link_down_reroute_uses_existing_queue_overflow_policy;
   link_down_reroute_never_reflects_a_packet_to_its_incoming_link;
   link_down_processing_is_deterministic;
   invalid_forwarding_conditions_have_explicit_drop_reasons;
   route_updates_are_used_by_subsequent_packets;
   identical_inputs_produce_identical_actions;
   packets_wait_until_enough_incremental_credit_is_available;
   one_writable_event_releases_at_most_one_packet;
   repeated_conflatable_updates_send_only_the_latest_packet;
   conflation_preserves_queue_position_and_tracks_replacement_size;
   conflation_requires_p1_flag_and_an_exact_header_key_match;
   a_full_p1_queue_still_accepts_a_matching_replacement;
   p0_is_sent_before_already_queued_p3;
   drr_eventually_serves_every_non_empty_priority;
   bounded_queues_report_backpressure_or_drop].
Lemma forward_tests_pass : tests_pass forward_tests.
Proof. run_tests. Qed.
