(* ===== verification/TestsPubSub.v ===== *)
(** * The unit tests of mb-pubsub, run on the model

    Each test of the source as a definition over [ps_handle] and the envelope
    codec, with messages in the encoding of [Protobuf]; see [TestsWire] for the
    assertions. *)

From Stdlib Require Import Strings.Byte Strings.String.
From S2P Require Export Prelude Ord Bytes Text Types Proto Wire TestsWire PubSub Protobuf.
Open Scope Z_scope.

#[global] Instance DeliveredMessage_eq_dec : EqDecision DeliveredMessage.
Proof. solve_decision. Defined.
#[global] Instance PubSubRejectReason_eq_dec : EqDecision PubSubRejectReason.
Proof. solve_decision. Defined.
#[global] Instance PubSubDropReason_eq_dec : EqDecision PubSubDropReason.
Proof. solve_decision. Defined.
#[global] Instance PubSubAction_eq_dec : EqDecision PubSubAction.
Proof. solve_decision. Defined.

(** ** Helpers of the test module *)

Definition test_topic (partition : bytes) : option TopicKey :=
  expect (TopicKey_new (str "tracks") partition).
Definition test_policies : option (gmap rstring TopicPolicy) :=
  expect (TopicPolicies_new [(str "tracks", {| tp_priority := P1; tp_mode := Latest |})]).
Definition envelope (origin : NodeId) (sequence : Z) : option Envelope :=
  t ← test_topic (str "drone-17");
  Some {| env_origin := origin; env_topic := t; env_seq := sequence; env_ts_ms := 10;
          env_payload := str "position" |}.
(** [PubSub::new(me, policies())] *)
Definition new_pubsub (me : NodeId) : option PubSub := PubSub_new me <$> test_policies.
(** [PubSubEvent::Inbound { source, payload: encode(..).expect(..) }] *)
Definition inbound (source : NodeId) (e : Envelope) : option PubSubEvent :=
  PeInbound source <$> expect (Envelope_encode e).

(** ** The tests *)

Definition envelope_round_trips_with_a_recognizable_prefix : test :=
  original ← envelope (test_node 1) 7;
  encoded ← expect (Envelope_encode original);
  assert_that (is_envelope encoded = true);;
  r ← Envelope_decode encoded;
  decoded ← expect r;
  assert_eq decoded original;;
  r ← Envelope_decode (str "raw payload");
  assert_eq r (Err NotPubSub).

Definition publish_emits_canonical_multicast_and_ack : test :=
  let me := test_node 1 in
  key ← test_topic (str "drone-17");
  ps ← new_pubsub me;
  let d := set_subscribers ∅ (exact_selector key) [test_node 3; test_node 2] in
  '(ps, _) ← ps_handle ps 0 (PeDiscoveryUpdated d);
  '(_, actions) ← ps_handle ps 25 (PeLocalPublish key (str "position"));
  a0 ← actions !! 0%nat;
  match a0 with
  | PaSendMulticast ds P1 _ _ true _ => assert_eq ds [test_node 2; test_node 3]
  | _ => None
  end;;
  assert_eq (zlen actions) 2;;
  assert_eq (last actions) (Some (PaPublished key 1)).

Definition inbound_message_is_delivered_to_a_matching_subscription : test :=
  let origin := test_node 1 in
  ps ← new_pubsub (test_node 2);
  t ← test_topic (str "drone-17");
  '(ps, _) ← ps_handle ps 0 (PeLocalSubscribe 9 (exact_selector t));
  received ← envelope origin 7;
  ev ← inbound origin received;
  '(_, actions) ← ps_handle ps 25 ev;
  assert_eq actions [PaDeliverToApp 9 {| dm_envelope := received; is_backfill := false |}].

Definition subscription_ads_change_only_when_the_effective_selector_set_changes : test :=
  ps ← new_pubsub (test_node 1);
  t ← test_topic (str "drone-17");
  let selector := exact_selector t in
  '(ps, acts) ← ps_handle ps 0 (PeLocalSubscribe 1 selector);
  assert_eq acts [PaLocalSubscriptionsChanged [selector]];;
  '(ps, acts) ← ps_handle ps 0 (PeLocalSubscribe 2 selector);
  assert_eq acts [];;
  '(ps, acts) ← ps_handle ps 0 (PeLocalUnsubscribe 1);
  assert_eq acts [];;
  '(ps, acts) ← ps_handle ps 0 (PeLocalUnsubscribe 2);
  assert_eq acts [PaLocalSubscriptionsChanged []].

Definition inbound_dedup_accepts_reordering_once_and_rejects_duplicates : test :=
  let origin := test_node 1 in
  ps ← new_pubsub (test_node 2);
  t ← test_topic (str "drone-17");
  '(ps, _) ← ps_handle ps 0 (PeLocalSubscribe 1 (exact_selector t));
  ps ← for_fold [2; 1] (λ sequence ps,
    e ← envelope origin sequence;
    ev ← inbound origin e;
    '(ps, actions) ← ps_handle ps 0 ev;
    match actions with [PaDeliverToApp _ _] => Some ps | _ => None end) ps;
  e ← envelope origin 1;
  ev ← inbound origin e;
  '(_, duplicate) ← ps_handle ps 0 ev;
  match duplicate with
  | [PaDropped (DuplicateOrTooOld _ _ seq)] => assert_eq seq 1
  | _ => None
  end.

Definition header_source_must_match_the_envelope_origin : test :=
  ps ← new_pubsub (test_node 3);
  e ← envelope (test_node 1) 1;
  ev ← inbound (test_node 2) e;
  '(_, actions) ← ps_handle ps 0 ev;
  assert_eq actions [PaRejected (SourceMismatch (test_node 2) (test_node 1))].

Definition multicast_is_chunked_to_the_wire_destination_limit : test :=
  key ← test_topic (str "drone-17");
  ps ← new_pubsub (test_node 1);
  let d := set_subscribers ∅ (exact_selector key) (test_node <$> seqZ 2 69) in
  '(ps, _) ← ps_handle ps 0 (PeDiscoveryUpdated d);
  '(_, actions) ← ps_handle ps 0 (PeLocalPublish key []);
  let chunk_lengths := omap (λ a, match a with
                                  | PaSendMulticast ds _ _ _ _ _ => Some (zlen ds)
                                  | _ => None
                                  end) actions in
  assert_eq chunk_lengths [MAX_MULTICAST_DESTINATIONS; 5].

Definition oversized_publish_is_rejected_without_consuming_a_sequence : test :=
  key ← test_topic (str "drone-17");
  ps ← new_pubsub (test_node 1);
  '(ps, rejected) ← ps_handle ps 0 (PeLocalPublish key (zeros MAX_LIVE_ENVELOPE_LEN));
  match rejected with [PaRejected (EnvelopeTooLarge _ _)] => passed | _ => None end;;
  '(_, accepted) ← ps_handle ps 0 (PeLocalPublish key []);
  assert_eq (last accepted) (Some (PaPublished key 1)).

(** [fn run] inside the test *)
Definition publish_run : option (list PubSubAction) :=
  ps ← new_pubsub (test_node 1);
  all ← expect (all_partitions (str "tracks"));
  let d := set_subscribers ∅ all [test_node 3; test_node 2] in
  '(ps, _) ← ps_handle ps 0 (PeDiscoveryUpdated d);
  t ← test_topic (str "drone-17");
  '(_, actions) ← ps_handle ps 50 (PeLocalPublish t (str "position"));
  Some actions.
Definition identical_publications_produce_identical_actions : test :=
  x ← publish_run; y ← publish_run; assert_eq x y.

Definition pubsub_tests : list test :=
  [envelope_round_trips_with_a_recognizable_prefix; publish_emits_canonical_multicast_and_ack;
   inbound_message_is_delivered_to_a_matching_subscription;
   subscription_ads_change_only_when_the_effective_selector_set_changes;
   inbound_dedup_accepts_reordering_once_and_rejects_duplicates;
   header_source_must_match_the_envelope_origin;
   multicast_is_chunked_to_the_wire_destination_limit;
   oversized_publish_is_rejected_without_consuming_a_sequence;
   identical_publications_produce_identical_actions].
Lemma pubsub_tests_pass : tests_pass pubsub_tests.
Proof. run_tests. Qed.
