(* ===== verification/TestsRuntime.v ===== *)
(** * The unit tests of the control plane, the runtime, the transport and the
    laboratory, run on the model

    Each test of the source as a definition over the model's operations, with
    messages in the encoding of [Protobuf]; see [TestsWire] for the assertions.
    In the tests with sockets, the bytes that one side has written are handed
    to the other, and the tasks take their steps in the order in which the test
    waits for them. *)

From Stdlib Require Import Strings.Byte Strings.String Floats.SpecFloat.
From S2P Require Export Prelude Ord Bytes Text SeqStore Types Proto Wire LabManage Transport PubSub Protobuf RuntimeCodec Forward Runtime TestsWire TestsPubSub ControlTypes Control.
Open Scope Z_scope.

#[export] Existing Instance UnsecuredLsaAuth.

(** ** mb-control *)

#[global] Instance EntryRelation_eq_dec : EqDecision EntryRelation.
Proof. solve_decision. Defined.
Definition digest_entry_relations_are_explicit : test :=
  assert_eq (compare_versions None (Some (1, 1))) (Some RemoteOnly);;
  assert_eq (compare_versions (Some (1, 1)) (Some (1, 2))) (Some RemoteNewer);;
  assert_eq (compare_versions (Some (1, 1)) (Some (1, 1))) (Some SameVersion);;
  assert_eq (compare_versions (Some (2, 1)) (Some (1, 99))) (Some LocalNewer);;
  assert_eq (compare_versions (Some (1, 1)) None) (Some LocalOnly).

(** ** mb-runtime *)

Definition runtime_packet (pr : Priority) (b : bytes) : ForwardPacket :=
  {| header := {| packet_type := Unicast; priority := pr; ttl := 32; flags := flags_empty;
                  destination := test_node 2; source := test_node 1; flow_id := 42; conflate_key := 0 |};
     multicast_destinations := []; payload := b |}.

(** A runtime whose effects are the channel of outcomes, [mpsc::channel(1)]. *)
Definition test_runtime : option (Runtime MemorySeqStore) :=
  expect (spawn_with_seq_store_and_pubsub
            {| config_node := test_node 1; config_epoch := 1; config_peer_costs := ∅ |}
            (test_node 1) MemorySeqStore_default ∅).2.
Definition room_for_one (n : nat) : bool := (n <? 1)%nat.
Definition drop_report_contains_only_packet_identity : test :=
  rt ← test_runtime;
  let rt := report_drop room_for_one rt DrLinkDown (runtime_packet P3 (replicate 1024 x07)) in
  match effects rt with
  | [EfForward (FoDropped reason pr flow src)] =>
      assert_eq (reason, pr, flow, src) (DrLinkDown, P3, 42, test_node 1)
  | _ => None
  end.
Definition drop_report_is_discarded_when_the_outcome_channel_is_full : test :=
  rt ← test_runtime;
  let rt := try_emit room_for_one rt (EfForward (FoDelivered (runtime_packet P0 []))) in
  let rt := report_drop room_for_one rt (QueueFull P3) (runtime_packet P3 (str "discarded")) in
  match effects rt with [EfForward (FoDelivered _)] => passed | _ => None end.

Definition topic_ad (partition : bytes) (roles : Z) (head_seq : Z) : TopicAd :=
  {| topic := str "lattice.tracks.v1"; partition := partition; roles := roles; head_seq := head_seq;
     tail_seq := 0 |}.
Definition protobuf_control_frame_round_trips_and_preserves_canonical_bytes : test :=
  c ← expect (LinkCost_new 9);
  let original_lsa :=
    {| origin := test_node 1; epoch := 7; seq_no := 42; ttl_sec := 300;
       adjacencies := [{| adj_peer := test_node 2; adj_cost := c |}];
       topics := [topic_ad (str "drone-17") ROLE_SUBSCRIBE 0] |} in
  let frame := CfLsa {| lsa := original_lsa; canonical_bytes := []; signature := [x01; x02; x03] |} in
  wire ← expect (encode_control_frame frame);
  decoded ← expect (decode_control_frame wire);
  match decoded with
  | CfLsa message =>
      assert_eq (lsa message) original_lsa;;
      assert_that (canonical_bytes message ≠ []);;
      assert_eq (signature message) [x01; x02; x03];;
      reencoded ← expect (encode_control_frame (CfLsa message));
      signed ← expect (prost_decode (M:=PbSignedLsa) (frame_payload reencoded));
      assert_eq (pb_lsa_bytes signed) (canonical_bytes message)
  | _ => None
  end.

Definition pb_topic_ad (partition : bytes) (role : Z) : PbTopicAd :=
  {| pb_topic := str "lattice.tracks.v1"; pb_partition := partition; pb_role := role;
     pb_head_seq := 0; pb_tail_seq := 0 |}.
Definition pb_lsa (origin : bytes) (topics : list PbTopicAd) : PbLsa :=
  {| pb_origin := origin; pb_seq := 1; pb_ttl_sec := 300; pb_adjacencies := []; pb_topics := topics;
     pb_epoch := 1 |}.
Definition forwarded_lsa_preserves_unknown_protobuf_fields_byte_for_byte : test :=
  let lsa_bytes :=
    prost_encode (pb_lsa (as_bytes (test_node 1)) [pb_topic_ad (str "drone-17") ROLE_SUBSCRIBE])
    ++ [x98; x06; x07] in
  let wire := WireFrame_control FtLsa
    (prost_encode {| pb_lsa_bytes := lsa_bytes; pb_signature := [x09] |}) in
  decoded ← expect (decode_control_frame wire);
  forwarded ← expect (encode_control_frame decoded);
  signed ← expect (prost_decode (M:=PbSignedLsa) (frame_payload forwarded));
  assert_eq (pb_lsa_bytes signed) lsa_bytes;;
  assert_eq (pb_signature signed) [x09].

Definition topic_ads_build_deterministic_subscriber_discovery : test :=
  exact ← expect (TopicKey_new (str "lattice.tracks.v1") (str "drone-17"));
  other ← expect (TopicKey_new (str "lattice.tracks.v1") (str "drone-18"));
  let ads :=
    [{| disc_node := test_node 3; disc_ad := topic_ad (str "drone-17") ROLE_SUBSCRIBE 0 |};
     {| disc_node := test_node 2; disc_ad := topic_ad [] ROLE_SUBSCRIBE 0 |};
     {| disc_node := test_node 4; disc_ad := topic_ad (str "drone-17") ROLE_PUBLISH 1 |}] in
  d ← discovery_from_topic_ads ads;
  assert_that (subscribers d exact = {[test_node 2; test_node 3]});;
  assert_that (subscribers d other = {[test_node 2]}).

Definition digest_frames_round_trip : test :=
  for_each [CfDigest [{| de_origin := test_node 1; de_epoch := 3; de_seq := 99 |}];
            CfDigestReq [test_node 1; test_node 2]] (λ frame,
    wire ← expect (encode_control_frame frame);
    decoded ← expect (decode_control_frame wire);
    assert_eq decoded frame).

Definition malformed_domain_values_are_rejected : test :=
  let frame (l : PbLsa) := WireFrame_control FtLsa
    (prost_encode {| pb_lsa_bytes := prost_encode l; pb_signature := [] |}) in
  let invalid := pb_lsa (replicate 31 x00) [] in
  assert_eq (decode_control_frame (frame invalid)) (Err (InvalidNodeIdLength 31));;
  let invalid_topic := pb_lsa (as_bytes (test_node 1)) [pb_topic_ad [] 0] in
  assert_eq (decode_control_frame (frame invalid_topic)) (Err (InvalidTopicRole 0)).

Definition control_collection_limits_are_enforced_on_encode_and_decode : test :=
  let too_many (r : result WireFrame RuntimeError) field :=
    match r with Err (TooManyElements f _ _) => assert_eq f field | _ => None end in
  let oversized_digest := CfDigest
    (replicate (Z.to_nat (MAX_DIGEST_ENTRIES + 1)) {| de_origin := test_node 1; de_epoch := 1; de_seq := 1 |}) in
  too_many (encode_control_frame oversized_digest) "Digest.entries"%string;;
  let digest :=
    {| pb_entries := replicate (Z.to_nat (MAX_DIGEST_ENTRIES + 1))
         {| pde_origin := as_bytes (test_node 1); pde_epoch := 1; pde_seq := 1 |} |} in
  match decode_control_frame (WireFrame_control FtDigest (prost_encode digest)) with
  | Err (TooManyElements f _ _) => assert_eq f "Digest.entries"%string
  | _ => None
  end;;
  let message ttl tops := CfLsa
    {| lsa := {| origin := test_node 1; epoch := 1; seq_no := 1; ttl_sec := ttl; adjacencies := [];
                 topics := tops |}; canonical_bytes := []; signature := [] |} in
  assert_eq (encode_control_frame (message 0 [])) (Err (InvalidLsaTtl 0));;
  let oversized_topics := replicate (Z.to_nat (MAX_LSA_TOPIC_ADS + 1)) (topic_ad [] ROLE_SUBSCRIBE 0) in
  too_many (encode_control_frame (message 300 oversized_topics)) "Lsa.topics"%string.

Definition file_sequence_store_round_trips_monotonically : test :=
  let path := {| dir := str "mb-runtime-seq-test"; file_name := str "seq" |} in
  let store := FileSeqStore_new path ∅ [] in
  let '(store, r) := file_load store in
  n ← expect r; assert_eq n 0;;
  let '(store, r) := file_persist store 41 in
  expect r;;
  n ← expect (file_load (FileSeqStore_new path (store_files store) [])).2; assert_eq n 41;;
  let '(store, r) := file_persist store 40 in
  match r with Err _ => passed | Ok _ => None end;;
  n ← expect (file_load store).2; assert_eq n 41.

Definition restart_continues_immediately_after_the_saved_sequence : test :=
  let saved := 41 in
  let plane := new_unsecured_with_seq (test_node 1) 1 saved in
  c ← expect (LinkCost_new 1);
  '(_, actions) ← cp_handle plane 0 (CeLinkUp 1 (test_node 2) c);
  a ← head actions;
  match a with CaPersistSeq seq => assert_eq seq (saved + 1) | _ => None end.

Definition runtime_tests : list test :=
  [digest_entry_relations_are_explicit; drop_report_contains_only_packet_identity;
   drop_report_is_discarded_when_the_outcome_channel_is_full;
   protobuf_control_frame_round_trips_and_preserves_canonical_bytes;
   forwarded_lsa_preserves_unknown_protobuf_fields_byte_for_byte;
   topic_ads_build_deterministic_subscriber_discovery; digest_frames_round_trip;
   malformed_domain_values_are_rejected;
   control_collection_limits_are_enforced_on_encode_and_decode;
   file_sequence_store_round_trips_monotonically;
   restart_continues_immediately_after_the_saved_sequence].
Lemma runtime_tests_pass : tests_pass runtime_tests.
Proof. run_tests. Qed.

(** ** mb-transport *)

(** The bytes that connection 0 of [from] has written and that of [to] has not
    read. *)
Definition in_transit (from to : Endpoint) : option bytes :=
  w ← ep_conns from !! 0%nat;
  r ← ep_conns to !! 0%nat;
  Some (drop (length (k_incoming r)) (k_outgoing w)).
Definition read_from (from to : Endpoint) : option Endpoint :=
  bs ← in_transit from to;
  ep_step to (EsConn 0 (CsRead (Ok bs))).
(** [endpoint.connect(..)]: what [attach_stream] returned. *)
Definition connected (e : Endpoint) : option (result LinkId TransportError) :=
  k ← ep_conns e !! 0%nat; k_attached k.
(** [events.recv().await] *)
Definition recv_event (e : Endpoint) : option (Endpoint * LinkEvent) :=
  ev ← head (ep_queue e);
  e ← ep_step e EsReceive;
  Some (e, ev).
(** Both ends write their hello and read the other's; then [attach_stream] goes
    on to the spawned [run_link] at both. *)
Definition exchange (ea eb : Endpoint) : option (Endpoint * Endpoint) :=
  ea ← ep_step ea (EsConn 0 (CsHello None));
  eb ← ep_step eb (EsConn 0 (CsHello None));
  ea' ← read_from eb ea;
  eb ← read_from ea eb;
  Some (ea', eb).
Definition spawn_link (e : Endpoint) : option Endpoint :=
  ep_run e (replicate 5 (EsConn 0 CsProceed)).
(** [endpoint.shutdown().await], the link closing by itself *)
Definition shutdown_endpoint (e : Endpoint) : test :=
  e ← ep_run e [EsShutdown; EsAbort; EsKill TkAccept; EsClear];
  assert_eq (ep_link_count e) 0.

Definition tcp_link_exchanges_incrementally_decoded_frames : test :=
  let a := test_node 1 in let b := test_node 2 in
  let ea := bind a [b] in let eb := bind b [a] in
  ea ← ep_step ea (EsConnect b);
  eb ← ep_step eb EsAccept;
  '(ea, eb) ← exchange ea eb;
  ea ← spawn_link ea;
  eb ← spawn_link eb;
  r ← connected ea;
  link_a ← expect r;
  '(ea, ev) ← recv_event ea;
  match ev with LeUp _ peer => assert_eq peer b | _ => None end;;
  '(eb, ev) ← recv_event eb;
  link_b ← match ev with LeUp link peer => assert_eq peer a;; Some link | _ => None end;
  let sent := WireFrame_control FtLsa (str "protobuf") in
  '(ea, r) ← ep_send ea link_a sent;
  expect r;;
  ea ← ep_run ea [EsConn 0 (CsCommand None); EsConn 0 CsProceed];
  eb ← read_from ea eb;
  eb ← ep_step eb (EsConn 0 CsProceed);
  '(eb, received) ← recv_event eb;
  assert_eq received (LeFrame link_b sent);;
  '(ea, completion) ← recv_event ea;
  assert_eq completion (LeSent link_a FtLsa ChControl (zlen (str "protobuf")));;
  shutdown_endpoint ea;;
  shutdown_endpoint eb.

Definition outbound_peer_identity_must_match_static_configuration : test :=
  let a := test_node 1 in let b := test_node 2 in let impostor := test_node 3 in
  let ea := bind a [b; impostor] in let eb := bind b [a] in
  ea ← ep_step ea (EsConnect impostor);
  eb ← ep_step eb EsAccept;
  '(ea, eb) ← exchange ea eb;
  r ← connected ea;
  assert_eq r (Err (PeerMismatch impostor b));;
  shutdown_endpoint ea;;
  shutdown_endpoint eb.

(** ** mblab and mblab-node *)

Definition lab_link (desired_up : bool) : LabLink spec_float :=
  {| ll_id := 7; ll_a := 1; ll_b := 2; ll_up := desired_up; ll_desired_up := desired_up; ll_cost := 10;
     ll_latency_ms := 0; ll_loss_percent := f64_zero; ll_bandwidth_kbps := 0 |}.
Definition restart_restores_only_desired_incident_links : test :=
  assert_that (should_restore_link (lab_link true) 1 true = true);;
  assert_that (should_restore_link (lab_link false) 1 true = false);;
  assert_that (should_restore_link (lab_link true) 3 true = false).

(** A proxy whose client and upstream are connected. *)
Definition running_proxy (c : ConditionsRequest) (seed : Z) : option LinkProxy :=
  proxy_run (start_link_proxy c seed) [PxAccepted true; PxConnected true].
(** The direction from the client to the upstream. *)
Definition to_upstream (p : LinkProxy) : option Direction :=
  match px_phase p with PpRunning d _ => Some d | _ => None end.
Definition stop_running (p : LinkProxy) : test :=
  p ← proxy_run p [PxDown (DiShutdown 0); PxAbort 0];
  match px_phase p with PpStopped _ => passed | _ => None end.
Definition data_frame (b : bytes) : WireFrame :=
  {| frame_type := FtLsa; channel := ChControl; frame_payload := b |}.

Definition proxy_passes_hello_but_drops_impaired_frames : test :=
  proxy ← running_proxy {| latency_ms := 0; loss_percent := f64_of_pos 100; bandwidth_kbps := 0 |} 9;
  let hello := WireFrame_control LinkHello (str "hello") in
  let data := data_frame (str "dropped") in
  h ← expect (frame_encode hello);
  d ← expect (frame_encode data);
  proxy ← proxy_run proxy [PxDown (DiRead (Ok (h ++ d))); PxDown DiWritten];
  server ← to_upstream proxy;
  '(r, buffered) ← frame_decode (dr_given server);
  received ← mjoin (expect r);
  assert_eq received hello;;
  assert_eq buffered [];;
  match dr_phase server with DpRead => passed | _ => None end;;
  stop_running proxy.

Definition proxy_shutdown_interrupts_long_link_delay : test :=
  proxy ← running_proxy {| latency_ms := 60000; loss_percent := f64_zero; bandwidth_kbps := 0 |} 10;
  encoded ← expect (frame_encode (data_frame (str "delayed")));
  proxy ← proxy_step proxy (PxDown (DiRead (Ok encoded)));
  d ← to_upstream proxy;
  match dr_phase d with DpSleep _ _ _ => passed | _ => None end;;
  stop_running proxy.

Definition numeric_node_ids_round_trip : test :=
  for_each [0; 1; 42; u_max 64] (λ value, assert_eq (numeric_id (node_id value)) value).

Definition system_tests : list test :=
  [tcp_link_exchanges_incrementally_decoded_frames;
   outbound_peer_identity_must_match_static_configuration;
   restart_restores_only_desired_incident_links; proxy_passes_hello_but_drops_impaired_frames;
   proxy_shutdown_interrupts_long_link_delay; numeric_node_ids_round_trip].
Lemma system_tests_pass : tests_pass system_tests.
Proof. run_tests. Qed.
