(* ===== verification/WitnessesMesh.v ===== *)
(** * A mesh of three nodes

    Nodes 1, 2 and 3 in a triangle whose direct link from 1 to 3 is the dearest:
    the network settles, its databases agree, and packets from 1 to 3 go by way
    of node 2. *)

From S2P Require Import Samples Forward ForwardInv ForwardProps ForwardTheorems ControlTypes Control ControlInv ControlProps ControlRouting MeshRoutes MeshNet MeshSync MeshQuiesce MeshForward.

(** ** The control planes *)

Definition tri_nodes : gmap NodeId (Z * Z) :=
  {[ node 1 := (1, 0); node 2 := (1, 0); node 3 := (1, 0) ]}.
Definition tri_links : list NetEvent :=
  [NeConnect (node 1) 10 (node 2) 20; NeConnect (node 2) 21 (node 3) 30;
   NeConnect (node 1) 11 (node 3) 31;
   NeLinkUp (node 1) 10 0 (node 2) (cost 1); NeLinkUp (node 2) 20 0 (node 1) (cost 1);
   NeLinkUp (node 2) 21 1 (node 3) (cost 1); NeLinkUp (node 3) 30 1 (node 2) (cost 1);
   NeLinkUp (node 1) 11 2 (node 3) (cost 5); NeLinkUp (node 3) 31 2 (node 1) (cost 5)].
Definition tri_up : MeshNet := default (net_start tri_nodes) (net_run (net_start tri_nodes) tri_links).

(** Deliver the first frame there is. *)
Definition next_delivery (net : MeshNet) : option NetEvent :=
  head (omap (λ '((u, l), ch), match ch_frames ch with [] => None | _ => Some (NeDeliver u l 3) end)
          (map_to_list (net_channels net))).
Fixpoint settle (fuel : nat) (net : MeshNet) : list NetEvent :=
  match fuel with
  | O => []
  | S fuel =>
      match next_delivery net with
      | None => []
      | Some e => match net_step net e with Some net => e :: settle fuel net | None => [] end
      end
  end.
Definition tri_deliveries : list NetEvent := settle 100 tri_up.
Definition tri_quiet : MeshNet := default tri_up (net_run tri_up tri_deliveries).

Lemma tri_up_run : net_run (net_start tri_nodes) tri_links = Some tri_up.
Proof.
  assert (match net_run (net_start tri_nodes) tri_links with Some _ => True | None => False end) as E
    by (vm_compute; exact I).
  unfold tri_up. by destruct (net_run _ _).
Qed.
Lemma tri_quiet_run : net_run tri_up tri_deliveries = Some tri_quiet.
Proof.
  assert (match net_run tri_up tri_deliveries with Some _ => True | None => False end) as E
    by (vm_compute; exact I).
  unfold tri_quiet. by destruct (net_run _ _).
Qed.
Lemma net_run_app net es es' net1 net2 :
  net_run net es = Some net1 → net_run net1 es' = Some net2 → net_run net (es ++ es') = Some net2.
Proof.
  revert net. induction es as [|e es IH]; intros net; cbn; [by intros [= ->]|].
  destruct (net_step net e) as [n|]; cbn; [apply IH|done].
Qed.
Lemma tri_up_reachable : net_reachable tri_up.
Proof.
  exists tri_nodes, tri_links. split; [apply (bool_decide_unpack _); vm_compute; exact I|].
  split; [vm_compute; discriminate|exact tri_up_run].
Qed.
Lemma tri_quiet_reachable : net_reachable tri_quiet.
Proof.
  exists tri_nodes, (tri_links ++ tri_deliveries).
  split; [apply (bool_decide_unpack _); vm_compute; exact I|].
  split; [vm_compute; discriminate|]. exact (net_run_app _ _ _ _ _ tri_up_run tri_quiet_run).
Qed.
Lemma unsecured_verifies l : verify (sign l) = true.
Proof. reflexivity. Qed.

(** Decidable forms of the conditions. *)
Definition unexpired_check (net : MeshNet) : Prop :=
  map_Forall (λ _ cp, map_Forall (λ _ e, is_Some (active e)) (lsdb cp)) (net_planes net).
Lemma unexpired_checked net : unexpired_check net → unexpired net.
Proof. intros Hc u cp o e Hu He. exact (Hc u cp Hu o e He). Qed.
Definition room_check (net : MeshNet) (n : Z) : Prop :=
  map_Forall (λ _ cp, my_seq cp < u_max 64 ∧ spf_generation cp + n < u_max 64) (net_planes net).

Definition joined (net : MeshNet) (u v : NodeId) : bool :=
  existsb (λ '((w, _), ch), bool_decide (w = u ∧ (ch_far ch).1 = v)) (map_to_list (net_channels net)).
Lemma joined_adjacent net u v : joined net u v = true → adjacent net u v.
Proof.
  intros ([[w l] ch] & Hin & [<- Hv]%bool_decide_eq_true)%existsb_exists.
  apply list_elem_of_In, elem_of_map_to_list in Hin. by exists l, ch.
Qed.
(** All nodes are neighbours of each other. *)
Definition all_joined (net : MeshNet) : Prop :=
  map_Forall (λ u _, map_Forall (λ v _, u = v ∨ joined net u v = true) (net_planes net)) (net_planes net).
Lemma all_joined_connected net : all_joined net → connected net.
Proof.
  intros Hc u v [cu Hu] [cv Hv]. destruct (Hc u cu Hu v cv Hv) as [->|Hj]; [reflexivity|].
  apply rtc_once. by apply joined_adjacent.
Qed.

Lemma tri_quiet_connected : connected tri_quiet.
Proof. apply all_joined_connected. apply (bool_decide_unpack _). vm_compute. exact I. Qed.
Lemma tri_quiet_quiet : quiet tri_quiet.
Proof. apply (bool_decide_unpack _). vm_compute. exact I. Qed.
Lemma tri_quiet_up : all_up tri_quiet.
Proof. apply (bool_decide_unpack _). vm_compute. exact I. Qed.
Lemma tri_quiet_unexpired : unexpired tri_quiet.
Proof. apply unexpired_checked. apply (bool_decide_unpack _). vm_compute. exact I. Qed.

Lemma quiet_network_synced_witness : mesh_synced (net_planes tri_quiet).
Proof.
  apply (quiet_network_synced unsecured_verifies tri_quiet tri_quiet_reachable tri_quiet_quiet
           tri_quiet_up tri_quiet_unexpired). exact tri_quiet_connected.
Defined.

Lemma deliveries_synchronise_witness :
  zlen tri_deliveries = 36 ∧ 36 ≤ net_potential tri_up ∧ mesh_synced (net_planes tri_quiet).
Proof.
  destruct (deliveries_synchronise unsecured_verifies tri_up tri_up_reachable) with
    (es := tri_deliveries) (net' := tri_quiet) as [Hle Hend].
  - apply (bool_decide_unpack _). vm_compute. exact I.
  - apply unexpired_checked. apply (bool_decide_unpack _). vm_compute. exact I.
  - apply all_joined_connected. apply (bool_decide_unpack _). vm_compute. exact I.
  - apply (bool_decide_unpack (room_check tri_up (net_potential tri_up))). vm_compute. exact I.
  - vm_compute. repeat constructor.
  - exact tri_quiet_run.
  - split; [vm_compute; reflexivity|]. split; [exact Hle|].
    destruct Hend as [Hen|[_ Hs]]; [|exact Hs].
    destruct (Hen 0) as (u & l & Hsome). exfalso. revert Hsome.
    pose proof tri_quiet_quiet as Hq. cbn [net_step].
    destruct (net_channels tri_quiet !! (u, l)) as [ch|] eqn:E; [|by intros []].
    cbn [mbind option_bind]. rewrite (Hq _ _ E). by intros [].
Defined.

(** ** The forwarders *)

(** The forwarder of a node that was granted credit on each of its links. *)
Definition credit_trace (cp : ControlPlane) : fw_trace :=
  btree_keys (local_adjacencies cp) ≫= λ l, [(0, FeLinkCredit l MAX_PAYLOAD_LEN); (0, FeLinkWritable l)].
Definition routes_of (cp : ControlPlane) : RouteTable :=
  {| table_version := 1; table_routes := default ∅ (shortest_paths cp) |}.
Definition mesh_node (net : MeshNet) (u : NodeId) (cp : ControlPlane) : MeshNode :=
  {| mn_control := cp;
     mn_forward := fw_after (Forwarder_new u (routes_of cp)) (credit_trace cp);
     mn_far := list_to_map (omap (λ '((w, l), ch), if decide (w = u) then Some (l, (ch_far ch).2) else None)
                 (map_to_list (net_channels net))) |}.
Definition mesh_of (net : MeshNet) : gmap NodeId MeshNode :=
  map_imap (λ u cp, Some (mesh_node net u cp)) (net_planes net).
Definition tri_mesh : gmap NodeId MeshNode := mesh_of tri_quiet.

Lemma lookup_mesh_of net u x :
  mesh_of net !! u = Some x ↔ ∃ cp, net_planes net !! u = Some cp ∧ x = mesh_node net u cp.
Proof.
  unfold mesh_of. rewrite map_lookup_imap. destruct (net_planes net !! u) as [cp|]; cbn; naive_solver.
Qed.
Lemma planes_mesh_of net : planes (mesh_of net) = net_planes net.
Proof.
  apply map_eq. intros u. unfold planes, mesh_of. rewrite lookup_fmap, map_lookup_imap.
  by destruct (net_planes net !! u).
Qed.
Lemma fw_reachable_after u t tr : trace_ok tr → zlen tr < 2 ^ 64 → fw_reachable (fw_after (Forwarder_new u t) tr).
Proof.
  intros Hok Hz. unfold fw_after. destruct (run (Forwarder_new u t) tr) as [[fw acts]|] eqn:E.
  - exists u, t, tr, acts. split_and!; [exact Hok|exact Hz|exact E].
  - exists u, t, [], []. split_and!; [constructor|done|reflexivity].
Qed.

(** The links of a mesh, checked. *)
Definition far_check (net : gmap NodeId MeshNode) (u : NodeId) (x : MeshNode) (l : LinkId)
    (a : LocalAdjacency) : bool :=
  match mn_far x !! l, net !! la_peer a with
  | Some far, Some y =>
      match local_adjacencies (mn_control y) !! far with
      | Some b => bool_decide (la_peer b = u)
      | None => false
      end
  | _, _ => false
  end.
#[export] Instance idle_dec fw l n : Decision (idle fw l n).
Proof. unfold idle. apply _. Defined.
Definition links_check (net : gmap NodeId MeshNode) (n : Z) : Prop :=
  map_Forall (λ u x,
    (fw_me (mn_forward x) = u ∧
     shortest_paths (mn_control x) = Some (table_routes (fw_routes (mn_forward x)))) ∧
    map_Forall (λ l a, idle (mn_forward x) l n ∧ far_check net u x l a = true)
      (local_adjacencies (mn_control x))) net.

Definition traces_check (net : MeshNet) : Prop :=
  map_Forall (λ _ cp, zlen (credit_trace cp) < 2 ^ 64) (net_planes net).
Lemma mesh_of_ready net n :
  mesh_synced (net_planes net) → traces_check net → links_check (mesh_of net) n →
  mesh_ready (mesh_of net) n.
Proof.
  intros Hs Hz Hc. constructor.
  - by rewrite planes_mesh_of.
  - intros u x Hx. destruct (Hc u x Hx) as [[Hme Hr] _]. split_and!; [|done..].
    apply lookup_mesh_of in Hx as (cp & Hcp & ->). cbn. apply fw_reachable_ok, fw_reachable_after.
    + unfold trace_ok, credit_trace. apply Forall_bind, Forall_true. intros l. repeat constructor; done.
    + exact (Hz u cp Hcp).
  - intros u x l a Hx Ha. destruct (Hc u x Hx) as [_ Hl]. destruct (Hl l a Ha) as [Hidle Hfar].
    split; [done|]. unfold far_check in Hfar.
    destruct (mn_far x !! l) as [far|]; [|done]. destruct (mesh_of net !! la_peer a) as [y|]; [|done].
    destruct (local_adjacencies (mn_control y) !! far) as [b|] eqn:Eb; [|done].
    apply bool_decide_eq_true in Hfar. by exists far, y, b.
Qed.
Lemma tri_synced : mesh_synced (net_planes tri_quiet).
Proof.
  destruct (net_reachable_inv unsecured_verifies tri_quiet tri_quiet_reachable) as [[h Hinv] _].
  exact (quiet_synced h tri_quiet Hinv tri_quiet_quiet tri_quiet_up tri_quiet_unexpired tri_quiet_connected).
Qed.

(** A packet from node 1 to node 3. *)
Definition tri_packet : ForwardPacket := unicast P2 3.
Definition tri_first : MeshNode := mesh_node tri_quiet (node 1) (default cp_start (net_planes tri_quiet !! node 1)).
Lemma tri_first_eq : tri_mesh !! node 1 = Some tri_first.
Proof.
  apply lookup_mesh_of. eexists. split; [|reflexivity].
  assert (match net_planes tri_quiet !! node 1 with Some _ => True | None => False end) as E
    by (vm_compute; exact I).
  destruct (net_planes tri_quiet !! node 1) as [cp|]; [reflexivity|destruct E].
Qed.
Definition edge_check (cp : ControlPlane) (u : NodeId) (e : Adjacency) : bool :=
  match cp_lsa cp u, cp_lsa cp (adj_peer e) with
  | Some l, Some l' =>
      bool_decide (e ∈ adjacencies l) && existsb (λ r, bool_decide (adj_peer r = u)) (adjacencies l')
  | _, _ => false
  end.
Lemma edge_checked cp u e : edge_check cp u e = true → mesh_edge cp u e.
Proof.
  unfold edge_check. destruct (cp_lsa cp u) as [l|] eqn:E1; [|done].
  destruct (cp_lsa cp (adj_peer e)) as [l'|] eqn:E2; [|done].
  intros [He%bool_decide_eq_true (r & Hr & Hp%bool_decide_eq_true)%existsb_exists]%andb_true_iff.
  exists l, l', r. by rewrite <-list_elem_of_In in Hr.
Qed.

Lemma unicast_crosses_mesh_witness :
  ∃ path best net',
    trip (planes tri_mesh) (node 3) (node 1) path best ∧ NoDup (node 1 :: path) ∧ best ≤ 5 ∧
    relay (size tri_mesh) 4 tri_mesh (node 1) None tri_packet =
      Some (net', outcome (node 3) (node 1) path tri_packet).
Proof.
  assert (Hpath : mesh_path (mn_control tri_first) (adj_peer (adj 3 5)) (adj_peer (adj 3 5))
                    (cost_get (adj_cost (adj 3 5))) 1)
    by (constructor; apply edge_checked; vm_compute; reflexivity).
  destruct (unicast_crosses_mesh tri_mesh 4 (node 1) tri_first tri_packet (node 3) 5 1) as (path & best & net' & Ht & Hnd & Hbest & Hrel).
  - apply mesh_of_ready; [exact tri_synced|..]; apply (bool_decide_unpack _); vm_compute; exact I.
  - exact tri_first_eq.
  - reflexivity.
  - split; [split; vm_compute; congruence|vm_compute; congruence].
  - vm_compute. discriminate.
  - exact Hpath.
  - exists path, best, net'. split; [exact Ht|]. split; [exact Hnd|]. split; [|exact Hrel].
    exact (Hbest _ _ _ Hpath).
Defined.
(** It goes by way of node 2. *)
Lemma tri_delivery :
  match relay 3 4 tri_mesh (node 1) None tri_packet with
  | Some (_, Delivered d p) => d = node 3 ∧ p = set_ttl tri_packet (ttl (header tri_packet) - 2)
  | _ => False
  end.
Proof. vm_compute. split; reflexivity. Qed.
