(* ===== verification/WitnessesTraffic.v ===== *)
(** * Traffic and publications on a mesh of three nodes

    Instances of the theorems about several packets at once, on the triangle of
    [WitnessesMesh], and a publication whose chunks replace each other. *)

From Stdlib Require Import Strings.Byte.
From S2P Require Import Samples PubSubProps PubSubTheorems Runtime Forward ForwardInv ForwardProps ForwardTheorems ControlTypes Control ControlInv ControlProps ControlRouting MeshRoutes MeshNet MeshForward MeshTraffic MeshDelivery MeshPubSub WitnessesMesh.

(** ** Driving the traffic *)

(** Let the last frame arrive that was written, or else report one. *)
Definition next_move (t : Traffic) : option Move :=
  match t_flying t with
  | [] => head (omap (λ '(u, s), (λ p, Sent u p.1) <$> head (map_to_list (st_written s)))
                  (map_to_list (t_stations t)))
  | _ => Some (Arrive (pred (length (t_flying t))))
  end.
Fixpoint drive (fuel : nat) (t : Traffic) : list (MonoTime * Move) :=
  match fuel with
  | O => []
  | S fuel =>
      match next_move t with
      | None => []
      | Some m =>
          match traffic_step 5 t m with Some t => (5, m) :: drive fuel t | None => [] end
      end
  end.
Definition full_run (net : gmap NodeId MeshNode) (ms : list Move) : list (MonoTime * Move) :=
  let ms := (λ m, (5, m)) <$> ms in
  ms ++ drive 100 (default (traffic_start net) (traffic_run (traffic_start net) ms)).
Definition result_of (net : gmap NodeId MeshNode) (ms : list (MonoTime * Move)) : Traffic :=
  default (traffic_start net) (traffic_run (traffic_start net) ms).
Lemma result_of_run net ms :
  match traffic_run (traffic_start net) ms with Some _ => True | None => False end →
  traffic_run (traffic_start net) ms = Some (result_of net ms).
Proof. unfold result_of. by destruct (traffic_run _ _). Qed.

Lemma drive_advances fuel t m : m ∈ (drive fuel t).*2 → advances m.
Proof.
  revert t. induction fuel as [|fuel IH]; intros t; [by intros []%not_elem_of_nil|]. cbn [drive].
  destruct (next_move t) as [m'|] eqn:E; [|by intros []%not_elem_of_nil].
  destruct (traffic_step 5 t m') as [t'|]; [|by intros []%not_elem_of_nil].
  rewrite fmap_cons. intros [->|Hin]%elem_of_cons; [|by apply (IH t')]. cbn. unfold next_move in E.
  destruct (t_flying t); [|by injection E as <-].
  apply head_Some_elem_of in E. apply list_elem_of_omap in E as ([u s] & _ & Hh).
  destruct (head _); [|done]. by injection Hh as <-.
Qed.
Lemma full_run_moves net ms :
  (full_run net ms).*2 = ms ++ (drive 100 (result_of net ((λ m, (5, m)) <$> ms))).*2.
Proof.
  unfold full_run, result_of. rewrite fmap_app. f_equal. rewrite <-list_fmap_compose.
  change (snd ∘ _) with (@id Move). apply list_fmap_id.
Qed.
Lemma full_run_ok net n ms :
  Forall (move_ok net n) ms → Forall (move_ok net n) (full_run net ms).*2.
Proof.
  intros Hms. rewrite full_run_moves. apply Forall_app. split; [exact Hms|].
  apply Forall_forall. intros m Hm%drive_advances. by destruct m.
Qed.

#[export] Instance at_rest_dec net : Decision (at_rest net).
Proof. unfold at_rest. apply _. Defined.

(** The nodes of the triangle are connected. *)
Lemma tri_edge u cp v c :
  edge_check cp (me cp) (adj v c) = true → u = node v → ∃ q c k, mesh_path cp u q c k.
Proof.
  intros He ->. exists (node v), (cost_get (adj_cost (adj v c))), 1.
  exact (mesh_hop cp (adj v c) (edge_checked _ _ _ He)).
Qed.

(** A multicast from node 1 and a unicast back from node 3. *)
Definition tri_multicast : ForwardPacket := multicast_packet (node 1) P2 7 8 flags_empty [x41].
Definition tri_ms : list (MonoTime * Move) :=
  full_run tri_mesh [SubmitMulticast (node 1) [node 3; node 2] tri_multicast; Submit (node 1) tri_packet].
Definition tri_traffic : Traffic := result_of tri_mesh tri_ms.

(** Decidable forms of the conditions on moves. *)
Definition deliverable_check (net : gmap NodeId MeshNode) (n : Z) (p : ForwardPacket) : Prop :=
  (packet_type (header p) = Unicast ∨
   packet_type (header p) = Multicast ∧
   (multicast_destinations p ≠ [] ∧ zlen (multicast_destinations p) ≤ MAX_MULTICAST_DESTINATIONS ∧
    NoDup (multicast_destinations p) ∧
    2 + 32 * zlen (multicast_destinations p) + zlen (payload p) ≤ MAX_FORWARD_PAYLOAD_LEN)) ∧
  ConflationKey_from_packet p = None ∧
  (0 ≤ ttl (header p) ∧ ttl (header p) ≤ 255 ∧ ForwardPacket_encoded_len p ≤ 2 ^ 50) ∧
  ForwardPacket_encoded_len p ≤ n ∧ Z.of_nat (size net) ≤ ttl (header p).
Lemma deliverable_checked net n u p :
  deliverable_check net n p →
  (∀ d, d ∈ dests p → ∃ x, net !! u = Some x ∧ (d = u ∨ ∃ q c k, mesh_path (mn_control x) d q c k)) →
  deliverable net n u p.
Proof.
  intros (Ht & Hc & (H0 & H1 & Hf) & Hn & Hs) Hway. constructor; try done.
  - intros [k Hk]. congruence.
  - split; [|exact Hf]. split; [exact H0|]. unfold u_max. lia.
Qed.
Lemma tri_way d : d ∈ [node 2; node 3] →
  ∃ x, tri_mesh !! node 1 = Some x ∧ (d = node 1 ∨ ∃ q c k, mesh_path (mn_control x) d q c k).
Proof.
  intros Hd. exists tri_first. split; [exact tri_first_eq|]. right.
  apply elem_of_cons in Hd as [E|E]; [|apply list_elem_of_singleton in E]; rewrite E.
  - apply (tri_edge _ _ 2 1); [vm_compute; reflexivity|reflexivity].
  - apply (tri_edge _ _ 3 5); [vm_compute; reflexivity|reflexivity].
Qed.
Lemma tri_ready n : n ≤ MAX_PAYLOAD_LEN → mesh_ready tri_mesh n.
Proof.
  intros Hn. assert (Hmax : mesh_ready tri_mesh MAX_PAYLOAD_LEN)
    by (apply mesh_of_ready; [exact tri_synced|..]; apply (bool_decide_unpack _); vm_compute; exact I).
  destruct Hmax as [H1 H2 H3]. constructor; [exact H1|exact H2|].
  intros u x l a Hx Ha. destruct (H3 u x l a Hx Ha) as ((Hd & Hq & Hw & Hc) & Hfar).
  split; [|exact Hfar]. repeat (split; [done|]). lia.
Qed.
Lemma tri_rest : at_rest tri_mesh.
Proof. apply (bool_decide_unpack _). vm_compute. exact I. Qed.

Lemma mesh_delivers_witness :
  under_way tri_traffic = [] ∧
  delivered tri_traffic ≡ₚ [(node 2, tag tri_multicast); (node 3, tag tri_multicast); (node 3, tag tri_packet)].
Proof.
  assert (Hempty : under_way tri_traffic = []) by (vm_compute; reflexivity). split; [exact Hempty|].
  destruct (mesh_delivers tri_mesh 4096 tri_ms tri_traffic) as (_ & Hd & _).
  - apply tri_ready. vm_compute. discriminate.
  - exact tri_rest.
  - apply full_run_ok.
    assert (H1 : move_ok tri_mesh 4096 (SubmitMulticast (node 1) [node 3; node 2] tri_multicast)).
    { split; [apply (bool_decide_unpack (_ ∧ _ ∧ _ ∧ _)); vm_compute; exact I|].
      apply deliverable_checked; [apply (bool_decide_unpack _); vm_compute; exact I|].
      intros d Hd. apply tri_way. revert Hd.
      assert (dests (subset_packet tri_multicast [node 3; node 2] (ttl (header tri_multicast)))
              = [node 2; node 3]) as -> by (vm_compute; reflexivity). done. }
    assert (H2 : move_ok tri_mesh 4096 (Submit (node 1) tri_packet)).
    { apply deliverable_checked; [apply (bool_decide_unpack _); vm_compute; exact I|].
      intros d Hd. apply tri_way. right. exact Hd. }
    constructor; [exact H1|]. constructor; [exact H2|constructor].
  - vm_compute. discriminate.
  - apply result_of_run. vm_compute. exact I.
  - rewrite Hempty in Hd. etrans; [exact Hd|].
    assert (submitted tri_ms.*2 = [(node 2, tag tri_multicast); (node 3, tag tri_multicast); (node 3, tag tri_packet)])
      as -> by (vm_compute; reflexivity). reflexivity.
Defined.

(** ** A publication of node 1 *)

Definition news_ms : list (MonoTime * Move) :=
  full_run tri_mesh (omap (publication_move (node 1)) publication.2).
Definition news_traffic : Traffic := result_of tri_mesh news_ms.
Lemma publication_handled :
  handle publisher 2 (PeLocalPublish news_topic [x42]) = Some (publication.1, publication.2).
Proof.
  assert (match handle publisher 2 (PeLocalPublish news_topic [x42]) with
          | Some _ => True | None => False end) as H by (vm_compute; exact I).
  unfold publication. change (ps_handle publisher) with (handle publisher).
  destruct (handle publisher 2 _) as [[]|]; [reflexivity|destruct H].
Qed.
Lemma filter_submissions net ms :
  Forall (λ m, ¬ advances m) ms → filter (λ m, ¬ advances m) (full_run net ms).*2 = ms.
Proof.
  intros Hms. rewrite full_run_moves, filter_app.
  assert (filter (λ m, ¬ advances m) ms = ms) as ->.
  { induction Hms as [|m ms Hm _ IH]; [done|]. rewrite filter_cons, decide_True by done. by rewrite IH. }
  destruct (filter _ (drive _ _).*2) as [|m k] eqn:E; [by rewrite app_nil_r|]. exfalso.
  assert (Hm : m ∈ m :: k) by left. rewrite <-E in Hm.
  apply list_elem_of_filter in Hm as [Hn Hm]. by apply drive_advances in Hm.
Qed.

Lemma publication_crosses_mesh_witness :
  (fate_node <$> t_fates news_traffic) ≡ₚ [node 2; node 3] ∧
  ∃ q psB' out, Delivered (node 2) q ∈ t_fates news_traffic ∧
    handle subscriber 9 (PeInbound (source (header q)) (payload q)) = Some (psB', out) ∧
    PaDeliverToApp 5 {| dm_envelope := published_envelope publisher 2 news_topic [x42];
                        is_backfill := false |} ∈ out.
Proof.
  assert (Haud : bset_iter (audience publisher news_topic) = [node 2; node 3]) by (vm_compute; reflexivity).
  destruct (publication_crosses_mesh tri_mesh (node 1) tri_first publisher 2 news_topic [x42]
    publication.1 publication.2 {| tp_priority := P1; tp_mode := Log |} news_ms news_traffic) as [Hn Hall].
  - apply tri_ready. vm_compute. discriminate.
  - exact tri_rest.
  - vm_compute. repeat constructor.
  - exact tri_first_eq.
  - vm_compute. reflexivity.
  - split; [discriminate|reflexivity].
  - vm_compute. reflexivity.
  - vm_compute. discriminate.
  - vm_compute. reflexivity.
  - vm_compute. reflexivity.
  - exact publication_handled.
  - intros r Hr. assert (match publication.2 with [PaSendMulticast _ _ _ _ _ _; PaPublished _ _] => True | _ => False end)
      as Hs by (vm_compute; exact I).
    destruct publication.2 as [|[] [|[] []]]; try destruct Hs.
    apply elem_of_cons in Hr as [Hr|Hr]; [discriminate Hr|].
    apply list_elem_of_singleton in Hr. discriminate Hr.
  - vm_compute. discriminate.
  - intros d Hd. rewrite <-elem_of_bset_iter, Haud in Hd.
    destruct (tri_way d Hd) as (x & Hx & [E|Hp]).
    + rewrite E in Hd. exfalso. revert Hd. apply (bool_decide_unpack (_ ∉ _)). vm_compute. exact I.
    + rewrite tri_first_eq in Hx. injection Hx as <-. exact Hp.
  - apply filter_submissions. apply Forall_forall. intros m Hm.
    apply list_elem_of_omap in Hm as ([] & _ & Hm); (discriminate Hm || injection Hm as <-; discriminate).
  - apply result_of_run. vm_compute. exact I.
  - vm_compute. reflexivity.
  - rewrite Haud in Hn. split; [exact Hn|].
    assert (Hin : node 2 ∈ fate_node <$> t_fates news_traffic) by (rewrite Hn; left).
    apply list_elem_of_fmap in Hin as (f & Hf & Hin). destruct (Hall f Hin) as (q & Eq & Hrecv).
    rewrite <-Hf in Eq. subst f.
    destruct (Hrecv subscriber {| tp_priority := P1; tp_mode := Log |} 9) as (psB' & out & Hh & _ & Hd).
    + vm_compute. reflexivity.
    + intros w Hw. vm_compute in Hw. discriminate Hw.
    + exists q, psB', out. split; [exact Hin|]. split; [exact Hh|]. apply Hd. exists 5, all_news.
      split_and!; vm_compute; reflexivity.
Defined.

(** ** Chunks *)

(** Node 1 publishes the latest value to nodes 2 to 67, all behind link 10,
    which is being written. *)
Definition crowd : gset NodeId := list_to_set (node <$> seqZ 2 66).
Definition latest_policies : gmap rstring TopicPolicy := {[ news := {| tp_priority := P1; tp_mode := Latest |} ]}.
Definition crowd_publisher : PubSub :=
  ps_after (PubSub_new (node 1) latest_policies) [(0, PeDiscoveryUpdated {[ all_news := crowd ]})].
Definition crowd_publication : PubSub * list PubSubAction :=
  default (crowd_publisher, []) (ps_handle crowd_publisher 2 (PeLocalPublish news_topic [x42])).
Definition crowd_routes : RouteTable :=
  {| table_version := 1;
     table_routes := list_to_map ((λ d, (d, {| next_hop := 10; route_cost := 2; hops := 2 |})) <$> elements crowd) |}.
Definition crowd_forwarder : Forwarder :=
  fw_after (Forwarder_new (node 1) crowd_routes) [(0, FeLinkCredit 10 MAX_PAYLOAD_LEN)].
Lemma crowd_handled :
  handle crowd_publisher 2 (PeLocalPublish news_topic [x42]) = Some (crowd_publication.1, crowd_publication.2).
Proof.
  assert (match handle crowd_publisher 2 (PeLocalPublish news_topic [x42]) with
          | Some _ => True | None => False end) as H by (vm_compute; exact I).
  unfold crowd_publication. change (ps_handle crowd_publisher) with (handle crowd_publisher).
  destruct (handle crowd_publisher 2 _) as [[]|]; [reflexivity|destruct H].
Qed.
Definition routed_check (s : gset NodeId) (t : RouteTable) (l : LinkId) : Prop :=
  Forall (λ d, next_hop <$> RouteTable_get t d = Some l) (elements s).

Lemma chunks_conflate_witness :
  ∃ fw' lost kept,
    run crowd_forwarder ((λ e, (2, e)) <$> omap move_event (omap (publication_move (node 1)) crowd_publication.2))
      = Some (fw', []) ∧
    lost ++ kept = bset_iter (audience crowd_publisher news_topic) ∧ lost ≠ [] ∧
    ∀ d tg, (d, tg) ∈ fw_units fw' → d ∈ kept.
Proof.
  destruct (chunks_conflate crowd_publisher 2 news_topic [x42] crowd_publication.1 crowd_publication.2
    {| tp_priority := P1; tp_mode := Latest |} crowd_forwarder 10 (link_state crowd_forwarder 10))
    as (fw' & lost & kept & Hrun & Hs & Hne & _ & Hkept & _).
  - apply fw_reachable_ok, fw_reachable_after; [|vm_compute; reflexivity].
    constructor; [split; vm_compute; (discriminate || reflexivity)|constructor].
  - vm_compute. reflexivity.
  - vm_compute. reflexivity.
  - assert (is_Some (links crowd_forwarder !! 10)) as [s E] by (apply (bool_decide_unpack _); vm_compute; exact I).
    unfold link_state. rewrite E. reflexivity.
  - vm_compute. reflexivity.
  - vm_compute. reflexivity.
  - vm_compute. reflexivity.
  - vm_compute. reflexivity.
  - exact crowd_handled.
  - intros r Hr. assert (forallb (λ a, match a with PaRejected _ => false | _ => true end) crowd_publication.2 = true)
      as Hs by (vm_compute; reflexivity).
    rewrite forallb_forall in Hs. apply list_elem_of_In, Hs in Hr. discriminate Hr.
  - vm_compute. reflexivity.
  - intros d Hd. assert (Hc : routed_check (audience crowd_publisher news_topic) (fw_routes crowd_forwarder) 10)
      by (apply (bool_decide_unpack _); vm_compute; exact I).
    unfold routed_check in Hc. rewrite Forall_forall in Hc. apply elem_of_elements, Hc, fmap_Some in Hd as (r & Hr & ->).
    exists r. split; [exact Hr|reflexivity].
  - exists fw', lost, kept. split_and!; [exact Hrun|exact Hs|exact Hne|exact Hkept].
Defined.
(** Of 66 nodes two are left. *)
Lemma crowd_kept :
  match run crowd_forwarder ((λ e, (2, e)) <$> omap move_event (omap (publication_move (node 1)) crowd_publication.2)) with
  | Some (fw', acts) => (length (fw_units fw'), acts) = (2%nat, [])
  | None => False
  end.
Proof. vm_compute. reflexivity. Qed.
