(* ===== verification/WitnessesControl.v ===== *)
(** * Instances of the control-plane and wire theorems

    Each theorem with hypotheses, applied to a state or trace of the sample
    mesh. *)

From Stdlib Require Import Strings.Byte.
From S2P Require Export Samples ControlTimers WireFrames.

(** ** Control plane *)

Lemma control_run_safe_witness :
  ∃ cp acts, run cp_start (control_trace ++ spf_trace) = Some (cp, acts) ∧ cp_ok cp.
Proof. apply (control_run_safe (node 1) 1 0 (control_trace ++ spf_trace)); vm_compute; discriminate. Defined.

Lemma lsdb_monotone_witness :
  ∃ e', lsdb cp_routed !! node 2 = Some e' ∧ ole (1, 1) (entry_version e').
Proof.
  destruct (lsdb_monotone cp_dirty spf_trace cp_routed (cp_actions cp_dirty spf_trace))
    with (o := node 2) (e := active_entry (message_of 2 1 [adj 1 5; adj 4 1]) 2)
    as (e' & He' & Hv).
  - exact cp_dirty_reachable.
  - apply run_cp_after. vm_compute. exact I.
  - vm_compute. reflexivity.
  - exists e'. split; [exact He'|]. change (entry_version (active_entry _ _)) with (1, 1) in Hv.
    destruct Hv as [Hv|[Hv _]]; [by apply olt_le|]. rewrite <-Hv. done.
Defined.

Lemma receive_lsa_floods_witness :
  let m := message_of 4 2 [adj 3 2] in
  admits cp_dirty 11 m ∧
  ∃ cp' acts, cp_handle cp_dirty 9 (CeFrame 11 (CfLsa m)) = Some (cp', acts) ∧
    lsdb cp' = <[node 4 := active_entry m 9]> (lsdb cp_dirty) ∧
    (CaSend 10 (CfLsa m) ∈ acts) ∧ (CaSend 11 (CfLsa m) ∉ acts).
Proof.
  intros m. assert (admits cp_dirty 11 m) as Ha.
  { split; [eexists; vm_compute; reflexivity|]. split; [vm_compute; reflexivity|].
    split; [vm_compute; reflexivity|]. split; [vm_compute; discriminate|].
    split; [vm_compute; reflexivity|]. right. vm_compute. reflexivity. }
  split; [exact Ha|].
  destruct (receive_lsa_floods cp_dirty 9 11 m cp_dirty_reachable) as (cp' & acts & Hh & H);
    [vm_compute; reflexivity|].
  rewrite decide_True in H by exact Ha.
  destruct H as (Hdb & _ & _ & _ & _ & _ & Hsend). exists cp', acts. split_and!; [exact Hh|exact Hdb|..].
  - apply Hsend. split; [eexists; vm_compute; reflexivity|discriminate].
  - intros [_ Hn]%Hsend. by apply Hn.
Defined.

Lemma timers_armed_witness :
  ∃ cp' acts, cp_handle cp_dirty 200 (CeTimer (CtSpfHold 1)) = Some (cp', acts) ∧
    ∀ t at_, deadline cp' t = Some at_ →
      deadline cp_dirty t = Some at_ ∧ CeTimer (CtSpfHold 1) ≠ CeTimer t ∨
      CaSetTimer t at_ ∈ acts.
Proof.
  assert (match cp_handle cp_dirty 200 (CeTimer (CtSpfHold 1)) with Some _ => True | None => False end)
    as Hr by (vm_compute; exact I).
  destruct (cp_handle cp_dirty 200 (CeTimer (CtSpfHold 1))) as [[cp' acts]|] eqn:E;
    [|destruct Hr].
  exists cp', acts. split; [reflexivity|].
  exact (proj1 (timers_armed cp_dirty 200 (CeTimer (CtSpfHold 1)) cp' acts cp_dirty_reachable E)).
Defined.

Lemma lsa_expiry_witness :
  ∃ cp' acts,
    cp_handle cp_dirty 300002 (CeTimer (CtLsaExpire (node 2) 1 1)) = Some (cp', acts) ∧
    is_Some (pending_spf cp').
Proof.
  set (a := {| message := message_of 2 1 [adj 1 5; adj 4 1]; received_at := 2;
               expires_at := 300002 |}).
  destruct (lsa_expiry cp_dirty (node 2) (active_entry (message a) 2) a) as (_ & _ & H).
  - exact cp_dirty_reachable.
  - vm_compute. reflexivity.
  - vm_compute. reflexivity.
  - destruct (H 300002) as (cp' & acts & Hh & _ & Hp);
      [vm_compute; discriminate|vm_compute; reflexivity|].
    exists cp', acts. split; [exact Hh|exact Hp].
Defined.

Lemma anti_entropy_round_witness :
  ∃ answers, receive_digest cp_other 7 (digest cp_dirty) = Some answers ∧
    ∃ x' acts, run cp_dirty (arrivals 10 50 (sent_lsas answers)) = Some (x', acts) ∧
      caught_up x' cp_other ∧ lsdb_le cp_dirty x'.
Proof.
  destruct (anti_entropy_round cp_dirty cp_other 10 7 50) as (answers & Ha & Hx & _).
  - exact cp_dirty_reachable.
  - exact cp_other_reachable.
  - vm_compute. split; discriminate.
  - vm_compute. split; discriminate.
  - eexists. vm_compute. reflexivity.
  - eexists. vm_compute. reflexivity.
  - apply Nat.leb_le. vm_compute. reflexivity.
  - exists answers. split; [exact Ha|exact Hx].
Defined.

Lemma routes_are_shortest_paths_witness :
  ∃ routes, shortest_paths cp_dirty = Some routes ∧
    routes !! node 4 = Some {| next_hop := 11; route_cost := 3; hops := 2 |} ∧
    route_ok cp_dirty (node 4) {| next_hop := 11; route_cost := 3; hops := 2 |}.
Proof.
  destruct (routes_are_shortest_paths cp_dirty cp_dirty_reachable) as (routes & Hs & _ & Hd).
  exists routes. split; [exact Hs|].
  assert (routes !! node 4 = Some {| next_hop := 11; route_cost := 3; hops := 2 |}) as Hl.
  { assert (routes = default ∅ (shortest_paths cp_dirty)) as -> by (by rewrite Hs).
    vm_compute. reflexivity. }
  split; [exact Hl|]. specialize (Hd (node 4)). rewrite Hl in Hd. apply Hd.
  vm_compute. discriminate.
Defined.

Lemma spf_timer_publishes_witness :
  ∃ p cp' acts, pending_spf cp_dirty = Some p ∧
    handle_spf_timer cp_dirty 200 (ps_generation p) = Some (cp', acts) ∧
    shortest_paths cp_dirty = Some (table_routes (cp_routes cp')) ∧ pending_spf cp' = None.
Proof.
  destruct (spf_timer_publishes cp_dirty {| ps_generation := 1; ps_at := 100 |} 200)
    as (cp' & acts & Hh & Hs & _ & Hp & _).
  - exact cp_dirty_reachable.
  - vm_compute. reflexivity.
  - vm_compute. discriminate.
  - exists {| ps_generation := 1; ps_at := 100 |}, cp', acts.
    split_and!; [vm_compute; reflexivity|exact Hh|exact Hs|exact Hp].
Defined.

(** ** Frames and packets *)

Definition sample_frame : WireFrame := WireFrame_control FtPing news.
Definition sample_frame_bytes : bytes :=
  match frame_encode sample_frame with Ok bs => bs | Err _ => [] end.

Lemma frame_decode_incremental_witness :
  frame_decode (take 9 sample_frame_bytes) = Some (Ok None, take 9 sample_frame_bytes).
Proof.
  apply (frame_decode_incremental sample_frame sample_frame_bytes _ (drop 9 sample_frame_bytes)).
  - vm_compute. reflexivity.
  - vm_compute. reflexivity.
  - vm_compute. discriminate.
Defined.

Lemma forward_packet_roundtrip_witness :
  ∃ bs, ForwardPacket_encode (multicast [3; 2]) = Ok bs ∧
    ForwardPacket_decode bs = Some (Ok (multicast [2; 3])) ∧ zlen bs ≤ MAX_PAYLOAD_LEN.
Proof.
  set (bs := match ForwardPacket_encode (multicast [3; 2]) with Ok bs => bs | Err _ => [] end).
  exists bs. assert (ForwardPacket_encode (multicast [3; 2]) = Ok bs) as He.
  { vm_compute. reflexivity. }
  destruct (forward_packet_roundtrip (multicast [3; 2]) bs) as (Hd & _ & Hl).
  - vm_compute. repeat split; discriminate.
  - exact He.
  - split_and!; [exact He| |exact Hl]. rewrite Hd. vm_compute. reflexivity.
Defined.
