(* ===== verification/WitnessesForward.v ===== *)
(** * Instances of the forwarding theorems *)

From Stdlib Require Import Strings.Byte.
From S2P Require Export Samples.

Lemma forward_trace_ok : trace_ok forward_trace.
Proof. repeat constructor; vm_compute; done. Qed.

(** One step from the busy state. *)
Definition write_event : ForwardEvent := FeLinkWritable 11.
Definition write_result : Forwarder * list ForwardAction :=
  match fw_handle fw_busy 5 write_event with Some r => r | None => (fw_busy, []) end.
Lemma write_result_eq : fw_handle fw_busy 5 write_event = Some (write_result.1, write_result.2).
Proof.
  assert (match fw_handle fw_busy 5 write_event with Some _ => True | None => False end) as H
    by (vm_compute; exact I).
  unfold write_result. destruct (fw_handle fw_busy 5 write_event) as [[]|]; [reflexivity|destruct H].
Qed.
Definition busy_link : LinkQueues := link_state fw_busy 11.
Lemma busy_link_eq : links fw_busy !! 11 = Some busy_link.
Proof. vm_compute. reflexivity. Qed.

Lemma forwarder_run_safe_witness :
  ∃ fw acts, run fw_start forward_trace = Some (fw, acts) ∧
    ∀ l s, links fw !! l = Some s → l ∉ down_links fw.
Proof.
  destruct (forwarder_run_safe (node 1) sample_routes forward_trace) as (fw & acts & Hr & Hl & _).
  - exact forward_trace_ok.
  - vm_compute. reflexivity.
  - exists fw, acts. split; [exact Hr|]. intros l s Hs. exact (proj1 (Hl l s Hs)).
Defined.

Lemma forwarder_flow_control_witness :
  let tr := forward_trace ++ [(5, write_event)] in
  ∃ fw acts, run fw_start tr = Some (fw, acts) ∧ sent_count 11 acts = 1 ∧
    ∀ l, sent_bytes l acts ≤ total_bytes l tr ∧ sent_count l acts ≤ total_writes l tr.
Proof.
  intros tr.
  set (r := match run fw_start tr with Some r => r | None => (fw_start, []) end).
  assert (run fw_start tr = Some (r.1, r.2)) as Hr.
  { assert (match run fw_start tr with Some _ => True | None => False end) as H
      by (vm_compute; exact I).
    unfold r. destruct (run fw_start tr) as [[]|]; [reflexivity|destruct H]. }
  exists r.1, r.2. split; [exact Hr|]. split; [vm_compute; reflexivity|].
  apply (forwarder_flow_control (node 1) sample_routes tr r.1 r.2).
  - repeat constructor; vm_compute; done.
  - vm_compute. reflexivity.
  - exact Hr.
Defined.

Lemma forwarder_conserves_witness :
  ∃ lost, fw_units fw_busy ++ event_units write_event ≡ₚ
    fw_units write_result.1 ++ acts_units write_result.2 ++ (lost ≫= units).
Proof.
  destruct (forwarder_conserves fw_busy 5 write_event write_result.1 write_result.2)
    as (lost & _ & H).
  - exact fw_busy_reachable.
  - exact I.
  - exact write_result_eq.
  - exists lost. exact H.
Defined.

Lemma forwarder_admission_witness :
  FaSend 11 (set_ttl (unicast P0 3) 7) ∈ write_result.2 ∧ (11 ∉ down_links write_result.1).
Proof.
  assert (FaSend 11 (set_ttl (unicast P0 3) 7) ∈ write_result.2) as Hs.
  { assert (write_result.2 = [FaSend 11 (set_ttl (unicast P0 3) 7)]) as ->
      by (vm_compute; reflexivity). by left. }
  split; [exact Hs|].
  destruct (forwarder_admission fw_busy 5 write_event write_result.1 write_result.2) as (H & _).
  - exact fw_busy_reachable.
  - exact I.
  - exact write_result_eq.
  - exact (H _ _ Hs).
Defined.

Lemma link_scheduling_witness :
  ∃ s' acts, try_send_one fw_busy 11 = Some (put_link fw_busy 11 s', acts) ∧
    (acts = [] → queues s' = queues busy_link).
Proof.
  destruct (link_scheduling fw_busy 11 busy_link) as (s' & acts & Ht & H).
  - exact fw_busy_reachable.
  - exact busy_link_eq.
  - exists s', acts. split; [exact Ht|]. intros ->.
    destruct H as [(_ & Hq & _)|(i & x & rest & Hq & _)]; [exact Hq|discriminate Hq].
Defined.

Lemma link_placement_witness :
  ∃ r, place busy_link (unicast P2 3) (Some 10) = Some r ∧
    match r with Placed s' => queued_bytes s' = (queue_bytes <$> queues s') | Refused => True end.
Proof.
  destruct (link_placement fw_busy 11 (unicast P2 3) (Some 10)) as (q & limit & r & _ & _ & Hp & H).
  - exact fw_busy_reachable.
  - vm_compute. discriminate.
  - exists r. split; [exact Hp|]. destruct r as [s'|]; [exact (proj2 H)|exact I].
Defined.

Lemma unicast_forwarding_witness :
  process_packet fw_busy (Some 10) (unicast P2 3) =
  enqueue fw_busy 11 (set_ttl (unicast P2 3) 7) (Some 10).
Proof.
  rewrite (unicast_forwarding fw_busy (Some 10) (unicast P2 3)).
  - vm_compute. reflexivity.
  - reflexivity.
  - vm_compute. split; [discriminate|reflexivity].
Defined.

Lemma multicast_forwarding_witness :
  ∃ fw' rest, process_packet fw_busy (Some 10) (multicast [1; 3; 4]) =
    Some (fw', FaDeliverLocal (delivered_copy (multicast [1; 3; 4]) (node 1)) :: rest).
Proof.
  destruct (multicast_forwarding fw_busy (Some 10) (multicast [1; 3; 4]))
    as (nowhere & back & branches & fw' & rest & H & _).
  - exact (proj1 (fw_reachable_ok _ fw_busy_reachable)).
  - reflexivity.
  - vm_compute. reflexivity.
  - split_and!; [vm_compute; discriminate|vm_compute; discriminate| |vm_compute; discriminate].
    eapply bool_decide_eq_true; vm_compute; reflexivity.
  - rewrite decide_True in H by (eapply bool_decide_eq_true; vm_compute; reflexivity).
    exists fw'. eexists. exact H.
Defined.

Lemma link_down_holds_p0_witness :
  ∃ fw' acts g, fw_handle fw_busy 6 (FeLinkDown 11) = Some (fw', acts) ∧
    pending_p0 fw' !! g = Some {| batch_expires_at := 2006; batch_packets :=
      [{| q_incoming := Some 10; q_packet := set_ttl (unicast P0 3) 7 |}] |} ∧
    FaSetTimer (PendingP0 g) 2006 ∈ acts.
Proof.
  destruct (link_down_holds_p0 fw_busy 6 11 busy_link
    [{| q_incoming := Some 10; q_packet := set_ttl (unicast P0 3) 7 |}])
    as (fw' & acts & g & Hh & _ & Hp & Ht & _).
  - exact fw_busy_reachable.
  - exact busy_link_eq.
  - vm_compute. reflexivity.
  - discriminate.
  - exists fw', acts, g. split; [exact Hh|]. split; [|exact Ht].
    rewrite Hp, lookup_insert_eq. reflexivity.
Defined.

(** The batch of the downed link, given up at its deadline. *)
Definition fw_waiting : Forwarder :=
  match fw_handle fw_busy 6 (FeLinkDown 11) with Some (fw, _) => fw | None => fw_busy end.
Definition expiry_event : ForwardEvent := FeTimer (PendingP0 0).
Definition expiry_result : Forwarder * list ForwardAction :=
  match fw_handle fw_waiting 2006 expiry_event with Some r => r | None => (fw_waiting, []) end.

Lemma p0_waits_until_deadline_witness :
  FaDrop RouteWaitExpired (set_ttl (unicast P0 3) 7) ∈ expiry_result.2 ∧
  ∃ g b, pending_p0 fw_waiting !! g = Some b ∧ batch_expires_at b ≤ 2006.
Proof.
  assert (FaDrop RouteWaitExpired (set_ttl (unicast P0 3) 7) ∈ expiry_result.2) as Hd.
  { assert (expiry_result.2 = [FaDrop RouteWaitExpired (set_ttl (unicast P0 3) 7)]) as ->
      by (vm_compute; reflexivity). by left. }
  split; [exact Hd|].
  destruct (p0_waits_until_deadline fw_waiting 2006 expiry_event expiry_result.1 expiry_result.2
    (set_ttl (unicast P0 3) 7)) as (g & b & x & Hg & Hb & _).
  - assert (match fw_handle fw_waiting 2006 expiry_event with Some _ => True | None => False end)
      as H by (vm_compute; exact I).
    unfold expiry_result. destruct (fw_handle fw_waiting 2006 expiry_event) as [[]|];
      [reflexivity|destruct H].
  - exact Hd.
  - exists g, b. split; [exact Hg|exact Hb].
Defined.
