(* ===== verification/WitnessesPubSub.v ===== *)
(** * Instances of the publish/subscribe and runtime theorems *)

From Stdlib Require Import Strings.Byte.
From S2P Require Export Samples.

Lemma run_ps_after start tr :
  match run start tr with Some _ => True | None => False end →
  run start tr = Some (ps_after start tr, acts_after start tr).
Proof. unfold ps_after, acts_after. by destruct (run start tr) as [[]|]. Qed.
Lemma subscriber_run :
  run subscriber0 subscriber_trace =
  Some (ps_after subscriber0 subscriber_trace, acts_after subscriber0 subscriber_trace).
Proof. apply run_ps_after. vm_compute. exact I. Qed.
Lemma publisher_run :
  run publisher0 publisher_trace = Some (publisher, acts_after publisher0 publisher_trace).
Proof. apply run_ps_after. vm_compute. exact I. Qed.
Lemma publication_eq :
  handle publisher 2 (PeLocalPublish news_topic [x42]) = Some (publication.1, publication.2).
Proof.
  assert (match handle publisher 2 (PeLocalPublish news_topic [x42]) with
          | Some _ => True | None => False end) as H by (vm_compute; exact I).
  unfold publication. change (ps_handle publisher) with (handle publisher).
  destruct (handle publisher 2 _) as [[]|]; [reflexivity|destruct H].
Qed.
Lemma publisher_trace_ok : Forall (λ p, not_from (node 1) p.2) publisher_trace.
Proof. repeat constructor. Qed.

Lemma pubsub_at_most_once_witness :
  omap delivery (acts_after subscriber0 subscriber_trace) = [(5, (node 1, news_topic), 2)] ∧
  NoDup (omap delivery (acts_after subscriber0 subscriber_trace)).
Proof.
  split; [vm_compute; reflexivity|].
  exact (pubsub_at_most_once (node 2) sample_policies subscriber_trace _ _ subscriber_run).
Defined.

Lemma published_sequence_contiguous_witness :
  omap (published_seq news_topic) (acts_after publisher0 publisher_trace) =
  seqZ 1 (default 0 (next_sequences publisher !! news_topic)).
Proof.
  exact (published_sequence_contiguous (node 1) sample_policies publisher_trace _ _ news_topic
           publisher_run).
Defined.

Lemma announcements_follow_subscriptions_witness :
  omap announcement (acts_after subscriber0 subscriber_trace) = [[all_news]; []] ∧
  Sorted (≠) ([] :: omap announcement (acts_after subscriber0 subscriber_trace)).
Proof.
  split; [vm_compute; reflexivity|].
  destruct (announcements_follow_subscriptions (node 2) sample_policies subscriber_trace _ _
    subscriber_run) as (_ & Hs & _). exact Hs.
Defined.

Lemma pubsub_run_safe_witness :
  ∃ ps acts, run publisher0 publisher_trace = Some (ps, acts) ∧ ∀ t, 0 ≤ next_seq ps t.
Proof.
  destruct (pubsub_run_safe (node 1) sample_policies publisher_trace publisher_trace_ok)
    as (ps & acts & Hr & H).
  exists ps, acts. split; [exact Hr|]. intros t. exact (proj1 (H t)).
Defined.

Lemma publish_outcome_witness :
  ∃ ps' acts, handle publisher 2 (PeLocalPublish news_topic [x42]) = Some (ps', acts) ∧
    publish_spec publisher 2 news_topic [x42] ps' acts.
Proof.
  destruct (publish_outcome (node 1) sample_policies publisher_trace publisher _ 2 news_topic [x42]
    publisher_trace_ok publisher_run) as (ps' & acts & Hh & Hs & _).
  exists ps', acts. split; [exact Hh|exact Hs].
Defined.

Lemma publish_reaches_subscribers_witness :
  ∃ psB' delivered,
    handle subscriber 3 (PeInbound (node 1) publication_bytes) = Some (psB', delivered) ∧
    PaDeliverToApp 5 {| dm_envelope := published_envelope publisher 2 news_topic [x42];
                        is_backfill := false |} ∈ delivered.
Proof.
  assert (∃ a b c d, publication.2 =
    [PaSendMulticast [node 2; node 3] a b c d publication_bytes; PaPublished news_topic 2])
    as (a & b & c & d & Hacts).
  { do 4 eexists. vm_compute. reflexivity. }
  destruct (publish_reaches_subscribers publisher 2 news_topic [x42] publication.1 publication.2
    [node 2; node 3] a b c d publication_bytes subscriber 3 {| tp_priority := P1; tp_mode := Log |})
    as (psB' & delivered & Hh & _ & Hd & _).
  - split; [discriminate|reflexivity].
  - reflexivity.
  - vm_compute. discriminate.
  - exact publication_eq.
  - rewrite Hacts. left.
  - vm_compute. reflexivity.
  - intros w Hw. vm_compute in Hw. discriminate Hw.
  - exists psB', delivered. split; [exact Hh|]. apply Hd. exists 5, all_news.
    split_and!; vm_compute; reflexivity.
Defined.

Lemma envelope_roundtrip_witness :
  let e := published_envelope publisher 2 news_topic [x42] in
  ∃ bs, Envelope_encode e = Ok bs ∧ Envelope_decode bs = Some (Ok e).
Proof.
  intros e. pose proof (envelope_roundtrip e) as H. destruct H as [H _].
  { split_and!; vm_compute; try reflexivity; split; (discriminate || reflexivity). }
  destruct (Envelope_encode e) as [bs|err] eqn:E.
  - exists bs. split; [reflexivity|]. exact (proj2 (proj2 H)).
  - exfalso. destruct H as [H _]. vm_compute in H. discriminate H.
Defined.

Lemma forged_source_panics_publish_witness :
  ∃ bs, Envelope_encode {| env_origin := node 1; env_topic := news_topic; env_seq := 1;
                           env_ts_ms := 0; env_payload := [] |} = Ok bs ∧
    run publisher0 [(0, PeInbound (node 1) bs); (1, PeLocalPublish news_topic [x41])] = None.
Proof.
  apply (forged_source_panics_publish (node 1) sample_policies
           {| tp_priority := P1; tp_mode := Log |} news_topic [x41] 1).
  - reflexivity.
  - vm_compute. reflexivity.
  - vm_compute. discriminate.
Defined.

(** ** Runtime codecs *)

Definition digest_frame : ControlFrame :=
  CfDigest [{| de_origin := node 2; de_epoch := 1; de_seq := 4 |}].

Lemma control_frame_roundtrip_witness :
  (∃ w, encode_control_frame digest_frame = Ok w ∧ decode_control_frame w = Ok digest_frame) ∧
  (∃ w, encode_control_frame (CfLsa (message_of 2 1 [adj 1 5])) = Ok w ∧
     decode_control_frame w = Ok (canonical_frame (CfLsa (message_of 2 1 [adj 1 5])))).
Proof.
  split.
  - pose proof (control_frame_roundtrip digest_frame) as H.
    destruct (encode_control_frame digest_frame) as [w|] eqn:E.
    + exists w. split; [reflexivity|]. apply H; [|exact I].
      repeat constructor; vm_compute; discriminate.
    + exfalso. vm_compute in E. discriminate E.
  - pose proof (control_frame_roundtrip (CfLsa (message_of 2 1 [adj 1 5]))) as H.
    destruct (encode_control_frame (CfLsa (message_of 2 1 [adj 1 5]))) as [w|] eqn:E.
    + exists w. split; [reflexivity|]. apply H.
      * split_and!; [vm_compute; split; (discriminate || reflexivity)..|].
        repeat constructor; vm_compute; (discriminate || reflexivity).
      * intros Hne. exfalso. apply Hne. reflexivity.
    + exfalso. vm_compute in E. discriminate E.
Defined.

(** The frame of an LSA as a neighbour receives it. *)
Definition lsa_frame : WireFrame :=
  match encode_control_frame (CfLsa (message_of 2 1 [adj 1 5])) with
  | Ok w => w | Err _ => WireFrame_control FtPing [] end.
Definition lsa_received : LsaMessage :=
  match decode_control_frame lsa_frame with Ok (CfLsa m) => m | _ => message_of 2 1 [] end.

Lemma lsa_relayed_verbatim_witness :
  valid_lsa (lsa lsa_received) = true ∧
  ∃ w', encode_control_frame (CfLsa lsa_received) = Ok w' ∧
    decode_control_frame w' = Ok (CfLsa lsa_received).
Proof.
  destruct (lsa_relayed_verbatim lsa_frame lsa_received) as (Hv & w' & He & Hd).
  - vm_compute. reflexivity.
  - split; [exact Hv|]. exists w'. split; [exact He|]. apply Hd. vm_compute. discriminate.
Defined.

Lemma forward_frame_roundtrip_witness :
  ∃ w, forward_frame (unicast P2 3) = Ok w ∧
    decode_forward_frame w = Some (Ok (unicast P2 3)).
Proof.
  pose proof (forward_frame_roundtrip (unicast P2 3)) as H.
  destruct (forward_frame (unicast P2 3)) as [w|] eqn:E.
  - exists w. split; [reflexivity|]. destruct H as [H _].
    + vm_compute. repeat split; (discriminate || reflexivity).
    + rewrite H. vm_compute. reflexivity.
  - exfalso. vm_compute in E. discriminate E.
Defined.

Lemma discovery_exact_witness :
  ∃ index, discovery_from_topic_ads [{| disc_node := node 2; disc_ad := sub_ad |}] = Some index ∧
    node 2 ∈ subscribers index news_topic.
Proof.
  destruct (discovery_exact [{| disc_node := node 2; disc_ad := sub_ad |}]) as (index & Hi & H).
  - repeat constructor.
  - exists index. split; [exact Hi|]. apply H. eexists. split; [left|]. split; [reflexivity|].
    split; [reflexivity|]. split; [reflexivity|]. left. reflexivity.
Defined.

Lemma subscriptions_discovered_witness :
  ∃ index, discovery_from_topic_ads
      [{| disc_node := node 2; disc_ad := ad_of_selector all_news |}] = Some index ∧
    node 2 ∈ subscribers index news_topic.
Proof.
  destruct (subscriptions_discovered (node 2) [all_news]) as (index & Hi & H).
  - repeat constructor.
  - exists index. split; [exact Hi|]. apply (H news_topic). exists all_news.
    split; [left|]. vm_compute. reflexivity.
Defined.
