(* ===== verification/WitnessesRuntime.v ===== *)
(** * The theorems on the runtime and the transport, applied

    A runtime of node 1 over a store that holds 7, driven through a short
    life; two endpoints and the bytes between them. *)

From Stdlib Require Import Strings.Byte Strings.String.
From S2P Require Export Prelude Ord Bytes Text SeqStore Types Proto Wire WireFrames Transport TransportProps TransportTheorems TransportLive WirePackets PubSub PubSubTheorems Forward ForwardTheorems RuntimeCodec RuntimeLog Runtime RuntimeProps RuntimeFrame RuntimeTheorems RuntimePersist RuntimeTimers RuntimeDiag RuntimeTables ControlTypes Spf Control ControlInv ControlTimers ControlRouting Samples.

(** ** The runtime *)

Definition life_config : RuntimeConfig :=
  {| config_node := node 1; config_epoch := 1; config_peer_costs := {[ node 2 := cost 5 ]} |}.
Definition rt_start : Runtime MemorySeqStore :=
  let cp := new_unsecured_with_seq (node 1) 1 7 in
  {| rt_node := node 1; plane := cp; forwarder := Forwarder_new (node 1) (cp_routes cp);
     pubsub := PubSub_new (node 1) sample_policies; inbox := RuntimeInbox_new;
     seq_store := with_seq 7; peer_costs := {[ node 2 := cost 5 ]}; peers := ∅;
     event_log := EventLog_empty; diagnostics_enabled := false;
     snapshot := RuntimeSnapshot_empty (node 1) (cp_routes cp); running := true; effects := [] |}.
Definition life : list Stimulus :=
  [StEnableDiagnostics;
   StIterate 0 0 (WkInput (RiLink (LeUp 10 (node 2))));
   StIterate 1 1 (WkInput (RiForward (FiOutbound (unicast P0 2))));
   StIterate 2 2 (WkInput (RiLink (LeFrame 10 (WireFrame_control FtPing []))));
   StIterate 3 3 (WkInput (RiLink (LeSent 10 FtForward PubSubP0 100)));
   StIterate 4 4 (WkInput (RiPubSub (PeLocalSubscribe 5 all_news)));
   StIterate 250 250 WkTimer].
(** The transport refuses the fourth thing it is given. *)
Definition life_accepts (n : nat) : bool := negb (Nat.eqb n 3).
Definition rt_end : Runtime MemorySeqStore :=
  match rt_run life_accepts rt_start life with Some rt => rt | None => rt_start end.

Lemma life_spawn :
  spawn_with_seq_store_and_pubsub life_config (node 1) (with_seq 7) sample_policies =
    (with_seq 7, Ok rt_start).
Proof. unfold spawn_with_seq_store_and_pubsub. rewrite decide_False by auto. reflexivity. Qed.
Lemma life_run : rt_run life_accepts rt_start life = Some rt_end.
Proof.
  assert (match rt_run life_accepts rt_start life with Some _ => True | None => False end) as H
    by (vm_compute; exact I).
  unfold rt_end. by destruct (rt_run _ _ _).
Qed.
Lemma life_ok : Forall (stim_ok (config_node life_config)) life.
Proof.
  assert (packet_ok (unicast P0 2) ∧ harmless_packet (node 1) (unicast P0 2)).
  { split; [split; vm_compute; (done || by split)|].
    apply Forall_singleton. intros H. exfalso. revert H. vm_compute. discriminate. }
  assert (∀ p, decode_forward_frame (WireFrame_control FtPing []) = Some (Ok p) →
    harmless_packet (node 1) p).
  { intros p H0. vm_compute in H0. discriminate. }
  repeat constructor; try done; vm_compute; discriminate.
Qed.

Lemma runtime_run_safe_witness : ∃ rt', rt_run life_accepts rt_start life = Some rt' ∧ rt_ok rt'.
Proof.
  apply (runtime_run_safe life_accepts life_config (node 1) (with_seq 7) (with_seq 7) sample_policies).
  - exact life_spawn.
  - exact life_ok.
  - vm_compute. discriminate.
  - vm_compute. discriminate.
Defined.

Lemma runtime_flow_control_witness :
  let ins := consumed life_accepts rt_start life in
  frame_count 10 (effects rt_end) - confirmed_frames 10 ins ≤ ups 10 ins.
Proof.
  apply (runtime_flow_control life_accepts life_config (node 1) (with_seq 7) (with_seq 7)
           sample_policies rt_start life rt_end 10).
  - exact life_spawn.
  - exact life_ok.
  - vm_compute. discriminate.
  - vm_compute. discriminate.
  - exact life_run.
Defined.

Lemma own_lsas_persisted_witness :
  durable (node 1) 7 (effects rt_end) ∧
  (∃ e, e ∈ effects rt_end ∧ own_seq (node 1) e = Some 8 ∧ at_least (seq_store rt_end) 8).
Proof.
  destruct (own_lsas_persisted life_accepts life_config (node 1) (with_seq 7) (with_seq 7)
              sample_policies rt_start life rt_end) as (Hd & Hs & _).
  - split; [done|]. vm_compute. split; (discriminate || reflexivity).
  - exact life_spawn.
  - exact life_run.
  - split; [exact Hd|].
    assert (match list_find (λ e, own_seq (node 1) e = Some 8) (effects rt_end) with
            | Some _ => True | None => False end) as H by (vm_compute; exact I).
    destruct (list_find (λ e, own_seq (node 1) e = Some 8) (effects rt_end)) as [[i e]|] eqn:E.
    + apply list_find_Some in E as (Hi & He & _). apply list_elem_of_lookup_2 in Hi.
      exists e. split; [exact Hi|]. split; [exact He|]. by apply (Hs e).
    + destruct H.
Defined.

Lemma runtime_timers_armed_witness :
  is_Some (local_adjacencies (plane rt_end) !! 10) ∧
  ∃ at_, has_timer (inbox rt_end) (RtControl (CtDigest 10)) at_.
Proof.
  destruct (runtime_timers_armed life_accepts life_config (node 1) (with_seq 7) (with_seq 7)
              sample_policies rt_start life rt_end) as (_ & Hd & _).
  - exact life_spawn.
  - exact life_run.
  - vm_compute. reflexivity.
  - assert (is_Some (local_adjacencies (plane rt_end) !! 10)) as Hs by (vm_compute; by eexists).
    split; [exact Hs|]. exact (Hd 10 Hs).
Defined.

Lemma diagnostics_transparent_witness :
  rt_run life_accepts rt_start (mute life) = Some (core rt_end) ∧ log_ok (event_log rt_end) ∧
  recent_events (event_log rt_end) ≠ [].
Proof.
  destruct (diagnostics_transparent life_accepts life_config (node 1) (with_seq 7) (with_seq 7)
              sample_policies rt_start life rt_end life_spawn life_run) as [H1 H2].
  split; [exact H1|]. split; [exact H2|]. vm_compute. discriminate.
Defined.

(** Node 2 comes up and sends its LSA, which the shortest-path timer takes into
    the tables. *)
Definition neighbour_lsa : WireFrame :=
  match encode_control_frame (CfLsa (message_of 2 1 [adj 1 5; adj 3 4])) with
  | Ok w => w
  | Err _ => WireFrame_control FtPing []
  end.
Definition routed_life : list Stimulus :=
  [StIterate 0 0 (WkInput (RiLink (LeUp 10 (node 2))));
   StIterate 1 1 (WkInput (RiLink (LeFrame 10 neighbour_lsa)));
   StIterate 250 250 WkTimer; StIterate 250 250 WkTimer].
Definition rt_routed : Runtime MemorySeqStore :=
  match rt_run life_accepts rt_start routed_life with Some rt => rt | None => rt_start end.
Lemma runtime_tables_current_witness :
  shortest_paths (plane rt_routed) = Some (table_routes (fw_routes (forwarder rt_routed))) ∧
  table_routes (fw_routes (forwarder rt_routed)) !! node 2 =
    Some {| next_hop := 10; route_cost := 5; hops := 1 |}.
Proof.
  assert (Hrun : rt_run life_accepts rt_start routed_life = Some rt_routed).
  { assert (match rt_run life_accepts rt_start routed_life with Some _ => True | None => False end)
      as H by (vm_compute; exact I).
    unfold rt_routed. by destruct (rt_run _ _ _). }
  destruct (runtime_tables_current life_accepts life_config (node 1) (with_seq 7) (with_seq 7)
              sample_policies rt_start routed_life rt_routed) as (_ & _ & Hc).
  - exact life_spawn.
  - repeat constructor.
  - exact Hrun.
  - vm_compute. reflexivity.
  - split; [apply Hc; vm_compute; reflexivity|]. vm_compute. reflexivity.
Defined.

(** ** The sequence store *)

Definition seq_path : Path := {| dir := str "state"; file_name := str "node-1.seq" |}.
(** The write of the new number fails half way. *)
Definition torn_write : IoFaults :=
  {| read_fault := None; create_dir_fault := None; open_fault := None;
     write_fault := Some (1%nat, str "disk full"); sync_fault := None; rename_fault := None |}.
Definition seq_files : gmap Path bytes := {[ seq_path := str "41" ++ [x0a] ]}.

Lemma seq_store_atomic_witness :
  (persist_file torn_write seq_path 42 seq_files).1.2 !! seq_path = Some (str "41" ++ [x0a]) ∧
  load_file no_faults seq_path (persist_file no_faults seq_path 42 seq_files).1.2 = Ok 42.
Proof.
  split.
  - destruct (persist_file torn_write seq_path 42 seq_files) as [[v fs'] r] eqn:E.
    destruct (seq_store_atomic torn_write seq_path 42 seq_files v fs' r) as (_ & _ & Hr & _).
    + vm_compute. discriminate.
    + vm_compute. split; (discriminate || reflexivity).
    + exact E.
    + assert (r ≠ Ok tt) as Hne.
      { assert ((persist_file torn_write seq_path 42 seq_files).2 ≠ Ok tt) as H
          by (vm_compute; discriminate).
        by rewrite E in H. }
      destruct r as [[]|x]; [by destruct Hne|]. cbn [fst snd]. rewrite Hr. vm_compute. reflexivity.
  - destruct (persist_file no_faults seq_path 42 seq_files) as [[v fs'] r] eqn:E.
    destruct (seq_store_atomic no_faults seq_path 42 seq_files v fs' r) as (_ & _ & Hr & Hok).
    + vm_compute. discriminate.
    + vm_compute. split; (discriminate || reflexivity).
    + exact E.
    + assert (r = Ok tt) as ->.
      { apply (Hok 41); [reflexivity|vm_compute; reflexivity|lia]. }
      destruct Hr as [Hr _]. exact Hr.
Defined.
