(* ===== verification/WitnessesTransport.v ===== *)
(** * The theorems on the transport, applied

    Nodes 1 and 2 connect, node 1 sends a frame, and node 2 reads its bytes
    in pieces; and an endpoint whose queues are full. *)

From Stdlib Require Import Strings.Byte.
From S2P Require Export Prelude Ord Bytes Types Proto Wire WireFrames Transport TransportProps TransportTheorems TransportLive Samples.

Definition ep_after (e : Endpoint) (l : list EpStep) : Endpoint :=
  match ep_run e l with Some e => e | None => e end.
Lemma ep_after_reachable local allowed l :
  match ep_run (bind local allowed) l with Some _ => True | None => False end →
  ep_reachable (ep_after (bind local allowed) l).
Proof.
  intros H. exists local, allowed, l. unfold ep_after.
  destruct (ep_run (bind local allowed) l); [reflexivity|destruct H].
Qed.
Definition conn_at (e : Endpoint) (c : nat) : Conn := default (Conn_new None) (ep_conns e !! c).

Definition hello_bytes (k : Z) : bytes := enc (hello_frame (node k)).
Definition ping : WireFrame := WireFrame_control FtPing news.

(** Node 1 opens the connection and sends [ping]. *)
Definition dialer_steps : list EpStep :=
  EsConnect (node 2) :: handshake 0 [take 3 (hello_bytes 2); drop 3 (hello_bytes 2)] ++
  [EsConn 0 CsProceed; EsEnqueue 1 (LcSend ping); EsConn 0 (CsCommand None); EsConn 0 CsProceed].
Definition dialer : Endpoint := ep_after (bind (node 1) [node 2]) dialer_steps.
(** Node 2 accepts it and reads the hello with the first bytes of [ping]. *)
Definition listener_steps : list EpStep :=
  EsAccept :: handshake 0 [hello_bytes 1 ++ take 5 (enc ping)] ++
  [EsConn 0 CsProceed; EsConn 0 (CsRead (Ok (drop 5 (enc ping)))); EsConn 0 CsProceed].
Definition listener : Endpoint := ep_after (bind (node 2) [node 1]) listener_steps.

Lemma dialer_reachable : ep_reachable dialer.
Proof. apply ep_after_reachable. vm_compute. exact I. Qed.
Lemma listener_reachable : ep_reachable listener.
Proof. apply ep_after_reachable. vm_compute. exact I. Qed.

Lemma link_protocol_witness :
  events_at dialer 1 ≠ [] ∧
  ∃ p body down, events_at dialer 1 = LeUp 1 p :: body ++ down ∧ Forall data_event body ∧
    p ∈ ep_allowed dialer.
Proof.
  assert (events_at dialer 1 ≠ []) as Hne by (vm_compute; discriminate).
  split; [exact Hne|].
  destruct (link_protocol dialer 1 dialer_reachable)
    as [Hnil|(c & k & p & body & down & _ & _ & _ & He & Hd & _ & Ha & _)]; [by destruct Hne|].
  exists p, body, down. split; [exact He|]. split; [exact Hd|exact Ha].
Defined.

Lemma link_fifo_witness :
  frames_in (events_at listener 1) = [ping] ∧
  frames_in (events_at listener 1) `prefix_of` k_written (conn_at dialer 0).
Proof.
  split; [vm_compute; reflexivity|].
  destruct (link_fifo dialer listener 0 0 (conn_at dialer 0) (conn_at listener 0) 1 (node 1))
    as (_ & Hf & _).
  - exact dialer_reachable.
  - exact listener_reachable.
  - vm_compute. reflexivity.
  - vm_compute. reflexivity.
  - exists []. vm_compute. reflexivity.
  - vm_compute. reflexivity.
  - assert (head (events listener) = Some (LeUp 1 (node 1))) as H by (vm_compute; reflexivity).
    destruct (events listener) as [|ev evs]; [discriminate H|]. injection H as ->. left.
  - exact Hf.
Defined.

Lemma links_accounted_witness : ep_link_count dialer = 1 ∧ (∀ l, l ∈ ep_links dialer ↔ holds_link dialer l).
Proof.
  destruct (links_accounted dialer dialer_reachable) as (_ & _ & _ & _ & Hl & _).
  split; [vm_compute; reflexivity|]. apply Hl. vm_compute. reflexivity.
Defined.

Definition dialing : Endpoint := ep_after (bind (node 1) [node 2]) [EsConnect (node 2)].
Lemma handshake_establishes_link_witness :
  ∃ e' k', ep_run dialing (handshake 0 ([take 3 (hello_bytes 2)] ++ [drop 3 (hello_bytes 2) ++ news])) = Some e' ∧
    ep_conns e' !! 0%nat = Some k' ∧ k_phase k' = PhReading 1 news ∧
    events e' = events dialing ++ [LeUp 1 (node 2)].
Proof.
  destruct (handshake_establishes_link dialing 0 (conn_at dialing 0) (node 2) [take 3 (hello_bytes 2)]
              (drop 3 (hello_bytes 2) ++ news) (drop 3 (hello_bytes 2)) news)
    as (e' & k' & H1 & H2 & H3 & _ & H5 & _).
  - vm_compute. reflexivity.
  - vm_compute. reflexivity.
  - vm_compute. discriminate.
  - vm_compute. discriminate.
  - vm_compute. reflexivity.
  - vm_compute. discriminate.
  - reflexivity.
  - constructor; [vm_compute; discriminate|constructor].
  - assert (bool_decide (node 2 ∈ ep_allowed dialing) = true) as H by (vm_compute; reflexivity).
    by apply bool_decide_eq_true in H.
  - vm_compute. reflexivity.
  - vm_compute. reflexivity.
  - vm_compute. reflexivity.
  - vm_compute. reflexivity.
  - exists e', k'. split; [exact H1|]. split; [exact H2|]. split; [exact H3|exact H5].
Defined.

(** ** Full queues *)

(** The peer sends 257 frames at once, and eight commands wait. *)
Definition jam_steps : list EpStep :=
  EsConnect (node 2) :: handshake 0 [hello_bytes 2 ++ stream (replicate 257 ping)] ++
  replicate 255 (EsConn 0 CsProceed) ++ replicate 8 (EsEnqueue 1 (LcSend ping)).
Definition jammed : Endpoint := ep_after (bind (node 1) [node 2]) jam_steps.
Definition jammed_buffer : bytes :=
  match k_phase (conn_at jammed 0) with PhReading _ b => b | _ => [] end.

Lemma full_queues_deadlock_witness :
  (∀ s, conn_step jammed 0 s = None) ∧ (∀ cmd, enqueue_command jammed 1 cmd = None).
Proof.
  apply (full_queues_deadlock jammed 0 1 [] jammed).
  - apply ep_after_reachable. vm_compute. exact I.
  - constructor.
    + exists (conn_at jammed 0), jammed_buffer, ping, (enc ping).
      split; [vm_compute; reflexivity|]. split; [vm_compute; reflexivity|].
      split; vm_compute; reflexivity.
    + vm_compute. reflexivity.
    + vm_compute. reflexivity.
    + exists (replicate 8 (LcSend ping)). split; vm_compute; reflexivity.
  - constructor.
  - reflexivity.
Defined.

(** ** Shutdown *)

(** A connection that is being opened while the endpoint shuts down: the
    accept task is aborted and the list of links cleared, and then the caller
    of [connect] goes on. *)
Definition late_steps : list EpStep :=
  [EsConnect (node 2); EsShutdown; EsAbort; EsKill TkAccept; EsClear] ++
  handshake 0 [hello_bytes 2] ++ [EsConn 0 CsProceed].
Definition late : Endpoint := ep_after (bind (node 1) [node 2]) late_steps.
(** After [shutdown] has returned there is a link again, its task has missed
    the signal, and nothing is left to abort. *)
Lemma shutdown_misses_late_link :
  ep_reachable late ∧ ep_shutdown late = true ∧ ep_link_count late = 1 ∧ ep_aborting late = ∅ ∧
  k_phase (conn_at late 0) = PhWaiting 1 [] ∧ conn_step late 0 CsHangup = None.
Proof.
  split; [apply ep_after_reachable; vm_compute; exact I|].
  split_and!; vm_compute; reflexivity.
Qed.
