(* ===== verification/WitnessesLab.v ===== *)
(** * Instances of the laboratory's theorems

    A laboratory of two nodes with one link between them, whose control
    planes have exchanged their LSAs. *)

From Stdlib Require Import Strings.Byte Strings.String.
From S2P Require Export Lab LabProps LabNode LabNodeProps LabMesh LabProxy LabProxyProps Requests LabManage LabManageProps LabServe LabInterleave LabStart Samples.
Open Scope Z_scope.

Definition lab_plane_up (a b : Z) : ControlPlane :=
  cp_after (with_auth_and_seq (node_id a) 1 0) [(0, CeLinkUp 10 (node_id b) (cost 5))].
Definition lab_trace (a b : Z) : list (MonoTime * ControlEvent) :=
  [(0, CeLinkUp 10 (node_id b) (cost 5));
   (1, CeFrame 10 (CfLsa {| lsa := local_lsa (lab_plane_up b a); canonical_bytes := []; signature := [] |}));
   (200, CeTimer (CtSpfHold 1))].
Definition lab_plane (a b : Z) : ControlPlane := cp_after (with_auth_and_seq (node_id a) 1 0) (lab_trace a b).
Definition lab_planes (a : Z) : ControlPlane := if a =? 1 then lab_plane 1 2 else lab_plane 2 1.

Definition lab_runtime (a b : Z) : RuntimeSnapshot :=
  {| snap_node := node_id a; snap_now := 300; snap_peers := {[10 := node_id b]};
     snap_lsas := lsas (lab_plane a b); snap_routes := cp_routes (lab_plane a b); snap_queues := ∅;
     snap_events := [{| ev_sequence := 1; ev_at := 5; ev_kind := str "LINK_UP"; ev_detail := [];
                        ev_link := Some 10 |}] |}.
Definition lab_app (a : Z) : AppState :=
  {| app_name := str "node"; app_numeric_id := a; app_mesh_addr := str "127.0.0.1:4000" |}.
Definition lab_answer (a b : Z) : NodeInfo * Z * option NodeSnapshot :=
  ({| ni_id := a; ni_name := str "node"; ni_mesh_addr := str "127.0.0.1:4000";
      ni_admin_addr := str "127.0.0.1:4001"; ni_pid := Some 7 |}, 100,
   Some (snapshot_response (lab_app a) 300 (lab_runtime a b) [])).
Definition lab_answers : list (NodeInfo * Z * option NodeSnapshot) := [lab_answer 2 1; lab_answer 1 2].
Definition lab_link : LabLink unit :=
  {| ll_id := 1; ll_a := 1; ll_b := 2; ll_up := false; ll_desired_up := true; ll_cost := 5;
     ll_latency_ms := 0; ll_loss_percent := tt; ll_bandwidth_kbps := 0 |}.
Definition lab_report : LabStateResponse unit :=
  match collect_state {[1 := lab_link]} 500 220 lab_answers with
  | Some r => r
  | None => {| lr_converged := false; lr_components := 0; lr_now_ms := 0; lr_pace_ms := 0; lr_nodes := [];
               lr_links := []; lr_events := [] |}
  end.
Lemma lab_report_eq : collect_state {[1 := lab_link]} 500 220 lab_answers = Some lab_report.
Proof.
  assert (match collect_state {[1 := lab_link]} 500 220 lab_answers with Some _ => True | None => False end)
    as Hs by (vm_compute; exact I).
  unfold lab_report. by destruct (collect_state _ _ _ _).
Qed.
Lemma lab_answers_ids : NoDup (answer_id <$> lab_answers).
Proof. apply (bool_decide_unpack _). vm_compute. exact I. Qed.
Lemma lab_live a : a ∈ live_ids (lr_nodes lab_report) ↔ a = 1 ∨ a = 2.
Proof.
  assert (live_ids (lr_nodes lab_report) = {[1; 2]}) as ->.
  { apply (bool_decide_unpack _). vm_compute. exact I. }
  set_solver.
Qed.
Lemma lab_near a x : neighbours (lr_links lab_report) (live_ids (lr_nodes lab_report)) a x ↔ a = 1 ∧ x = 2 ∨ a = 2 ∧ x = 1.
Proof.
  unfold neighbours. rewrite <-elem_of_expected_peers, lab_live.
  assert (Hp : expected_peers (lr_links lab_report) (live_ids (lr_nodes lab_report)) 1 = {[2]} ∧
               expected_peers (lr_links lab_report) (live_ids (lr_nodes lab_report)) 2 = {[1]}).
  { split; apply (bool_decide_unpack _); vm_compute; exact I. }
  destruct Hp as [H1 H2]. split.
  - intros [[-> | ->] Hx]; [rewrite H1 in Hx|rewrite H2 in Hx]; apply elem_of_singleton in Hx; auto.
  - intros [[-> ->]|[-> ->]]; [rewrite H1|rewrite H2]; rewrite elem_of_singleton; auto.
Qed.
Lemma lab_numeric a b o l :
  bool_decide (map_Forall (λ o _, node_id (numeric_id o) = o) (lsdb (lab_plane a b))) = true →
  cp_lsa (lab_plane a b) o = Some l → is_numeric o.
Proof.
  intros Hf%bool_decide_eq_true (x & (e & He & _)%bind_Some & _)%fmap_Some.
  apply is_numeric_node_id. by apply (Hf o e He).
Qed.
Lemma lab_snapshot a b :
  snapshot_of (lr_nodes lab_report) a = Some (snapshot_response (lab_app a) 300 (lab_runtime a b) []) →
  ∃ s, snapshot_of (lr_nodes lab_report) a = Some s ∧ snapshot_shows (lab_plane a b) s.
Proof.
  intros E. eexists. split; [exact E|]. exists (lab_app a), 300, (lab_runtime a b), [].
  split; [reflexivity|]. split; reflexivity.
Qed.
Lemma node_settled_intro a b :
  lab_planes a = lab_plane a b → is_uint 64 a →
  match run (with_auth_and_seq (node_id a) 1 0) (lab_trace a b) with Some _ => True | None => False end →
  me (lab_plane a b) = node_id a →
  bool_decide (map_Forall (λ o _, node_id (numeric_id o) = o) (lsdb (lab_plane a b))) = true →
  snapshot_of (lr_nodes lab_report) a = Some (snapshot_response (lab_app a) 300 (lab_runtime a b) []) →
  adj_peer <$> adjacencies (local_lsa (lab_plane a b)) = [node_id b] →
  (∀ x, neighbours (lr_links lab_report) (live_ids (lr_nodes lab_report)) a x ↔ x = b) →
  shortest_paths (lab_plane a b) = Some (table_routes (cp_routes (lab_plane a b))) →
  node_settled lab_report a (lab_planes a).
Proof.
  intros -> Ha Hrun Hme Hn Hs Hadj Hnear Hsp. constructor.
  - exact Ha.
  - exact Hme.
  - apply reachable_run; [eauto|exact Hrun].
  - exact (lab_snapshot a b Hs).
  - intros o l. by apply lab_numeric.
  - intros n. rewrite Hadj, list_elem_of_singleton. setoid_rewrite Hnear.
    split; [intros ->; by exists b|by intros (x & -> & ->)].
  - exact Hsp.
Qed.
Lemma lab_node_settled a : a ∈ live_ids (lr_nodes lab_report) → node_settled lab_report a (lab_planes a).
Proof.
  intros [-> | ->]%lab_live; [apply (node_settled_intro 1 2)|apply (node_settled_intro 2 1)].
  - reflexivity.
  - by vm_compute.
  - vm_compute. exact I.
  - vm_compute. reflexivity.
  - vm_compute. reflexivity.
  - vm_compute. reflexivity.
  - vm_compute. reflexivity.
  - intros x. rewrite lab_near. lia.
  - apply (bool_decide_unpack _). vm_compute. exact I.
  - reflexivity.
  - by vm_compute.
  - vm_compute. exact I.
  - vm_compute. reflexivity.
  - vm_compute. reflexivity.
  - vm_compute. reflexivity.
  - vm_compute. reflexivity.
  - intros x. rewrite lab_near. lia.
  - apply (bool_decide_unpack _). vm_compute. exact I.
Qed.
Lemma lab_synced a b :
  a ∈ live_ids (lr_nodes lab_report) →
  reaches (lr_links lab_report) (live_ids (lr_nodes lab_report)) a b →
  cp_lsa (lab_planes a) (node_id b) = Some (local_lsa (lab_planes b)).
Proof.
  intros Ha Hb. apply (reaches_live _ _ _ _ Ha) in Hb.
  apply lab_live in Ha as [-> | ->]; apply lab_live in Hb as [-> | ->]; vm_compute; reflexivity.
Qed.

Lemma settled_mesh_converges_witness : lr_converged lab_report = true.
Proof.
  apply (settled_mesh_converges {[1 := lab_link]} 500 220 lab_answers lab_planes lab_report).
  - exact lab_answers_ids.
  - exact lab_report_eq.
  - exists 1. apply lab_live. by left.
  - exact lab_node_settled.
  - exact lab_synced.
Defined.

Lemma lab_convergence_witness :
  ∃ r cs, collect_state {[1 := lab_link]} 500 220 lab_answers = Some r ∧ reports r cs.
Proof.
  destruct (lab_convergence {[1 := lab_link]} 500 220 lab_answers lab_answers_ids) as (r & cs & E & Hr & _).
  exists r, cs. split; [exact E|exact Hr].
Defined.

Lemma lab_events_recent_witness :
  ∃ omitted, lr_events lab_report ++ omitted ≡ₚ lab_answers ≫= answer_events ∧
    (omitted ≠ [] → length (lr_events lab_report) = 100%nat).
Proof.
  destruct (lab_events_recent {[1 := lab_link]} 500 220 lab_answers lab_report lab_report_eq)
    as (_ & _ & omitted & Hp & Hf & _). exists omitted. split; [exact Hp|exact Hf].
Defined.

(** ** The proxy

    An LSA over a link that loses nothing; then the link is made to lose
    everything, and a hello and an LSA come. *)

Definition lossy : ConditionsRequest :=
  {| latency_ms := 20; loss_percent := f64_of_pos 100; bandwidth_kbps := 64 |}.
Definition lossless : ConditionsRequest :=
  {| latency_ms := 0; loss_percent := f64_zero; bandwidth_kbps := 0 |}.
Definition hello_bytes : bytes := frame_bytes {| frame_type := LinkHello; channel := ChControl; frame_payload := news |}.
Definition lsa_bytes : bytes := frame_bytes {| frame_type := FtLsa; channel := ChControl; frame_payload := news |}.
Definition proxy_inputs : list DirectionInput :=
  [DiRead (Ok lsa_bytes); DiWritten; DiConditions lossy; DiRead (Ok (hello_bytes ++ lsa_bytes)); DiWritten; DiSlept].
Definition proxy_start : Direction :=
  default {| dr_seed := 0; dr_conditions := lossless; dr_buffered := []; dr_sequence := 0; dr_phase := DpRead;
             dr_taken := []; dr_given := []; dr_fates := [] |} (forward_frames lossless 18).
Definition proxy_end : Direction := default proxy_start (direction_run proxy_start proxy_inputs).
Lemma proxy_copies_frames_witness :
  dr_phase proxy_end = DpRead ∧ dr_given proxy_end = lsa_bytes ++ hello_bytes ∧
  (dr_fates proxy_end).*2 = [true; true; false] ∧
  dr_taken proxy_end = lsa_bytes ++ hello_bytes ++ lsa_bytes ∧
  ∃ before i after, proxy_inputs = before ++ i :: after ∧
    false = negb (mix64 (Z.lxor 18 3) mod 1000000 <? Z.min (loss_per_million (in_force lossless before)) 1000000).
Proof.
  destruct (proxy_copies_frames lossless 18 proxy_start proxy_inputs proxy_end) as (_ & _ & _ & Hread & Hf & _).
  - vm_compute. reflexivity.
  - vm_compute. reflexivity.
  - assert (dr_phase proxy_end = DpRead) as Hp by (vm_compute; reflexivity).
    destruct (Hread Hp) as [Hg Ht]. rewrite Hg, Ht. split; [exact Hp|].
    split; [vm_compute; reflexivity|]. split; [vm_compute; reflexivity|]. split; [vm_compute; reflexivity|].
    destruct (Hf 2%nat {| frame_type := FtLsa; channel := ChControl; frame_payload := news |} false)
      as (before & i & after & d1 & d2 & E & _ & _ & _ & Hv); [vm_compute; reflexivity|].
    exists before, i, after. split; [exact E|exact Hv].
Defined.

(** ** Management

    Two nodes that are started without trouble, and a link between them. *)

Definition trouble_free (A : Type) (q : Query A) : A :=
  match q in Query A return A with
  | QPort => Ok 4000
  | QSpawn _ _ _ _ => Ok (Some 7)
  | QClock => 0
  | QSleep _ => ()
  | QKill _ => Ok ()
  | QBind => Ok (str "127.0.0.1:5000")
  | QJoin => ()
  | QHealth _ => true
  | QPost _ _ => Ok (NO_CONTENT, [])
  | QSnapshots l => []
  end.
Lemma trouble_free_good A (q : Query A) : good A q (trouble_free A q).
Proof. destruct q; try exact I. apply submseteq_nil_l. Qed.
Definition two_nodes : Lab := (run_with trouble_free (spawn_all (initial_names 2)) (Lab_new 0)).2.
Definition started : Lab := (run_with trouble_free (startup (λ x, Ok x) 2) (Lab_new 0)).2.
Lemma started_served : served (λ x, Ok x) started.
Proof.
  apply (served_start _ 2 0); [by vm_compute|].
  assert ((run_with trouble_free (startup (λ x, Ok x) 2) (Lab_new 0)).1 = Some (Ok ())) as <- by (vm_compute; reflexivity).
  apply run_with_runs. exact trouble_free_good.
Qed.

Lemma lab_requests_consistent_witness :
  ∃ x s', runs good (dispatch (λ x, Ok x) (SetPace 50)) started (Some x) s' ∧ lab_ok s'.
Proof.
  destruct (lab_requests_consistent (λ x, Ok x) started started_served) as [_ H].
  destruct (H (SetPace 50)) as [(r & s' & Hr) Hall]; [split; vm_compute; reflexivity|].
  destruct (Hall r s' Hr) as (x & -> & Hok & _). exists x, s'. split; [exact Hr|exact Hok].
Defined.

(** A request that fetches the state while another toggles the link. *)
Definition interleaved : Lab * list (Request * api Response) :=
  default (started, [])
    (schedule_with trouble_free [0; 1; 1; 0; 1; 0; 0; 1; 0; 1]%nat
       (started, (λ q, (q, dispatch (λ x, Ok x) q)) <$> [GetState; ToggleLink 1])).
Definition state_answer : result Response (StatusCode * bytes) :=
  match interleaved.2 !! 0%nat with Some (_, Return r) => r | _ => Err (NOT_FOUND, []) end.
Lemma interleaved_steps : rtc (pool_step good (dispatch (λ x, Ok x))) (started, []) (interleaved.1, interleaved.2).
Proof.
  etrans; [apply (pool_started good (dispatch (λ x, Ok x)) started [] [GetState; ToggleLink 1])|].
  apply (schedule_with_steps good _ trouble_free [0; 1; 1; 0; 1; 0; 0; 1; 0; 1]%nat); [exact trouble_free_good|].
  unfold interleaved. rewrite app_nil_l.
  match goal with |- ?x = _ => assert (match x with Some _ => True | None => False end) as Hs by (vm_compute; exact I) end.
  destruct (schedule_with _ _ _) as [[s ts]|]; [reflexivity|destruct Hs].
Qed.
Lemma lab_interleaving_safe_witness : lab_inv interleaved.1 ∧ is_report state_answer.
Proof.
  destruct (lab_interleaving_safe (λ x, Ok x) started interleaved.1 interleaved.2 started_served interleaved_steps)
    as (Hi & _ & Hst).
  split; [exact Hi|]. apply Hst. apply (list_elem_of_lookup_2 _ 0).
  assert (match interleaved.2 !! 0%nat with Some (GetState, Return _) => True | _ => False end) as Hm
    by (vm_compute; exact I).
  unfold state_answer. destruct (interleaved.2 !! 0%nat) as [[[] []]|]; try destruct Hm. reflexivity.
Defined.

(** Two requests for the same link pass the check before either has inserted
    it: two nodes get two links. *)
Definition race : option (Lab * list (Request * api Response)) :=
  schedule_with trouble_free ([0; 1]%nat ++ replicate 16 0%nat ++ replicate 16 1%nat)
    (two_nodes, (λ q, (q, dispatch (λ x, Ok x) q)) <$> [AddLink 1 2 10; AddLink 2 1 10]).
Lemma concurrent_links_duplicate :
  match race with
  | Some (s, [(_, Return (Ok _)); (_, Return (Ok _))]) =>
      ∃ l m, lab_links s !! 1 = Some l ∧ lab_links s !! 2 = Some m ∧ joins_pair (ll_a l) (ll_b l) m = true
  | _ => False
  end.
Proof. vm_compute. do 2 eexists. split_and!; reflexivity. Qed.
(** A node is removed while a link to it is being added: the handler that adds
    the link panics. *)
Definition removal : option (Lab * list (Request * api Response)) :=
  schedule_with trouble_free (replicate 8 0%nat ++ replicate 5 1%nat ++ replicate 9 0%nat)
    (two_nodes, (λ q, (q, dispatch (λ x, Ok x) q)) <$> [AddLink 1 2 10; RemoveNode 2]).
Lemma concurrent_removal_panics :
  match removal with
  | Some (s, [(_, Panic); (_, Return (Ok _))]) => lab_links s = ∅ ∧ is_Some (lab_proxies s !! 1)
  | _ => False
  end.
Proof. vm_compute. split; [reflexivity|by eexists]. Qed.

(** ** A spawned node *)

Definition drone_path : Path := {| dir := str "/tmp/mblab"; file_name := str "node-1.seq" |}.
Definition drone_files : gmap Path bytes := {[ drone_path := str "41" ]}.
Definition drone_store : FileSeqStore := FileSeqStore_new drone_path drone_files [].
Lemma spawned_node_starts_witness :
  ∃ p, node_main (λ m, Ok (localhost m)) (λ m, Ok (localhost m)) (λ _, drone_store)
         (spawn_args (str "mblab-node") (str "/tmp/mblab") 1 (str "drone-17") 4000 4001) = Ok p ∧
    hr_name (health (np_app p)) = str "drone-17" ∧ my_seq (plane (np_runtime p)) = 41.
Proof.
  destruct (spawned_node_starts (λ m, Ok (localhost m)) (λ m, Ok (localhost m)) (λ _, drone_store)
    (str "mblab-node") (str "/tmp/mblab") 1 (str "drone-17") 4000 4001 drone_store 41)
    as (p & Hp & Hh & _ & _ & _ & _ & _ & _ & _ & Hplane & _).
  - apply (bool_decide_unpack _). vm_compute. exact I.
  - apply (bool_decide_unpack (str "drone-17" ∉ [str "--mesh-port"; str "--admin-port"; str "--seq-path"])).
    vm_compute. exact I.
  - split; vm_compute; congruence.
  - split; vm_compute; congruence.
  - split; vm_compute; congruence.
  - reflexivity.
  - reflexivity.
  - reflexivity.
  - vm_compute. discriminate.
  - exists p. split; [exact Hp|]. split; [by rewrite Hh|]. rewrite Hplane. reflexivity.
Defined.
